(* ===== verification/_CoqProject ===== *)
-Q . S2P
Prelude.v
Shared.v
BpfMaps.v
Enforcer.v
EnforcerSpec.v
EnforcerProps.v
CLib.v
Elf.v
LoaderElf.v
LoaderElfProps.v
CallGraph.v
CallGraphProps.v
ProcMaps.v
ProcMapsProps.v
LoaderPolicy.v
MapUpdates.v
LoaderPolicyProps.v
LoaderModules.v
LoaderVmas.v
LoaderCfi.v
LoaderEnforce.v
LoaderMain.v
LoaderMainProps.v
LifeCycle.v
LifeCycleProps.v
System.v
SystemProps.v
Pass.v
PassProps.v
RegexProps.v
Dump.v
DumpProps.v
Json.v
DumpJson.v
