(* ===== verification/Prelude.v ===== *)
(** * Sentinel-CC

    Sentinel-CC restricts a program to the system calls its code contains.
    An LLVM pass (src/compiler/SentinelPass.cpp) records the syscall sites of
    every translation unit in a section of the binary.  A loader
    (src/runtime/loader.c) starts the binary stopped, reads the recorded
    policy and the code of the libraries it maps, and fills BPF maps.  eBPF
    programs (src/kernel/sentinel.bpf.c) run at every hooked system call of
    the process, look the calling instruction up in the maps and signal the
    process when the call is not allowed.  An inspector
    (src/runtime/sentinel_dump.c) prints the recorded section.  The structures
    they exchange are in src/common/sentinel_shared.h.

    ** Files

    - [Prelude]: machine integers with their wrap-around, bytes in memory, bit
      strings, the [res] monad in which a memory fault is a value, tactics and
      the hint database [sentinel].
    - [Shared]: sentinel_shared.h: constants, structures, and the C layout
      rule: a [struct] is a list of named members, [load_field] reads a
      member of one in a buffer and [struct_image] lays one out.  The pass,
      the loader and the inspector each have their own structures.
    - [BpfMaps]: the kernel's hash, LPM-trie and array-of-maps types as an
      interface: operations [BpfOps], documented behaviour [BpfLaws], and an
      instance [ref_ops] that satisfies it.  The theorems about the enforcer
      and the loader hold for every instance.
    - [Enforcer]: sentinel.bpf.c: the maps as a record [bpf_maps],
      [sentinel_check], every hook, and the effects (ring buffer, signals,
      trace) a hook adds.  [EnforcerSpec]: the abstract policy [policy_view],
      when it permits a call ([permits]) and why it denies one ([denied]),
      and the lemmas that [sentinel_check] implements it.  [EnforcerProps]:
      the theorems.
    - [CLib]: the C text functions the loader and the inspector use (strstr,
      strchr, fgets, sscanf, printf conversions), with the round trip of
      hexadecimal numbers.  [Elf]: what libelf answers about a file, as the
      parameter [elf_env].
    - [LoaderElf], [LoaderElfProps]: the loader's readers of ELF files
      (parse_sentinel_section, resolve_libc_syscall_sites,
      scan_elf_text_for_syscalls, parse_sentinel_cfi).
    - [CallGraph], [CallGraphProps]: the libc call graph
      (build_libc_symtab, find_sym_at_addr, get_bytes_at,
      trace_libc_callgraph).
    - [ProcMaps], [ProcMapsProps]: /proc/PID/maps and the module trie
      (find_libc_path, get_libc_base, populate_vma_for_module).
    - [LoaderPolicy]: steps 7 to 12 of the loader's main as functions on
      [bpf_maps] ([wait_for_libc], [load_vmas], [load_entries], [load_libc],
      [load_libraries], [load_cfi], [track_child], composed in
      [load_policy], the call-graph branch that [if (0)] switches off
      included) and the reload on SIGHUP ([hot_reload]).  Its theorems are
      spread over: [MapUpdates], folds of updates on a map of limited size;
      [LoaderPolicyProps], the rules of libc's map and the wait;
      [LoaderModules], what registering each module keeps and adds;
      [LoaderVmas], which blocks the trie holds after a load; [LoaderCfi],
      the CFI rules and their capacity; [LoaderEnforce], loading followed by
      checking, for every kind of module, and the reload.
    - [LoaderMain], [LoaderMainProps]: command line, usage text, the constants
      set in the enforcer, the child's environment, audit output.
    - [LifeCycle], [LifeCycleProps]: main's control flow from opening the
      binary to the last return, as a step relation with signals as
      interleaved steps.
    - [System], [SystemProps]: the life cycle composed with the maps and the
      enforcer: main's steps run the loader's functions, and every task of
      the machine enters system calls in between.
    - [Pass], [PassProps]: the LLVM pass on a data type of IR: wrappers,
      constraint scan, byte patterns, the loop that splits a block at every
      site, the policy table, and its image after linking.  What the pass
      asks of LLVM (ParseConstraints, getParent, splitBasicBlock) is the
      interface [LlvmOps], with the documented behaviour in [LlvmLaws]; an
      instance that satisfies it serves the witnesses.  [RegexProps]: the
      matcher of the byte patterns against their languages, and those
      against the spellings of the opcode.
    - [Dump], [DumpProps]: the inspector, and the theorems that connect the
      pass's format with its two readers.  [Json]: a reader of JSON (RFC
      8259), the specification of the format; [DumpJson]: the inspector's
      JSON output under that reader.

    ** What the theorems show

    Enforcement: for a monitored task the check sends a signal exactly when
    the policy does not permit the call, reports each denial with its reason,
    is silent on the fast path, does not depend on room in the ring buffer,
    and leaves other tasks alone.

    Loading: the policy parser inverts the section image and never reads
    outside it; scans return exactly the syscall opcodes; the call-graph
    traversal terminates and visits exactly the functions reachable from the
    seeds; registering a module covers the blocks it reports, all of its
    mappings when the trie has room, and the first 512 blocks otherwise; the
    libc policy is characterised key by key; module ids and CFI rules stay
    within the maps' sizes.  Loading followed by enforcement allows exactly the recorded sites
    of the main binary with their numbers and callers, the sites of libc with
    theirs, and the syscall instructions the scans of ld.so and of each
    library find; the call graph plays no part in it.  Code in no registered
    block is denied; a reload keeps and adds rules.

    The whole system: over its life cycle the loader keeps the programs
    attached and the child tracked while the released child is waited for,
    leaves nothing attached, and ends when the child does.  In every run, a
    call of the child from its main binary that passes was permitted by a
    policy the loader had read; calls from elsewhere are decided as they were
    right after the load; no other process is affected, and nothing is
    enforced before the load ends or after the loader exits.

    Compiling and inspecting: the pass records exactly the syscall sites,
    each by a block that starts with it, and flags exactly the texts that
    contain one of four spellings of the opcode; the inspector prints exactly what the pass recorded for
    any number of units, its JSON output has exactly that reading, and it
    terminates on every input; numbers survive encoding and decoding; what
    the pass lays out as its structures is read back, field by field, through
    those of the loader, the inspector and the shared header.  The command
    line selects exactly what its options say, and the
    child's environment lacks the dynamic linker's three variables.

    Behaviour that differs from the intent is stated as a theorem about the
    code as it is: the call-graph filter the documentation describes is
    switched off, so that every libc or library site a scan finds is admitted;
    the loader looks for another section than the pass emits,
    libc's base can be taken from another library, a module can take over a
    shared block, blocks beyond the trie's 512 are dropped, an enclosing symbol can be missed, a section without
    contents faults, trailing bytes or a missing header break the JSON, byte
    patterns have gaps, listed options are not parsed, CFI entries beyond the
    first 1024 are dropped, a CFI rule applies to every module at its offset,
    a reload does not revoke, forks are not enforced, a SIGHUP can end
    enforcement, and an audited loader can poll for ever.

    ** Bounds and fuel

    Loops whose length is not structural take fuel: the binary search and the
    traversal (the queue holds at most 4096 symbols, each dequeued once), the
    block loop ([block_fuel], one step per block; enough whenever the counter
    does not wrap, which [block_loop_diverges] shows to be the exact
    obstacle), the wait for libc ([wait_fuel], the step limit plus two) and
    the inspector's unit loop ([unit_fuel], a header is nine bytes).  The JSON
    reader takes fuel too; a text has a reading when some fuel gives one, and
    more fuel never changes it.  Theorems
    that a function returns are proved with these bounds.  Integers keep their
    width: unsigned arithmetic wraps at 2^32 or 2^64, casts to int truncate.

    ** Not modelled

    Messages the loader prints about its progress carry no state and are left
    out (audit lines, warnings about the environment, the usage text and the
    inspector's output are modelled).  Descriptor numbers are identities of
    maps.  What kernel calls answer is a choice of a step or a parameter:
    libelf is [elf_env], /proc/PID/maps a text, libbpf and the kernel's maps
    [BpfOps], LLVM [LlvmOps].  When the loader exits, the kernel detaches and
    restarts a child it still traces, as ptrace(2) documents.  In a run of the system the
    policy set-up is one step, as the child is stopped during it; the ring
    buffer's consumer does not take part in it.  The plugin registration of
    the pass, the include and preprocessor lines of the headers, and the
    tests and benchmarks of the repository are not modelled. *)
From stdpp Require Export base list gmap strings sorting.
From Stdlib Require Export ZArith Lia.

#[global] Open Scope Z_scope.

(** ** Machine integers

    A w-bit unsigned integer is a [Z]; the wrap-around of C arithmetic is
    written out at each operation of the source. *)

Definition u8 (x : Z) : Z := x mod 2 ^ 8.
Definition u32 (x : Z) : Z := x mod 2 ^ 32.
Definition u64 (x : Z) : Z := x mod 2 ^ 64.

(** Two's complement reading of the low [w] bits of [x]. *)
Definition signed (w x : Z) : Z :=
  let y := x mod 2 ^ w in if y <? 2 ^ (w - 1) then y else y - 2 ^ w.
Definition i32 (x : Z) : Z := signed 32 x.
Definition i64 (x : Z) : Z := signed 64 x.

Definition is_u8 (x : Z) : Prop := 0 <= x < 2 ^ 8.
Definition is_u32 (x : Z) : Prop := 0 <= x < 2 ^ 32.
Definition is_u64 (x : Z) : Prop := 0 <= x < 2 ^ 64.
Definition is_i64 (x : Z) : Prop := - 2 ^ 63 <= x < 2 ^ 63.

Create HintDb sentinel.
Create Rewrite HintDb sentinel.

Lemma u32_range x : is_u32 (u32 x).
Proof. unfold is_u32, u32. apply Z.mod_pos_bound. lia. Qed.

Lemma u64_range x : is_u64 (u64 x).
Proof. unfold is_u64, u64. apply Z.mod_pos_bound. lia. Qed.

Lemma u32_id x : is_u32 x -> u32 x = x.
Proof. apply Z.mod_small. Qed.

Lemma u64_id x : is_u64 x -> u64 x = x.
Proof. apply Z.mod_small. Qed.

Lemma u64_idemp x : u64 (u64 x) = u64 x.
Proof. apply u64_id, u64_range. Qed.

Lemma i64_id x : is_i64 x -> i64 (u64 x) = x.
Proof.
  unfold is_i64, i64, signed, u64. intros H.
  rewrite Z.mod_mod by lia. change (64 - 1) with 63.
  destruct (decide (0 <= x)).
  - rewrite Z.mod_small by lia. destruct (Z.ltb_spec x (2 ^ 63)); lia.
  - rewrite <- (Z_mod_plus_full x 1), Z.mod_small by lia.
    destruct (Z.ltb_spec (x + 1 * 2 ^ 64) (2 ^ 63)); lia.
Qed.

Lemma u64_add_sub x b : is_u64 x -> u64 (b + u64 (x - b)) = x.
Proof.
  intros H. unfold u64. rewrite Zplus_mod_idemp_r.
  replace (b + (x - b)) with x by lia. by apply Z.mod_small.
Qed.

Lemma u64_sub_add x b : is_u64 x -> u64 (u64 (b + x) - b) = x.
Proof.
  intros H. unfold u64. rewrite Zminus_mod_idemp_l.
  replace (b + x - b) with x by lia. by apply Z.mod_small.
Qed.

Lemma u64_sub_exact x b : is_u64 x -> is_u64 b -> b <= x -> u64 (x - b) = x - b.
Proof. unfold is_u64. intros. apply Z.mod_small. lia. Qed.

#[export] Hint Resolve u32_range u64_range : sentinel.
#[export] Hint Rewrite u64_idemp : sentinel.

(** ** Bytes in memory

    A byte is a [Z] in [0, 256); [le_bytes n z] is the memory image of an
    [n]-byte integer on the little-endian targets the program runs on. *)

Fixpoint le_bytes (n : nat) (z : Z) : list Z :=
  match n with
  | O => []
  | S n => z mod 256 :: le_bytes n (z / 256)
  end.

Fixpoint le_Z (l : list Z) : Z :=
  match l with
  | [] => 0
  | b :: l => b + 256 * le_Z l
  end.

(** [__builtin_bswap64]. *)
Definition bswap64 (x : Z) : Z := le_Z (reverse (le_bytes 8 x)).

Definition bytes_ok (l : list Z) : Prop := Forall is_u8 l.

Lemma length_le_bytes n z : length (le_bytes n z) = n.
Proof. revert z. induction n; simpl; auto. Qed.

Lemma le_bytes_ok n z : bytes_ok (le_bytes n z).
Proof.
  revert z. induction n; intros z; constructor; [|apply IHn].
  apply Z.mod_pos_bound. lia.
Qed.

Lemma le_Z_le_bytes n z : le_Z (le_bytes n z) = z mod 2 ^ (8 * Z.of_nat n).
Proof.
  revert z. induction n as [|n IH]; intros z; cbn [le_bytes le_Z].
  - by rewrite Z.mod_1_r.
  - rewrite IH. replace (8 * Z.of_nat (S n)) with (8 + 8 * Z.of_nat n) by lia.
    rewrite Z.pow_add_r by lia. change (2 ^ 8) with 256.
    rewrite Z.rem_mul_r by lia. lia.
Qed.

Lemma le_bytes_le_Z l : bytes_ok l -> le_bytes (length l) (le_Z l) = l.
Proof.
  induction 1 as [|b l Hb Hl IH]; cbn [le_bytes le_Z length]; [done|].
  unfold is_u8 in Hb.
  rewrite Z.mul_comm, Z_mod_plus_full, Z.mod_small by lia.
  by rewrite Z_div_plus_full, Z.div_small, Z.add_0_l, IH by lia.
Qed.

Lemma le_Z_le_bytes8 z : is_u64 z -> le_Z (le_bytes 8 z) = z.
Proof. intros H. rewrite le_Z_le_bytes. by apply Z.mod_small. Qed.

Lemma bytes_ok_reverse l : bytes_ok l -> bytes_ok (reverse l).
Proof. unfold bytes_ok. by rewrite Forall_reverse. Qed.

(** The memory image of [bswap64 x] is the big-endian image of [x]. *)
Lemma le_bytes_bswap64 x : le_bytes 8 (bswap64 x) = reverse (le_bytes 8 x).
Proof.
  unfold bswap64.
  rewrite <- (le_bytes_le_Z (reverse (le_bytes 8 x))) at 2
    by apply bytes_ok_reverse, le_bytes_ok.
  by rewrite length_reverse, length_le_bytes.
Qed.

#[export] Hint Resolve le_bytes_ok bytes_ok_reverse : sentinel.
#[export] Hint Rewrite length_le_bytes : sentinel.

(** ** Bit strings, most significant bit first *)

Fixpoint msb_bits (w : nat) (a : Z) : list bool :=
  match w with
  | O => []
  | S w => Z.testbit a (Z.of_nat w) :: msb_bits w a
  end.

Lemma length_msb_bits w a : length (msb_bits w a) = w.
Proof. induction w; simpl; auto. Qed.

Lemma msb_bits_app k j a :
  msb_bits (k + j) a = msb_bits k (Z.shiftr a (Z.of_nat j)) ++ msb_bits j a.
Proof.
  induction k as [|k IH]; cbn [Nat.add msb_bits app]; [done|].
  rewrite IH, Z.shiftr_spec by lia. by rewrite Nat2Z.inj_add.
Qed.

Lemma take_msb_bits k j a :
  take k (msb_bits (k + j) a) = msb_bits k (Z.shiftr a (Z.of_nat j)).
Proof.
  rewrite msb_bits_app.
  by rewrite take_app_le, take_ge by (rewrite length_msb_bits; lia).
Qed.

Lemma msb_bits_spec w a b :
  msb_bits w a = msb_bits w b <->
  forall i, (i < w)%nat -> Z.testbit a (Z.of_nat i) = Z.testbit b (Z.of_nat i).
Proof.
  induction w as [|w IH]; cbn [msb_bits]; [split; [lia|done]|]. split.
  - intros [= Hw Hl] i Hi. destruct (decide (i = w)) as [->|]; [done|].
    apply IH; [done|lia].
  - intros H. f_equal; [apply H; lia|]. apply IH. intros i Hi. apply H. lia.
Qed.

Lemma msb_bits_inj w a b :
  msb_bits w a = msb_bits w b <-> a mod 2 ^ Z.of_nat w = b mod 2 ^ Z.of_nat w.
Proof.
  rewrite msb_bits_spec. split.
  - intros H. apply Z.bits_inj'. intros i Hi.
    destruct (decide (i < Z.of_nat w)).
    + rewrite !Z.mod_pow2_bits_low by lia.
      rewrite <- (Z2Nat.id i) by lia. apply H. lia.
    + by rewrite !Z.mod_pow2_bits_high by lia.
  - intros H i Hi.
    rewrite <- (Z.mod_pow2_bits_low a (Z.of_nat w)) by lia.
    rewrite <- (Z.mod_pow2_bits_low b (Z.of_nat w)) by lia. by rewrite H.
Qed.

Definition key_bits (data : list Z) : list bool := data ≫= msb_bits 8.

Lemma key_bits_app l1 l2 : key_bits (l1 ++ l2) = key_bits l1 ++ key_bits l2.
Proof. apply bind_app. Qed.

Lemma key_bits_be n a : key_bits (reverse (le_bytes n a)) = msb_bits (n * 8) a.
Proof.
  revert a. induction n as [|n IH]; intros a; cbn [le_bytes]; [done|].
  rewrite reverse_cons, key_bits_app, IH.
  replace (S n * 8)%nat with (n * 8 + 8)%nat by lia.
  rewrite msb_bits_app, Z.shiftr_div_pow2 by lia. f_equal.
  unfold key_bits. cbn [mbind list_bind]. rewrite app_nil_r. apply msb_bits_inj.
  change (2 ^ Z.of_nat 8) with 256. rewrite Z.mod_mod by lia. done.
Qed.

(** ** Faults

    A C function that would read outside an object, dereference NULL,
    divide by zero or read an object that was never written returns
    [Fault].  [NoFuel] marks a loop that ran longer than the bound given in
    the model; theorems that a function returns rule it out. *)

Inductive fault : Set :=
| NullDeref
| OutOfBounds
| DivByZero
| Uninitialised
| NoFuel.

Inductive res (A : Type) : Type :=
| Ok (a : A)
| Fault (f : fault).
Arguments Ok {A} a.
Arguments Fault {A} f.

Definition res_bind {A B} (m : res A) (k : A -> res B) : res B :=
  match m with Ok a => k a | Fault f => Fault f end.

Declare Scope res_scope.
Delimit Scope res_scope with res.
Notation "'let*' x ':=' m 'in' k" := (res_bind m (fun x => k))
  (at level 10, x pattern, m at level 100, k at level 200) : res_scope.
#[global] Open Scope res_scope.

Lemma res_bind_Ok {A B} (m : res A) (k : A -> res B) (b : B) :
  res_bind m k = Ok b <-> exists a, m = Ok a /\ k a = Ok b.
Proof.
  destruct m as [a|f]; simpl; split.
  - intros H. by exists a.
  - by intros (? & [= <-] & ?).
  - done.
  - by intros (? & ? & _).
Qed.

(** Left-to-right loop with faults. *)
Fixpoint res_fold {A B} (f : B -> A -> res B) (l : list A) (b : B) : res B :=
  match l with
  | [] => Ok b
  | a :: l => let* b' := f b a in res_fold f l b'
  end.

(** [b] is within the body of the memory object holding the bytes [l]. *)
Definition load8 (l : list Z) (i : Z) : res Z :=
  if (i <? 0) then Fault OutOfBounds
  else match l !! Z.to_nat i with Some b => Ok b | None => Fault OutOfBounds end.

(** An [n]-byte little-endian load at byte offset [i]. *)
Definition load (n : nat) (l : list Z) (i : Z) : res Z :=
  if (0 <=? i) && (i + Z.of_nat n <=? Z.of_nat (length l))
  then Ok (le_Z (take n (drop (Z.to_nat i) l)))
  else Fault OutOfBounds.

Lemma load8_Ok l i :
  0 <= i < Z.of_nat (length l) -> exists b, load8 l i = Ok b /\ l !! Z.to_nat i = Some b.
Proof.
  intros H. unfold load8. destruct (Z.ltb_spec i 0); [lia|].
  destruct (lookup_lt_is_Some_2 l (Z.to_nat i)) as [b Hb]; [lia|].
  exists b. by rewrite Hb.
Qed.

Lemma load_Ok n l i :
  0 <= i -> i + Z.of_nat n <= Z.of_nat (length l) ->
  load n l i = Ok (le_Z (take n (drop (Z.to_nat i) l))).
Proof.
  intros. unfold load.
  destruct (Z.leb_spec 0 i), (Z.leb_spec (i + Z.of_nat n) (Z.of_nat (length l)));
    simpl; done || lia.
Qed.

Lemma load_app n l1 l2 l3 :
  length l2 = n ->
  load n (l1 ++ l2 ++ l3) (Z.of_nat (length l1)) = Ok (le_Z l2).
Proof.
  intros H. rewrite load_Ok by (rewrite ?length_app; lia).
  by rewrite Nat2Z.id, drop_app_length, <- H, take_app_length.
Qed.

(** ** Tactics *)

(** Case analysis on the boolean comparisons of the source. *)
Ltac zcase :=
  repeat match goal with
  | |- context [Z.ltb ?a ?b] => destruct (Z.ltb_spec a b); simpl
  | |- context [Z.leb ?a ?b] => destruct (Z.leb_spec a b); simpl
  | |- context [Z.eqb ?a ?b] => destruct (Z.eqb_spec a b); simpl
  | H : context [Z.ltb ?a ?b] |- _ => destruct (Z.ltb_spec a b); simpl in H
  | H : context [Z.leb ?a ?b] |- _ => destruct (Z.leb_spec a b); simpl in H
  | H : context [Z.eqb ?a ?b] |- _ => destruct (Z.eqb_spec a b); simpl in H
  end.

(** Name the value a monadic step returned. *)
Ltac res_inv :=
  repeat match goal with
  | H : res_bind _ _ = Ok _ |- _ =>
      apply res_bind_Ok in H; destruct H as (? & ? & ?)
  | H : Ok _ = Ok _ |- _ => injection H as H; subst
  | H : Fault _ = Ok _ |- _ => discriminate H
  end.
