(* ===== verification/Shared.v ===== *)
(** * src/common/sentinel_shared.h

    The constants and structures exchanged between the eBPF enforcer, the
    loader, the compiler pass and the policy inspector, with the C layout
    rule that turns a structure into its memory image. *)
From S2P Require Import Prelude.

(** ** Constants *)

Definition SENTINEL_VERSION : string := "4.5.0".

Definition MODULE_MAIN : Z := 1.
Definition MODULE_LIBC : Z := 2.
Definition MODULE_DYNAMIC_BASE : Z := 3.

Definition ENFORCE_KILL : Z := 0.
Definition ENFORCE_PERMISSIVE : Z := 1.
Definition ENFORCE_TERM : Z := 2.

Definition EVENT_ALLOW : Z := 0.
Definition EVENT_BLOCK : Z := 1.
Definition EVENT_CFI_OK : Z := 2.
Definition EVENT_CFI_FAIL : Z := 3.
Definition EVENT_NR_MISMATCH : Z := 4.
Definition EVENT_FORK_TRACK : Z := 5.

Definition POLICY_FLAG_CHECK_NR : Z := Z.shiftl 1 32.

Definition SENTINEL_POLICY_MAGIC : Z := 0x4E45537F.
Definition SENTINEL_POLICY_VERSION : Z := 1.

(** ** Structures *)

Record sentinel_header := {
  magic : list Z;
  version : Z;
  count : Z;
}.

(** [syscall_nr] is [0] for "any" and the syscall number plus one otherwise. *)
Record policy_entry := {
  site_addr : Z;
  func_addr : Z;
  syscall_nr : Z;
}.

Record audit_event := {
  timestamp_ns : Z;
  ev_tgid : Z;
  ev_tid : Z;
  syscall_rip : Z;
  ev_offset : Z;
  ev_module_id : Z;
  ev_syscall_nr : Z;
  action : Z;
}.

Record vma_key := {
  prefixlen : Z;
  addr : Z;
}.

Record vma_value := {
  module_id : Z;
  base_addr : Z;
}.

Record cfi_range := {
  start : Z;
  end_ : Z;
}.

#[export] Instance policy_entry_eq_dec : EqDecision policy_entry.
Proof. solve_decision. Defined.
#[export] Instance audit_event_eq_dec : EqDecision audit_event.
Proof. solve_decision. Defined.
#[export] Instance vma_value_eq_dec : EqDecision vma_value.
Proof. solve_decision. Defined.
#[export] Instance cfi_range_eq_dec : EqDecision cfi_range.
Proof. solve_decision. Defined.

(** ** C structure layout

    A member is an integer of some width or an array of them.  A packed
    structure places members back to back; otherwise each member is aligned
    to its element size and the structure is padded to its alignment. *)

Record member := { m_name : string; elem_size : Z; elem_count : Z }.

Definition scalar (name : string) (n : Z) : member := {| m_name := name; elem_size := n; elem_count := 1 |}.
Definition array (name : string) (n k : Z) : member := {| m_name := name; elem_size := n; elem_count := k |}.

Record struct := { s_packed : bool; s_members : list member }.

Definition align_up (x a : Z) : Z := (x + (a - 1)) / a * a.

Definition member_size (m : member) : Z := elem_size m * elem_count m.

(** The members with their offsets, and the end of the last one. *)
Fixpoint place (packed : bool) (off : Z) (ms : list member) : list (member * Z) * Z :=
  match ms with
  | [] => ([], off)
  | m :: ms =>
      let o := if packed then off else align_up off (elem_size m) in
      let '(os, e) := place packed (o + member_size m) ms in
      ((m, o) :: os, e)
  end.

Definition struct_align (s : struct) : Z :=
  if s_packed s then 1 else foldr (fun m a => Z.max (elem_size m) a) 1 (s_members s).

Definition layout (s : struct) : list (member * Z) := (place (s_packed s) 0 (s_members s)).1.

Definition sizeof (s : struct) : Z := align_up (place (s_packed s) 0 (s_members s)).2 (struct_align s).

(** [p->name] for a pointer [p] to a structure in [buf]. *)
Definition load_field (s : struct) (buf : list Z) (p : Z) (name : string) : res Z :=
  match List.find (fun mo => String.eqb (m_name mo.1) name) (layout s) with
  | Some (m, o) => load (Z.to_nat (member_size m)) buf (p + o)
  | None => Fault OutOfBounds
  end.

(** The memory image of a constant structure; the value of an array is the
    little-endian integer of its bytes, and padding is zero. *)
Fixpoint fill (off : Z) (l : list (member * Z)) (vals : list Z) : list Z :=
  match l, vals with
  | (m, o) :: l, v :: vals =>
      repeat 0 (Z.to_nat (o - off)) ++ le_bytes (Z.to_nat (member_size m)) v ++ fill (o + member_size m) l vals
  | _, _ => []
  end.

Definition struct_image (s : struct) (vals : list Z) : list Z :=
  let image := fill 0 (layout s) vals in
  image ++ repeat 0 (Z.to_nat (sizeof s - Z.of_nat (length image))).

Definition sentinel_header_members : struct :=
  {| s_packed := true; s_members := [array "magic" 1 4; scalar "version" 1; scalar "count" 4] |}.
Definition policy_entry_members : struct :=
  {| s_packed := true; s_members := [scalar "site_addr" 8; scalar "func_addr" 8; scalar "syscall_nr" 8] |}.
Definition audit_event_members : struct :=
  {| s_packed := false; s_members :=
       [ scalar "timestamp_ns" 8; scalar "tgid" 4; scalar "tid" 4; scalar "syscall_rip" 8; scalar "offset" 8;
         scalar "module_id" 4; scalar "syscall_nr" 4; scalar "action" 1; array "_pad" 1 7 ] |}.
Definition vma_key_members : struct :=
  {| s_packed := true; s_members := [scalar "prefixlen" 4; scalar "addr" 8] |}.
Definition vma_value_members : struct :=
  {| s_packed := true; s_members := [scalar "module_id" 4; scalar "base_addr" 8] |}.
Definition cfi_range_members : struct :=
  {| s_packed := false; s_members := [scalar "start" 8; scalar "end" 8] |}.

(** The structure sizes the header asserts at compile time, as booleans. *)
Definition static_asserts : bool :=
  (sizeof audit_event_members =? 48) &&
  (sizeof vma_key_members =? 12) &&
  (sizeof vma_value_members =? 12) &&
  (sizeof cfi_range_members =? 16).

(** The LPM key bytes the kernel compares: the eight bytes after
    [prefixlen], in memory order. *)
Definition vma_key_data (k : vma_key) : list Z := le_bytes 8 (addr k).

(** Memory images of the packed header and of one entry. *)
Definition header_image (h : sentinel_header) : list Z :=
  magic h ++ le_bytes 1 (version h) ++ le_bytes 4 (count h).
Definition entry_image (e : policy_entry) : list Z :=
  le_bytes 8 (site_addr e) ++ le_bytes 8 (func_addr e) ++ le_bytes 8 (syscall_nr e).
Definition entries_image (es : list policy_entry) : list Z := es ≫= entry_image.

Definition entry_ok (e : policy_entry) : Prop :=
  is_u64 (site_addr e) /\ is_u64 (func_addr e) /\ is_i64 (syscall_nr e).

(** ** Lemmas *)

Lemma length_entry_image e : length (entry_image e) = 24%nat.
Proof. unfold entry_image. by rewrite !length_app, !length_le_bytes. Qed.

Lemma length_entries_image es : length (entries_image es) = (24 * length es)%nat.
Proof.
  induction es as [|e es IH]; [done|].
  unfold entries_image in *. cbn [mbind list_bind length].
  rewrite length_app, length_entry_image, IH. lia.
Qed.

Lemma entries_image_cons e es : entries_image (e :: es) = entry_image e ++ entries_image es.
Proof. done. Qed.

(** Three fields of eight bytes, packed or not, are loaded at 0, 8 and 16. *)
Definition three_words (s : struct) (a b c : string) : Prop :=
  sizeof s = 24 /\ forall buf p,
    load_field s buf p a = load 8 buf p /\ load_field s buf p b = load 8 buf (p + 8) /\
    load_field s buf p c = load 8 buf (p + 16).

Lemma policy_entry_words : three_words policy_entry_members "site_addr" "func_addr" "syscall_nr".
Proof. split; [done|]. intros buf p. rewrite <- (Z.add_0_r p) at 2. done. Qed.

(** The three 8-byte loads of an entry stored at the end of [pre]. *)
Lemma load_entry pre e post :
  entry_ok e ->
  let buf := pre ++ entry_image e ++ post in
  let p := Z.of_nat (length pre) in
  load 8 buf p = Ok (site_addr e) /\
  load 8 buf (p + 8) = Ok (func_addr e) /\
  load 8 buf (p + 16) = Ok (u64 (syscall_nr e)).
Proof.
  intros (Hs & Hf & _) buf p. subst buf p. unfold entry_image. rewrite <- !app_assoc.
  split_and!.
  - rewrite load_app by apply length_le_bytes. by rewrite le_Z_le_bytes8.
  - replace (Z.of_nat (length pre) + 8) with (Z.of_nat (length (pre ++ le_bytes 8 (site_addr e))))
      by (rewrite length_app, length_le_bytes; lia).
    rewrite (app_assoc pre), load_app by apply length_le_bytes. by rewrite le_Z_le_bytes8.
  - replace (Z.of_nat (length pre) + 16) with
      (Z.of_nat (length ((pre ++ le_bytes 8 (site_addr e)) ++ le_bytes 8 (func_addr e))))
      by (rewrite !length_app, !length_le_bytes; lia).
    rewrite (app_assoc pre), (app_assoc (pre ++ _)), load_app by apply length_le_bytes.
    by rewrite le_Z_le_bytes.
Qed.

Lemma vma_key_data_bits a n :
  key_bits (vma_key_data {| prefixlen := n; addr := bswap64 a |}) = msb_bits 64 a.
Proof. unfold vma_key_data. cbn [addr]. rewrite le_bytes_bswap64. apply (key_bits_be 8). Qed.

Lemma check_nr_flag_spec v :
  Z.land v POLICY_FLAG_CHECK_NR <> 0 <-> Z.testbit v 32 = true.
Proof.
  change POLICY_FLAG_CHECK_NR with (2 ^ 32). rewrite Z.land_comm. split.
  - intros H. destruct (Z.testbit v 32) eqn:E; [done|]. exfalso. apply H.
    apply Z.bits_inj'. intros i Hi. rewrite Z.land_spec, Z.pow2_bits_eqb, Z.bits_0 by lia.
    destruct (Z.eqb_spec 32 i) as [<-|]; [by rewrite E|done].
  - intros H E. assert (Z.testbit (Z.land (2 ^ 32) v) 32 = true) as Hb.
    { by rewrite Z.land_spec, H, Z.pow2_bits_true by lia. }
    rewrite E in Hb. done.
Qed.
