(* ===== verification/BpfMaps.v ===== *)
(** * The kernel's BPF maps, as an interface

    The maps are kernel objects: the enforcer and the loader only call
    [bpf_map_lookup_elem] and [bpf_map_update_elem] on them.  [BpfOps] is the
    set of operations, [BpfLaws] the documented behaviour the program relies
    on (map_hash, map_lpm_trie and map_of_maps of the kernel documentation),
    and [ref_ops] an instance that satisfies the laws.  Every theorem about
    the enforcer and the loader is proved against [BpfLaws]. *)
From S2P Require Import Prelude.

Inductive map_flag : Set := BPF_ANY | BPF_NOEXIST.

(** The value stored for the longest stored prefix of [bits]. *)
Fixpoint longest_from {V} (view : list bool -> option V) (bits : list bool) (n : nat)
  : option V :=
  match view (take n bits) with
  | Some v => Some v
  | None => match n with O => None | S n => longest_from view bits n end
  end.
Definition longest_prefix {V} (view : list bool -> option V) (bits : list bool) : option V :=
  longest_from view bits (length bits).

(** Operations return [0] on success and a negative errno otherwise.
    [hash_size]/[lpm_size] count entries, [hash_max]/[lpm_max] are
    [max_entries], and [lpm_view] is the set of stored prefixes. *)
Class BpfOps : Type := {
  bpf_hash : Type -> Type;
  hash_new : forall V, nat -> bpf_hash V;
  hash_max : forall {V}, bpf_hash V -> nat;
  hash_size : forall {V}, bpf_hash V -> nat;
  hash_lookup : forall {V}, bpf_hash V -> Z -> option V;
  hash_update : forall {V}, bpf_hash V -> Z -> V -> map_flag -> bpf_hash V * Z;

  bpf_lpm : Type -> Type;
  lpm_new : forall V, nat -> bpf_lpm V;
  lpm_max : forall {V}, bpf_lpm V -> nat;
  lpm_size : forall {V}, bpf_lpm V -> nat;
  lpm_view : forall {V}, bpf_lpm V -> list bool -> option V;
  lpm_lookup : forall {V}, bpf_lpm V -> Z -> list Z -> option V;
  lpm_update : forall {V}, bpf_lpm V -> Z -> list Z -> V -> bpf_lpm V * Z;

  bpf_aom : Type;
  aom_new : nat -> bpf_aom;
  aom_max : bpf_aom -> nat;
  aom_lookup : bpf_aom -> Z -> option Z;
  aom_update : bpf_aom -> Z -> Z -> bpf_aom * Z;
}.

Class BpfLaws (B : BpfOps) : Prop := {
  hash_new_lookup V n k : hash_lookup (hash_new V n) k = None;
  hash_new_size V n : hash_size (hash_new V n) = O;
  hash_new_max V n : hash_max (hash_new V n) = n;
  hash_update_max V (m : bpf_hash V) k v f : hash_max (hash_update m k v f).1 = hash_max m;
  hash_update_ok V (m : bpf_hash V) k v f k' :
    (hash_update m k v f).2 = 0 ->
    hash_lookup (hash_update m k v f).1 k' = if decide (k = k') then Some v else hash_lookup m k';
  hash_update_err V (m : bpf_hash V) k v f k' :
    (hash_update m k v f).2 <> 0 ->
    hash_lookup (hash_update m k v f).1 k' = hash_lookup m k';
  hash_update_size V (m : bpf_hash V) k v f :
    (hash_size (hash_update m k v f).1 <= S (hash_size m))%nat;
  hash_update_grow V (m : bpf_hash V) k v f :
    hash_lookup m k = None -> (hash_update m k v f).2 = 0 ->
    hash_size (hash_update m k v f).1 = S (hash_size m);
  hash_update_err_size V (m : bpf_hash V) k v f :
    (hash_update m k v f).2 <> 0 -> hash_size (hash_update m k v f).1 = hash_size m;
  hash_update_full V (m : bpf_hash V) k v f :
    hash_lookup m k = None -> (hash_max m <= hash_size m)%nat -> (hash_update m k v f).2 <> 0;
  hash_update_noexist V (m : bpf_hash V) k v w :
    hash_lookup m k = Some w -> (hash_update m k v BPF_NOEXIST).2 <> 0;
  hash_update_replace V (m : bpf_hash V) k v w :
    hash_lookup m k = Some w -> (hash_update m k v BPF_ANY).2 = 0;
  hash_update_room V (m : bpf_hash V) k v f :
    hash_lookup m k = None -> (hash_size m < hash_max m)%nat -> (hash_update m k v f).2 = 0;

  lpm_new_view V n p : lpm_view (lpm_new V n) p = None;
  lpm_new_size V n : lpm_size (lpm_new V n) = O;
  lpm_new_max V n : lpm_max (lpm_new V n) = n;
  lpm_lookup_spec V (t : bpf_lpm V) n d :
    0 <= n -> lpm_lookup t n d = longest_prefix (lpm_view t) (take (Z.to_nat n) (key_bits d));
  lpm_update_max V (t : bpf_lpm V) n d v : lpm_max (lpm_update t n d v).1 = lpm_max t;
  lpm_update_ok V (t : bpf_lpm V) n d v p :
    (lpm_update t n d v).2 = 0 ->
    lpm_view (lpm_update t n d v).1 p =
      if decide (take (Z.to_nat n) (key_bits d) = p) then Some v else lpm_view t p;
  lpm_update_err V (t : bpf_lpm V) n d v p :
    (lpm_update t n d v).2 <> 0 -> lpm_view (lpm_update t n d v).1 p = lpm_view t p;
  lpm_update_size V (t : bpf_lpm V) n d v :
    (lpm_size (lpm_update t n d v).1 <= S (lpm_size t))%nat;
  lpm_update_grow V (t : bpf_lpm V) n d v :
    lpm_view t (take (Z.to_nat n) (key_bits d)) = None -> (lpm_update t n d v).2 = 0 ->
    lpm_size (lpm_update t n d v).1 = S (lpm_size t);
  lpm_update_err_size V (t : bpf_lpm V) n d v :
    (lpm_update t n d v).2 <> 0 -> lpm_size (lpm_update t n d v).1 = lpm_size t;
  lpm_update_full V (t : bpf_lpm V) n d v :
    lpm_view t (take (Z.to_nat n) (key_bits d)) = None -> (lpm_max t <= lpm_size t)%nat ->
    (lpm_update t n d v).2 <> 0;
  lpm_update_room V (t : bpf_lpm V) n d v :
    0 <= n <= Z.of_nat (length (key_bits d)) ->
    (lpm_size t < lpm_max t)%nat -> (lpm_update t n d v).2 = 0;

  aom_new_lookup n i : aom_lookup (aom_new n) i = None;
  aom_new_max n : aom_max (aom_new n) = n;
  aom_update_max a i x : aom_max (aom_update a i x).1 = aom_max a;
  aom_update_range a i x :
    (aom_update a i x).2 = 0 <-> 0 <= i < Z.of_nat (aom_max a);
  aom_update_ok a i x j :
    (aom_update a i x).2 = 0 ->
    aom_lookup (aom_update a i x).1 j = if decide (i = j) then Some x else aom_lookup a j;
  aom_update_err a i x j :
    (aom_update a i x).2 <> 0 -> aom_lookup (aom_update a i x).1 j = aom_lookup a j;
}.

(** ** An instance *)

Definition EEXIST : Z := -17.
Definition E2BIG : Z := -7.
Definition EINVAL : Z := -22.

Definition ref_hash (V : Type) : Type := nat * gmap Z V.
Definition ref_hash_update {V} (m : ref_hash V) (k : Z) (v : V) (f : map_flag)
  : ref_hash V * Z :=
  match m.2 !! k, f with
  | Some _, BPF_NOEXIST => (m, EEXIST)
  | Some _, BPF_ANY => ((m.1, <[k:=v]> m.2), 0)
  | None, _ => if decide (size m.2 < m.1)%nat then ((m.1, <[k:=v]> m.2), 0) else (m, E2BIG)
  end.

Definition ref_lpm (V : Type) : Type := nat * gmap (list bool) V.
Definition ref_lpm_update {V} (t : ref_lpm V) (n : Z) (d : list Z) (v : V) : ref_lpm V * Z :=
  let p := take (Z.to_nat n) (key_bits d) in
  if decide (0 <= n <= Z.of_nat (length (key_bits d)) /\ (size t.2 < t.1)%nat)
  then ((t.1, <[p:=v]> t.2), 0)
  else (t, EINVAL).

Definition ref_aom_update (a : nat * gmap Z Z) (i x : Z) : (nat * gmap Z Z) * Z :=
  if decide (0 <= i < Z.of_nat a.1) then ((a.1, <[i:=x]> a.2), 0) else (a, E2BIG).

#[export] Instance ref_ops : BpfOps := {
  bpf_hash := ref_hash;
  hash_new V n := (n, ∅);
  hash_max V m := m.1;
  hash_size V m := size m.2;
  hash_lookup V m k := m.2 !! k;
  hash_update V := ref_hash_update;
  bpf_lpm := ref_lpm;
  lpm_new V n := (n, ∅);
  lpm_max V t := t.1;
  lpm_size V t := size t.2;
  lpm_view V t p := t.2 !! p;
  lpm_lookup V t n d := longest_prefix (fun p => t.2 !! p) (take (Z.to_nat n) (key_bits d));
  lpm_update V := ref_lpm_update;
  bpf_aom := nat * gmap Z Z;
  aom_new n := (n, ∅);
  aom_max a := a.1;
  aom_lookup a i := a.2 !! i;
  aom_update := ref_aom_update;
}.

Lemma size_insert_le `{Countable K} {V} (m : gmap K V) k v :
  (size (<[k:=v]> m) <= S (size m))%nat.
Proof. rewrite map_size_insert. destruct (m !! k); simpl; lia. Qed.

#[export] Instance ref_laws : BpfLaws ref_ops.
Proof.
  constructor; try done; simpl; intros *;
    unfold ref_hash_update, ref_lpm_update, ref_aom_update;
    repeat case_match; simpl; intros; try done; try lia;
    rewrite ?lookup_insert; auto using size_insert_le; try (by case_decide);
    by rewrite map_size_insert_None.
Qed.

(** ** Lemmas for clients *)

Lemma longest_from_None {V} (view : list bool -> option V) bits n :
  (forall p, view p = None) -> longest_from view bits n = None.
Proof. intros H. induction n; simpl; by rewrite H. Qed.

(** When every stored prefix has [w] bits, the longest match is the exact
    match on the first [w] bits. *)
Lemma longest_prefix_uniform {V} (view : list bool -> option V) bits w :
  (forall p v, view p = Some v -> length p = w) ->
  (w <= length bits)%nat ->
  longest_prefix view bits = view (take w bits).
Proof.
  intros Hw Hle. unfold longest_prefix.
  assert (forall n, (n < w)%nat -> longest_from view bits n = None) as Hlow.
  { intros n Hn. induction n as [|n IH]; simpl.
    - destruct (view (take 0 bits)) eqn:E; [|done].
      apply Hw in E. simpl in E. lia.
    - destruct (view (take (S n) bits)) eqn:E; [|apply IH; lia].
      apply Hw in E. rewrite length_take in E. lia. }
  enough (forall n, (w <= n)%nat -> (n <= length bits)%nat ->
    longest_from view bits n = view (take w bits)) as Hn by (apply Hn; lia).
  intros n. induction n as [|n IH]; intros Hwn Hn.
  - replace w with O by lia. simpl. by destruct (view (take 0 bits)).
  - cbn [longest_from]. destruct (view (take (S n) bits)) eqn:E.
    + apply Hw in E as E'. rewrite length_take in E'.
      by replace w with (S n) by lia.
    + destruct (decide (w <= n)%nat); [apply IH; lia|].
      replace w with (S n) by lia. rewrite E. apply Hlow. lia.
Qed.
