(* ===== verification/Enforcer.v ===== *)
(** * src/kernel/sentinel.bpf.c

    The eBPF enforcer: its maps, the core check shared by the syscall hooks,
    the two unconditional hooks, and the audit, signal and trace output each
    run produces. *)
From S2P Require Import Prelude Shared BpfMaps.

(** ** State *)

(** Read-only configuration, set by the loader before the programs load. *)
Record config := {
  audit_mode : Z;
  fexit_mode : Z;
  enforce_mode : Z;
  learn_mode : Z;
  shadow_cfi : Z;
  system_wide : Z;
  cgroup_filter : Z;
}.

Definition default_config : config :=
  {| audit_mode := 0; fexit_mode := 0; enforce_mode := 0; learn_mode := 0;
     shadow_cfi := 0; system_wide := 0; cgroup_filter := 0 |}.

(** What the kernel tells a hook about the current task: the helpers'
    results.  [pt_regs_ip] is [None] when [bpf_task_pt_regs] is NULL;
    [stack_ret] and [stack] are the result of [bpf_get_stack] and the
    four-word buffer after the call. *)
Record hook_ctx := {
  pid_tgid : Z;
  cgroup_id : Z;
  pt_regs_ip : option Z;
  stack_ret : Z;
  stack : list Z;
  ktime : Z;
  ringbuf_has_room : bool;
}.

(** [bpf_printk] lines, by format string. *)
Inductive printk_line : Set :=
| PkNullRegs (tid nr : Z)
| PkUnknownVma (tid nr site : Z)
| PkNoPolicy (tid nr mod_id : Z)
| PkVioOffset (tid nr offset : Z)
| PkNrMismatch (tid nr offset : Z)
| PkBadCaller (tid caller_offset : Z)
| PkStackWalk (tid nr ret : Z)
| PkVmWritev (tid : Z)
| PkSeccomp (tid : Z).

(** Output of the hooks: submitted ring buffer records, signals sent to the
    current task, and trace lines, oldest first. *)
Record effects := {
  ringbuf : list audit_event;
  signals : list Z;
  trace : list printk_line;
}.

Definition no_effects : effects := {| ringbuf := []; signals := []; trace := [] |}.

Definition bpf_printk (l : printk_line) (e : effects) : effects :=
  {| ringbuf := ringbuf e; signals := signals e; trace := trace e ++ [l] |}.

Definition bpf_send_signal (sig : Z) (e : effects) : effects :=
  {| ringbuf := ringbuf e; signals := signals e ++ [sig]; trace := trace e |}.

Section Enforcer.
Context {B : BpfOps}.

(** The maps.  [inner_maps] are the kernel's inner policy maps by map id;
    the registry holds ids, so a later update of an inner map is visible
    through the registry. *)
Record bpf_maps := {
  inner_maps : gmap Z (bpf_hash Z);
  policy_registry : bpf_aom;
  vma_map : bpf_lpm vma_value;
  target_pid_map : bpf_hash Z;
  cfi_policy : bpf_hash cfi_range;
  cgroup_map : bpf_hash Z;
  learn_map : bpf_hash Z;
  fallback_policy : bpf_hash Z;
  lib_allow_map : bpf_hash Z;
}.

Definition inner_policy_max_entries : nat := 4096.

Definition initial_maps : bpf_maps :=
  {| inner_maps := ∅;
     policy_registry := aom_new 64;
     vma_map := lpm_new _ 512;
     target_pid_map := hash_new _ 64;
     cfi_policy := hash_new _ 1024;
     cgroup_map := hash_new _ 256;
     learn_map := hash_new _ 8192;
     fallback_policy := hash_new _ 512;
     lib_allow_map := hash_new _ 256 |}.

(** [bpf_map_lookup_elem(&policy_registry, &id)]: the inner map or NULL. *)
Definition registry_lookup (s : bpf_maps) (id : Z) : option (bpf_hash Z) :=
  aom_lookup (policy_registry s) id ≫= fun mid => inner_maps s !! mid.

(** ** Helpers *)

Definition emit_audit (c : hook_ctx) (tgid tid rip offset mod_id nr act : Z)
    (e : effects) : effects :=
  if ringbuf_has_room c then
    {| ringbuf := ringbuf e ++
         [ {| timestamp_ns := ktime c; ev_tgid := tgid; ev_tid := tid;
              syscall_rip := rip; ev_offset := offset; ev_module_id := mod_id;
              ev_syscall_nr := nr; action := act |} ];
       signals := signals e; trace := trace e |}
  else e.

Definition deny_action (g : config) (c : hook_ctx)
    (tgid tid rip offset mod_id nr event_type : Z) (e : effects) : effects :=
  let e := emit_audit c tgid tid rip offset mod_id nr event_type e in
  if enforce_mode g =? ENFORCE_TERM then bpf_send_signal 15 e
  else if enforce_mode g =? ENFORCE_KILL then bpf_send_signal 9 e
  else e.

(** ** Core check *)

Definition sentinel_check (g : config) (s : bpf_maps) (c : hook_ctx) (nr : Z)
    (e : effects) : Z * effects :=
  let tgid := u32 (Z.shiftr (pid_tgid c) 32) in
  match hash_lookup (target_pid_map s) tgid with
  | None =>
      if system_wide g =? 0 then (0, e)
      else match hash_lookup (fallback_policy s) nr with
      | Some _ => (0, e)
      | None =>
          let tid := u32 (pid_tgid c) in
          (0, deny_action g c tgid tid 0 0 0 nr EVENT_BLOCK e)
      end
  | Some _ =>
  if negb (cgroup_filter g =? 0) &&
     (if hash_lookup (cgroup_map s) (cgroup_id c) is None then true else false)
  then (0, e)
  else match pt_regs_ip c with
  | None =>
      let tid := u32 (pid_tgid c) in
      let e := bpf_printk (PkNullRegs tid nr) e in
      (0, deny_action g c tgid tid 0 0 0 nr EVENT_BLOCK e)
  | Some rip =>
  let tid := u32 (pid_tgid c) in
  let syscall_site := u64 (rip - 2) in
  let vkey := {| prefixlen := 64; addr := bswap64 syscall_site |} in
  match lpm_lookup (vma_map s) (prefixlen vkey) (vma_key_data vkey) with
  | None =>
      let e := bpf_printk (PkUnknownVma tid nr syscall_site) e in
      (0, deny_action g c tgid tid syscall_site 0 0 nr EVENT_BLOCK e)
  | Some m =>
  let offset := u64 (syscall_site - base_addr m) in
  match registry_lookup s (module_id m) with
  | None =>
      let e := bpf_printk (PkNoPolicy tid nr (module_id m)) e in
      (0, deny_action g c tgid tid syscall_site offset (module_id m) nr EVENT_BLOCK e)
  | Some policy_map =>
  match hash_lookup policy_map offset with
  | None =>
      let e := bpf_printk (PkVioOffset tid nr offset) e in
      (0, deny_action g c tgid tid syscall_site offset (module_id m) nr EVENT_BLOCK e)
  | Some policy_val =>
  if negb (Z.land policy_val POLICY_FLAG_CHECK_NR =? 0) &&
     negb (u32 (Z.land policy_val 0xFFFFFFFF) =? nr)
  then
    let e := bpf_printk (PkNrMismatch tid nr offset) e in
    (0, deny_action g c tgid tid syscall_site offset (module_id m) nr EVENT_NR_MISMATCH e)
  else match hash_lookup (cfi_policy s) offset with
  | Some range =>
      if 16 <=? stack_ret c then
        let caller_rip := nth 1 (stack c) 0 in
        let caller_offset := u64 (caller_rip - base_addr m) in
        if (start range <=? caller_offset) && (caller_offset <=? end_ range) then
          if negb (audit_mode g =? 0) then
            (0, emit_audit c tgid tid syscall_site offset (module_id m) nr EVENT_CFI_OK e)
          else (0, e)
        else
          let e := bpf_printk (PkBadCaller tid caller_offset) e in
          (0, deny_action g c tgid tid syscall_site offset (module_id m) nr EVENT_CFI_FAIL e)
      else
        let e := bpf_printk (PkStackWalk tid nr (stack_ret c)) e in
        (0, deny_action g c tgid tid syscall_site offset (module_id m) nr EVENT_CFI_FAIL e)
  | None =>
      if negb (audit_mode g =? 0) then
        (0, emit_audit c tgid tid syscall_site offset (module_id m) nr EVENT_ALLOW e)
      else (0, e)
  end end end end end end.

(** ** Hooks *)

Definition sentinel_write_check g s c := sentinel_check g s c 1.
Definition sentinel_read_check g s c := sentinel_check g s c 0.
Definition sentinel_openat_check g s c := sentinel_check g s c 257.
Definition sentinel_execve_check g s c := sentinel_check g s c 59.
Definition sentinel_mmap_check g s c := sentinel_check g s c 9.
Definition sentinel_mprotect_check g s c := sentinel_check g s c 10.
Definition sentinel_connect_check g s c := sentinel_check g s c 42.
Definition sentinel_memfd_create_check g s c := sentinel_check g s c 319.
Definition sentinel_prctl_check g s c := sentinel_check g s c 157.
Definition sentinel_sendmsg_check g s c := sentinel_check g s c 46.
Definition sentinel_dup2_check g s c := sentinel_check g s c 33.
Definition sentinel_close_check g s c := sentinel_check g s c 3.
Definition sentinel_ioctl_check g s c := sentinel_check g s c 16.

Definition sentinel_process_vm_writev_check (g : config) (s : bpf_maps) (c : hook_ctx)
    (e : effects) : Z * effects :=
  let tgid := u32 (Z.shiftr (pid_tgid c) 32) in
  match hash_lookup (target_pid_map s) tgid with
  | None => (0, e)
  | Some _ =>
      let tid := u32 (pid_tgid c) in
      let e := bpf_printk (PkVmWritev tid) e in
      (0, deny_action g c tgid tid 0 0 0 311 EVENT_BLOCK e)
  end.

Definition sentinel_seccomp_check (g : config) (s : bpf_maps) (c : hook_ctx)
    (e : effects) : Z * effects :=
  let tgid := u32 (Z.shiftr (pid_tgid c) 32) in
  match hash_lookup (target_pid_map s) tgid with
  | None => (0, e)
  | Some _ =>
      let tid := u32 (pid_tgid c) in
      let e := bpf_printk (PkSeccomp tid) e in
      (0, deny_action g c tgid tid 0 0 0 317 EVENT_BLOCK e)
  end.

(** The kernel functions the programs attach to, with the program each runs. *)
Definition hooks : list (string * (config -> bpf_maps -> hook_ctx -> effects -> Z * effects)) :=
  [ ("write", sentinel_write_check);
    ("read", sentinel_read_check);
    ("openat", sentinel_openat_check);
    ("execve", sentinel_execve_check);
    ("mmap", sentinel_mmap_check);
    ("mprotect", sentinel_mprotect_check);
    ("connect", sentinel_connect_check);
    ("memfd_create", sentinel_memfd_create_check);
    ("process_vm_writev", sentinel_process_vm_writev_check);
    ("prctl", sentinel_prctl_check);
    ("sendmsg", sentinel_sendmsg_check);
    ("dup2", sentinel_dup2_check);
    ("close", sentinel_close_check);
    ("ioctl", sentinel_ioctl_check);
    ("seccomp", sentinel_seccomp_check) ].

(** A task entering a system call: the attached program, if any, runs. *)
Definition sys_enter (g : config) (s : bpf_maps) (c : hook_ctx) (name : string)
    (e : effects) : effects :=
  match list_find (fun h => h.1 = name) hooks with
  | Some (_, h) => (h.2 g s c e).2
  | None => e
  end.

End Enforcer.
