(* ===== verification/EnforcerSpec.v ===== *)
(** * What the enforcer promises

    An abstract policy view of the maps, the calls it permits, the reasons
    it denies one, and the proofs that [sentinel_check] and the other hooks
    implement exactly that. *)
From S2P Require Import Prelude Shared BpfMaps Enforcer.

Section Spec.
Context {B : BpfOps}.

(** ** Abstract policy *)

(** [pv_policy]: the module has a policy map. *)
Record policy_view := {
  pv_module : Z -> option vma_value;
  pv_policy : Z -> bool;
  pv_rule : Z -> Z -> option Z;
  pv_cfi : Z -> option cfi_range;
}.

(** Every stored prefix names one 1 MiB block. *)
Definition vma_wf (t : bpf_lpm vma_value) : Prop :=
  forall p v, lpm_view t p = Some v -> length p = 44%nat.

(** The module a 1 MiB block of the address space belongs to. *)
Definition block_module (t : bpf_lpm vma_value) (a : Z) : option vma_value :=
  lpm_view t (msb_bits 44 (Z.shiftr a 20)).

Definition view_of (s : bpf_maps) : policy_view :=
  {| pv_module := block_module (vma_map s);
     pv_policy m := if registry_lookup s m is Some _ then true else false;
     pv_rule m o := registry_lookup s m ≫= fun p => hash_lookup p o;
     pv_cfi := hash_lookup (cfi_policy s) |}.

Definition tgid_of (c : hook_ctx) : Z := u32 (Z.shiftr (pid_tgid c) 32).
Definition tid_of (c : hook_ctx) : Z := u32 (pid_tgid c).
Definition monitored (s : bpf_maps) (c : hook_ctx) : Prop :=
  is_Some (hash_lookup (target_pid_map s) (tgid_of c)).
Definition in_scope (g : config) (s : bpf_maps) (c : hook_ctx) : Prop :=
  cgroup_filter g = 0 \/ is_Some (hash_lookup (cgroup_map s) (cgroup_id c)).

(** A rule binds a site to one syscall number, or to any. *)
Definition rule_admits (v nr : Z) : Prop :=
  Z.testbit v 32 = true -> v mod 2 ^ 32 = nr.

(** The caller of the site lies in the range the site requires. *)
Definition caller_admitted (c : hook_ctx) (base : Z) (r : cfi_range) : Prop :=
  16 <= stack_ret c /\ start r <= u64 (nth 1 (stack c) 0 - base) <= end_ r.

(** Everything the policy requires of a system call: [nr] issued by the
    instruction at [site], which module [m] holds at [off]. *)
Record permits (p : policy_view) (c : hook_ctx) (nr site off : Z) (m : vma_value) : Prop := {
  permit_site : exists ip, pt_regs_ip c = Some ip /\ site = u64 (ip - 2);
  permit_module : pv_module p site = Some m;
  permit_off : off = u64 (site - base_addr m);
  permit_rule : exists v, pv_rule p (module_id m) off = Some v /\ rule_admits v nr;
  permit_caller : forall r, pv_cfi p off = Some r -> caller_admitted c (base_addr m) r;
}.

Definition permitted (p : policy_view) (c : hook_ctx) (nr : Z) : Prop :=
  exists site off m, permits p c nr site off m.

(** The reasons for a denial, with the event code, the reported RIP, offset
    and module, and the trace line. *)
Inductive denied (p : policy_view) (c : hook_ctx) (nr : Z) : Z -> Z -> Z -> Z -> printk_line -> Prop :=
| denied_no_regs :
    pt_regs_ip c = None -> denied p c nr EVENT_BLOCK 0 0 0 (PkNullRegs (tid_of c) nr)
| denied_no_module ip site :
    pt_regs_ip c = Some ip -> site = u64 (ip - 2) -> pv_module p site = None ->
    denied p c nr EVENT_BLOCK site 0 0 (PkUnknownVma (tid_of c) nr site)
| denied_no_policy ip site off m :
    pt_regs_ip c = Some ip -> site = u64 (ip - 2) -> pv_module p site = Some m ->
    off = u64 (site - base_addr m) -> pv_policy p (module_id m) = false ->
    pv_rule p (module_id m) off = None ->
    denied p c nr EVENT_BLOCK site off (module_id m) (PkNoPolicy (tid_of c) nr (module_id m))
| denied_no_rule ip site off m :
    pt_regs_ip c = Some ip -> site = u64 (ip - 2) -> pv_module p site = Some m ->
    off = u64 (site - base_addr m) -> pv_policy p (module_id m) = true ->
    pv_rule p (module_id m) off = None ->
    denied p c nr EVENT_BLOCK site off (module_id m) (PkVioOffset (tid_of c) nr off)
| denied_nr ip site off m v :
    pt_regs_ip c = Some ip -> site = u64 (ip - 2) -> pv_module p site = Some m ->
    off = u64 (site - base_addr m) -> pv_rule p (module_id m) off = Some v ->
    ~ rule_admits v nr ->
    denied p c nr EVENT_NR_MISMATCH site off (module_id m) (PkNrMismatch (tid_of c) nr off)
| denied_no_caller ip site off m v r :
    pt_regs_ip c = Some ip -> site = u64 (ip - 2) -> pv_module p site = Some m ->
    off = u64 (site - base_addr m) -> pv_rule p (module_id m) off = Some v ->
    rule_admits v nr -> pv_cfi p off = Some r -> stack_ret c < 16 ->
    denied p c nr EVENT_CFI_FAIL site off (module_id m) (PkStackWalk (tid_of c) nr (stack_ret c))
| denied_caller ip site off m v r :
    pt_regs_ip c = Some ip -> site = u64 (ip - 2) -> pv_module p site = Some m ->
    off = u64 (site - base_addr m) -> pv_rule p (module_id m) off = Some v ->
    rule_admits v nr -> pv_cfi p off = Some r -> 16 <= stack_ret c -> ~ caller_admitted c (base_addr m) r ->
    denied p c nr EVENT_CFI_FAIL site off (module_id m)
      (PkBadCaller (tid_of c) (u64 (nth 1 (stack c) 0 - base_addr m))).

(** Signals a denial sends, by enforcement mode. *)
Definition deny_signals (g : config) : list Z :=
  if enforce_mode g =? ENFORCE_TERM then [15]
  else if enforce_mode g =? ENFORCE_KILL then [9]
  else [].

(** The record a hook submits, or nothing when the ring buffer is full. *)
Definition report (c : hook_ctx) (nr act rip off mid : Z) : list audit_event :=
  if ringbuf_has_room c then
    [ {| timestamp_ns := ktime c; ev_tgid := tgid_of c; ev_tid := tid_of c;
         syscall_rip := rip; ev_offset := off; ev_module_id := mid;
         ev_syscall_nr := nr; action := act |} ]
  else [].

(** ** Lemmas *)

Context {L : BpfLaws B}.

#[export] Instance rule_admits_dec v nr : Decision (rule_admits v nr).
Proof. unfold rule_admits. apply _. Defined.
#[export] Instance caller_admitted_dec c b r : Decision (caller_admitted c b r).
Proof. unfold caller_admitted. apply _. Defined.

Lemma vma_lookup_block t a :
  vma_wf t ->
  lpm_lookup t 64 (vma_key_data {| prefixlen := 64; addr := bswap64 a |}) = block_module t a.
Proof.
  intros Hwf. rewrite lpm_lookup_spec by lia.
  rewrite vma_key_data_bits, take_ge by (rewrite length_msb_bits; lia).
  rewrite (longest_prefix_uniform _ _ 44) by
    (done || rewrite length_msb_bits; lia).
  unfold block_module. by rewrite (take_msb_bits 44 20).
Qed.

Lemma nr_test_spec v nr :
  negb (Z.land v POLICY_FLAG_CHECK_NR =? 0) && negb (u32 (Z.land v 0xFFFFFFFF) =? nr)
  = bool_decide (~ rule_admits v nr).
Proof.
  change 0xFFFFFFFF with (Z.ones 32). rewrite Z.land_ones by lia.
  unfold u32. rewrite Z.mod_mod by lia.
  pose proof (check_nr_flag_spec v) as Hf. unfold rule_admits.
  destruct (Z.eqb_spec (Z.land v POLICY_FLAG_CHECK_NR) 0) as [E|E];
    destruct (Z.eqb_spec (v mod 2 ^ 32) nr) as [E'|E']; simpl; symmetry;
    rewrite ?bool_decide_eq_false, ?bool_decide_eq_true; tauto.
Qed.

Lemma permits_or_denied p c nr :
  permitted p c nr \/ exists act rip off mid line, denied p c nr act rip off mid line.
Proof.
  destruct (pt_regs_ip c) as [ip|] eqn:Eip; [|right; eauto 10 using denied_no_regs].
  destruct (pv_module p (u64 (ip - 2))) as [m|] eqn:Em;
    [|right; eauto 10 using denied_no_module].
  destruct (pv_rule p (module_id m) (u64 (u64 (ip - 2) - base_addr m))) as [v|] eqn:Er;
    [|right; destruct (pv_policy p (module_id m)) eqn:Ep; eauto 12 using denied_no_rule, denied_no_policy].
  destruct (decide (rule_admits v nr)) as [Ha|Ha]; [|right; eauto 12 using denied_nr].
  destruct (pv_cfi p (u64 (u64 (ip - 2) - base_addr m))) as [r|] eqn:Ec.
  - destruct (decide (caller_admitted c (base_addr m) r));
      [|right; destruct (decide (16 <= stack_ret c)); do 5 eexists;
        [by eapply denied_caller|eapply denied_no_caller; eauto; lia]].
    left. eexists _, _, m. split; eauto. intros r' Hr'. by simplify_eq.
  - left. eexists _, _, m. split; eauto. intros r' Hr'. by simplify_eq.
Qed.

Lemma denied_not_permitted p c nr act rip off mid line :
  denied p c nr act rip off mid line -> ~ permitted p c nr.
Proof.
  intros Hd (s & o & m & [(ip & Eip & ->) Hm -> (v & Hr & Ha) Hc]).
  destruct Hd; simplify_eq; eauto.
  by destruct (Hc _ ltac:(eassumption)) as [? _]; lia.
Qed.

Lemma deny_action_effects g c tgid tid rip off mid nr act e :
  tgid = tgid_of c -> tid = tid_of c ->
  deny_action g c tgid tid rip off mid nr act e =
    {| ringbuf := ringbuf e ++ report c nr act rip off mid;
       signals := signals e ++ deny_signals g;
       trace := trace e |}.
Proof.
  intros -> ->. unfold deny_action, emit_audit, report, deny_signals, bpf_send_signal.
  destruct e as [rb sg tr]; simpl.
  destruct (ringbuf_has_room c), (enforce_mode g =? ENFORCE_TERM),
    (enforce_mode g =? ENFORCE_KILL); simpl; by rewrite ?app_nil_r.
Qed.

Lemma emit_audit_effects c tgid tid rip off mid nr act e :
  tgid = tgid_of c -> tid = tid_of c ->
  emit_audit c tgid tid rip off mid nr act e =
    {| ringbuf := ringbuf e ++ report c nr act rip off mid;
       signals := signals e; trace := trace e |}.
Proof.
  intros -> ->. unfold emit_audit, report. destruct e as [rb sg tr]; simpl.
  destruct (ringbuf_has_room c); by rewrite ?app_nil_r.
Qed.

Lemma check_cgroup_skip g s c :
  in_scope g s c ->
  negb (cgroup_filter g =? 0) &&
    (if hash_lookup (cgroup_map s) (cgroup_id c) is None then true else false) = false.
Proof.
  intros [->|[v ->]]; [done|]. by rewrite andb_false_r.
Qed.

(** Evaluate [sentinel_check] for a monitored task in scope, up to the
    module lookup. *)
Ltac check_start c Hm Hs :=
  unfold sentinel_check; fold (tgid_of c); fold (tid_of c);
  destruct Hm as [? ->]; rewrite (check_cgroup_skip _ _ _ Hs); cbn [prefixlen].

Lemma registry_rule s mid off :
  pv_rule (view_of s) mid off =
    match registry_lookup s mid with Some p => hash_lookup p off | None => None end.
Proof. done. Qed.

(** A permitted call produces at most an audit record. *)
Lemma check_permitted g s c nr site off m e :
  vma_wf (vma_map s) -> monitored s c -> in_scope g s c ->
  permits (view_of s) c nr site off m ->
  sentinel_check g s c nr e =
    (0, if audit_mode g =? 0 then e
        else {| ringbuf := ringbuf e ++
                  report c nr (if hash_lookup (cfi_policy s) off is Some _
                               then EVENT_CFI_OK else EVENT_ALLOW)
                    site off (module_id m);
                signals := signals e; trace := trace e |}).
Proof.
  intros Hwf Hm Hs [(ip & Hip & ->) Hmod -> (v & Hr & Ha) Hc].
  check_start c Hm Hs. rewrite Hip, vma_lookup_block by done.
  cbn [pv_module pv_cfi view_of] in *. rewrite registry_rule in Hr. rewrite Hmod.
  destruct (registry_lookup s (module_id m)); [|done]. rewrite Hr, nr_test_spec.
  rewrite bool_decide_false by tauto. rewrite !emit_audit_effects by done.
  destruct (hash_lookup (cfi_policy s) _) as [r|]; [|by destruct (audit_mode g =? 0)].
  destruct (Hc r eq_refl) as (H1 & H2 & H3).
  rewrite !(proj2 (Z.leb_le _ _)) by done. by destruct (audit_mode g =? 0).
Qed.

(** A denied call produces one trace line, the signal of the enforcement
    mode and one audit record. *)
Lemma check_denied g s c nr act rip off mid line e :
  vma_wf (vma_map s) -> monitored s c -> in_scope g s c ->
  denied (view_of s) c nr act rip off mid line ->
  sentinel_check g s c nr e =
    (0, {| ringbuf := ringbuf e ++ report c nr act rip off mid;
           signals := signals e ++ deny_signals g;
           trace := trace e ++ [line] |}).
Proof.
  intros Hwf Hm Hs Hd. check_start c Hm Hs.
  destruct Hd as [Hip|ip site Hip -> Hmod|ip site off m Hip -> Hmod -> Hp Hr|ip site off m Hip -> Hmod -> Hp Hr
    |ip site off m v Hip -> Hmod -> Hr Ha|ip site off m v r Hip -> Hmod -> Hr Ha Hc Hst
    |ip site off m v r Hip -> Hmod -> Hr Ha Hc Hst Hcal];
    rewrite Hip; [by rewrite deny_action_effects|..];
    rewrite vma_lookup_block by done; cbn [pv_module pv_cfi pv_policy view_of] in *;
    rewrite Hmod; [by rewrite deny_action_effects|..];
    rewrite registry_rule in Hr; destruct (registry_lookup s (module_id m)); try done;
    rewrite ?Hr, ?nr_test_spec; try (by rewrite deny_action_effects).
  - rewrite bool_decide_true by done. by rewrite deny_action_effects.
  - rewrite bool_decide_false by tauto. rewrite Hc, (proj2 (Z.leb_gt _ _)) by done.
    by rewrite deny_action_effects.
  - rewrite bool_decide_false by tauto. rewrite Hc, (proj2 (Z.leb_le 16 _)) by done.
    rewrite !deny_action_effects by done. unfold caller_admitted in Hcal.
    destruct (Z.leb_spec (start r) (u64 (nth 1 (stack c) 0 - base_addr m))); simpl; [|done].
    destruct (Z.leb_spec (u64 (nth 1 (stack c) 0 - base_addr m)) (end_ r)); [tauto|done].
Qed.

(** What module [m] allows: its policy map has a rule for the site that
    admits the number, and the site's CFI rule, if any, admits the caller. *)
Definition module_allows (s : bpf_maps) (p : bpf_hash Z) (base : Z) (c : hook_ctx) (nr off : Z) : Prop :=
  (exists v, hash_lookup p off = Some v /\ rule_admits v nr) /\
  (forall r, hash_lookup (cfi_policy s) off = Some r -> caller_admitted c base r).

(** A monitored call from a module with a policy map is decided by that
    map and the CFI policy. *)
Lemma check_module g s c nr ip m p e :
  vma_wf (vma_map s) -> monitored s c -> in_scope g s c -> pt_regs_ip c = Some ip ->
  block_module (vma_map s) (u64 (ip - 2)) = Some m -> registry_lookup s (module_id m) = Some p ->
  let allowed := module_allows s p (base_addr m) c nr (u64 (u64 (ip - 2) - base_addr m)) in
  (allowed -> signals (sentinel_check g s c nr e).2 = signals e) /\
  (~ allowed -> signals (sentinel_check g s c nr e).2 = signals e ++ deny_signals g).
Proof.
  intros Hwf Hm Hs Hip Hmod Hp allowed.
  assert (forall off, pv_rule (view_of s) (module_id m) off = hash_lookup p off) as Hrule
    by (intros off; cbn; by rewrite Hp).
  split; intros Ha.
  - destruct Ha as [Hv Hc]. erewrite check_permitted; [by destruct (audit_mode g =? 0)|done..|].
    split; [by exists ip|done|done|by rewrite Hrule|done].
  - destruct (permits_or_denied (view_of s) c nr) as [(site & off & m' & [(ip' & Hip' & ->) Hm' -> Hv Hc])
      |(act & rip & off & mid & line & Hd)].
    + destruct Ha. cbn [pv_module pv_cfi view_of] in Hm', Hc. simplify_eq. rewrite Hrule in Hv. by split.
    + by rewrite (check_denied g s c nr _ _ _ _ _ e Hwf Hm Hs Hd).
Qed.

(** A task the enforcer does not track is ignored unless system-wide mode is
    on, where the fallback allow-list decides by number. *)
Lemma check_unmonitored g s c nr e :
  ~ monitored s c ->
  sentinel_check g s c nr e =
    (0, if (system_wide g =? 0) then e
        else match hash_lookup (fallback_policy s) nr with
        | Some _ => e
        | None => deny_action g c (tgid_of c) (tid_of c) 0 0 0 nr EVENT_BLOCK e
        end).
Proof.
  unfold monitored, sentinel_check. fold (tgid_of c) (tid_of c). intros Hm.
  destruct (hash_lookup (target_pid_map s) (tgid_of c)); [by destruct Hm|].
  by repeat case_match.
Qed.

End Spec.
