(* ===== verification/EnforcerProps.v ===== *)
(** * Properties of the enforcer

    The correctness theorems of sentinel.bpf.c, each with a run on concrete
    maps. *)
From S2P Require Import Prelude Shared BpfMaps Enforcer EnforcerSpec.

(** ** Lemmas on every hook *)

Section Hooks.
Context {B : BpfOps}.

(** A property of a hook's output holds of [sys_enter] once it holds of doing
    nothing, of the core check and of an unconditional denial of a monitored
    task. *)
Lemma sys_enter_ind (P : effects -> Prop) g s c name e :
  P e ->
  (forall nr, P (sentinel_check g s c nr e).2) ->
  (forall l nr, monitored s c ->
    P (deny_action g c (tgid_of c) (tid_of c) 0 0 0 nr EVENT_BLOCK (bpf_printk l e))) ->
  P (sys_enter g s c name e).
Proof.
  intros He Hc Hd. unfold sys_enter.
  destruct (list_find (fun h => h.1 = name) hooks) as [[i h]|] eqn:E; [|done].
  apply list_find_Some in E as (Hl & _).
  enough (Forall (fun h => P (h.2 g s c e).2) hooks) as Hh
    by exact (proj1 (Forall_lookup _ _) Hh i h Hl).
  assert (P (sentinel_process_vm_writev_check g s c e).2 /\
    P (sentinel_seccomp_check g s c e).2) as [? ?].
  { unfold sentinel_process_vm_writev_check, sentinel_seccomp_check. fold (tgid_of c) (tid_of c).
    unfold monitored in Hd. destruct (hash_lookup _ _); eauto. }
  unfold hooks. repeat apply Forall_cons_2; try apply Forall_nil_2; cbn [snd];
    first [assumption | apply Hc].
Qed.

Lemma check_signals g s c nr e :
  signals (sentinel_check g s c nr e).2 = signals e \/
  signals (sentinel_check g s c nr e).2 = signals e ++ deny_signals g.
Proof.
  unfold sentinel_check. fold (tgid_of c) (tid_of c).
  repeat case_match; cbn [snd]; rewrite ?deny_action_effects, ?emit_audit_effects by done; auto.
Qed.

Definition with_room (b : bool) (c : hook_ctx) : hook_ctx :=
  {| pid_tgid := pid_tgid c; cgroup_id := cgroup_id c; pt_regs_ip := pt_regs_ip c;
     stack_ret := stack_ret c; stack := stack c; ktime := ktime c;
     ringbuf_has_room := b |}.

(** Equal up to the ring buffer. *)
Definition same_enforcement (e1 e2 : effects) : Prop :=
  signals e1 = signals e2 /\ trace e1 = trace e2.

Lemma deny_same g c b a1 a2 a3 a4 a5 a6 a7 e :
  same_enforcement (deny_action g (with_room b c) a1 a2 a3 a4 a5 a6 a7 e)
    (deny_action g c a1 a2 a3 a4 a5 a6 a7 e).
Proof.
  unfold deny_action, emit_audit, same_enforcement. simpl.
  destruct b, (ringbuf_has_room c); repeat case_match; done.
Qed.

Lemma emit_same c b a1 a2 a3 a4 a5 a6 a7 e :
  same_enforcement (emit_audit (with_room b c) a1 a2 a3 a4 a5 a6 a7 e)
    (emit_audit c a1 a2 a3 a4 a5 a6 a7 e).
Proof.
  unfold emit_audit, same_enforcement. simpl. by destruct b, (ringbuf_has_room c).
Qed.

Lemma check_same g s c b nr e :
  same_enforcement (sentinel_check g s (with_room b c) nr e).2 (sentinel_check g s c nr e).2.
Proof.
  unfold sentinel_check. cbn [with_room pid_tgid cgroup_id pt_regs_ip stack_ret stack].
  repeat case_match; cbn [snd]; auto using deny_same, emit_same; done.
Qed.

End Hooks.

(** ** A concrete machine

    Module 1 is mapped in the block at 0x555555500000 with base
    0x555555554000; its policy allows [write] at offset 0x1136 and any
    number at 0x1200, where the caller must lie in [0x1180, 0x11c0]; task
    4242 is monitored. *)
Module Demo.

Definition vma : bpf_lpm vma_value :=
  (lpm_update (lpm_new vma_value 512) 44
     (vma_key_data {| prefixlen := 44; addr := bswap64 0x555555500000 |})
     {| module_id := 1; base_addr := 0x555555554000 |}).1.

Definition main_policy : bpf_hash Z :=
  (hash_update (hash_update (hash_new Z 4096) 0x1136 (POLICY_FLAG_CHECK_NR + 1) BPF_ANY).1
     0x1200 1 BPF_ANY).1.

Definition maps : bpf_maps :=
  {| inner_maps := {[ 7 := main_policy ]};
     policy_registry := (aom_update (aom_new 64) 1 7).1;
     vma_map := vma;
     target_pid_map := (hash_update (hash_new Z 64) 4242 1 BPF_ANY).1;
     cfi_policy := (hash_update (hash_new cfi_range 1024) 0x1200
                      {| start := 0x1180; end_ := 0x11c0 |} BPF_ANY).1;
     cgroup_map := hash_new _ 256;
     learn_map := hash_new _ 8192;
     fallback_policy := (hash_update (hash_new Z 512) 0 1 BPF_ANY).1;
     lib_allow_map := hash_new _ 256 |}.

(** The task at instruction pointer [ip], called from [caller]. *)
Definition task (tgid ip caller : Z) : hook_ctx :=
  {| pid_tgid := tgid * 2 ^ 32 + tgid; cgroup_id := 1; pt_regs_ip := Some ip;
     stack_ret := 32; stack := [ip; caller; 0; 0]; ktime := 99;
     ringbuf_has_room := true |}.

Definition good : hook_ctx := task 4242 0x555555555138 0x555555555170.
Definition rogue : hook_ctx := task 4242 0x555555555140 0x555555555170.

Lemma vma_ok : vma_wf vma.
Proof.
  intros p v H. unfold vma in H. rewrite lpm_update_ok in H by (vm_compute; reflexivity).
  case_decide as E.
  - rewrite <- E. vm_compute. reflexivity.
  - by rewrite lpm_new_view in H.
Qed.

Lemma good_monitored : monitored maps good.
Proof. exists 1. vm_compute. reflexivity. Qed.

Lemma rogue_monitored : monitored maps rogue.
Proof. exists 1. vm_compute. reflexivity. Qed.

Lemma all_in_scope c : in_scope default_config maps c.
Proof. by left. Qed.

Lemma good_permits :
  permits (view_of maps) good 1 0x555555555136 0x1136
    {| module_id := 1; base_addr := 0x555555554000 |}.
Proof.
  split.
  - exists 0x555555555138. split; vm_compute; reflexivity.
  - vm_compute. reflexivity.
  - vm_compute. reflexivity.
  - exists (POLICY_FLAG_CHECK_NR + 1). split; vm_compute; reflexivity.
  - intros r H. vm_compute in H. discriminate H.
Qed.

Lemma rogue_denied :
  denied (view_of maps) rogue 1 EVENT_BLOCK 0x55555555513e 0x113e 1 (PkVioOffset 4242 1 0x113e).
Proof.
  change 4242 with (tid_of rogue). eapply (denied_no_rule _ _ _ 0x555555555140 0x55555555513e 0x113e
    {| module_id := 1; base_addr := 0x555555554000 |}); vm_compute; reflexivity.
Qed.

End Demo.

(** ** Theorems *)

Section Theorems.
Context {B : BpfOps}.

(** C2: For a monitored task in scope, [sentinel_check] sends no signal when
    the policy permits the call (site, number and caller) and sends exactly
    the signal of the enforcement mode when it does not. *)
Theorem check_enforces_policy {L : BpfLaws B} g s c nr e :
  vma_wf (vma_map s) -> monitored s c -> in_scope g s c ->
  (permitted (view_of s) c nr -> signals (sentinel_check g s c nr e).2 = signals e) /\
  (~ permitted (view_of s) c nr ->
   signals (sentinel_check g s c nr e).2 = signals e ++ deny_signals g).
Proof.
  intros Hwf Hm Hs. split; intros Hp.
  - destruct Hp as (site & off & m & Hp). rewrite (check_permitted _ _ _ _ _ _ _ _ Hwf Hm Hs Hp).
    simpl. by case_match.
  - destruct (permits_or_denied (view_of s) c nr) as [|(act & rip & off & mid & line & Hd)]; [done|].
    by rewrite (check_denied _ _ _ _ _ _ _ _ _ e Hwf Hm Hs Hd).
Qed.


(** On the fast path (permitted call, audit mode off) the check writes
    nothing: no audit record, no trace line, no signal. *)
Theorem check_fast_path_silent {L : BpfLaws B} g s c nr e :
  vma_wf (vma_map s) -> monitored s c -> in_scope g s c ->
  audit_mode g = 0 -> permitted (view_of s) c nr ->
  sentinel_check g s c nr e = (0, e).
Proof.
  intros Hwf Hm Hs Ha (site & off & m & Hp).
  rewrite (check_permitted _ _ _ _ _ _ _ _ Hwf Hm Hs Hp). by rewrite Ha.
Qed.

Lemma sys_enter_unmonitored g s c name e :
  system_wide g = 0 -> ~ monitored s c -> sys_enter g s c name e = e.
Proof.
  intros Hsw Hm. apply (sys_enter_ind (fun e' => e' = e)); [done| |done].
  intros nr. by rewrite check_unmonitored, Hsw.
Qed.

(** With system-wide mode off, no system call of a task the loader did
    not register produces any output, whatever the maps hold. *)
Theorem unmonitored_untouched g s c name e :
  system_wide g = 0 -> ~ monitored s c -> sys_enter g s c name e = e.
Proof. apply sys_enter_unmonitored. Qed.

(** C27: A hook sends at most one signal, and only the one its enforcement
    mode prescribes: SIGKILL, SIGTERM, or none in permissive mode. *)
Theorem signals_by_mode g s c name e :
  signals (sys_enter g s c name e) = signals e \/
  signals (sys_enter g s c name e) = signals e ++ deny_signals g.
Proof.
  apply (sys_enter_ind (fun e' => signals e' = signals e \/
    signals e' = signals e ++ deny_signals g)); [by left|intros nr; apply (check_signals g s c nr e)|].
  intros l nr _. right. by rewrite deny_action_effects.
Qed.

(** C28: A full ring buffer loses audit records and nothing else: signals and
    trace lines of every hook are the same with or without room. *)
Theorem enforcement_ignores_ringbuf g s c b name e :
  same_enforcement (sys_enter g s (with_room b c) name e) (sys_enter g s c name e).
Proof.
  unfold sys_enter. destruct (list_find _ hooks) as [[i h]|] eqn:E; [|done].
  apply list_find_Some in E as (Hl & _).
  enough (Forall (fun h => same_enforcement (h.2 g s (with_room b c) e).2 (h.2 g s c e).2) hooks)
    as Hh by exact (proj1 (Forall_lookup _ _) Hh i h Hl).
  unfold hooks. repeat apply Forall_cons_2; try apply Forall_nil_2; cbn [snd];
    try apply check_same.
  - unfold sentinel_process_vm_writev_check. cbn [with_room pid_tgid].
    case_match; [apply deny_same|done].
  - unfold sentinel_seccomp_check. cbn [with_room pid_tgid].
    case_match; [apply deny_same|done].
Qed.


(** In system-wide mode a task that is not registered is denied exactly
    the numbers missing from the fallback allow-list. *)
Theorem system_wide_fallback g s c nr e :
  ~ monitored s c -> system_wide g <> 0 ->
  signals (sentinel_check g s c nr e).2 =
    match hash_lookup (fallback_policy s) nr with
    | Some _ => signals e
    | None => signals e ++ deny_signals g
    end.
Proof.
  intros Hm Hsw. rewrite check_unmonitored by done.
  rewrite (proj2 (Z.eqb_neq _ _)) by done. simpl.
  destruct (hash_lookup _ _); [done|]. by rewrite deny_action_effects.
Qed.

End Theorems.

(** ** Witnesses *)

Lemma check_enforces_policy_witness :
  signals (sentinel_check default_config Demo.maps Demo.good 1 no_effects).2 = [] /\
  signals (sentinel_check default_config Demo.maps Demo.rogue 1 no_effects).2 = [9].
Proof.
  split.
  - apply (check_enforces_policy default_config Demo.maps Demo.good 1 no_effects Demo.vma_ok
      Demo.good_monitored (Demo.all_in_scope _)).
    exact (ex_intro _ _ (ex_intro _ _ (ex_intro _ _ Demo.good_permits))).
  - apply (check_enforces_policy default_config Demo.maps Demo.rogue 1 no_effects Demo.vma_ok
      Demo.rogue_monitored (Demo.all_in_scope _)).
    exact (denied_not_permitted _ _ _ _ _ _ _ _ Demo.rogue_denied).
Defined.


Lemma check_fast_path_silent_witness :
  sentinel_check default_config Demo.maps Demo.good 1 no_effects = (0, no_effects).
Proof.
  apply (check_fast_path_silent default_config Demo.maps Demo.good 1 no_effects Demo.vma_ok
    Demo.good_monitored (Demo.all_in_scope _)); [reflexivity|].
  exact (ex_intro _ _ (ex_intro _ _ (ex_intro _ _ Demo.good_permits))).
Defined.

Lemma unmonitored_untouched_witness :
  sys_enter default_config Demo.maps (Demo.task 77 0x1000 0) "execve" no_effects = no_effects.
Proof.
  apply (unmonitored_untouched default_config Demo.maps (Demo.task 77 0x1000 0) "execve" no_effects).
  - reflexivity.
  - intros [v Hv]. vm_compute in Hv. discriminate Hv.
Defined.


Definition system_wide_config : config :=
  {| audit_mode := 0; fexit_mode := 0; enforce_mode := 2; learn_mode := 0;
     shadow_cfi := 0; system_wide := 1; cgroup_filter := 0 |}.

Lemma system_wide_fallback_witness :
  signals (sentinel_check system_wide_config Demo.maps (Demo.task 77 0x1000 0) 59 no_effects).2
  = [15].
Proof.
  apply (system_wide_fallback system_wide_config Demo.maps (Demo.task 77 0x1000 0) 59 no_effects).
  - intros [v Hv]. vm_compute in Hv. discriminate Hv.
  - discriminate.
Defined.
