(* ===== verification/CLib.v ===== *)
(** * The C library functions the loader uses on text

    Strings are NUL-free [string]s.  [fgets_lines] is the sequence of buffers
    a [while (fgets(line, size, fp))] loop sees; [sscanf_lx] is one ["%lx"]
    conversion. *)
From S2P Require Import Prelude.
From Stdlib Require Import Ascii.

(** ** Searching *)

Definition strcmp_eq (a b : string) : bool := String.eqb a b.

(** [strstr(hay, needle) != NULL]. *)
Fixpoint strstr (hay needle : string) : bool :=
  String.prefix needle hay ||
  match hay with
  | EmptyString => false
  | String _ hay => strstr hay needle
  end.

(** The suffix of [s] from the first occurrence of [c]. *)
Fixpoint strchr (s : string) (c : ascii) : option string :=
  match s with
  | EmptyString => None
  | String d s' => if Ascii.eqb d c then Some s else strchr s' c
  end.

(** The suffix of [s] from the last occurrence of [c]. *)
Fixpoint strrchr (s : string) (c : ascii) : option string :=
  match s with
  | EmptyString => None
  | String d s' =>
      match strrchr s' c with
      | Some r => Some r
      | None => if Ascii.eqb d c then Some s else None
      end
  end.

(** The text before the first occurrence of [c]: writing NUL there. *)
Fixpoint cut_at (s : string) (c : ascii) : string :=
  match s with
  | EmptyString => EmptyString
  | String d s' => if Ascii.eqb d c then EmptyString else String d (cut_at s' c)
  end.

(** [strncpy(out, s, size - 1); out[size - 1] = 0]. *)
Definition strncpy_term (s : string) (size : nat) : string :=
  String.substring 0 (size - 1) s.

Definition newline : ascii := "010"%char.
Definition slash : ascii := "/"%char.
Definition space : ascii := " "%char.
Definition zero_char : ascii := "0"%char.

(** ** Reading lines *)

(** [room] characters may still be stored in the current buffer. *)
Fixpoint fgets_from (cap room : nat) (cur : string) (s : string) : list string :=
  match s with
  | EmptyString => if String.eqb cur "" then [] else [cur]
  | String c s =>
      let cur := String.append cur (String c EmptyString) in
      if Ascii.eqb c newline || (room <=? 1)%nat
      then cur :: fgets_from cap cap "" s
      else fgets_from cap (room - 1) cur s
  end.

(** The buffers of [while (fgets(line, size, fp))]. *)
Definition fgets_lines (size : nat) (content : string) : list string :=
  fgets_from (size - 1) (size - 1) "" content.

(** ** Scanning hexadecimal numbers *)

Definition is_space (c : ascii) : bool :=
  let n := Ascii.nat_of_ascii c in ((9 <=? n)%nat && (n <=? 13)%nat) || (n =? 32)%nat.

Definition hex_digit (c : ascii) : option Z :=
  let n := Z.of_nat (Ascii.nat_of_ascii c) in
  if (48 <=? n) && (n <=? 57) then Some (n - 48)
  else if (97 <=? n) && (n <=? 102) then Some (n - 87)
  else if (65 <=? n) && (n <=? 70) then Some (n - 55)
  else None.

Fixpoint skip_spaces (s : string) : string :=
  match s with
  | EmptyString => EmptyString
  | String c s' => if is_space c then skip_spaces s' else s
  end.

(** The longest run of hexadecimal digits, its value and what follows. *)
Fixpoint hex_run (acc : Z) (s : string) : Z * string :=
  match s with
  | EmptyString => (acc, s)
  | String c s' =>
      match hex_digit c with
      | Some d => hex_run (16 * acc + d) s'
      | None => (acc, s)
      end
  end.

Definition starts_hex (s : string) : bool :=
  match s with
  | String c _ => if hex_digit c is Some _ then true else false
  | EmptyString => false
  end.

(** A ["%lx"] conversion: white space, a sign, an optional [0x], digits.
    Values out of range saturate, as [strtoul] does. *)
Definition sscanf_lx (s : string) : option (Z * string) :=
  let s := skip_spaces s in
  let '(neg, s) :=
    match s with
    | String c s' =>
        if Ascii.eqb c "-"%char then (true, s')
        else if Ascii.eqb c "+"%char then (false, s')
        else (false, s)
    | EmptyString => (false, s)
    end in
  let s :=
    match s with
    | String z (String x s') =>
        if Ascii.eqb z "0"%char && (Ascii.eqb x "x"%char || Ascii.eqb x "X"%char) then s' else s
    | _ => s
    end in
  if starts_hex s then
    let '(v, rest) := hex_run 0 s in
    let v := if v <? 2 ^ 64 then (if (neg : bool) then u64 (- v) else v) else 2 ^ 64 - 1 in
    Some (v, rest)
  else None.

(** ["%lx-%lx"]: the bounds, when both conversions succeed. *)
Definition sscanf_range (s : string) : option (Z * Z) :=
  match sscanf_lx s with
  | Some (a, String c rest) =>
      if Ascii.eqb c "-"%char then
        match sscanf_lx rest with
        | Some (b, _) => Some (a, b)
        | None => None
        end
      else None
  | _ => None
  end.

(** ** Formatting numbers *)

Definition digit_char (d : Z) : ascii :=
  Ascii.ascii_of_nat (Z.to_nat (if d <? 10 then 48 + d else 87 + d)).

(** The digits of [z], most significant first, in front of [acc]; at most
    [k] of them. *)
Fixpoint digits (k : nat) (base z : Z) (acc : string) : string :=
  match k with
  | O => acc
  | S k =>
      let acc := String (digit_char (z mod base)) acc in
      if z / base =? 0 then acc else digits k base (z / base) acc
  end.

(** ["%lx"], ["%zu"] and ["%d"]: a 64-bit value has at most 16 hexadecimal
    and 20 decimal digits, a 32-bit one at most 10 decimal digits. *)
Definition fmt_lx (z : Z) : string := digits 16 16 z EmptyString.
Definition fmt_zu (z : Z) : string := digits 20 10 z EmptyString.
Definition fmt_d (z : Z) : string :=
  if z <? 0 then String "-"%char (digits 10 10 (- z) EmptyString) else digits 10 10 z EmptyString.

Fixpoint repeat_char (n : nat) (c : ascii) : string :=
  match n with O => EmptyString | S n => String c (repeat_char n c) end.

(** Field widths: ["%0<w>"] and ["%<w>"] pad on the left, ["%-<w>"] on the right. *)
Definition pad_left (w : nat) (c : ascii) (s : string) : string :=
  String.append (repeat_char (w - String.length s) c) s.
Definition pad_right (w : nat) (s : string) : string :=
  String.append s (repeat_char (w - String.length s) " "%char).

(** The output of a sequence of [printf] arguments. *)
Definition cat (l : list string) : string := String.concat EmptyString l.

Definition quote : string := String "034"%char EmptyString.
Definition nl : string := String newline EmptyString.
Definition quoted (s : string) : string := cat [quote; s; quote].

(** ** Lemmas *)

Lemma sscanf_lx_range s v rest : sscanf_lx s = Some (v, rest) -> is_u64 v.
Proof.
  unfold sscanf_lx. intros H.
  match type of H with context [let '(_, _) := ?m in _] => destruct m as [neg s1] end.
  match type of H with context [starts_hex ?t] => set (t2 := t) in * end.
  destruct (starts_hex t2); [|done]. destruct (hex_run 0 t2) as [w r] eqn:E.
  injection H as <- _.
  assert (forall t acc, 0 <= acc -> 0 <= (hex_run acc t).1) as Hnn.
  { intros t. induction t as [|c t IH]; intros acc Ha; simpl; [done|].
    destruct (hex_digit c) as [d|] eqn:Ed; [|done]. apply IH.
    unfold hex_digit in Ed. zcase; simplify_eq; lia. }
  specialize (Hnn t2 0 ltac:(lia)). rewrite E in Hnn. simpl in Hnn. unfold is_u64.
  destruct (Z.ltb_spec w (2 ^ 64)); [|lia]. destruct neg; [apply u64_range|lia].
Qed.

Lemma sscanf_range_bounds s a b : sscanf_range s = Some (a, b) -> is_u64 a /\ is_u64 b.
Proof.
  unfold sscanf_range. intros H. repeat case_match; simplify_eq.
  eauto using sscanf_lx_range.
Qed.

(** ** Printing a number and reading it back *)

Lemma hex_digit_char d : 0 <= d < 16 -> hex_digit (digit_char d) = Some d.
Proof.
  intros H. assert (forallb (fun d => bool_decide (hex_digit (digit_char d) = Some d))
    (map Z.of_nat (List.seq 0 16)) = true) as Hall by (vm_compute; reflexivity).
  rewrite forallb_forall in Hall. specialize (Hall d).
  eapply bool_decide_eq_true_1, Hall. apply List.in_map_iff. exists (Z.to_nat d).
  split; [lia|]. apply List.in_seq. lia.
Qed.

(** Reading [digits k 16 z acc] consumes the digits of [z] and goes on. *)
Lemma hex_run_digits k z acc v :
  0 <= z < 16 ^ Z.of_nat k -> (0 < k)%nat ->
  exists n, 0 <= n /\ hex_run v (digits k 16 z acc) = hex_run (v * 16 ^ n + z) acc.
Proof.
  revert z acc v. induction k as [|k IH]; intros z acc v Hz Hk; [lia|].
  cbn [digits]. pose proof (Z.mod_pos_bound z 16).
  destruct (Z.eqb_spec (z / 16) 0) as [E|E].
  - exists 1. split; [lia|]. cbn [hex_run]. rewrite hex_digit_char by lia.
    f_equal. pose proof (Z.div_mod z 16). lia.
  - assert (0 <= z / 16 < 16 ^ Z.of_nat k) as Hd.
    { split; [apply Z.div_pos; lia|]. apply Z.div_lt_upper_bound; [lia|].
      rewrite <- Z.pow_succ_r, <- Nat2Z.inj_succ by lia. lia. }
    destruct k as [|k]; [change (16 ^ Z.of_nat 0) with 1 in Hd; lia|].
    destruct (IH (z / 16) (String (digit_char (z mod 16)) acc) v Hd) as (n & Hn & ->); [lia|].
    exists (n + 1). split; [lia|]. cbn [hex_run]. rewrite hex_digit_char by lia.
    f_equal. rewrite Z.pow_add_r by lia. pose proof (Z.div_mod z 16). lia.
Qed.

Lemma append_cons c (s t : string) : String.append (String c s) t = String c (String.append s t).
Proof. done. Qed.

Lemma append_nil_l (s : string) : String.append EmptyString s = s.
Proof. done. Qed.

Lemma append_assoc (a b c : string) :
  String.append (String.append a b) c = String.append a (String.append b c).
Proof. induction a as [|x a IH]; [done|exact (f_equal (String x) IH)]. Qed.

Lemma digits_append k base z acc :
  digits k base z acc = String.append (digits k base z EmptyString) acc.
Proof.
  enough (forall acc acc', digits k base z (String.append acc acc') =
    String.append (digits k base z acc) acc') as H by apply (H EmptyString).
  revert z. induction k as [|k IH]; intros z a a'; cbn [digits]; [done|].
  destruct (_ =? 0); [done|]. apply (IH _ (String _ a)).
Qed.

Lemma hex_run_zeros n s : hex_run 0 (String.append (repeat_char n "0"%char) s) = hex_run 0 s.
Proof. induction n as [|n IH]; cbn; [done|]. apply IH. Qed.

(** The kernel's ["%08lx"] of an address, followed by [rest]. *)
Definition fmt_08lx (z : Z) : string := pad_left 8 "0"%char (fmt_lx z).

Definition no_hex (rest : string) : Prop := starts_hex rest = false.

Lemma hex_run_stop v rest : no_hex rest -> hex_run v rest = (v, rest).
Proof. destruct rest as [|c rest]; [done|]. unfold no_hex. simpl. by destruct (hex_digit c). Qed.

Lemma hex_run_fmt z rest :
  is_u64 z -> no_hex rest -> hex_run 0 (String.append (fmt_08lx z) rest) = (z, rest).
Proof.
  intros Hz Hr. unfold fmt_08lx, pad_left, fmt_lx.
  rewrite append_assoc, <- digits_append, hex_run_zeros.
  destruct (hex_run_digits 16 z rest 0) as (n & _ & ->); [exact Hz|lia|].
  rewrite Z.mul_0_l. by apply hex_run_stop.
Qed.

Fixpoint all_hex (s : string) : bool :=
  match s with
  | EmptyString => true
  | String c s => starts_hex (String c EmptyString) && all_hex s
  end.

Lemma all_hex_digits k z acc : all_hex acc = true -> all_hex (digits k 16 z acc) = true.
Proof.
  revert z acc. induction k as [|k IH]; intros z acc H; cbn [digits]; [done|].
  assert (all_hex (String (digit_char (z mod 16)) acc) = true) as Ha.
  { cbn [all_hex starts_hex]. rewrite hex_digit_char by (apply Z.mod_pos_bound; lia). done. }
  destruct (_ =? 0); auto.
Qed.

Lemma all_hex_pad w s :
  all_hex s = true ->
  all_hex (pad_left w "0"%char s) = true /\ (w <= String.length (pad_left w "0"%char s))%nat.
Proof.
  intros H. unfold pad_left. remember (w - String.length s)%nat as n eqn:En.
  assert (w <= n + String.length s)%nat as Hw by lia. clear En. revert w Hw.
  induction n as [|n IH]; intros w Hw; [split; [done|exact Hw]|].
  destruct (IH (w - 1)%nat) as [H1 H2]; [lia|]. split; [exact H1|].
  cbn [repeat_char]. change (w <= S (String.length (String.append (repeat_char n "0") s)))%nat. lia.
Qed.

(** The first two characters of a padded number are digits. *)
Lemma fmt_08lx_shape z rest :
  exists c d s, String.append (fmt_08lx z) rest = String c (String d s) /\
    is_Some (hex_digit c) /\ is_Some (hex_digit d).
Proof.
  destruct (all_hex_pad 8 (fmt_lx z)) as [Ha Hl]; [by apply all_hex_digits|].
  fold (fmt_08lx z) in *. destruct (fmt_08lx z) as [|c [|d s]]; cbn [String.length] in Hl; [lia..|].
  exists c, d, (String.append s rest). split; [done|]. cbn in Ha.
  destruct (hex_digit c), (hex_digit d); done.
Qed.

Lemma hex_digit_not c x : is_Some (hex_digit c) -> hex_digit x = None -> Ascii.eqb c x = false.
Proof. intros [d Hd] Hx. apply Ascii.eqb_neq. intros ->. congruence. Qed.

Lemma hex_not_space c : is_Some (hex_digit c) -> is_space c = false.
Proof.
  intros [d Hd]. unfold is_space, hex_digit in *.
  destruct (Nat.leb_spec 9 (Ascii.nat_of_ascii c)), (Nat.leb_spec (Ascii.nat_of_ascii c) 13),
    (Nat.eqb_spec (Ascii.nat_of_ascii c) 32); try done; zcase; done || lia.
Qed.

(** ["%lx"] reads back what ["%08lx"] printed. *)
Lemma sscanf_lx_fmt z rest :
  is_u64 z -> no_hex rest ->
  sscanf_lx (String.append (fmt_08lx z) rest) = Some (z, rest).
Proof.
  intros Hz Hr. pose proof (hex_run_fmt z rest Hz Hr) as Hrun.
  destruct (fmt_08lx_shape z rest) as (c & d & s & E & Hc & Hd). rewrite E in *.
  unfold sscanf_lx. cbn [skip_spaces]. rewrite hex_not_space by done.
  rewrite (hex_digit_not c "-"), (hex_digit_not c "+") by done. cbv iota beta zeta.
  rewrite (hex_digit_not d "x"), (hex_digit_not d "X"), andb_false_r by done. cbn [starts_hex].
  destruct Hc as [? ->]. rewrite Hrun. unfold is_u64 in Hz.
  by rewrite (proj2 (Z.ltb_lt _ _)) by lia.
Qed.

(** The start of a line of /proc/PID/maps. *)
Lemma sscanf_range_fmt a b rest :
  is_u64 a -> is_u64 b -> no_hex rest ->
  sscanf_range (cat [fmt_08lx a; "-"; fmt_08lx b; rest]) = Some (a, b).
Proof.
  intros Ha Hb Hr. unfold sscanf_range, cat. cbn [String.concat String.append].
  rewrite sscanf_lx_fmt by done.
  change (sscanf_lx (String.append (fmt_08lx b) rest) ≫= (fun '(v, _) => Some (a, v)) = Some (a, b)).
  by rewrite sscanf_lx_fmt.
Qed.

(** ** Lines that fit the buffer are read one by one *)

Lemma append_nil_r (s : string) : String.append s EmptyString = s.
Proof. induction s as [|x s IH]; [done|exact (f_equal (String x) IH)]. Qed.

Lemma fgets_from_line cap room cur l rest :
  strchr l newline = None -> (String.length l < room)%nat ->
  fgets_from cap room cur (String.append l (String newline rest)) =
  String.append cur (String.append l nl) :: fgets_from cap cap EmptyString rest.
Proof.
  revert room cur. induction l as [|x l IH]; intros room cur Hn Hl.
  - done.
  - cbn [strchr] in Hn. destruct (Ascii.eqb x newline) eqn:Ex; [done|].
    cbn [String.length] in Hl.
    change (String.append (String x l) (String newline rest))
      with (String x (String.append l (String newline rest))).
    cbn [fgets_from]. rewrite Ex, (proj2 (Nat.leb_gt room 1)) by lia. cbn [orb].
    rewrite IH by (done || lia). by rewrite append_assoc.
Qed.

Lemma fgets_lines_cons size l rest :
  strchr l newline = None -> (String.length l < size - 1)%nat ->
  fgets_lines size (String.append l (String newline rest)) =
  String.append l nl :: fgets_lines size rest.
Proof. intros. unfold fgets_lines. by rewrite fgets_from_line. Qed.
