(* ===== verification/Elf.v ===== *)
(** * The libelf view of a file

    The program reads ELF files through libelf only.  What the library
    answers about one file is a value of [elf_file]; [elf_env] says what it
    answers for every path.  Nothing is assumed of the answers beyond their
    types, except where a theorem names [data_ok]. *)
From S2P Require Import Prelude.

Definition SHT_PROGBITS : Z := 1.
Definition SHT_SYMTAB : Z := 2.
Definition SHT_NOBITS : Z := 8.
Definition SHT_DYNSYM : Z := 11.
Definition SHF_EXECINSTR : Z := 4.
Definition STT_FUNC : Z := 2.
Definition PT_LOAD : Z := 1.

Definition GELF_ST_TYPE (info : Z) : Z := Z.land info 15.

(** [elf_getdata]: [d_buf] is NULL for a section without bytes in the file. *)
Record elf_data := {
  d_buf : option (list Z);
  d_size : Z;
}.

(** [gelf_getsym], with the name [elf_strptr] gives for it. *)
Record elf_sym := {
  sym_name : option string;
  st_info : Z;
  st_value : Z;
  st_size : Z;
}.

(** [gelf_getshdr], with the section's name, data and symbols. *)
Record elf_scn := {
  scn_name : option string;
  sh_type : Z;
  sh_flags : Z;
  sh_addr : Z;
  sh_size : Z;
  sh_entsize : Z;
  scn_data : option elf_data;
  scn_syms : list elf_sym;
}.

Record elf_phdr := {
  p_type : Z;
  p_vaddr : Z;
}.

(** [phdrs] are the answers of [gelf_getphdr] for the indices below
    [elf_getphdrnum]. *)
Record elf_file := {
  phdrs : list (option elf_phdr);
  shdrstrndx_ok : bool;
  scns : list elf_scn;
}.

Inductive elf_open :=
| OpenFails
| BeginFails
| Opened (f : elf_file).

Record elf_env := {
  elf_version_ok : bool;
  elf_image : string -> elf_open;
}.

(** [gelf_getsym(data, i, &sym)] into a fresh [sym]: reading [sym] after a
    failed call reads an object that was never written. *)
Definition getsym (s : elf_scn) (i : nat) : res elf_sym :=
  match scn_syms s !! i with
  | Some y => Ok y
  | None => Fault Uninitialised
  end.

(** [(int)(shdr.sh_size / shdr.sh_entsize)]. *)
Definition symbol_count (s : elf_scn) : res Z :=
  if sh_entsize s =? 0 then Fault DivByZero
  else Ok (i32 (sh_size s / sh_entsize s)).

(** [d_buf] holds [d_size] bytes (libelf's contract for file-backed data). *)
Definition data_ok (d : elf_data) : Prop :=
  exists buf, d_buf d = Some buf /\ Z.of_nat (length buf) = d_size d /\ bytes_ok buf.
