(* ===== verification/LoaderElf.v ===== *)
(** * src/runtime/loader.c: reading ELF files

    The functions of the loader that extract policy entries, CFI entries,
    syscall sites and libc symbols from ELF files. *)
From S2P Require Import Prelude Shared Elf.

Definition MAX_POLICY_ENTRIES : Z := 4096.
Definition LIBC_SCAN_DEFAULT : Z := 128.
Definition DEFAULT_FUNC_SIZE : Z := 256.

Definition sentinel_policy_entry : struct :=
  {| s_packed := false; s_members := [scalar "site_addr" 8; scalar "func_addr" 8; scalar "syscall_nr" 8] |}.
Definition sentinel_cfi_entry : struct :=
  {| s_packed := false; s_members := [scalar "site_addr" 8; scalar "func_addr" 8] |}.

Definition policy_entry_size : Z := sizeof sentinel_policy_entry.
Definition cfi_entry_size : Z := sizeof sentinel_cfi_entry.

(** ** parse_sentinel_section *)

(** The result: the return value, the filled prefix of [offsets] and
    [syscall_nrs], and the out-parameters ([None] when not written). *)
Record parse_result := {
  ps_ret : Z;
  ps_entries : list (Z * Z);
  ps_text_base : option Z;
  ps_load_base : option Z;
}.

(** The virtual address of the first PT_LOAD segment. *)
Fixpoint first_load (ps : list (option elf_phdr)) : option Z :=
  match ps with
  | [] => None
  | Some p :: ps => if p_type p =? PT_LOAD then Some (p_vaddr p) else first_load ps
  | None :: ps => first_load ps
  end.

(** The decoded syscall number: -1 for "any". *)
Definition decode_nr (syscall_nr : Z) : Z := if 0 <? syscall_nr then syscall_nr - 1 else -1.

(** [for (int i = 0; i < n && count < max_entries; i++)]; [k] is [n - i]. *)
Fixpoint parse_entries (buf : option (list Z)) (max : Z) (k : nat) (i : Z)
    (acc : list (Z * Z)) : res (list (Z * Z)) :=
  match k with
  | O => Ok acc
  | S k =>
      if Z.of_nat (length acc) <? max then
        match buf with
        | None => Fault NullDeref
        | Some b =>
            let p := i * policy_entry_size in
            let* site := load_field sentinel_policy_entry b p "site_addr" in
            if site =? 0 then parse_entries buf max k (i + 1) acc
            else
              let* nr := load_field sentinel_policy_entry b p "syscall_nr" in
              let* _ := load_field sentinel_policy_entry b p "func_addr" in
              parse_entries buf max k (i + 1) (acc ++ [(site, decode_nr (i64 nr))])
        end
      else Ok acc
  end.

(** The section scan: the last [.sentinel] and [.text] win. *)
Definition find_policy_sections (l : list elf_scn) : option elf_data * Z :=
  foldl (fun '(d, t) s =>
    match scn_name s with
    | None => (d, t)
    | Some n =>
        (if String.eqb n ".sentinel" then scn_data s else d,
         if String.eqb n ".text" then sh_addr s else t)
    end) (None, 0) l.

Definition parse_sentinel_section (env : elf_env) (path : string) (max : Z)
    : res parse_result :=
  let fail r lb := Ok {| ps_ret := r; ps_entries := []; ps_text_base := None; ps_load_base := lb |} in
  if negb (elf_version_ok env) then fail (-1) None
  else match elf_image env path with
  | OpenFails => fail (-1) None
  | BeginFails => fail 0 None
  | Opened f =>
      let elf_load_base := default 0 (first_load (phdrs f)) in
      if negb (shdrstrndx_ok f) then fail 0 (Some elf_load_base)
      else
        let '(data, text_addr) := find_policy_sections (scns f) in
        match data with
        | None => fail 0 (Some elf_load_base)
        | Some d =>
            if d_size d =? 0 then fail 0 (Some elf_load_base)
            else
              let n := i32 (d_size d / policy_entry_size) in
              let* es := parse_entries (d_buf d) max (Z.to_nat n) 0 [] in
              Ok {| ps_ret := Z.of_nat (length es); ps_entries := es;
                    ps_text_base := Some text_addr; ps_load_base := Some elf_load_base |}
        end
  end.

(** ** Scanning code for the syscall opcode 0f 05 *)

(** [for (j = 0; j + 1 < limit && count < max; j++)] over
    [bytes = buf + start], appending [base + j] for each hit.  One step per
    byte of the buffer is enough: a further step would read past its end. *)
Fixpoint scan_loop (buf : list Z) (start base limit max : Z) (k : nat) (j : Z)
    (acc : list Z) : res (list Z) :=
  match k with
  | O => Ok acc
  | S k =>
      if (j + 1 <? limit) && (Z.of_nat (length acc) <? max) then
        let* b0 := load8 buf (start + j) in
        let* hit :=
          (if b0 =? 0x0f
           then let* b1 := load8 buf (start + j + 1) in Ok (b1 =? 0x05)
           else Ok false) in
        scan_loop buf start base limit max k (j + 1)
          (if hit : bool then acc ++ [u64 (base + j)] else acc)
      else Ok acc
  end.

Definition scan_bytes (buf : list Z) (start base limit max : Z) (acc : list Z) : res (list Z) :=
  scan_loop buf start base limit max (S (length buf)) 0 acc.

(** ** resolve_libc_syscall_sites *)

(** The loop over one symbol table; the first match wins. *)
Fixpoint find_symbol_from (s : elf_scn) (name : string) (k i : nat) : res (option (Z * Z)) :=
  match k with
  | O => Ok None
  | S k =>
      let* y := getsym s i in
      if (if sym_name y is Some n then String.eqb n name else false) && negb (st_value y =? 0)
      then Ok (Some (st_value y, st_size y))
      else find_symbol_from s name k (S i)
  end.

Fixpoint find_symbol (l : list elf_scn) (name : string) : res (option (Z * Z)) :=
  match l with
  | [] => Ok None
  | s :: l =>
      if negb (sh_type s =? SHT_DYNSYM) && negb (sh_type s =? SHT_SYMTAB)
      then find_symbol l name
      else match scn_data s with
      | None => find_symbol l name
      | Some _ =>
          let* n := symbol_count s in
          let* r := find_symbol_from s name (Z.to_nat n) 0 in
          if r is Some _ then Ok r else find_symbol l name
      end
  end.

Definition is_exec (s : elf_scn) : bool :=
  (sh_type s =? SHT_PROGBITS) && negb (Z.land (sh_flags s) SHF_EXECINSTR =? 0).

(** Scan the first executable section that holds the symbol. *)
Fixpoint scan_symbol (l : list elf_scn) (sym_addr sym_size max : Z) : res (list Z) :=
  match l with
  | [] => Ok []
  | s :: l =>
      if negb (is_exec s) then scan_symbol l sym_addr sym_size max
      else if (sym_addr <? sh_addr s) || (u64 (sh_addr s + sh_size s) <=? sym_addr)
      then scan_symbol l sym_addr sym_size max
      else match scn_data s with
      | Some {| d_buf := Some buf; d_size := dsz |} =>
          let off_in_sec := u64 (sym_addr - sh_addr s) in
          let limit :=
            if dsz <? u64 (off_in_sec + sym_size) then u64 (dsz - off_in_sec) else sym_size in
          scan_bytes buf off_in_sec sym_addr limit max []
      | _ => Ok []
      end
  end.

Definition resolve_libc_syscall_sites (env : elf_env) (libc_path name : string) (max : Z)
    : res (list Z) :=
  if negb (elf_version_ok env) then Ok []
  else match elf_image env libc_path with
  | OpenFails | BeginFails => Ok []
  | Opened f =>
      let* y := find_symbol (scns f) name in
      match y with
      | None => Ok []
      | Some (sym_addr, sym_size) =>
          let sym_size := if sym_size =? 0 then LIBC_SCAN_DEFAULT else sym_size in
          scan_symbol (scns f) sym_addr sym_size max
      end
  end.

(** ** scan_elf_text_for_syscalls *)

Definition scan_section (max : Z) (acc : list Z) (s : elf_scn) : res (list Z) :=
  if negb (is_exec s) then Ok acc
  else match scn_data s with
  | Some {| d_buf := Some buf; d_size := dsz |} => scan_bytes buf 0 (sh_addr s) dsz max acc
  | _ => Ok acc
  end.

Definition scan_elf_text_for_syscalls (env : elf_env) (path : string) (max : Z)
    : res (list Z) :=
  if negb (elf_version_ok env) then Ok []
  else match elf_image env path with
  | OpenFails | BeginFails => Ok []
  | Opened f => res_fold (scan_section max) (scns f) []
  end.

(** ** parse_sentinel_cfi *)

Fixpoint cfi_entries_from (b : list Z) (max : Z) (k : nat) (i : Z) (acc : list (Z * Z))
    : res (list (Z * Z)) :=
  match k with
  | O => Ok acc
  | S k =>
      if Z.of_nat (length acc) <? max then
        let p := i * cfi_entry_size in
        let* site := load_field sentinel_cfi_entry b p "site_addr" in
        if site =? 0 then cfi_entries_from b max k (i + 1) acc
        else
          let* func := load_field sentinel_cfi_entry b p "func_addr" in
          cfi_entries_from b max k (i + 1) (acc ++ [(site, func)])
      else Ok acc
  end.

Definition is_named (n : string) (s : elf_scn) : bool :=
  if scn_name s is Some m then String.eqb m n else false.

Definition parse_sentinel_cfi (env : elf_env) (path : string) (max : Z)
    : res (list (Z * Z)) :=
  if negb (elf_version_ok env) then Ok []
  else match elf_image env path with
  | OpenFails | BeginFails => Ok []
  | Opened f =>
      if negb (shdrstrndx_ok f) then Ok []
      else match list_find (fun s => is_named ".sentinel_cfi" s) (scns f) with
      | Some (_, s) =>
          match scn_data s with
          | Some {| d_buf := Some buf; d_size := dsz |} =>
              cfi_entries_from buf max (Z.to_nat (i32 (dsz / cfi_entry_size))) 0 []
          | _ => Ok []
          end
      | None => Ok []
      end
  end.
