(* ===== verification/LoaderElfProps.v ===== *)
(** * Properties of the loader's ELF readers *)
From S2P Require Import Prelude Shared Elf LoaderElf.

(** ** Entries *)

(** What the loader keeps of an entry array: live entries, decoded. *)
Definition live (e : policy_entry) : Prop := site_addr e <> 0.
#[export] Instance live_dec e : Decision (live e).
Proof. unfold live. apply _. Defined.
Definition decoded (e : policy_entry) : Z * Z := (site_addr e, decode_nr (syscall_nr e)).
Definition live_entries (es : list policy_entry) : list (Z * Z) := decoded <$> filter live es.

(** The fields of the loader's structure. *)
Lemma loader_entry_words : three_words sentinel_policy_entry "site_addr" "func_addr" "syscall_nr".
Proof. split; [done|]. intros buf p. rewrite <- (Z.add_0_r p) at 2. done. Qed.

Ltac entry_fields :=
  match goal with |- context [load_field sentinel_policy_entry ?b ?p _] =>
    destruct (proj2 loader_entry_words b p) as (-> & -> & ->) end.

Lemma parse_entries_images max es pre post i acc :
  Forall entry_ok es -> Z.of_nat (length pre) = i * 24 -> Z.of_nat (length acc) <= max ->
  parse_entries (Some (pre ++ entries_image es ++ post)) max (length es) i acc =
    Ok (acc ++ take (Z.to_nat max - length acc) (live_entries es)).
Proof.
  revert pre i acc. induction es as [|e es IH]; intros pre i acc Hok Hi Hacc.
  - cbn. by rewrite take_nil, app_nil_r.
  - apply Forall_cons in Hok as [He Hok]. cbn [length parse_entries].
    destruct (Z.ltb_spec (Z.of_nat (length acc)) max).
    2: { replace (Z.to_nat max - length acc)%nat with O by lia. by rewrite take_0, app_nil_r. }
    rewrite entries_image_cons, <- app_assoc. change policy_entry_size with 24. rewrite <- Hi.
    destruct (load_entry pre e (entries_image es ++ post) He) as (Hs & Hf & Hn).
    entry_fields. rewrite Hs. cbn [res_bind]. rewrite app_assoc. unfold live_entries. rewrite filter_cons.
    destruct (Z.eqb_spec (site_addr e) 0) as [E|E].
    + rewrite decide_False by (unfold live; lia).
      rewrite (IH (pre ++ entry_image e)); [done|done| |done].
      rewrite length_app, length_entry_image. lia.
    + rewrite decide_True by done. rewrite <- app_assoc, Hn, Hf. cbn [res_bind].
      rewrite i64_id by apply He. rewrite app_assoc.
      rewrite (IH (pre ++ entry_image e)); [|done| |].
      * rewrite length_app. cbn [length fmap list_fmap].
        replace (Z.to_nat max - length acc)%nat with
          (S (Z.to_nat max - (length acc + 1)))%nat by lia.
        cbn [take]. by rewrite <- app_assoc.
      * rewrite length_app, length_entry_image. lia.
      * rewrite length_app. cbn [length]. lia.
Qed.

(** No read of the loop leaves a buffer that holds [k] more entries. *)
Lemma parse_entries_safe b max k i acc :
  0 <= i -> (i + Z.of_nat k) * 24 <= Z.of_nat (length b) ->
  Z.of_nat (length acc) <= Z.max 0 max ->
  exists es, parse_entries (Some b) max k i acc = Ok es /\
    Z.of_nat (length es) <= Z.max 0 max.
Proof.
  revert i acc. induction k as [|k IH]; intros i acc Hi Hb Ha; cbn [parse_entries]; [eauto|].
  destruct (Z.ltb_spec (Z.of_nat (length acc)) max); [|eauto].
  change policy_entry_size with 24. entry_fields. rewrite !load_Ok by lia. cbn [res_bind].
  destruct (Z.eqb_spec (le_Z (take 8 (drop (Z.to_nat (i * 24)) b))) 0);
    apply IH; rewrite ?length_app; cbn [length]; lia.
Qed.

(** ** Opcode scan *)

(** The addresses of 0f 05 in [l], whose first byte is at [base]. *)
Fixpoint sites_in (base : Z) (l : list Z) : list Z :=
  match l with
  | [] => []
  | b0 :: t =>
      (if (b0 =? 0x0f) && (if t is b1 :: _ then b1 =? 0x05 else false)
       then [u64 base] else []) ++ sites_in (base + 1) t
  end.

Definition opcode_in (base : Z) (l : list Z) (a : Z) : Prop :=
  exists i : nat, l !! i = Some 0x0f /\ l !! S i = Some 0x05 /\ a = u64 (base + Z.of_nat i).

Lemma elem_of_sites_in base l a : a ∈ sites_in base l <-> opcode_in base l a.
Proof.
  revert base. induction l as [|b0 t IH]; intros base; cbn [sites_in].
  - unfold opcode_in. split; [by intros ?%elem_of_nil|by intros (i & ? & _)].
  - rewrite elem_of_app, IH. unfold opcode_in. split.
    + intros [H|(i & H0 & H1 & ->)].
      * destruct t as [|b1 t]; [by rewrite andb_false_r in H; apply elem_of_nil in H|].
        destruct (Z.eqb_spec b0 0x0f), (Z.eqb_spec b1 0x05); subst; simpl in H;
          try by apply elem_of_nil in H.
        apply list_elem_of_singleton in H as ->. exists O. simpl. by rewrite Z.add_0_r.
      * exists (S i). split_and!; [done|done|]. f_equal. lia.
    + intros ([|i] & H0 & H1 & ->); simpl in *.
      * left. injection H0 as ->. destruct t as [|b1 t]; [done|]. injection H1 as ->. simpl.
        rewrite Z.add_0_r. by apply list_elem_of_singleton.
      * right. exists i. split_and!; [done|done|]. f_equal. lia.
Qed.

(** Cutting early or late is the same. *)
Lemma take_app_idemp {A} (n : nat) (l1 l2 : list A) : take n (take n l1 ++ l2) = take n (l1 ++ l2).
Proof.
  rewrite (take_app l1), (take_app (take _ _)), take_take, Nat.min_id, length_take.
  f_equal. f_equal. lia.
Qed.

Lemma sites_in_short base l : (length l <= 1)%nat -> sites_in base l = [].
Proof. destruct l as [|x [|y l]]; simpl; intros; [done| |lia]. by rewrite andb_false_r. Qed.

Lemma scan_loop_spec buf start base limit max k j acc :
  0 <= start -> 0 <= j -> start + limit <= Z.of_nat (length buf) ->
  limit - j <= Z.of_nat k -> Z.of_nat (length acc) <= max ->
  scan_loop buf start base limit max k j acc =
    Ok (take (Z.to_nat max)
          (acc ++ sites_in (base + j)
                    (take (Z.to_nat (limit - j)) (drop (Z.to_nat (start + j)) buf)))).
Proof.
  revert j acc. induction k as [|k IH]; intros j acc Hs Hj Hb Hk Ha; cbn [scan_loop].
  { replace (Z.to_nat (limit - j)) with O by lia. rewrite take_0. simpl.
    by rewrite app_nil_r, take_ge by lia. }
  destruct (Z.ltb_spec (j + 1) limit) as [Hl|Hl]; simpl.
  2: { rewrite sites_in_short by (rewrite length_take, length_drop; lia).
       by rewrite app_nil_r, take_ge by lia. }
  destruct (Z.ltb_spec (Z.of_nat (length acc)) max).
  2: { rewrite take_app_le, take_ge by lia. done. }
  destruct (load8_Ok buf (start + j)) as (b0 & -> & Hb0); [lia|].
  destruct (load8_Ok buf (start + j + 1)) as (b1 & E1 & Hb1); [lia|].
  rewrite (drop_S _ _ _ Hb0).
  replace (Z.to_nat (limit - j)) with (S (Z.to_nat (limit - (j + 1)))) by lia.
  replace (S (Z.to_nat (start + j))) with (Z.to_nat (start + (j + 1))) by lia.
  cbn [res_bind take sites_in].
  replace (Z.to_nat (start + j + 1)) with (Z.to_nat (start + (j + 1))) in Hb1 by lia.
  assert ((if take (Z.to_nat (limit - (j + 1))) (drop (Z.to_nat (start + (j + 1))) buf)
     is b :: _ then b =? 0x05 else false) = (b1 =? 0x05)) as ->.
  { rewrite (drop_S _ _ _ Hb1).
    by replace (Z.to_nat (limit - (j + 1))) with (S (Z.to_nat (limit - (j + 2)))) by lia. }
  rewrite E1. replace (base + j + 1) with (base + (j + 1)) by lia.
  destruct (b0 =? 0x0f); cbn [res_bind andb app]; [destruct (b1 =? 0x05)|];
    rewrite IH by (rewrite ?length_app; simpl; lia); cbn [app];
    by rewrite <- ?app_assoc.
Qed.

Lemma scan_bytes_spec buf start base limit max acc :
  0 <= start -> start + limit <= Z.of_nat (length buf) -> Z.of_nat (length acc) <= max ->
  scan_bytes buf start base limit max acc =
    Ok (take (Z.to_nat max)
          (acc ++ sites_in base (take (Z.to_nat limit) (drop (Z.to_nat start) buf)))).
Proof.
  intros. unfold scan_bytes. rewrite scan_loop_spec by lia.
  by rewrite !Z.add_0_r, Z.sub_0_r.
Qed.

(** The sites of a whole file, in section order. *)
Definition section_sites (s : elf_scn) : list Z :=
  if is_exec s then
    match scn_data s with
    | Some {| d_buf := Some buf |} => sites_in (sh_addr s) buf
    | _ => []
    end
  else [].

Definition opcode_at (f : elf_file) (a : Z) : Prop :=
  exists s d buf, s ∈ scns f /\ is_exec s = true /\ scn_data s = Some d /\
    d_buf d = Some buf /\ opcode_in (sh_addr s) buf a.

(** Every executable section of the file has its bytes in memory. *)
Definition exec_data_ok (f : elf_file) : Prop :=
  forall s d, s ∈ scns f -> is_exec s = true -> scn_data s = Some d -> data_ok d.

Lemma elem_of_file_sites f a : a ∈ (scns f ≫= section_sites) <-> opcode_at f a.
Proof.
  rewrite list_elem_of_bind. unfold opcode_at, section_sites. split.
  - intros (s & Ha & Hs). destruct (is_exec s) eqn:Ex; [|by apply elem_of_nil in Ha].
    destruct (scn_data s) as [[[buf|] dsz]|] eqn:Ed; [|by apply elem_of_nil in Ha..].
    apply elem_of_sites_in in Ha. eauto 10.
  - intros (s & [[buf'|] dsz] & buf & Hs & Ex & Ed & [= ->] & Ha). exists s. rewrite Ex, Ed.
    by rewrite elem_of_sites_in.
Qed.

Lemma scan_section_spec max acc s :
  (forall d, is_exec s = true -> scn_data s = Some d -> data_ok d) ->
  Z.of_nat (length acc) <= max ->
  scan_section max acc s = Ok (take (Z.to_nat max) (acc ++ section_sites s)).
Proof.
  intros Hd Ha. unfold scan_section, section_sites.
  destruct (is_exec s) eqn:Ex; simpl; [|by rewrite app_nil_r, take_ge by lia].
  destruct (scn_data s) as [[[buf|] dsz]|] eqn:Ed; [|by rewrite app_nil_r, take_ge by lia..].
  destruct (Hd _ eq_refl eq_refl) as (b & [= ->] & Hl & _). simpl in Hl. subst dsz.
  rewrite scan_bytes_spec by lia. by rewrite Nat2Z.id, drop_0, take_ge with (n := length b) by lia.
Qed.

Lemma scan_sections_spec max l acc :
  (forall s d, s ∈ l -> is_exec s = true -> scn_data s = Some d -> data_ok d) ->
  Z.of_nat (length acc) <= max ->
  res_fold (scan_section max) l acc =
    Ok (take (Z.to_nat max) (acc ++ (l ≫= section_sites))).
Proof.
  revert acc. induction l as [|s l IH]; intros acc Hd Ha; cbn [res_fold].
  - by rewrite app_nil_r, take_ge by lia.
  - rewrite scan_section_spec by (done || intros d; apply Hd; left).
    cbn [res_bind]. rewrite IH.
    + cbn [mbind list_bind]. by rewrite app_assoc, take_app_idemp.
    + intros s' d Hs'. apply Hd. by right.
    + rewrite length_take. lia.
Qed.

(** ** Theorems *)

(** C21: Round trip of the policy section: parsing a [.sentinel] section that
    holds the memory image of an entry array returns its live entries in
    order, the syscall number decoded, cut at [max]; the load base is the
    first PT_LOAD address and the text base the address of [.text]. *)
Theorem parse_sentinel_section_roundtrip env path f d text es post max :
  elf_version_ok env = true -> elf_image env path = Opened f -> shdrstrndx_ok f = true ->
  find_policy_sections (scns f) = (Some d, text) ->
  d_buf d = Some (entries_image es ++ post) ->
  d_size d = Z.of_nat (length (entries_image es ++ post)) ->
  Forall entry_ok es -> (length post < 24)%nat -> 0 < Z.of_nat (length es) < 2 ^ 31 -> 0 <= max ->
  parse_sentinel_section env path max =
    Ok {| ps_ret := Z.of_nat (length (take (Z.to_nat max) (live_entries es)));
          ps_entries := take (Z.to_nat max) (live_entries es);
          ps_text_base := Some text;
          ps_load_base := Some (default 0 (first_load (phdrs f))) |}.
Proof.
  intros Hv Hi Hx Hf Hb Hsz Hok Hp Hn Hm. unfold parse_sentinel_section.
  rewrite Hv, Hi, Hx, Hf, Hb, Hsz. cbn [negb]. rewrite length_app, length_entries_image.
  rewrite (proj2 (Z.eqb_neq _ 0)) by lia.
  replace (Z.of_nat (24 * length es + length post) / policy_entry_size)
    with (Z.of_nat (length es)).
  2: { change policy_entry_size with 24. apply (Z.div_unique _ _ _ (Z.of_nat (length post))); lia. }
  unfold i32, signed. change (32 - 1) with 31. rewrite Z.mod_small by lia.
  rewrite (proj2 (Z.ltb_lt _ _)), Nat2Z.id by lia.
  rewrite (parse_entries_images _ es [] post 0 []) by (done || simpl; lia).
  cbn [res_bind length]. by rewrite Nat.sub_0_r.
Qed.

(** C30: Memory safety of the policy parser: if libelf's buffer for the
    section holds [d_size] bytes, parsing never reads outside it, and it
    returns at most [max] entries, as many as its return value says. *)
Theorem parse_sentinel_section_safe env path max :
  (forall f d t, elf_image env path = Opened f ->
    find_policy_sections (scns f) = (Some d, t) -> data_ok d) ->
  exists r, parse_sentinel_section env path max = Ok r /\
    Z.of_nat (length (ps_entries r)) <= Z.max 0 max /\
    (ps_ret r = Z.of_nat (length (ps_entries r)) \/ ps_ret r = -1 /\ ps_entries r = []).
Proof.
  intros Hd. unfold parse_sentinel_section.
  destruct (elf_version_ok env); simpl; [|eexists; split_and!; [done|simpl; lia|by right]].
  destruct (elf_image env path) as [| |f] eqn:Ei; simpl;
    [eexists; split_and!; [done|simpl; lia|by right]
    |eexists; split_and!; [done|simpl; lia|by left]|].
  destruct (shdrstrndx_ok f); simpl; [|eexists; split_and!; [done|simpl; lia|by left]].
  destruct (find_policy_sections (scns f)) as [[d|] t] eqn:Ef; simpl;
    [|eexists; split_and!; [done|simpl; lia|by left]].
  destruct (Z.eqb_spec (d_size d) 0); [eexists; split_and!; [done|simpl; lia|by left]|].
  destruct (Hd _ _ _ eq_refl Ef) as (buf & Hb & Hl & _). rewrite Hb, <- Hl.
  assert (i32 (Z.of_nat (length buf) / policy_entry_size) <=
    Z.of_nat (length buf) / policy_entry_size) as Hn.
  { unfold i32, signed. zcase; pose proof (Z.mod_le (Z.of_nat (length buf) / policy_entry_size) (2 ^ 32)
      ltac:(apply Z.div_pos; change policy_entry_size with 24; lia) ltac:(lia)); lia. }
  assert (Z.of_nat (length buf) / policy_entry_size * 24 <= Z.of_nat (length buf)).
  { change policy_entry_size with 24. pose proof (Z.mul_div_le (Z.of_nat (length buf)) 24). lia. }
  destruct (parse_entries_safe buf max
    (Z.to_nat (i32 (Z.of_nat (length buf) / policy_entry_size))) 0 []) as (es & -> & He);
    [lia|pose proof (Z.div_pos (Z.of_nat (length buf)) policy_entry_size); change policy_entry_size with 24 in *; lia
    |simpl; lia|].
  eexists. split_and!; [done|done|by left].
Qed.

(** C22: The opcode scan of an ELF file is sound and, below its limit,
    complete: it returns exactly the addresses of the 0f 05 pairs of the
    executable sections. *)
Theorem scan_elf_text_exact env path f max :
  elf_version_ok env = true -> elf_image env path = Opened f -> exec_data_ok f -> 0 <= max ->
  exists sites, scan_elf_text_for_syscalls env path max = Ok sites /\
    Z.of_nat (length sites) <= max /\
    (forall a, a ∈ sites -> opcode_at f a) /\
    (Z.of_nat (length sites) < max -> forall a, opcode_at f a -> a ∈ sites).
Proof.
  intros Hv Hi Hd Hm. unfold scan_elf_text_for_syscalls. rewrite Hv, Hi. cbn [negb].
  rewrite scan_sections_spec by (try done; simpl; lia). cbn [app].
  eexists. split_and!; [done| | |].
  - rewrite length_take. lia.
  - intros a Ha. apply elem_of_file_sites.
    rewrite <- (take_drop (Z.to_nat max)). apply elem_of_app. by left.
  - intros Hl a Ha. apply elem_of_file_sites in Ha.
    rewrite length_take in Hl. by rewrite take_ge by lia.
Qed.

(** A [.sentinel] section without file contents (SHT_NOBITS: libelf
    reports a size and a NULL buffer) makes the parser dereference NULL,
    since only the size is tested. *)
Theorem parse_sentinel_nobits_faults env path f d t max :
  elf_version_ok env = true -> elf_image env path = Opened f -> shdrstrndx_ok f = true ->
  find_policy_sections (scns f) = (Some d, t) ->
  d_buf d = None -> 24 <= d_size d < 24 * 2 ^ 31 -> 0 < max ->
  parse_sentinel_section env path max = Fault NullDeref.
Proof.
  intros Hv Hi Hx Hf Hb Hs Hm. unfold parse_sentinel_section. rewrite Hv, Hi, Hx, Hf, Hb.
  cbn [negb]. rewrite (proj2 (Z.eqb_neq _ 0)) by lia.
  assert (1 <= d_size d / policy_entry_size < 2 ^ 31) as Hn.
  { change policy_entry_size with 24. Z.div_mod_to_equations. lia. }
  unfold i32, signed. rewrite Z.mod_small by lia. change (32 - 1) with 31.
  rewrite (proj2 (Z.ltb_lt _ (2 ^ 31))) by lia.
  replace (Z.to_nat (d_size d / policy_entry_size)) with
    (S (Z.to_nat (d_size d / policy_entry_size - 1))) by lia.
  cbn [parse_entries length]. by rewrite (proj2 (Z.ltb_lt _ max)) by (simpl; lia).
Qed.

(** ** resolve_libc_syscall_sites *)

(** The executable section that holds an address, as the code picks it. *)
Definition exec_holding (a : Z) (s : elf_scn) : bool :=
  is_exec s && (sh_addr s <=? a) && (a <? u64 (sh_addr s + sh_size s)).

Lemma scan_symbol_step l a size max s buf dsz :
  List.find (exec_holding a) l = Some s ->
  scn_data s = Some {| d_buf := Some buf; d_size := dsz |} ->
  scan_symbol l a size max =
    scan_bytes buf (u64 (a - sh_addr s)) a
      (if dsz <? u64 (u64 (a - sh_addr s) + size) then u64 (dsz - u64 (a - sh_addr s)) else size)
      max [].
Proof.
  intros Hf Hd. induction l as [|s' l IH]; [done|]. cbn [List.find scan_symbol] in *.
  unfold exec_holding in Hf at 1.
  rewrite (Z.ltb_antisym (sh_addr s') a), (Z.leb_antisym a (u64 (sh_addr s' + sh_size s'))).
  destruct (is_exec s'), (sh_addr s' <=? a), (a <? u64 (sh_addr s' + sh_size s')); simpl in *;
    eauto.
  injection Hf as ->. by rewrite Hd.
Qed.

(** C23: For a libc wrapper found at [a] with [size] bytes in a section whose
    bytes are in memory, the resolver returns the syscall opcodes of exactly
    the wrapper's body (128 bytes when the size is unknown, cut at the end
    of the section), at most [max] of them. *)
Theorem resolve_libc_sites_exact env path f name max a size s buf :
  elf_version_ok env = true -> elf_image env path = Opened f ->
  find_symbol (scns f) name = Ok (Some (a, size)) ->
  List.find (exec_holding a) (scns f) = Some s ->
  scn_data s = Some {| d_buf := Some buf; d_size := sh_size s |} ->
  Z.of_nat (length buf) = sh_size s -> is_u64 a -> is_u64 (sh_addr s) ->
  sh_addr s + sh_size s < 2 ^ 64 -> 0 <= size -> a + Z.max size LIBC_SCAN_DEFAULT < 2 ^ 64 ->
  0 <= max ->
  let len := if size =? 0 then LIBC_SCAN_DEFAULT else size in
  let off := a - sh_addr s in
  resolve_libc_syscall_sites env path name max =
    Ok (take (Z.to_nat max)
          (sites_in a (take (Z.to_nat (Z.min len (sh_size s - off))) (drop (Z.to_nat off) buf)))).
Proof.
  intros Hv Hi Hy Hf Hd Hl Ha Hsa Hss Hsz Hov Hm len off.
  unfold resolve_libc_syscall_sites. rewrite Hv, Hi, Hy. cbn [negb res_bind]. fold len.
  apply List.find_some in Hf as Hh. destruct Hh as [_ Hh].
  unfold exec_holding in Hh. rewrite !andb_true_iff, Z.leb_le, Z.ltb_lt in Hh.
  destruct Hh as [[_ H1] H2].
  unfold is_u64 in *. rewrite u64_id in H2 by (unfold is_u64; lia).
  rewrite (scan_symbol_step _ _ _ _ _ _ _ Hf Hd).
  assert (0 <= len /\ a + len < 2 ^ 64) as [? ?]
    by (subst len; unfold LIBC_SCAN_DEFAULT in *; zcase; lia).
  rewrite (u64_id (a - sh_addr s)) by (unfold is_u64; lia). fold off.
  rewrite !u64_id by (unfold is_u64; lia).
  replace (if sh_size s <? off + len then sh_size s - off else len)
    with (Z.min len (sh_size s - off)) by (zcase; lia).
  by rewrite scan_bytes_spec by (simpl; lia).
Qed.

(** ** Concrete files *)
Module DemoElf.

(** Two live entries around a dummy one: [write] at 0x401136 and any number
    at 0x401200. *)
Definition entries : list policy_entry :=
  [ {| site_addr := 0x401136; func_addr := 0x401120; syscall_nr := 2 |};
    {| site_addr := 0; func_addr := 0; syscall_nr := 0 |};
    {| site_addr := 0x401200; func_addr := 0x4011e0; syscall_nr := 0 |} ].

Definition plain_scn (name : string) (ty flags addr : Z) (data : option elf_data) : elf_scn :=
  {| scn_name := Some name; sh_type := ty; sh_flags := flags; sh_addr := addr;
     sh_size := if data is Some d then d_size d else 0; sh_entsize := 0;
     scn_data := data; scn_syms := [] |}.

Definition of_bytes (l : list Z) : elf_data :=
  {| d_buf := Some l; d_size := Z.of_nat (length l) |}.

Definition victim : elf_file :=
  {| phdrs := [ Some {| p_type := 6; p_vaddr := 0x400040 |};
                Some {| p_type := PT_LOAD; p_vaddr := 0x400000 |} ];
     shdrstrndx_ok := true;
     scns := [ plain_scn ".text" SHT_PROGBITS 6 0x401000 (Some (of_bytes [0x90; 0x0f; 0x05; 0xc3]));
               plain_scn ".sentinel" SHT_PROGBITS 2 0x403000 (Some (of_bytes (entries_image entries))) ] |}.

(** [write] calls [helper], which holds the syscall instruction; [spare] is
    not called. *)
Definition libc_text : list Z :=
  [ 0xE8; 0x0B; 0; 0; 0; 0xc3; 0x90; 0x90; 0x90; 0x90; 0x90; 0x90; 0x90; 0x90; 0x90; 0x90;
    0x0f; 0x05; 0xc3; 0x90; 0x90; 0x90; 0x90; 0x90;
    0x0f; 0x05; 0xc3; 0x90; 0x90; 0x90; 0x90; 0x90 ].

Definition func (name : string) (a size : Z) : elf_sym :=
  {| sym_name := Some name; st_info := 0x12; st_value := a; st_size := size |}.

Definition libc_symbols : list elf_sym :=
  [ {| sym_name := None; st_info := 0; st_value := 0; st_size := 0 |};
    func "spare" 0x1018 8; func "write" 0x1000 16; func "helper" 0x1010 8;
    func "__write" 0x1000 16 ].

Definition libc : elf_file :=
  {| phdrs := [ Some {| p_type := PT_LOAD; p_vaddr := 0 |} ];
     shdrstrndx_ok := true;
     scns := [ {| scn_name := Some ".dynsym"; sh_type := SHT_DYNSYM; sh_flags := 2; sh_addr := 0x200;
                  sh_size := 120; sh_entsize := 24; scn_data := Some (of_bytes []);
                  scn_syms := libc_symbols |};
               plain_scn ".text" SHT_PROGBITS 6 0x1000 (Some (of_bytes libc_text)) ] |}.

(** A [.sentinel] section that occupies no bytes of the file. *)
Definition nobits : elf_file :=
  {| phdrs := []; shdrstrndx_ok := true;
     scns := [ plain_scn ".sentinel" SHT_NOBITS 2 0x403000
                 (Some {| d_buf := None; d_size := 48 |}) ] |}.

Definition env : elf_env :=
  {| elf_version_ok := true;
     elf_image p :=
       if String.eqb p "/bin/victim" then Opened victim
       else if String.eqb p "/lib/libc.so.6" then Opened libc
       else if String.eqb p "/bin/nobits" then Opened nobits
       else OpenFails |}.

Lemma entries_ok : Forall entry_ok entries.
Proof. repeat constructor; vm_compute; congruence. Qed.

Lemma of_bytes_ok l : bytes_ok l -> data_ok (of_bytes l).
Proof. intros H. by exists l. Qed.

Lemma libc_text_ok : bytes_ok libc_text.
Proof. repeat constructor; vm_compute; congruence. Qed.

Lemma libc_exec s d :
  s ∈ scns libc -> is_exec s = true -> scn_data s = Some d -> d = of_bytes libc_text /\ sh_addr s = 0x1000.
Proof.
  intros [->|[->|[]%elem_of_nil]%elem_of_cons]%elem_of_cons He Hd; [by vm_compute in He|].
  by injection Hd as <-.
Qed.

Lemma libc_data_ok : exec_data_ok libc.
Proof.
  intros s d Hs He Hd. destruct (libc_exec s d Hs He Hd) as [-> _].
  apply of_bytes_ok, libc_text_ok.
Qed.

End DemoElf.

Lemma parse_sentinel_section_roundtrip_witness :
  parse_sentinel_section DemoElf.env "/bin/victim" MAX_POLICY_ENTRIES =
    Ok {| ps_ret := 2; ps_entries := [(0x401136, 1); (0x401200, -1)];
          ps_text_base := Some 0x401000; ps_load_base := Some 0x400000 |}.
Proof.
  rewrite (parse_sentinel_section_roundtrip DemoElf.env "/bin/victim" DemoElf.victim
    (DemoElf.of_bytes (entries_image DemoElf.entries)) 0x401000 DemoElf.entries [] MAX_POLICY_ENTRIES
    eq_refl eq_refl eq_refl eq_refl eq_refl eq_refl DemoElf.entries_ok);
    [vm_compute; reflexivity|simpl; lia|simpl; lia|discriminate].
Defined.

Lemma parse_sentinel_section_safe_witness :
  exists r, parse_sentinel_section DemoElf.env "/bin/victim" 1 = Ok r /\
    Z.of_nat (length (ps_entries r)) <= Z.max 0 1 /\
    (ps_ret r = Z.of_nat (length (ps_entries r)) \/ ps_ret r = -1 /\ ps_entries r = []).
Proof.
  apply (parse_sentinel_section_safe DemoElf.env "/bin/victim" 1).
  intros f d t [= <-] [= <- <-]. apply DemoElf.of_bytes_ok.
  repeat constructor; vm_compute; congruence.
Defined.

Lemma scan_elf_text_exact_witness :
  exists sites, scan_elf_text_for_syscalls DemoElf.env "/lib/libc.so.6" 512 = Ok sites /\
    Z.of_nat (length sites) <= 512 /\
    (forall a, a ∈ sites -> opcode_at DemoElf.libc a) /\
    (Z.of_nat (length sites) < 512 -> forall a, opcode_at DemoElf.libc a -> a ∈ sites).
Proof.
  apply (scan_elf_text_exact DemoElf.env "/lib/libc.so.6" DemoElf.libc 512 eq_refl eq_refl
    DemoElf.libc_data_ok). lia.
Defined.

Lemma parse_sentinel_nobits_faults_witness :
  parse_sentinel_section DemoElf.env "/bin/nobits" MAX_POLICY_ENTRIES = Fault NullDeref.
Proof.
  apply (parse_sentinel_nobits_faults DemoElf.env "/bin/nobits" DemoElf.nobits
    {| d_buf := None; d_size := 48 |} 0 MAX_POLICY_ENTRIES); vm_compute; auto; split; congruence.
Defined.

Lemma resolve_libc_sites_exact_witness :
  resolve_libc_syscall_sites DemoElf.env "/lib/libc.so.6" "helper" 8 = Ok [0x1010].
Proof.
  rewrite (resolve_libc_sites_exact DemoElf.env "/lib/libc.so.6" DemoElf.libc "helper" 8 0x1010 8
    (DemoElf.plain_scn ".text" SHT_PROGBITS 6 0x1000 (Some (DemoElf.of_bytes DemoElf.libc_text)))
    DemoElf.libc_text eq_refl eq_refl eq_refl eq_refl eq_refl eq_refl);
    [vm_compute; reflexivity|..]; vm_compute; split || idtac; congruence.
Defined.
