(* ===== verification/CallGraph.v ===== *)
(** * src/runtime/loader.c: call-graph-guided libc filtering

    The sorted symbol table, symbol lookup by address and by name, and the
    breadth-first traversal of libc's direct calls that collects the
    reachable syscall sites. *)
From S2P Require Import Prelude CLib Elf LoaderElf.
From Stdlib Require Import Ascii.

#[global] Open Scope Z_scope.

Definition MAX_LIBC_SYMS : Z := 8192.
Definition MAX_REACHABLE : Z := 4096.
Definition CALLGRAPH_DEPTH_LIMIT : Z := 24.

(** ** Data *)

Record libc_sym_entry := {
  se_addr : Z;
  se_size : Z;
  se_name : string;
}.

(** [data] points to a private copy of [size] bytes. *)
Record exec_section := {
  xs_vaddr : Z;
  xs_data : list Z;
  xs_size : Z;
}.

(** ** build_libc_symtab *)

Definition sym_addr_cmp (a b : libc_sym_entry) : Z :=
  if se_addr a <? se_addr b then -1 else if se_addr b <? se_addr a then 1 else 0.

Definition sym_le (a b : libc_sym_entry) : Prop := sym_addr_cmp a b <= 0.
#[export] Instance sym_le_dec a b : Decision (sym_le a b).
Proof. unfold sym_le. apply _. Defined.

(** [qsort] by [sym_addr_cmp]; the addresses are distinct, so the order is
    determined. *)
Definition qsort_syms (l : list libc_sym_entry) : list libc_sym_entry := merge_sort sym_le l.

(** One iteration: keep a named function symbol whose address is new. *)
Definition add_symbol (acc : list libc_sym_entry) (y : elf_sym) : list libc_sym_entry :=
  if negb (GELF_ST_TYPE (st_info y) =? STT_FUNC) || (st_value y =? 0) then acc
  else match sym_name y with
  | None | Some EmptyString => acc
  | Some name =>
      if existsb (fun e => se_addr e =? st_value y) acc then acc
      else acc ++ [ {| se_addr := st_value y;
                       se_size := if st_size y =? 0 then DEFAULT_FUNC_SIZE else st_size y;
                       se_name := strncpy_term name 128 |} ]
  end.

Fixpoint add_symbols (s : elf_scn) (max : Z) (k i : nat) (acc : list libc_sym_entry)
    : res (list libc_sym_entry) :=
  match k with
  | O => Ok acc
  | S k =>
      if Z.of_nat (length acc) <? max then
        let* y := getsym s i in
        add_symbols s max k (S i) (add_symbol acc y)
      else Ok acc
  end.

Definition symtab_section (max : Z) (acc : list libc_sym_entry) (s : elf_scn)
    : res (list libc_sym_entry) :=
  if negb (sh_type s =? SHT_DYNSYM) && negb (sh_type s =? SHT_SYMTAB) then Ok acc
  else match scn_data s with
  | None => Ok acc
  | Some _ =>
      let* n := symbol_count s in
      add_symbols s max (Z.to_nat n) 0 acc
  end.

Definition build_libc_symtab (env : elf_env) (path : string) (max : Z)
    : res (list libc_sym_entry) :=
  if negb (elf_version_ok env) then Ok []
  else match elf_image env path with
  | OpenFails | BeginFails => Ok []
  | Opened f =>
      let* l := res_fold (symtab_section max) (scns f) [] in
      Ok (qsort_syms l)
  end.

(** ** Lookup *)

(** The binary search; [fuel] bounds the iterations, one more than the
    number of symbols is enough. *)
Fixpoint bsearch (syms : list libc_sym_entry) (a : Z) (fuel : nat) (lo hi : Z) : option nat :=
  match fuel with
  | O => None
  | S fuel =>
      if lo <=? hi then
        let mid := (lo + hi) / 2 in
        match syms !! Z.to_nat mid with
        | None => None
        | Some e =>
            if a <? se_addr e then bsearch syms a fuel lo (mid - 1)
            else if u64 (se_addr e + se_size e) <=? a then bsearch syms a fuel (mid + 1) hi
            else Some (Z.to_nat mid)
        end
      else None
  end.

(** The fallback loop, from index [i - 1] downwards. *)
Fixpoint nearest_below (syms : list libc_sym_entry) (a : Z) (i : nat) : option nat :=
  match i with
  | O => None
  | S i =>
      match syms !! i with
      | None => None
      | Some e =>
          if (se_addr e <=? a) && (a <? u64 (se_addr e + se_size e)) then Some i
          else if se_addr e <? a then None
          else nearest_below syms a i
      end
  end.

Definition find_sym_at_addr (syms : list libc_sym_entry) (a : Z) : option nat :=
  match bsearch syms a (S (length syms)) 0 (Z.of_nat (length syms) - 1) with
  | Some i => Some i
  | None => nearest_below syms a (length syms)
  end.

Definition find_sym_by_name (syms : list libc_sym_entry) (name : string) : option nat :=
  fst <$> list_find (fun e => se_name e = name) syms.

(** ** Executable sections *)

(** [alloc_ok n]: an allocation of [n] bytes succeeds. *)
Definition load_section (alloc_ok : Z -> bool) (max : Z) (acc : list exec_section)
    (s : elf_scn) : res (list exec_section) :=
  if negb (Z.of_nat (length acc) <? max) || negb (is_exec s) then Ok acc
  else match scn_data s with
  | Some {| d_buf := Some buf; d_size := dsz |} =>
      if (dsz =? 0) || negb (alloc_ok dsz) then Ok acc
      else if Z.of_nat (length buf) <? dsz then Fault OutOfBounds
      else Ok (acc ++ [ {| xs_vaddr := sh_addr s; xs_data := take (Z.to_nat dsz) buf;
                           xs_size := dsz |} ])
  | _ => Ok acc
  end.

Definition load_exec_sections (env : elf_env) (alloc_ok : Z -> bool) (path : string) (max : Z)
    : res (list exec_section) :=
  if negb (elf_version_ok env) then Ok []
  else match elf_image env path with
  | OpenFails | BeginFails => Ok []
  | Opened f => res_fold (load_section alloc_ok max) (scns f) []
  end.

(** The bytes from [addr] on in the first section holding it, and how many
    of them may be read. *)
Fixpoint get_bytes_at (secs : list exec_section) (a len : Z) : option (list Z * Z) :=
  match secs with
  | [] => None
  | s :: secs =>
      if (xs_vaddr s <=? a) && (a <? u64 (xs_vaddr s + xs_size s)) then
        let off := u64 (a - xs_vaddr s) in
        let avail := u64 (xs_size s - off) in
        Some (drop (Z.to_nat off) (xs_data s), if len <? avail then len else avail)
      else get_bytes_at secs a len
  end.

(** ** The traversal *)

(** [q_tail] is the length of [queue]. *)
Record bfs := {
  queue : list nat;
  visited : list bool;
}.

Definition enqueue (st : bfs) (idx : nat) : bfs :=
  if negb (default true (visited st !! idx)) && (Z.of_nat (length (queue st)) <? MAX_REACHABLE)
  then {| queue := queue st ++ [idx]; visited := <[idx := true]> (visited st) |}
  else st.

Definition seed_name (syms : list libc_sym_entry) (st : bfs) (name : string) : bfs :=
  match find_sym_by_name syms name with
  | None => st
  | Some idx => enqueue st idx
  end.

Definition essential_seeds : list string :=
  [ "__syscall_cancel_arch"; "__syscall_cancel";
    "__internal_syscall_cancel"; "__libc_do_syscall";
    "__GI___ioctl"; "__ioctl"; "ioctl";
    "__isatty"; "isatty"; "__isatty_nostatus";
    "__tcgetattr"; "tcgetattr";
    "__GI___fstat64"; "__fstat64"; "__fxstat64"; "fstat"; "__fstat";
    "__GI___lseek64"; "__lseek64"; "lseek64"; "lseek";
    "__brk"; "__sbrk"; "__mmap"; "__munmap";
    "__sigaction"; "__rt_sigaction"; "__sigprocmask";
    "_exit"; "__GI__exit"; "__exit_funcs" ].

Fixpoint strip_underscores (s : string) : string :=
  match s with
  | String "_"%char s' => strip_underscores s'
  | _ => s
  end.

Definition is_variant (base sn : string) : bool :=
  strstr sn base && (String.prefix "__" sn || String.prefix base sn).

(** Seed the glibc-internal variants of one import. *)
Definition seed_variants (syms : list libc_sym_entry) (st : bfs) (imp : string) : bfs :=
  let base := strip_underscores imp in
  if (String.length base <? 2)%nat then st
  else foldl (fun st s =>
    match syms !! s with
    | Some e => if is_variant base (se_name e) then enqueue st s else st
    | None => st
    end) st (seq 0 (length syms)).

Definition seeds (syms : list libc_sym_entry) (imports : list string) : bfs :=
  let st := {| queue := []; visited := replicate (length syms) false |} in
  let st := foldl (seed_name syms) st imports in
  let st := foldl (seed_name syms) st essential_seeds in
  foldl (seed_variants syms) st imports.

(** The symbol called by an E8/E9 instruction at [sym->addr + j], if the
    byte there is one and its target lies in a symbol. *)
Definition callee_at (syms : list libc_sym_entry) (bytes : list Z) (addr : Z) (j : nat)
    : res (option nat) :=
  let* b := load8 bytes (Z.of_nat j) in
  if negb (b =? 0xE8) && negb (b =? 0xE9) then Ok None
  else
    let* disp := load 4 bytes (Z.of_nat j + 1) in
    let call_addr := u64 (addr + Z.of_nat j) in
    let target := u64 (call_addr + 5 + i32 disp) in
    Ok (find_sym_at_addr syms target).

Definition visit_call (syms : list libc_sym_entry) (bytes : list Z) (addr : Z) (st : bfs) (j : nat)
    : res bfs :=
  let* c := callee_at syms bytes addr j in
  Ok (if c is Some idx then enqueue st idx else st).

(** One iteration: scan the body of symbol [idx]. *)
Definition visit_symbol (secs : list exec_section) (syms : list libc_sym_entry) (st : bfs)
    (idx : nat) : res bfs :=
  match syms !! idx with
  | None => Fault OutOfBounds
  | Some e =>
      match get_bytes_at secs (se_addr e) (se_size e) with
      | Some (bytes, avail) =>
          if avail <? 5 then Ok st
          else res_fold (visit_call syms bytes (se_addr e)) (seq 0 (Z.to_nat (avail - 4))) st
      | None => Ok st
      end
  end.

(** [while (q_head < q_tail && current_depth < depth_limit)].  The queue
    never exceeds MAX_REACHABLE entries, so that much fuel is enough. *)
Fixpoint bfs_loop (secs : list exec_section) (syms : list libc_sym_entry) (fuel : nat)
    (q_head : nat) (depth boundary : Z) (st : bfs) : res (nat * Z * bfs) :=
  match fuel with
  | O => Ok (q_head, depth, st)
  | S fuel =>
      if depth <? CALLGRAPH_DEPTH_LIMIT then
        match queue st !! q_head with
        | None => Ok (q_head, depth, st)
        | Some idx =>
            let q_head := S q_head in
            let '(depth, boundary) :=
              if boundary <? Z.of_nat q_head
              then (depth + 1, Z.of_nat (length (queue st))) else (depth, boundary) in
            let* st := visit_symbol secs syms st idx in
            bfs_loop secs syms fuel q_head depth boundary st
        end
      else Ok (q_head, depth, st)
  end.

(** Collect the 0f 05 sites of one reachable symbol. *)
Definition collect_sites (secs : list exec_section) (syms : list libc_sym_entry) (max : Z)
    (acc : list Z) (idx : nat) : res (list Z) :=
  if Z.of_nat (length acc) <? max then
    match syms !! idx with
    | None => Fault OutOfBounds
    | Some e =>
        match get_bytes_at secs (se_addr e) (se_size e) with
        | Some (bytes, avail) => scan_bytes bytes 0 (se_addr e) avail max acc
        | None => Ok acc
        end
    end
  else Ok acc.

Definition bfs_run (secs : list exec_section) (syms : list libc_sym_entry) (imports : list string)
    : res (nat * Z * bfs) :=
  let st := seeds syms imports in
  bfs_loop secs syms (Z.to_nat MAX_REACHABLE) 0 0 (Z.of_nat (length (queue st))) st.

(** The sites and [*reachable_count_out], [None] when it is not written. *)
Definition trace_libc_callgraph (env : elf_env) (alloc_ok : Z -> bool) (libc_path : string)
    (syms : list libc_sym_entry) (imports : list string) (max_sites : Z)
    : res (list Z * option Z) :=
  let* secs := load_exec_sections env alloc_ok libc_path 16 in
  if (length secs =? 0)%nat then Ok ([], None)
  else if negb (alloc_ok (MAX_REACHABLE * 4)) || negb (alloc_ok (Z.of_nat (length syms)))
  then Ok ([], None)
  else
    let* r := bfs_run secs syms imports in
    let st := r.2 in
    let* sites := res_fold (collect_sites secs syms max_sites) (queue st) [] in
    Ok (sites, Some (Z.of_nat (length (queue st)))).
