(* ===== verification/CallGraphProps.v ===== *)
(** * Properties of the call-graph traversal *)
From S2P Require Import Prelude CLib Elf LoaderElf LoaderElfProps CallGraph.

(** ** Generic facts on monadic folds *)

Lemma res_fold_ind {A B} (f : B -> A -> res B) (P : B -> Prop) l b b' :
  (forall x a y, a ∈ l -> P x -> f x a = Ok y -> P y) ->
  P b -> res_fold f l b = Ok b' -> P b'.
Proof.
  revert b. induction l as [|a l IH]; intros b Hf Hb H; cbn [res_fold] in H; res_inv; [done|].
  eapply IH; [|eapply Hf; [left|..]; eauto|done].
  intros z a' y Ha. apply Hf. by right.
Qed.

Lemma res_fold_total {A B} (f : B -> A -> res B) (P : B -> Prop) l b :
  (forall x a, a ∈ l -> P x -> exists y, f x a = Ok y /\ P y) ->
  P b -> exists b', res_fold f l b = Ok b' /\ P b'.
Proof.
  revert b. induction l as [|a l IH]; intros b Hf Hb; cbn [res_fold]; [eauto|].
  destruct (Hf b a ltac:(left) Hb) as (y & -> & Hy). cbn [res_bind].
  apply IH; [|done]. intros x a' Ha. apply Hf. by right.
Qed.

(** ** Symbol table *)

Lemma sym_le_spec a b : sym_le a b <-> se_addr a <= se_addr b.
Proof. unfold sym_le, sym_addr_cmp. zcase; lia. Qed.

#[export] Instance sym_le_trans : Transitive sym_le.
Proof. intros a b c. rewrite !sym_le_spec. lia. Qed.
#[export] Instance sym_le_total : Total sym_le.
Proof. intros a b. rewrite !sym_le_spec. lia. Qed.

(** The entries come from named function symbols of the file. *)
Definition from_symbol (ys : list elf_sym) (e : libc_sym_entry) : Prop :=
  exists y name, y ∈ ys /\ GELF_ST_TYPE (st_info y) = STT_FUNC /\ st_value y <> 0 /\
    sym_name y = Some name /\ name <> "" /\ se_addr e = st_value y /\
    se_size e = (if st_size y =? 0 then DEFAULT_FUNC_SIZE else st_size y) /\
    se_name e = strncpy_term name 128.

Definition file_symbols (f : elf_file) : list elf_sym := scns f ≫= scn_syms.

Record symtab_inv (ys : list elf_sym) (max : Z) (acc : list libc_sym_entry) : Prop := {
  st_distinct : NoDup (se_addr <$> acc);
  st_bounded : Z.of_nat (length acc) <= Z.max 0 max;
  st_origin : Forall (from_symbol ys) acc;
}.

Lemma existsb_addr a acc :
  existsb (fun e => se_addr e =? a) acc = true <-> a ∈ se_addr <$> acc.
Proof.
  rewrite existsb_exists, list_elem_of_fmap. setoid_rewrite <- list_elem_of_In. split.
  - intros (e & He & E%Z.eqb_eq). eauto.
  - intros (e & -> & He). exists e. by rewrite Z.eqb_refl.
Qed.

Lemma add_symbol_inv ys max acc y :
  y ∈ ys -> Z.of_nat (length acc) < max ->
  symtab_inv ys max acc -> symtab_inv ys max (add_symbol acc y).
Proof.
  intros Hy Hlen Hinv. pose proof Hinv as [Hd Hb Ho]. unfold add_symbol.
  destruct (Z.eqb_spec (GELF_ST_TYPE (st_info y)) STT_FUNC) as [Ht|Ht],
    (Z.eqb_spec (st_value y) 0) as [Hz|Hz]; simpl; try done.
  destruct (sym_name y) as [[|c n]|] eqn:En; try done.
  destruct (existsb _ acc) eqn:Ex; [done|]. split.
  - rewrite fmap_app. apply NoDup_app. split_and!; [done| |apply NoDup_singleton].
    intros a Ha ->%list_elem_of_singleton. simpl in Ha.
    apply existsb_addr in Ha. simpl in *. congruence.
  - rewrite length_app. simpl. lia.
  - apply Forall_app. split; [done|]. apply Forall_singleton.
    exists y, (String c n). by split_and!.
Qed.

(** The library's answers suffice for the loops over symbol tables. *)
Definition symbols_ok (s : elf_scn) : Prop :=
  sh_entsize s <> 0 /\ i32 (sh_size s / sh_entsize s) <= Z.of_nat (length (scn_syms s)).

Lemma add_symbols_total ys s max k i acc :
  scn_syms s ⊆ ys -> (i + k <= length (scn_syms s))%nat -> symtab_inv ys max acc ->
  exists acc', add_symbols s max k i acc = Ok acc' /\ symtab_inv ys max acc'.
Proof.
  intros Hs. revert i acc. induction k as [|k IH]; intros i acc Hk Hinv; cbn [add_symbols]; [eauto|].
  destruct (Z.ltb_spec (Z.of_nat (length acc)) max); [|eauto].
  unfold getsym. destruct (lookup_lt_is_Some_2 (scn_syms s) i) as [y Hy]; [lia|].
  rewrite Hy. cbn [res_bind]. apply IH; [lia|]. apply add_symbol_inv; try done.
  apply Hs. eapply list_elem_of_lookup_2. done.
Qed.

Definition is_symtab (s : elf_scn) : Prop := sh_type s = SHT_DYNSYM \/ sh_type s = SHT_SYMTAB.

Lemma qsort_strict l :
  NoDup (se_addr <$> l) -> StronglySorted (fun a b => se_addr a < se_addr b) (merge_sort sym_le l).
Proof.
  intros Hd. assert (NoDup (se_addr <$> merge_sort sym_le l)) as Hd'
    by by rewrite merge_sort_Permutation.
  pose proof (StronglySorted_merge_sort sym_le l) as Hss.
  induction Hss as [|a r Hr IH Ha]; [constructor|].
  rewrite fmap_cons in Hd'. apply NoDup_cons in Hd' as [Hna Hd']. constructor; [by apply IH|].
  apply Forall_forall. intros b Hb. rewrite Forall_forall in Ha.
  specialize (Ha b Hb). apply sym_le_spec in Ha.
  enough (se_addr a <> se_addr b) by lia. intros E. apply Hna. rewrite E.
  by apply list_elem_of_fmap_2.
Qed.

(** The libc symbol table is sorted by strictly increasing address,
    holds at most [max] entries, and every entry is a named function symbol
    of the file with its size (256 when unknown) and truncated name. *)
Theorem build_libc_symtab_sorted env path f max :
  elf_version_ok env = true -> elf_image env path = Opened f ->
  (forall s, s ∈ scns f -> is_symtab s -> symbols_ok s) ->
  exists l, build_libc_symtab env path max = Ok l /\
    StronglySorted (fun a b => se_addr a < se_addr b) l /\
    Z.of_nat (length l) <= Z.max 0 max /\ Forall (from_symbol (file_symbols f)) l.
Proof.
  intros Hv Hi Hs. unfold build_libc_symtab. rewrite Hv, Hi. cbn [negb].
  destruct (res_fold_total (symtab_section max) (symtab_inv (file_symbols f) max) (scns f) [])
    as (l & -> & [Hd Hb Ho]).
  - intros acc s Hin Hinv. unfold symtab_section.
    destruct (Z.eqb_spec (sh_type s) SHT_DYNSYM), (Z.eqb_spec (sh_type s) SHT_SYMTAB); simpl;
      try (by eauto).
    all: destruct (scn_data s); [|by eauto]; unfold symbol_count.
    all: destruct (Hs s Hin ltac:(unfold is_symtab; auto)) as [He Hn].
    all: rewrite (proj2 (Z.eqb_neq _ 0)) by done; cbn [res_bind].
    all: apply add_symbols_total; try done; try lia.
    all: intros y Hy; apply list_elem_of_bind; eauto.
  - by split; [apply NoDup_nil|simpl; lia|apply Forall_nil].
  - cbn [res_bind]. unfold qsort_syms. eexists. split_and!; [done| | |].
    + by apply qsort_strict.
    + by rewrite merge_sort_Permutation.
    + by rewrite merge_sort_Permutation.
Qed.

(** ** Lookup by address *)

Definition contains (syms : list libc_sym_entry) (a : Z) (i : nat) : Prop :=
  exists e, syms !! i = Some e /\ se_addr e <= a < u64 (se_addr e + se_size e).

(** Symbols in address order that do not overlap. *)
Definition disjoint_syms (syms : list libc_sym_entry) : Prop :=
  (forall e, e ∈ syms -> 0 <= se_addr e /\ 0 <= se_size e /\ se_addr e + se_size e < 2 ^ 64) /\
  (forall i j e e', (i < j)%nat -> syms !! i = Some e -> syms !! j = Some e' ->
     se_addr e + se_size e <= se_addr e').

Lemma bsearch_sound syms a fuel lo hi i :
  bsearch syms a fuel lo hi = Some i -> contains syms a i.
Proof.
  revert lo hi. induction fuel as [|fuel IH]; intros lo hi; cbn [bsearch]; [done|].
  destruct (lo <=? hi); [|done]. destruct (syms !! Z.to_nat ((lo + hi) / 2)) as [e|] eqn:E; [|done].
  zcase; eauto. intros [= <-]. exists e. split; [done|lia].
Qed.

Lemma nearest_below_sound syms a n i : nearest_below syms a n = Some i -> contains syms a i.
Proof.
  induction n as [|n IH]; cbn [nearest_below]; [done|].
  destruct (syms !! n) as [e|] eqn:E; [|done].
  zcase; eauto; try done; intros [= <-]; exists e; split; done || lia.
Qed.

Lemma bsearch_complete syms a i fuel lo hi :
  disjoint_syms syms -> contains syms a i ->
  0 <= lo -> hi < Z.of_nat (length syms) -> lo <= Z.of_nat i <= hi -> hi - lo < Z.of_nat fuel ->
  bsearch syms a fuel lo hi = Some i.
Proof.
  intros [Hr Hd] (e & He & Ha). revert lo hi.
  induction fuel as [|fuel IH]; intros lo hi Hlo Hhi Hi Hf; [lia|]. cbn [bsearch].
  rewrite (proj2 (Z.leb_le lo hi)) by lia.
  assert (lo <= (lo + hi) / 2 <= hi) as Hmid by (Z.div_mod_to_equations; lia).
  set (mid := (lo + hi) / 2) in *. clearbody mid.
  destruct (lookup_lt_is_Some_2 syms (Z.to_nat mid)) as [m Hm]; [lia|]. rewrite Hm.
  pose proof (Hr e ltac:(by eapply list_elem_of_lookup_2)) as He'.
  pose proof (Hr m ltac:(by eapply list_elem_of_lookup_2)) as Hm'.
  rewrite u64_id in Ha by (unfold is_u64; lia). rewrite u64_id by (unfold is_u64; lia).
  destruct (Z.ltb_spec a (se_addr m)) as [Hlt|Hge].
  - apply IH; try lia. enough (~ (Z.to_nat mid <= i)%nat) by lia. intros Hle.
    destruct (decide (Z.to_nat mid = i)) as [<-|]; [simplify_eq; lia|].
    specialize (Hd (Z.to_nat mid) i m e ltac:(lia) Hm He). lia.
  - destruct (Z.leb_spec (se_addr m + se_size m) a) as [Hle|Hlt].
    + apply IH; try lia. enough (~ (i <= Z.to_nat mid)%nat) by lia. intros Hle'.
      destruct (decide (Z.to_nat mid = i)) as [<-|]; [simplify_eq; lia|].
      specialize (Hd i (Z.to_nat mid) e m ltac:(lia) He Hm). lia.
    + f_equal. destruct (decide (Z.to_nat mid = i)) as [|Hne]; [done|exfalso].
      destruct (decide (i < Z.to_nat mid)%nat).
      * specialize (Hd i (Z.to_nat mid) e m ltac:(lia) He Hm). lia.
      * specialize (Hd (Z.to_nat mid) i m e ltac:(lia) Hm He). lia.
Qed.

Lemma find_sym_at_addr_sound syms a i : find_sym_at_addr syms a = Some i -> contains syms a i.
Proof.
  unfold find_sym_at_addr. destruct (bsearch _ _ _ _ _) eqn:E.
  - intros [= <-]. by eapply bsearch_sound.
  - apply nearest_below_sound.
Qed.

(** Lookup by address in a table of sorted, non-overlapping symbols
    returns exactly the symbol whose range holds the address. *)
Theorem find_sym_at_addr_exact syms a i :
  disjoint_syms syms -> (find_sym_at_addr syms a = Some i <-> contains syms a i).
Proof.
  intros Hd. split; [apply find_sym_at_addr_sound|].
  intros Hc. pose proof Hc as (e & He & _). apply lookup_lt_Some in He.
  unfold find_sym_at_addr. by rewrite (bsearch_complete _ _ i) by (done || lia).
Qed.

(** A symbol that encloses two others, as hand-written assembly has them. *)
Definition nested_syms : list libc_sym_entry :=
  [ {| se_addr := 0x1000; se_size := 0x100; se_name := "outer" |};
    {| se_addr := 0x1010; se_size := 0x10; se_name := "inner1" |};
    {| se_addr := 0x1030; se_size := 0x10; se_name := "inner2" |} ].

(** Without overlap-freedom the lookup misses symbols: an address inside
    the enclosing symbol, past the nested ones, is found by neither the
    binary search nor the fallback, which stops at the nearest symbol below
    the address. *)
Theorem find_sym_at_addr_misses_enclosing :
  contains nested_syms 0x1050 0 /\ find_sym_at_addr nested_syms 0x1050 = None.
Proof.
  split; [|vm_compute; reflexivity].
  eexists. split; [reflexivity|]. vm_compute. split; congruence.
Qed.

(** ** Invariant of the traversal *)

Record bfs_inv (n : nat) (st : bfs) : Prop := {
  bi_nodup : NoDup (queue st);
  bi_visited : forall i, i ∈ queue st <-> visited st !! i = Some true;
  bi_length : length (visited st) = n;
  bi_bound : Z.of_nat (length (queue st)) <= MAX_REACHABLE;
}.

Definition full (st : bfs) : Prop := MAX_REACHABLE <= Z.of_nat (length (queue st)).

Lemma bfs_inv_index n st i : bfs_inv n st -> i ∈ queue st -> (i < n)%nat.
Proof.
  intros [_ Hv <- _] Hi. apply Hv in Hi. by apply lookup_lt_Some in Hi.
Qed.

(** [st'] extends [st] by symbols satisfying [P]. *)
Definition extends (P : nat -> Prop) (st st' : bfs) : Prop :=
  exists l, queue st' = queue st ++ l /\ Forall P l.

Lemma extends_refl P st : extends P st st.
Proof. exists []. by rewrite app_nil_r. Qed.

Lemma extends_trans P st1 st2 st3 : extends P st1 st2 -> extends P st2 st3 -> extends P st1 st3.
Proof.
  intros (l1 & E1 & H1) (l2 & E2 & H2). exists (l1 ++ l2).
  rewrite E2, E1, app_assoc. by rewrite Forall_app.
Qed.

Lemma extends_full P st st' : extends P st st' -> full st -> full st'.
Proof. intros (l & E & _). unfold full. rewrite E, length_app. lia. Qed.

Lemma extends_elem P st st' i : extends P st st' -> i ∈ queue st -> i ∈ queue st'.
Proof. intros (l & -> & _) H. apply elem_of_app. by left. Qed.

Lemma extends_origin P st st' i : extends P st st' -> i ∈ queue st' -> i ∈ queue st \/ P i.
Proof.
  intros (l & -> & Hl) [H|H]%elem_of_app; [by left|right].
  rewrite Forall_forall in Hl. by apply Hl.
Qed.

#[local] Hint Resolve extends_refl extends_trans extends_elem : core.

Lemma enqueue_spec n st idx :
  bfs_inv n st -> (idx < n)%nat ->
  bfs_inv n (enqueue st idx) /\ extends (fun k => k = idx) st (enqueue st idx) /\
  (idx ∈ queue (enqueue st idx) \/ full (enqueue st idx)).
Proof.
  intros [Hn Hv Hl Hb] Hi. unfold enqueue.
  destruct (lookup_lt_is_Some_2 (visited st) idx) as [b Eb]; [lia|]. rewrite Eb. simpl.
  destruct b; simpl; [split_and!; auto; [by split|left; by apply Hv]|].
  destruct (Z.ltb_spec (Z.of_nat (length (queue st))) MAX_REACHABLE) as [Hlt|Hge].
  2: { split_and!; auto. by split. }
  assert (idx ∉ queue st) as Hnew by (rewrite Hv, Eb; congruence).
  split_and!.
  - split; simpl.
    + apply NoDup_app. split_and!; [done| |apply NoDup_singleton].
      by intros x Hx ->%list_elem_of_singleton.
    + intros i. rewrite elem_of_app, list_elem_of_singleton, Hv, list_lookup_insert.
      case_decide as E; [destruct E as [<- _]; split; auto|].
      split; [intros [?| ->]; [done|]|by left]. exfalso. apply E. split; [done|lia].
    + by rewrite length_insert.
    + rewrite length_app. simpl. lia.
  - exists [idx]. split; [done|]. by apply Forall_singleton.
  - left. simpl. apply elem_of_app. right. by apply list_elem_of_singleton.
Qed.

Lemma extends_mono (P Q : nat -> Prop) st st' :
  (forall k, P k -> Q k) -> extends P st st' -> extends Q st st'.
Proof. intros H (l & E & Hl). exists l. split; [done|]. by eapply Forall_impl. Qed.

Lemma foldl_ind {A B} (f : B -> A -> B) (P : B -> Prop) l b :
  (forall b a, a ∈ l -> P b -> P (f b a)) -> P b -> P (foldl f b l).
Proof.
  revert b. induction l as [|a l IH]; intros b Hf Hb; cbn [foldl]; [done|].
  apply IH; [|apply Hf; [left|done]]. intros b' a' Ha. apply Hf. by right.
Qed.

(** ** Seeds *)

Lemma find_sym_by_name_index syms name i :
  find_sym_by_name syms name = Some i -> (i < length syms)%nat.
Proof.
  unfold find_sym_by_name. destruct (list_find _ syms) as [[j e]|] eqn:E; simpl; [|done].
  intros [= <-]. apply list_find_Some in E as [H _]. by apply lookup_lt_Some in H.
Qed.

Definition anything (k : nat) : Prop := True.

Lemma seed_name_spec n syms st name :
  n = length syms -> bfs_inv n st ->
  bfs_inv n (seed_name syms st name) /\ extends anything st (seed_name syms st name).
Proof.
  intros -> Hinv. unfold seed_name. destruct (find_sym_by_name syms name) as [i|] eqn:E; [|auto].
  apply find_sym_by_name_index in E. destruct (enqueue_spec _ _ _ Hinv E) as (? & He & _).
  split; [done|]. by eapply extends_mono.
Qed.

Lemma seed_variants_spec n syms st imp :
  n = length syms -> bfs_inv n st ->
  bfs_inv n (seed_variants syms st imp) /\ extends anything st (seed_variants syms st imp).
Proof.
  intros -> Hinv. unfold seed_variants. destruct (_ <? 2)%nat; [auto|].
  apply (foldl_ind _ (fun st' => bfs_inv (length syms) st' /\ extends anything st st')); [|auto].
  intros st' i Hi [Hinv' Hext]. destruct (syms !! i) as [e|] eqn:E; [|auto].
  destruct (is_variant _ _); [|auto]. apply lookup_lt_Some in E.
  destruct (enqueue_spec _ _ _ Hinv' E) as (? & He & _).
  split; [done|]. eapply extends_trans; [done|]. by eapply extends_mono.
Qed.

(** Seeding a list of names reaches every one the table knows. *)
Lemma seed_names_spec syms l st :
  bfs_inv (length syms) st ->
  let st' := foldl (seed_name syms) st l in
  bfs_inv (length syms) st' /\ extends anything st st' /\
  forall name i, name ∈ l -> find_sym_by_name syms name = Some i -> i ∈ queue st' \/ full st'.
Proof.
  revert st. induction l as [|nm l IH]; intros st Hst; cbn [foldl].
  { split_and!; auto. intros ? ? ?%elem_of_nil. done. }
  destruct (seed_name_spec _ syms st nm eq_refl Hst) as [Hi He].
  destruct (IH _ Hi) as (Hi' & He' & Hin). split_and!; eauto.
  intros name i [<-|Hn]%elem_of_cons Hf; [|by eapply Hin].
  enough (i ∈ queue (seed_name syms st name) \/ full (seed_name syms st name)) as [|]
    by eauto using extends_full.
  unfold seed_name. rewrite Hf. apply (enqueue_spec (length syms)); [done|].
  by eapply find_sym_by_name_index.
Qed.

Lemma seeds_spec syms imports :
  bfs_inv (length syms) (seeds syms imports) /\
  forall name i, name ∈ imports -> find_sym_by_name syms name = Some i ->
    i ∈ queue (seeds syms imports) \/ full (seeds syms imports).
Proof.
  unfold seeds. set (st0 := {| queue := []; visited := _ |}).
  assert (bfs_inv (length syms) st0) as H0.
  { split; simpl; [apply NoDup_nil_2| |apply length_replicate|done].
    intros i. split; [by intros ?%elem_of_nil|].
    intros H. by apply lookup_replicate in H as [? _]. }
  destruct (seed_names_spec syms imports st0 H0) as (H1 & _ & Hin).
  set (st1 := foldl _ st0 imports) in *. clearbody st1. clear H0 st0.
  destruct (seed_names_spec syms essential_seeds st1 H1) as (H2 & He2 & _).
  set (st2 := foldl _ st1 essential_seeds) in *. clearbody st2.
  assert (bfs_inv (length syms) (foldl (seed_variants syms) st2 imports) /\
    extends anything st2 (foldl (seed_variants syms) st2 imports)) as [H3 He3].
  { apply (foldl_ind _ (fun st' => bfs_inv _ st' /\ extends anything st2 st')); [|auto].
    intros st' nm _ [Hi He]. destruct (seed_variants_spec _ syms st' nm eq_refl Hi); eauto. }
  split; [done|]. intros name i Hn Hf.
  destruct (Hin name i Hn Hf); eauto using extends_full.
Qed.

(** ** Edges *)

Definition secs_ok (secs : list exec_section) : Prop :=
  forall s, s ∈ secs -> is_u64 (xs_vaddr s) /\ is_u64 (xs_size s) /\
    Z.of_nat (length (xs_data s)) = xs_size s.

(** The body of symbol [i] holds a direct call or jump into symbol [k]. *)
Definition calls (secs : list exec_section) (syms : list libc_sym_entry) (i k : nat) : Prop :=
  exists e bytes avail j, syms !! i = Some e /\
    get_bytes_at secs (se_addr e) (se_size e) = Some (bytes, avail) /\ 5 <= avail /\
    (j < Z.to_nat (avail - 4))%nat /\ callee_at syms bytes (se_addr e) j = Ok (Some k).

(** [k] is a seed or reached from one by direct calls. *)
Inductive reachable (secs : list exec_section) (syms : list libc_sym_entry) (seed : nat -> Prop)
    : nat -> Prop :=
| reach_seed k : seed k -> reachable secs syms seed k
| reach_call i k : reachable secs syms seed i -> calls secs syms i k -> reachable secs syms seed k.

(** The bytes handed out are really there. *)
Lemma get_bytes_at_ok secs a len bytes avail :
  secs_ok secs -> is_u64 a -> get_bytes_at secs a len = Some (bytes, avail) ->
  avail <= Z.of_nat (length bytes) /\ avail <= len.
Proof.
  intros Hok Ha. induction secs as [|s secs IH]; cbn [get_bytes_at]; [done|].
  destruct (Hok s ltac:(left)) as (Hv & Hs & Hl). unfold is_u64 in *.
  destruct (Z.leb_spec (xs_vaddr s) a), (Z.ltb_spec a (u64 (xs_vaddr s + xs_size s))); simpl;
    try (apply IH; intros s' Hs'; apply Hok; by right).
  assert (u64 (xs_vaddr s + xs_size s) = xs_vaddr s + xs_size s) as E.
  { unfold u64 in *. destruct (decide (xs_vaddr s + xs_size s < 2 ^ 64)); [by apply Z.mod_small; lia|].
    exfalso. rewrite <- (Z_mod_plus_full _ (-1)), Z.mod_small in * by lia. lia. }
  rewrite E in *. rewrite (u64_id (a - xs_vaddr s)) by (unfold is_u64; lia).
  rewrite u64_id by (unfold is_u64; lia). intros [= <- <-]. rewrite length_drop.
  zcase; lia.
Qed.

Lemma callee_at_total syms bytes a j :
  (Z.of_nat j + 5 <= Z.of_nat (length bytes)) -> exists c, callee_at syms bytes a j = Ok c.
Proof.
  intros H. unfold callee_at. destruct (load8_Ok bytes (Z.of_nat j)) as (b & -> & _); [lia|].
  cbn [res_bind]. destruct (negb _ && negb _); [eauto|].
  rewrite load_Ok by lia. cbn [res_bind]. eauto.
Qed.

Lemma callee_at_index syms bytes a j k :
  callee_at syms bytes a j = Ok (Some k) -> (k < length syms)%nat.
Proof.
  unfold callee_at. intros H. res_inv. destruct (negb _ && negb _); res_inv; [done|].
  match goal with E : find_sym_at_addr _ _ = Some _ |- _ =>
    apply find_sym_at_addr_sound in E as (e & He & _) end.
  by apply lookup_lt_Some in He.
Qed.

(** ** One symbol *)

Lemma visit_calls_total syms bytes a js st :
  bfs_inv (length syms) st ->
  (forall j, j ∈ js -> exists c, callee_at syms bytes a j = Ok c) ->
  exists st', res_fold (visit_call syms bytes a) js st = Ok st' /\
    bfs_inv (length syms) st' /\
    extends (fun k => exists j, j ∈ js /\ callee_at syms bytes a j = Ok (Some k)) st st' /\
    forall j k, j ∈ js -> callee_at syms bytes a j = Ok (Some k) -> k ∈ queue st' \/ full st'.
Proof.
  revert st. induction js as [|j js IH]; intros st Hinv Hc; cbn [res_fold].
  { eexists. split_and!; auto. intros ? ? ?%elem_of_nil. done. }
  destruct (Hc j ltac:(left)) as [c Ec]. unfold visit_call at 1. rewrite Ec. cbn [res_bind].
  assert (exists st1, (if c is Some idx then enqueue st idx else st) = st1 /\
    bfs_inv (length syms) st1 /\ extends (fun k => c = Some k) st st1 /\
    forall k, c = Some k -> k ∈ queue st1 \/ full st1) as (st1 & -> & Hi1 & He1 & Hk1).
  { destruct c as [idx|]; [|eexists; split_and!; auto; done].
    destruct (enqueue_spec _ st idx Hinv) as (? & He & ?); [by eapply callee_at_index|].
    eexists. split_and!; [done|done| |by intros k [= <-]].
    eapply extends_mono; [|done]. by intros k ->. }
  destruct (IH st1 Hi1) as (st' & -> & Hi' & He' & Hk').
  { intros j' Hj'. apply Hc. by right. }
  exists st'. split_and!; [done|done| |].
  - eapply extends_trans; (eapply extends_mono; [|done]).
    + intros k ->. exists j. split; [left|done].
    + intros k (j' & Hj' & Hc'). exists j'. split; [by right|done].
  - intros j' k [->|Hj']%elem_of_cons Hc'; [|by eapply Hk'].
    assert (c = Some k) as Hck by congruence.
    destruct (Hk1 k Hck); eauto using extends_full.
Qed.

Definition syms_ok (syms : list libc_sym_entry) : Prop :=
  forall e, e ∈ syms -> is_u64 (se_addr e) /\ is_u64 (se_size e).

Lemma visit_symbol_total secs syms st i :
  secs_ok secs -> syms_ok syms -> bfs_inv (length syms) st -> (i < length syms)%nat ->
  exists st', visit_symbol secs syms st i = Ok st' /\ bfs_inv (length syms) st' /\
    extends (calls secs syms i) st st' /\
    forall k, calls secs syms i k -> k ∈ queue st' \/ full st'.
Proof.
  intros Hsec Hsym Hinv Hi. unfold visit_symbol.
  destruct (lookup_lt_is_Some_2 syms i Hi) as [e He]. rewrite He.
  destruct (get_bytes_at secs (se_addr e) (se_size e)) as [[bytes avail]|] eqn:Eb.
  2: { eexists. split_and!; auto. intros k (e' & ? & ? & ? & ? & ? & _). simplify_eq. }
  destruct (Z.ltb_spec avail 5).
  { eexists. split_and!; auto. intros k (e' & ? & ? & ? & ? & ? & ? & _). simplify_eq. lia. }
  destruct (get_bytes_at_ok _ _ _ _ _ Hsec
    (proj1 (Hsym e ltac:(by eapply list_elem_of_lookup_2))) Eb) as [Hlen _].
  destruct (visit_calls_total syms bytes (se_addr e) (seq 0 (Z.to_nat (avail - 4))) st)
    as (st' & -> & Hi' & He' & Hk); [done| |].
  { intros j Hj%elem_of_seq. apply callee_at_total. lia. }
  exists st'. split_and!; [done|done| |].
  - eapply extends_mono; [|done]. intros k (j & Hj%elem_of_seq & Hc).
    exists e, bytes, avail, j. split_and!; [done|done|done|lia|done].
  - intros k (e' & b' & a' & j & ? & ? & ? & ? & ?). simplify_eq.
    eapply Hk; [|done]. apply elem_of_seq. lia.
Qed.

(** ** The loop *)

Record loop_inv (secs : list exec_section) (syms : list libc_sym_entry) (seed : nat -> Prop)
    (q_head : nat) (st : bfs) : Prop := {
  li_inv : bfs_inv (length syms) st;
  li_head : (q_head <= length (queue st))%nat;
  li_seed : forall k, seed k -> k ∈ queue st;
  li_sound : forall k, k ∈ queue st -> reachable secs syms seed k;
  li_done : forall n i k, (n < q_head)%nat -> queue st !! n = Some i ->
    calls secs syms i k -> k ∈ queue st \/ full st;
}.

Lemma loop_inv_step secs syms seed q_head st i :
  secs_ok secs -> syms_ok syms -> loop_inv secs syms seed q_head st ->
  queue st !! q_head = Some i ->
  exists st', visit_symbol secs syms st i = Ok st' /\ loop_inv secs syms seed (S q_head) st'.
Proof.
  intros Hsec Hsym [Hinv Hh Hs Hr Hd] Hi.
  assert (i ∈ queue st) as Hin by (by eapply list_elem_of_lookup_2).
  destruct (visit_symbol_total secs syms st i) as (st' & E & Hinv' & Hext & Hk);
    try done; [by eapply bfs_inv_index|].
  exists st'. split; [done|]. pose proof Hext as (l & El & _).
  pose proof (lookup_lt_Some _ _ _ Hi). split; [done| | | |].
  - rewrite El, length_app. lia.
  - eauto.
  - intros k Hk'. destruct (extends_origin _ _ _ _ Hext Hk') as [|]; [by apply Hr|].
    eapply reach_call; [by apply Hr|done].
  - intros n i' k Hn Hl Hc. rewrite El, lookup_app_l in Hl by lia.
    destruct (decide (n = q_head)) as [->|]; [simplify_eq; by apply Hk|].
    destruct (Hd n i' k ltac:(lia) Hl Hc); eauto using extends_full.
Qed.

Lemma bfs_loop_total secs syms seed fuel q_head depth boundary st :
  secs_ok secs -> syms_ok syms -> loop_inv secs syms seed q_head st ->
  MAX_REACHABLE <= Z.of_nat (q_head + fuel) ->
  exists q' d' st', bfs_loop secs syms fuel q_head depth boundary st = Ok (q', d', st') /\
    loop_inv secs syms seed q' st' /\
    (q' = length (queue st') \/ CALLGRAPH_DEPTH_LIMIT <= d').
Proof.
  intros Hsec Hsym. revert q_head depth boundary st.
  induction fuel as [|fuel IH]; intros q_head depth boundary st Hinv Hf; cbn [bfs_loop].
  { do 3 eexists. split_and!; [done|done|]. left.
    pose proof (li_head _ _ _ _ _ Hinv). pose proof (bi_bound _ _ (li_inv _ _ _ _ _ Hinv)). lia. }
  destruct (Z.ltb_spec depth CALLGRAPH_DEPTH_LIMIT); [|do 3 eexists; split_and!; eauto].
  destruct (queue st !! q_head) as [i|] eqn:Ei.
  - destruct (loop_inv_step _ _ _ _ _ _ Hsec Hsym Hinv Ei) as (st' & Ev & Hinv').
    destruct (boundary <? Z.of_nat (S q_head)); rewrite Ev; cbn [res_bind]; apply IH; done || lia.
  - do 3 eexists. split_and!; [done|done|]. left.
    apply lookup_ge_None in Ei. pose proof (li_head _ _ _ _ _ Hinv). lia.
Qed.

Lemma bfs_run_total secs syms imports :
  secs_ok secs -> syms_ok syms ->
  exists q d st, bfs_run secs syms imports = Ok (q, d, st) /\
    loop_inv secs syms (fun k => k ∈ queue (seeds syms imports)) q st /\
    (q = length (queue st) \/ CALLGRAPH_DEPTH_LIMIT <= d).
Proof.
  intros Hsec Hsym. unfold bfs_run. apply bfs_loop_total; try done.
  split; [apply seeds_spec|lia|done| |].
  - intros k Hk. by apply reach_seed.
  - intros n i k Hn. lia.
Qed.

(** Once every queued symbol is processed without hitting the capacity, the
    queue is closed under calls. *)
Lemma loop_inv_closed secs syms seed q st :
  loop_inv secs syms seed q st -> q = length (queue st) -> ~ full st ->
  forall k, reachable secs syms seed k -> k ∈ queue st.
Proof.
  intros [Hinv Hh Hs Hr Hd] -> Hnf k Hk. induction Hk as [k Hk|i k Hi IH Hc]; [by apply Hs|].
  apply list_elem_of_lookup in IH as [n Hn].
  destruct (Hd n i k (lookup_lt_Some _ _ _ Hn) Hn Hc); done.
Qed.

(** C19: The traversal terminates and visits exactly the right functions: it
    enqueues no symbol twice and at most 4096, every enqueued symbol is
    reachable from the seeds by direct calls, and if neither the depth limit
    nor the queue capacity was hit, every reachable symbol is enqueued.
    Every import the table knows is enqueued unless the queue filled up. *)
Theorem callgraph_reachability secs syms imports :
  secs_ok secs -> syms_ok syms ->
  exists q d st, bfs_run secs syms imports = Ok (q, d, st) /\
    NoDup (queue st) /\ Z.of_nat (length (queue st)) <= MAX_REACHABLE /\
    (forall k, k ∈ queue st -> reachable secs syms (fun k => k ∈ queue (seeds syms imports)) k) /\
    (d < CALLGRAPH_DEPTH_LIMIT -> Z.of_nat (length (queue st)) < MAX_REACHABLE ->
     forall k, reachable secs syms (fun k => k ∈ queue (seeds syms imports)) k -> k ∈ queue st) /\
    (forall name i, name ∈ imports -> find_sym_by_name syms name = Some i ->
     i ∈ queue st \/ full (seeds syms imports)).
Proof.
  intros Hsec Hsym. destruct (bfs_run_total secs syms imports Hsec Hsym) as (q & d & st & E & Hinv & Hq).
  exists q, d, st. pose proof (li_inv _ _ _ _ _ Hinv) as [Hn _ _ Hb].
  split_and!; [done|done|done|apply Hinv| |].
  - intros Hd Hnf. eapply loop_inv_closed; [done|by destruct Hq; [|lia]|unfold full; lia].
  - intros name i Hi Hf. destruct (proj2 (seeds_spec syms imports) name i Hi Hf); [|by right].
    left. by apply (li_seed _ _ _ _ _ Hinv).
Qed.

(** ** Sites *)

(** The bytes of symbol [i] hold 0f 05 at address [a]. *)
Definition symbol_site (secs : list exec_section) (syms : list libc_sym_entry) (i : nat) (a : Z)
    : Prop :=
  exists e bytes avail, syms !! i = Some e /\
    get_bytes_at secs (se_addr e) (se_size e) = Some (bytes, avail) /\
    opcode_in (se_addr e) (take (Z.to_nat avail) bytes) a.

Definition symbol_sites (secs : list exec_section) (syms : list libc_sym_entry) (i : nat) : list Z :=
  match syms !! i with
  | Some e =>
      match get_bytes_at secs (se_addr e) (se_size e) with
      | Some (bytes, avail) => sites_in (se_addr e) (take (Z.to_nat avail) bytes)
      | None => []
      end
  | None => []
  end.

Lemma elem_of_symbol_sites secs syms i a :
  a ∈ symbol_sites secs syms i <-> symbol_site secs syms i a.
Proof.
  unfold symbol_sites, symbol_site. destruct (syms !! i) as [e|].
  2: { split; [by intros ?%elem_of_nil|by intros (? & ? & ? & ? & _)]. }
  destruct (get_bytes_at _ _ _) as [[bytes avail]|] eqn:E.
  - rewrite elem_of_sites_in. split; [eauto 10|]. intros (e' & b & v & ? & ? & ?). by simplify_eq.
  - split; [by intros ?%elem_of_nil|]. intros (e' & b & v & ? & ? & ?). by simplify_eq.
Qed.

Lemma collect_sites_spec secs syms max l acc :
  secs_ok secs -> syms_ok syms -> Forall (fun i => i < length syms)%nat l ->
  Z.of_nat (length acc) <= max ->
  res_fold (collect_sites secs syms max) l acc =
    Ok (take (Z.to_nat max) (acc ++ (l ≫= symbol_sites secs syms))).
Proof.
  intros Hsec Hsym. revert acc. induction l as [|i l IH]; intros acc Hl Ha; cbn [res_fold].
  { by rewrite app_nil_r, take_ge by lia. }
  apply Forall_cons in Hl as [Hi Hl].
  assert (collect_sites secs syms max acc i =
    Ok (take (Z.to_nat max) (acc ++ symbol_sites secs syms i))) as ->.
  { unfold collect_sites, symbol_sites. destruct (lookup_lt_is_Some_2 syms i Hi) as [e He]. rewrite He.
    destruct (Z.ltb_spec (Z.of_nat (length acc)) max);
      [|by rewrite take_app_le, take_ge by lia].
    destruct (get_bytes_at _ _ _) as [[bytes avail]|] eqn:Eb;
      [|by rewrite app_nil_r, take_ge by lia].
    destruct (get_bytes_at_ok _ _ _ _ _ Hsec
      (proj1 (Hsym e ltac:(by eapply list_elem_of_lookup_2))) Eb) as [Hlen _].
    by rewrite scan_bytes_spec by lia. }
  cbn [res_bind]. rewrite IH by (done || rewrite length_take; lia).
  cbn [mbind list_bind]. rewrite app_assoc. by rewrite take_app_idemp.
Qed.

(** Header fields of executable sections are 64-bit values. *)
Definition exec_fields_ok (f : elf_file) : Prop :=
  forall s d, s ∈ scns f -> is_exec s = true -> scn_data s = Some d ->
    is_u64 (sh_addr s) /\ is_u64 (d_size d).

Lemma load_exec_sections_total env alloc_ok path f max :
  elf_version_ok env = true -> elf_image env path = Opened f ->
  exec_data_ok f -> exec_fields_ok f ->
  exists secs, load_exec_sections env alloc_ok path max = Ok secs /\ secs_ok secs.
Proof.
  intros Hv Hi Hd Hf. unfold load_exec_sections. rewrite Hv, Hi. cbn [negb].
  apply (res_fold_total _ secs_ok); [|by intros s ?%elem_of_nil].
  intros acc s Hin Hacc. unfold load_section. destruct (negb _ || negb (is_exec s)) eqn:Ex; [eauto|].
  apply orb_false_iff in Ex as [_ Ex%negb_false_iff].
  destruct (scn_data s) as [[[buf|] dsz]|] eqn:Ed; [|eauto..].
  destruct ((dsz =? 0) || negb (alloc_ok dsz)); [eauto|].
  destruct (Hd _ _ Hin Ex Ed) as (b & [= ->] & Hl & _). simpl in Hl.
  destruct (Hf _ _ Hin Ex Ed) as [Ha Hz]. simpl in Hz.
  rewrite (proj2 (Z.ltb_ge _ _)) by lia. eexists. split; [done|].
  intros s' [Hs'|Hs']%elem_of_app; [by apply Hacc|]. apply list_elem_of_singleton in Hs' as ->.
  simpl. split_and!; [done|done|]. rewrite length_take. lia.
Qed.

(** C20: The call-graph filter whitelists only code the program can reach:
    every site [trace_libc_callgraph] returns is a syscall opcode inside a
    function reachable from the imports, it returns at most [max] sites, and
    with room to spare and no limit hit it returns all of them. *)
Theorem trace_callgraph_sites env alloc_ok path f syms imports max :
  elf_version_ok env = true -> elf_image env path = Opened f ->
  exec_data_ok f -> exec_fields_ok f -> syms_ok syms -> 0 <= max -> (forall n, alloc_ok n = true) ->
  exists secs sites cnt,
    load_exec_sections env alloc_ok path 16 = Ok secs /\
    trace_libc_callgraph env alloc_ok path syms imports max = Ok (sites, cnt) /\
    Z.of_nat (length sites) <= max /\
    (forall a, a ∈ sites -> exists i,
       reachable secs syms (fun k => k ∈ queue (seeds syms imports)) i /\ symbol_site secs syms i a) /\
    (forall q d st, secs <> [] -> bfs_run secs syms imports = Ok (q, d, st) ->
       d < CALLGRAPH_DEPTH_LIMIT -> Z.of_nat (length (queue st)) < MAX_REACHABLE ->
       Z.of_nat (length sites) < max -> forall i a,
       reachable secs syms (fun k => k ∈ queue (seeds syms imports)) i ->
       symbol_site secs syms i a -> a ∈ sites).
Proof.
  intros Hv Hi Hd Hf Hsym Hm Hal.
  destruct (load_exec_sections_total env alloc_ok path f 16 Hv Hi Hd Hf) as (secs & El & Hsec).
  destruct (bfs_run_total secs syms imports Hsec Hsym) as (q & d & st & Er & Hinv & Hq).
  unfold trace_libc_callgraph. rewrite El. cbn [res_bind]. rewrite !Hal. cbn [negb orb].
  destruct (Nat.eqb_spec (length secs) 0) as [Hz|Hz].
  { apply nil_length_inv in Hz as ->. do 3 eexists. split_and!; [done|done|done| |done].
    intros a Ha. by apply elem_of_nil in Ha. }
  rewrite Er. cbn [res_bind snd]. rewrite collect_sites_spec; [|done|done| |done].
  2: { apply Forall_forall. intros i. apply bfs_inv_index, Hinv. }
  cbn [res_bind app]. do 3 eexists. split_and!; [done|done|rewrite length_take; lia| |].
  - intros a Ha. assert (a ∈ queue st ≫= symbol_sites secs syms) as Ha'.
    { rewrite <- (take_drop (Z.to_nat max)). apply elem_of_app. by left. }
    apply list_elem_of_bind in Ha' as (i & Hs%elem_of_symbol_sites & Hin).
    exists i. split; [by apply Hinv|done].
  - intros q' d' st' _ Eq Hdl Hnf Hlen i a Hr Hs. rewrite Er in Eq. simplify_eq. rewrite length_take in Hlen.
    rewrite take_ge by lia. apply list_elem_of_bind. exists i. rewrite elem_of_symbol_sites.
    split; [done|]. eapply loop_inv_closed; [done|by destruct Hq; [|lia]|unfold full; lia|done].
Qed.

(** ** Witnesses *)

(** The table of [DemoElf.libc]: aliases of [write] are merged. *)
Definition demo_syms : list libc_sym_entry :=
  [ {| se_addr := 0x1000; se_size := 16; se_name := "write" |};
    {| se_addr := 0x1010; se_size := 8; se_name := "helper" |};
    {| se_addr := 0x1018; se_size := 8; se_name := "spare" |} ].

Definition demo_secs : list exec_section :=
  [ {| xs_vaddr := 0x1000; xs_data := DemoElf.libc_text; xs_size := 32 |} ].

Lemma demo_syms_built :
  build_libc_symtab DemoElf.env "/lib/libc.so.6" MAX_LIBC_SYMS = Ok demo_syms.
Proof. vm_compute. reflexivity. Qed.

Lemma demo_syms_forall (P : libc_sym_entry -> Prop) :
  Forall P demo_syms -> forall e, e ∈ demo_syms -> P e.
Proof. by rewrite Forall_forall. Qed.

Lemma demo_syms_ok : syms_ok demo_syms.
Proof.
  unfold syms_ok. apply demo_syms_forall. repeat constructor; vm_compute; congruence.
Qed.

Lemma demo_secs_ok : secs_ok demo_secs.
Proof.
  intros s ->%list_elem_of_singleton. split_and!; vm_compute; split || idtac; congruence.
Qed.

Lemma demo_syms_disjoint : disjoint_syms demo_syms.
Proof.
  split.
  - apply demo_syms_forall. repeat constructor; vm_compute; congruence.
  - intros [|[|[|i]]] [|[|[|j]]] e e' Hij Hi Hj; simpl in *; simplify_eq; simpl; lia.
Qed.

Lemma build_libc_symtab_sorted_witness :
  exists l, build_libc_symtab DemoElf.env "/lib/libc.so.6" MAX_LIBC_SYMS = Ok l /\
    StronglySorted (fun a b => se_addr a < se_addr b) l /\
    Z.of_nat (length l) <= Z.max 0 MAX_LIBC_SYMS /\
    Forall (from_symbol (file_symbols DemoElf.libc)) l.
Proof.
  apply (build_libc_symtab_sorted DemoElf.env "/lib/libc.so.6" DemoElf.libc MAX_LIBC_SYMS
    eq_refl eq_refl).
  intros s [->|[->|[]%elem_of_nil]%elem_of_cons]%elem_of_cons Hs.
  - split; vm_compute; congruence.
  - destruct Hs as [Hs|Hs]; discriminate Hs.
Defined.

Lemma find_sym_at_addr_exact_witness : find_sym_at_addr demo_syms 0x1013 = Some 1%nat.
Proof.
  apply (find_sym_at_addr_exact demo_syms 0x1013 1 demo_syms_disjoint).
  eexists. split; [reflexivity|]. vm_compute. split; congruence.
Defined.

Lemma callgraph_reachability_witness :
  exists q d st, bfs_run demo_secs demo_syms ["write"] = Ok (q, d, st) /\
    NoDup (queue st) /\ Z.of_nat (length (queue st)) <= MAX_REACHABLE.
Proof.
  destruct (callgraph_reachability demo_secs demo_syms ["write"] demo_secs_ok demo_syms_ok)
    as (q & d & st & H1 & H2 & H3 & _). exists q, d, st. auto.
Defined.

(** [spare] is not reachable: its syscall instruction is filtered out. *)
Lemma demo_trace :
  trace_libc_callgraph DemoElf.env (fun _ => true) "/lib/libc.so.6" demo_syms ["write"] 2048
  = Ok ([0x1010], Some 2).
Proof. vm_compute. reflexivity. Qed.

Lemma trace_callgraph_sites_witness :
  exists sites cnt,
    trace_libc_callgraph DemoElf.env (fun _ => true) "/lib/libc.so.6" demo_syms ["write"] 2048 =
      Ok (sites, cnt) /\ Z.of_nat (length sites) <= 2048.
Proof.
  destruct (trace_callgraph_sites DemoElf.env (fun _ => true) "/lib/libc.so.6" DemoElf.libc
    demo_syms ["write"] 2048 eq_refl eq_refl DemoElf.libc_data_ok) as (secs & sites & cnt & _ & H & Hl & _).
  - intros s d Hs He Hd. destruct (DemoElf.libc_exec s d Hs He Hd) as [-> ->].
    split; vm_compute; split; congruence.
  - exact demo_syms_ok.
  - lia.
  - reflexivity.
  - exists sites, cnt. auto.
Defined.
