(* ===== verification/ProcMaps.v ===== *)
(** * src/runtime/loader.c: /proc/PID/maps and the VMA trie

    Reading module paths and bounds from the child's memory map, and
    registering a module's address range as 1 MiB blocks of the LPM trie.
    The map is the text the kernel returns, or [None] when it cannot be
    opened. *)
From S2P Require Import Prelude Shared BpfMaps CLib.

Definition ULONG_MAX : Z := 2 ^ 64 - 1.
Definition VMA_BLOCK_SIZE : Z := 0x100000.
Definition VMA_BLOCK_PREFIX : Z := 44.

Definition has_libc (line : string) : bool := strstr line "/libc.so" || strstr line "/libc-".

(** ** Paths *)

(** The path field of a line: from the first slash, without the newline, as
    it fits in a buffer of [size] bytes. *)
Definition path_field (line : string) (size : nat) : option string :=
  (fun p => strncpy_term (cut_at p newline) size) <$> strchr line slash.

Fixpoint first_path (keep : string -> bool) (size : nat) (lines : list string) : option string :=
  match lines with
  | [] => None
  | l :: lines =>
      if keep l then
        match path_field l size with
        | Some p => Some p
        | None => first_path keep size lines
        end
      else first_path keep size lines
  end.

(** [None] is the return value -1. *)
Definition find_libc_path (maps : option string) (path_size : nat) : option string :=
  maps ≫= fun m =>
  first_path (fun l => has_libc l && negb (strstr l "libcrypto") && negb (strstr l "libcap"))
    path_size (fgets_lines 512 m).

Definition find_module_path (maps : option string) (needle : string) (path_size : nat)
    : option string :=
  maps ≫= fun m => first_path (fun l => strstr l needle) path_size (fgets_lines 512 m).

(** ** get_libc_base *)

Fixpoint libc_base_in (lines : list string) : Z :=
  match lines with
  | [] => 0
  | l :: lines =>
      if has_libc l then (if sscanf_lx l is Some (b, _) then b else 0) else libc_base_in lines
  end.

Definition get_libc_base (maps : option string) : Z :=
  match maps with
  | None => 0
  | Some m => libc_base_in (fgets_lines 256 m)
  end.

(** ** populate_vma_for_module *)

(** Lowest start and highest end over the lines that mention [name]. *)
Definition module_bounds (lines : list string) (name : string) : Z * Z :=
  foldl (fun '(lo, hi) l =>
    if negb (strstr l name) then (lo, hi)
    else match sscanf_range l with
    | Some (s, e) => (if s <? lo then s else lo, if hi <? e then e else hi)
    | None => (lo, hi)
    end) (ULONG_MAX, 0) lines.

Definition block_floor (a : Z) : Z := Z.land a (Z.lnot (VMA_BLOCK_SIZE - 1)).

Section Populate.
Context {B : BpfOps}.

(** [for (addr = ..; addr < max; addr += VMA_BLOCK_SIZE)]; [None] when
    [fuel] iterations are not enough. *)
Fixpoint insert_blocks (fuel : nat) (v : vma_value) (max a : Z) (t : bpf_lpm vma_value) (count : Z)
    : option (bpf_lpm vma_value * Z) :=
  match fuel with
  | O => None
  | S fuel =>
      if a <? max then
        let k := {| prefixlen := VMA_BLOCK_PREFIX; addr := bswap64 a |} in
        let r := lpm_update t (prefixlen k) (vma_key_data k) v in
        insert_blocks fuel v max (u64 (a + VMA_BLOCK_SIZE)) r.1
          (if r.2 =? 0 then count + 1 else count)
      else Some (t, count)
  end.

(** Enough iterations for a loop whose counter does not wrap around. *)
Definition block_fuel (max a : Z) : nat := Z.to_nat (Z.max 0 ((max - a) / VMA_BLOCK_SIZE) + 2).

Record populate_result := {
  pv_trie : bpf_lpm vma_value;
  pv_ret : Z;
  pv_base : option Z;
}.

(** [None] when the block loop does not terminate; [pv_base] is what is
    written to [*out_base], if anything. *)
Definition populate_vma_for_module (t : bpf_lpm vma_value) (maps : option string) (name : string)
    (mod_id : Z) : option populate_result :=
  match maps with
  | None => Some {| pv_trie := t; pv_ret := -1; pv_base := None |}
  | Some m =>
      let '(min_addr, max_addr) := module_bounds (fgets_lines 512 m) name in
      if min_addr =? ULONG_MAX then Some {| pv_trie := t; pv_ret := -1; pv_base := None |}
      else
        let block_start := block_floor min_addr in
        let v := {| module_id := mod_id; base_addr := min_addr |} in
        match insert_blocks (block_fuel max_addr block_start) v max_addr block_start t 0 with
        | Some (t', n) => Some {| pv_trie := t'; pv_ret := n; pv_base := Some min_addr |}
        | None => None
        end
  end.

End Populate.
