(* ===== verification/ProcMapsProps.v ===== *)
(** * Properties of the module map *)
From S2P Require Import Prelude Shared BpfMaps CLib Enforcer EnforcerSpec ProcMaps.

(** ** Bounds *)

Lemma block_floor_spec a : 0 <= a -> block_floor a = a / 2 ^ 20 * 2 ^ 20.
Proof.
  intros H. unfold block_floor. change (VMA_BLOCK_SIZE - 1) with (Z.ones 20).
  fold (Z.ldiff a (Z.ones 20)). rewrite <- Z.ldiff_land.
  rewrite Z.ldiff_ones_r by lia.
  by rewrite Z.shiftl_mul_pow2, Z.shiftr_div_pow2 by lia.
Qed.

Definition mentions (lines : list string) (name : string) (s e : Z) : Prop :=
  exists l, l ∈ lines /\ strstr l name = true /\ sscanf_range l = Some (s, e).

Lemma module_bounds_spec lines name lo hi :
  module_bounds lines name = (lo, hi) ->
  is_u64 lo /\ is_u64 hi /\
  (forall s e, mentions lines name s e -> lo <= s /\ e <= hi) /\
  (lo <> ULONG_MAX -> exists e, mentions lines name lo e).
Proof.
  unfold module_bounds. revert lo hi.
  induction lines as [|l lines IH] using rev_ind; intros lo hi; [|rewrite foldl_snoc].
  - intros [= <- <-]. split_and!; [done|done| |done]. by intros s e (? & ?%elem_of_nil & _).
  - destruct (foldl _ _ lines) as [lo0 hi0] eqn:E. specialize (IH _ _ eq_refl).
    destruct IH as (H1 & H2 & H3 & H4).
    assert (forall s e, mentions (lines ++ [l]) name s e <->
      mentions lines name s e \/ strstr l name = true /\ sscanf_range l = Some (s, e)) as Hm.
    { intros s e. unfold mentions. setoid_rewrite elem_of_app.
      setoid_rewrite list_elem_of_singleton. naive_solver. }
    setoid_rewrite Hm. destruct (strstr l name) eqn:Es; simpl; [|naive_solver].
    destruct (sscanf_range l) as [[s e]|] eqn:Er; [|naive_solver].
    destruct (sscanf_range_bounds _ _ _ Er) as [Hs He]. intros [= <- <-].
    destruct (Z.ltb_spec s lo0), (Z.ltb_spec hi0 e);
      (split_and!; [done|done|intros s' e' [(? & ?)%H3|(_ & [= <- <-])]; lia|naive_solver]).
Qed.

(** ** Blocks *)

Section Blocks.
Context {B : BpfOps} {L : BpfLaws B}.

Lemma block_key_bits b :
  take (Z.to_nat VMA_BLOCK_PREFIX)
    (key_bits (vma_key_data {| prefixlen := VMA_BLOCK_PREFIX; addr := bswap64 (b * 2 ^ 20) |}))
  = msb_bits 44 b.
Proof.
  rewrite vma_key_data_bits. change (Z.to_nat VMA_BLOCK_PREFIX) with 44%nat.
  rewrite (take_msb_bits 44 20). f_equal.
  rewrite Z.shiftr_div_pow2 by lia. by rewrite Z.div_mul by lia.
Qed.

(** Number of the first block that starts at or after [max]. *)
Definition block_ceil (max : Z) : Z := (max + (2 ^ 20 - 1)) / 2 ^ 20.

Lemma block_ceil_spec b max : b * 2 ^ 20 < max <-> b < block_ceil max.
Proof. unfold block_ceil. split; intros; Z.div_mod_to_equations; lia. Qed.

Lemma msb44_inj x b : 0 <= x < 2 ^ 44 -> 0 <= b < 2 ^ 44 -> msb_bits 44 x = msb_bits 44 b -> x = b.
Proof.
  intros Hx Hb H%msb_bits_inj. change (2 ^ Z.of_nat 44) with (2 ^ 44) in H.
  by rewrite !Z.mod_small in H by lia.
Qed.

(** One update of the loop, for a block in range. *)
Lemma block_update t b v (r := lpm_update t VMA_BLOCK_PREFIX
    (vma_key_data {| prefixlen := VMA_BLOCK_PREFIX; addr := bswap64 (b * 2 ^ 20) |}) v) :
  0 <= b < 2 ^ 44 ->
  (forall x, 0 <= x < 2 ^ 44 -> lpm_view r.1 (msb_bits 44 x) =
     if decide (r.2 = 0 /\ x = b) then Some v else lpm_view t (msb_bits 44 x)) /\
  (vma_wf t -> vma_wf r.1) /\ lpm_max r.1 = lpm_max t /\
  (r.2 <> 0 -> lpm_size r.1 = lpm_size t) /\
  ((lpm_size t < lpm_max t)%nat -> r.2 = 0) /\
  (lpm_view t (msb_bits 44 b) = None -> r.2 = 0 -> lpm_size r.1 = S (lpm_size t)) /\
  (lpm_view t (msb_bits 44 b) = None -> (lpm_max t <= lpm_size t)%nat -> r.2 <> 0).
Proof.
  intros Hb. pose proof (block_key_bits b) as Hk. subst r. set (d := vma_key_data _) in *.
  assert (forall p, lpm_view (lpm_update t VMA_BLOCK_PREFIX d v).1 p =
    if decide ((lpm_update t VMA_BLOCK_PREFIX d v).2 = 0 /\ msb_bits 44 b = p) then Some v else lpm_view t p) as Hv.
  { intros p. destruct (decide ((lpm_update t VMA_BLOCK_PREFIX d v).2 = 0)) as [E|E].
    - rewrite lpm_update_ok, Hk by done. apply decide_ext. tauto.
    - rewrite lpm_update_err, decide_False by tauto. done. }
  split_and!.
  - intros x Hx. rewrite Hv. apply decide_ext. split; intros [E Ex]; (split; [done|]); [|by rewrite Ex].
    symmetry. by apply msb44_inj.
  - intros Hw p w. rewrite Hv. destruct (decide _) as [[_ E]|_]; [|apply Hw].
    rewrite <- E. intros _. apply length_msb_bits.
  - apply lpm_update_max.
  - apply lpm_update_err_size.
  - intros Hr. apply lpm_update_room; [|done]. subst d. rewrite vma_key_data_bits, length_msb_bits. done.
  - rewrite <- Hk. apply lpm_update_grow.
  - rewrite <- Hk. apply lpm_update_full.
Qed.

Lemma next_block b max : 0 <= b -> b * 2 ^ 20 < max -> max <= 2 ^ 64 - 2 ^ 20 ->
  u64 (b * 2 ^ 20 + VMA_BLOCK_SIZE) = (b + 1) * 2 ^ 20.
Proof. intros. rewrite u64_id by (unfold is_u64, VMA_BLOCK_SIZE; lia). unfold VMA_BLOCK_SIZE. lia. Qed.

(** The loop registers the blocks [bs], whose number it returns. *)
Lemma insert_blocks_spec fuel v max b t c :
  0 <= b < 2 ^ 44 -> max <= 2 ^ 64 - 2 ^ 20 -> Z.max 0 (block_ceil max - b) < Z.of_nat fuel ->
  exists t' bs, insert_blocks fuel v max (b * 2 ^ 20) t c = Some (t', c + Z.of_nat (length bs)) /\
    NoDup bs /\ (forall x, x ∈ bs -> b <= x < block_ceil max) /\
    (forall x, 0 <= x < 2 ^ 44 -> lpm_view t' (msb_bits 44 x) =
       if decide (x ∈ bs) then Some v else lpm_view t (msb_bits 44 x)) /\
    (vma_wf t -> vma_wf t') /\ lpm_max t' = lpm_max t /\
    (lpm_size t' <= lpm_size t + length bs)%nat /\
    (Z.of_nat (lpm_size t) + Z.max 0 (block_ceil max - b) <= Z.of_nat (lpm_max t) ->
     Z.of_nat (length bs) = Z.max 0 (block_ceil max - b)).
Proof.
  revert b t c. induction fuel as [|fuel IH]; intros b t c Hb Hm Hf; [lia|].
  pose proof (block_ceil_spec b max) as Hc. cbn [insert_blocks].
  destruct (Z.ltb_spec (b * 2 ^ 20) max) as [Hlt|Hge].
  2: { exists t, []. split_and!; try done; [by rewrite Z.add_0_r|constructor|set_solver|cbn; lia|cbn; lia]. }
  cbn [prefixlen]. rewrite (next_block b max) by lia.
  destruct (block_update t b v Hb) as (Hv & Hw & Hmx & He & Hr & _).
  pose proof (lpm_update_size _ t VMA_BLOCK_PREFIX
    (vma_key_data {| prefixlen := VMA_BLOCK_PREFIX; addr := bswap64 (b * 2 ^ 20) |}) v) as Hs.
  set (r := lpm_update t _ _ _) in *.
  destruct (IH (b + 1) r.1 (if r.2 =? 0 then c + 1 else c)) as (t' & bs & -> & Hnd & Hin & Hview & Hwf & Hm' & Hsz & Hroom);
    [lia..|].
  assert (b ∉ bs) as Hnb by (intros ?%Hin; lia).
  destruct (Z.eqb_spec r.2 0) as [E|E].
  - exists t', (b :: bs). split_and!; [f_equal; f_equal; cbn; lia|by constructor| | |auto|congruence|cbn; lia|cbn; lia].
    + intros x [->|?%Hin]%elem_of_cons; lia.
    + intros x Hx. rewrite Hview, Hv by done. repeat case_decide; set_solver.
  - exists t', bs. split_and!; [done|done| | |auto|congruence|specialize (He E); lia|lia].
    + intros x ?%Hin. lia.
    + intros x Hx. rewrite Hview, Hv, (decide_False (P := r.2 = 0 /\ x = b)) by tauto. done.
Qed.

(** Where no block from [b] on is stored, the first ones are registered
    until the trie is full. *)
Lemma insert_blocks_capacity fuel v max b t c t' n :
  0 <= b < 2 ^ 44 -> max <= 2 ^ 64 - 2 ^ 20 -> (lpm_size t <= lpm_max t)%nat ->
  (forall x, b <= x < 2 ^ 44 -> lpm_view t (msb_bits 44 x) = None) ->
  insert_blocks fuel v max (b * 2 ^ 20) t c = Some (t', n) ->
  let k := Z.min (Z.max 0 (block_ceil max - b)) (Z.of_nat (lpm_max t) - Z.of_nat (lpm_size t)) in
  n = c + k /\
  forall x, 0 <= x < 2 ^ 44 -> lpm_view t' (msb_bits 44 x) =
    if decide (b <= x < b + k) then Some v else lpm_view t (msb_bits 44 x).
Proof.
  revert b t c. induction fuel as [|fuel IH]; intros b t c Hb Hm Hsz Hnone Hi k; [done|].
  pose proof (block_ceil_spec b max) as Hc. cbn [insert_blocks] in Hi.
  destruct (Z.ltb_spec (b * 2 ^ 20) max) as [Hlt|Hge].
  2: { injection Hi as <- <-. split; [lia|]. intros x Hx. by rewrite decide_False by lia. }
  cbn [prefixlen] in Hi. rewrite (next_block b max) in Hi by lia.
  destruct (block_update t b v Hb) as (Hv & _ & Hmx & He & Hr & Hg & Hfull).
  set (r := lpm_update t _ _ _) in *. specialize (Hg (Hnone b ltac:(lia))). specialize (Hfull (Hnone b ltac:(lia))).
  assert (forall x, b + 1 <= x < 2 ^ 44 -> lpm_view r.1 (msb_bits 44 x) = None) as Hnone'
    by (intros x Hx; rewrite Hv, decide_False by lia; apply Hnone; lia).
  destruct (Z.eqb_spec r.2 0) as [E|E]; [specialize (Hg E)|specialize (He E)].
  - assert (lpm_size t < lpm_max t)%nat
      by (destruct (decide (lpm_max t <= lpm_size t)%nat) as [Hle|]; [by apply Hfull in Hle|lia]).
    apply IH in Hi as [-> Hview]; [|lia|done|lia|done]. split; [lia|].
    intros x Hx. rewrite Hview, Hv by done. repeat case_decide; done || lia.
  - apply IH in Hi as [-> Hview]; [|lia|done|lia|done]. assert (lpm_size t = lpm_max t) by (destruct (decide (lpm_size t < lpm_max t)%nat) as [Hlt'|]; [by apply Hr in Hlt'|lia]).
    split; [lia|]. intros x Hx. rewrite Hview, Hv by done. repeat case_decide; done || lia.
Qed.

Lemma shiftr20_range a : is_u64 a -> 0 <= Z.shiftr a 20 < 2 ^ 44.
Proof. unfold is_u64. rewrite Z.shiftr_div_pow2 by lia. intros. Z.div_mod_to_equations. lia. Qed.

(** The number of blocks of [[lo, hi)], and room for as many. *)
Definition blocks (lo hi : Z) : Z := Z.max 0 (block_ceil hi - lo / 2 ^ 20).
Definition has_room (t : bpf_lpm vma_value) (n : Z) : Prop :=
  Z.of_nat (lpm_size t) + n <= Z.of_nat (lpm_max t).

(** The loop of the call, once the bounds are known. *)
Lemma populate_loop t m name mid lo hi :
  module_bounds (fgets_lines 512 m) name = (lo, hi) -> lo <> ULONG_MAX ->
  populate_vma_for_module t (Some m) name mid =
    match insert_blocks (block_fuel hi (lo / 2 ^ 20 * 2 ^ 20)) {| module_id := mid; base_addr := lo |} hi
            (lo / 2 ^ 20 * 2 ^ 20) t 0 with
    | Some (t', n) => Some {| pv_trie := t'; pv_ret := n; pv_base := Some lo |}
    | None => None
    end /\ 0 <= lo / 2 ^ 20 < 2 ^ 44 /\
  Z.max 0 (block_ceil hi - lo / 2 ^ 20) < Z.of_nat (block_fuel hi (lo / 2 ^ 20 * 2 ^ 20)).
Proof.
  intros Hb Hlo. destruct (module_bounds_spec _ _ _ _ Hb) as ((? & ?) & (? & ?) & _).
  unfold populate_vma_for_module. rewrite Hb, (proj2 (Z.eqb_neq _ _)), block_floor_spec by (done || lia).
  split_and!; [done|Z.div_mod_to_equations; lia..|].
  unfold block_fuel, block_ceil, VMA_BLOCK_SIZE. Z.div_mod_to_equations; lia.
Qed.

(** What registering a module does to the trie, block by block. *)
Lemma populate_blocks t m name mid lo hi :
  module_bounds (fgets_lines 512 m) name = (lo, hi) -> lo <> ULONG_MAX -> hi <= 2 ^ 64 - 2 ^ 20 ->
  exists t' bs, populate_vma_for_module t (Some m) name mid =
      Some {| pv_trie := t'; pv_ret := Z.of_nat (length bs); pv_base := Some lo |} /\
    NoDup bs /\ (forall x, x ∈ bs -> lo / 2 ^ 20 <= x < block_ceil hi) /\
    (forall a, is_u64 a -> block_module t' a =
       if decide (a / 2 ^ 20 ∈ bs) then Some {| module_id := mid; base_addr := lo |} else block_module t a) /\
    (vma_wf t -> vma_wf t') /\ lpm_max t' = lpm_max t /\ (lpm_size t' <= lpm_size t + length bs)%nat /\
    (has_room t (blocks lo hi) -> Z.of_nat (length bs) = blocks lo hi).
Proof.
  intros Hb Hlo Hhi. destruct (populate_loop t m name mid lo hi Hb Hlo) as (-> & Hr & Hf).
  destruct (insert_blocks_spec _ {| module_id := mid; base_addr := lo |} hi _ t 0 Hr Hhi Hf)
    as (t' & bs & -> & Hnd & Hin & Hv & Hw & Hm & Hs & Hroom).
  exists t', bs. split_and!; try done. intros a Ha. unfold block_module.
  rewrite Hv by by apply shiftr20_range. by rewrite Z.shiftr_div_pow2 by lia.
Qed.

(** As many distinct blocks as the span has are all of them. *)
Lemma all_blocks lo hi bs x :
  NoDup bs -> (forall x, x ∈ bs -> lo / 2 ^ 20 <= x < block_ceil hi) -> Z.of_nat (length bs) = blocks lo hi ->
  x ∈ bs <-> lo / 2 ^ 20 <= x < block_ceil hi.
Proof.
  intros Hnd Hin Hl. split; [apply Hin|]. intros Hx.
  assert (bs ≡ₚ seqZ (lo / 2 ^ 20) (blocks lo hi)) as ->.
  { apply submseteq_length_Permutation; [|rewrite length_seqZ; lia].
    apply NoDup_submseteq; [done|]. intros y ?%Hin. apply elem_of_seqZ. unfold blocks. lia. }
  apply elem_of_seqZ. unfold blocks. lia.
Qed.

(** With room for every block. *)
Lemma populate_spec t m name mid lo hi :
  module_bounds (fgets_lines 512 m) name = (lo, hi) -> lo <> ULONG_MAX ->
  hi <= 2 ^ 64 - 2 ^ 20 -> has_room t (blocks lo hi) ->
  exists t', populate_vma_for_module t (Some m) name mid =
      Some {| pv_trie := t'; pv_ret := blocks lo hi; pv_base := Some lo |} /\
    (forall a, is_u64 a -> block_module t' a =
       if decide (lo / 2 ^ 20 <= a / 2 ^ 20 < block_ceil hi)
       then Some {| module_id := mid; base_addr := lo |} else block_module t a) /\
    Z.of_nat (lpm_size t') <= Z.of_nat (lpm_size t) + blocks lo hi /\ lpm_max t' = lpm_max t.
Proof.
  intros Hb Hlo Hhi Hr.
  destruct (populate_blocks t m name mid lo hi Hb Hlo Hhi) as (t' & bs & -> & Hnd & Hin & Hv & _ & Hm & Hs & Hl).
  specialize (Hl Hr). rewrite Hl. exists t'. split_and!; [done| |lia|done].
  intros a Ha. rewrite Hv by done. apply decide_ext. by apply all_blocks.
Qed.

End Blocks.

(** ** Theorems *)

Section Theorems.
Context {B : BpfOps} {L : BpfLaws B}.

(** C35: Modules that share a 1 MiB block shadow each other: after
    registering two modules in a trie with room for both, an address of the
    first that lies in a block of the second resolves to the second module,
    with the second's base. *)
Theorem shared_block_last_wins t m name1 id1 lo1 hi1 name2 id2 lo2 hi2 s e a :
  module_bounds (fgets_lines 512 m) name1 = (lo1, hi1) -> lo1 <> ULONG_MAX ->
  module_bounds (fgets_lines 512 m) name2 = (lo2, hi2) -> lo2 <> ULONG_MAX ->
  hi1 <= 2 ^ 64 - 2 ^ 20 -> hi2 <= 2 ^ 64 - 2 ^ 20 ->
  has_room t (blocks lo1 hi1 + blocks lo2 hi2) ->
  mentions (fgets_lines 512 m) name1 s e -> s <= a < e -> is_u64 a ->
  lo2 / 2 ^ 20 <= a / 2 ^ 20 < block_ceil hi2 ->
  exists r1 r2, populate_vma_for_module t (Some m) name1 id1 = Some r1 /\
    populate_vma_for_module (pv_trie r1) (Some m) name2 id2 = Some r2 /\
    block_module (pv_trie r2) a = Some {| module_id := id2; base_addr := lo2 |}.
Proof.
  intros Hb1 Hl1 Hb2 Hl2 Hh1 Hh2 Hr Hs Ha Hau Hin. unfold has_room in Hr.
  assert (0 <= blocks lo1 hi1 /\ 0 <= blocks lo2 hi2) as [? ?] by (unfold blocks; lia).
  destruct (populate_spec t m name1 id1 lo1 hi1 Hb1 Hl1 Hh1) as (t1 & E1 & _ & Hs1 & Hm1);
    [unfold has_room; lia|].
  destruct (populate_spec t1 m name2 id2 lo2 hi2 Hb2 Hl2 Hh2) as (t2 & E2 & Hv & _);
    [unfold has_room; lia|].
  eexists _, _. split_and!; [done|done|]. cbn [pv_trie]. by rewrite Hv, decide_True by done.
Qed.

(** The bound on [hi] in the theorems above is needed: beyond 2^64 - 2^20 the
    counter wraps around and no number of iterations ends the loop. *)
Lemma block_loop_diverges fuel v max a t c :
  2 ^ 64 - 2 ^ 20 < max -> is_u64 a -> a mod 2 ^ 20 = 0 ->
  insert_blocks fuel v max a t c = None.
Proof.
  intros Hm. revert a t c. induction fuel as [|fuel IH]; intros a t c Ha Hmod; [done|].
  cbn [insert_blocks]. unfold is_u64 in Ha.
  assert (a <= 2 ^ 64 - 2 ^ 20) as Hle by (Z.div_mod_to_equations; lia).
  rewrite (proj2 (Z.ltb_lt a max)) by lia. apply IH; [apply u64_range|].
  unfold u64, VMA_BLOCK_SIZE. rewrite Z.mod_mod_divide by (by exists (2 ^ 44)).
  rewrite Z.add_mod, Hmod by lia. done.
Qed.

End Theorems.

(** ** The text of a map

    A line as the kernel prints it: the bounds and the rest of the line
    (permissions, offset, device, inode and path). *)
Record vma_line := { vm_start : Z; vm_end : Z; vm_rest : string }.

Definition line_text (v : vma_line) : string :=
  cat [fmt_08lx (vm_start v); "-"; fmt_08lx (vm_end v); String space (vm_rest v)].

Definition maps_text (vs : list vma_line) : string :=
  foldr (fun v s => String.append (line_text v) (String newline s)) EmptyString vs.

Definition line_ok (v : vma_line) : Prop :=
  is_u64 (vm_start v) /\ is_u64 (vm_end v) /\ vm_start v < vm_end v /\
  strchr (line_text v) newline = None /\ (String.length (line_text v) < 511)%nat.

Lemma fgets_maps_text vs :
  Forall line_ok vs ->
  fgets_lines 512 (maps_text vs) = (fun v => String.append (line_text v) nl) <$> vs.
Proof.
  induction 1 as [|v vs (_ & _ & _ & Hn & Hl) _ IH]; [done|].
  cbn [maps_text foldr]. fold (maps_text vs). rewrite fgets_lines_cons by done.
  by rewrite IH.
Qed.

Lemma sscanf_line v :
  line_ok v -> sscanf_range (String.append (line_text v) nl) = Some (vm_start v, vm_end v).
Proof.
  intros (Hs & He & _). unfold line_text, cat. cbn [String.concat].
  rewrite !append_assoc. by apply (sscanf_range_fmt _ _ (String space (String.append (vm_rest v) nl))).
Qed.

(** The lines that mention [name], and the range they span. *)
Definition vmas_of (name : string) (vs : list vma_line) : list vma_line :=
  List.filter (fun v => strstr (String.append (line_text v) nl) name) vs.
Definition span (vs : list vma_line) : Z * Z :=
  (foldr (fun v lo => Z.min (vm_start v) lo) ULONG_MAX vs, foldr (fun v hi => Z.max (vm_end v) hi) 0 vs).

Lemma module_bounds_lines vs name :
  Forall line_ok vs ->
  module_bounds ((fun v => String.append (line_text v) nl) <$> vs) name = span (vmas_of name vs).
Proof.
  intros H. unfold module_bounds, span.
  set (lows := foldr (fun v lo => Z.min (vm_start v) lo) ULONG_MAX).
  set (highs := foldr (fun v hi => Z.max (vm_end v) hi) 0).
  assert (forall lo hi, lo <= ULONG_MAX -> 0 <= hi ->
    foldl (fun '(lo, hi) l =>
      if negb (strstr l name) then (lo, hi)
      else match sscanf_range l with
      | Some (s, e) => (if s <? lo then s else lo, if hi <? e then e else hi)
      | None => (lo, hi)
      end) (lo, hi) ((fun v => String.append (line_text v) nl) <$> vs) =
    (Z.min lo (lows (vmas_of name vs)), Z.max hi (highs (vmas_of name vs)))) as Hf.
  { induction H as [|v vs Hv _ IH]; intros lo hi Hlo Hhi; cbn [fmap list_fmap foldl vmas_of List.filter].
    - cbn. f_equal; lia.
    - destruct (strstr (String.append (line_text v) nl) name); cbn [negb]; [|by apply IH].
      rewrite sscanf_line by done. destruct Hv as ((? & ?) & (? & ?) & _).
      rewrite IH by (zcase; unfold ULONG_MAX in *; lia).
      fold (vmas_of name vs). cbn [lows highs foldr]. fold (lows (vmas_of name vs)) (highs (vmas_of name vs)).
      f_equal; zcase; lia. }
  rewrite Hf by (unfold ULONG_MAX; lia).
  assert (lows (vmas_of name vs) <= ULONG_MAX /\ 0 <= highs (vmas_of name vs)).
  { clear. induction (vmas_of name vs) as [|v l IH]; [done|]. cbn [lows highs foldr] in *. lia. }
  f_equal; lia.
Qed.

Section Vmas.
Context {B : BpfOps} {L : BpfLaws B}.

(** The bounds the loader computes are the span of the module's lines. *)
Lemma vmas_bounds vs name lo hi :
  Forall line_ok vs -> vmas_of name vs <> [] -> span (vmas_of name vs) = (lo, hi) ->
  module_bounds (fgets_lines 512 (maps_text vs)) name = (lo, hi) /\ lo <> ULONG_MAX /\ is_u64 lo /\
  forall v, v ∈ vmas_of name vs -> line_ok v /\ lo <= vm_start v /\ vm_end v <= hi.
Proof.
  intros Hok Hne Hsp. pose proof (fgets_maps_text vs Hok) as Hl.
  assert (module_bounds (fgets_lines 512 (maps_text vs)) name = (lo, hi)) as Hb
    by (rewrite Hl, module_bounds_lines; done).
  destruct (module_bounds_spec _ _ _ _ Hb) as (Hlo & _ & Hm & _).
  assert (forall v, v ∈ vmas_of name vs -> line_ok v /\ lo <= vm_start v /\ vm_end v <= hi) as Hin.
  { intros v (Hv & Hs)%list_elem_of_In%filter_In. apply list_elem_of_In in Hv.
    rewrite Forall_forall in Hok. split; [by apply Hok|]. apply Hm.
    exists (String.append (line_text v) nl). rewrite Hl. split_and!; [|done|by apply sscanf_line, Hok].
    by apply (list_elem_of_fmap_2 (fun v => String.append (line_text v) nl)). }
  split_and!; try done. destruct (vmas_of name vs) as [|v l]; [done|].
  destruct (Hin v) as (((? & ?) & (? & ?) & ? & _) & ? & ?); [left|]. unfold ULONG_MAX. lia.
Qed.



End Vmas.

(** ** A concrete map *)
Module DemoMaps.

Definition line (s : string) : string := String.append s (String newline "").

(** libcrypto is mapped below libc. *)
Definition text : string :=
  String.append (line "555555554000-555555558000 r-xp 00000000 08:01 11 /home/u/victim")
 (String.append (line "7ffff7d00000-7ffff7e00000 r-xp 00000000 08:01 12 /usr/lib/libcrypto.so.3")
 (String.append (line "7ffff7e00000-7ffff7f80000 r-xp 00000000 08:01 13 /usr/lib/libc.so.6")
                (line "7ffff7f90000-7ffff7fc0000 r-xp 00000000 08:01 14 /usr/lib/ld-linux-x86-64.so.2"))).

Definition vmas : list vma_line := [
  {| vm_start := 0x555555554000; vm_end := 0x555555558000; vm_rest := "r-xp 00000000 08:01 11 /home/u/victim" |};
  {| vm_start := 0x555555559000; vm_end := 0x55555555a000; vm_rest := "rw-p 00004000 08:01 11 /home/u/victim" |};
  {| vm_start := 0x7ffff7e00000; vm_end := 0x7ffff7f80000; vm_rest := "r-xp 00000000 08:01 13 /usr/lib/libc.so.6" |} ].

(** A program with a mapping 764 MiB above its first one. *)
Definition spread : list vma_line := [
  {| vm_start := 0x400000; vm_end := 0x408000; vm_rest := "r-xp 00000000 08:01 11 /home/u/victim" |};
  {| vm_start := 0x30000000; vm_end := 0x30010000; vm_rest := "r-xp 00000000 08:01 15 /home/u/victim-plugin.so" |} ].

Definition trie : bpf_lpm vma_value := lpm_new vma_value 512.

Lemma trie_wf : vma_wf trie.
Proof. intros p v H. unfold trie in H. by rewrite lpm_new_view in H. Qed.

End DemoMaps.

(** The two ways of finding libc disagree: with another library whose
    name contains "libc" mapped lower, [get_libc_base] finds libc, but
    registering module "libc" takes the other library's address as base, so
    every libc address resolves to an offset shifted by the difference. *)
Theorem libc_base_confused :
  get_libc_base (Some DemoMaps.text) = 0x7ffff7e00000 /\
  find_libc_path (Some DemoMaps.text) 512 = Some "/usr/lib/libc.so.6" /\
  exists r, populate_vma_for_module DemoMaps.trie (Some DemoMaps.text) "libc" MODULE_LIBC = Some r /\
    pv_base r = Some 0x7ffff7d00000 /\
    block_module (pv_trie r) 0x7ffff7e11234 =
      Some {| module_id := MODULE_LIBC; base_addr := 0x7ffff7d00000 |}.
Proof.
  split_and!; [vm_compute; reflexivity|vm_compute; reflexivity|].
  destruct (populate_spec DemoMaps.trie DemoMaps.text "libc" MODULE_LIBC 0x7ffff7d00000 0x7ffff7f80000)
    as (t' & -> & Hv & _); [vm_compute; reflexivity|discriminate|vm_compute; discriminate..|].
  eexists. split_and!; [done|done|]. cbn [pv_trie].
  rewrite Hv, decide_True; [done|split; vm_compute; congruence|split; lia].
Qed.



Lemma shared_block_last_wins_witness :
  exists r1 r2,
    populate_vma_for_module DemoMaps.trie (Some DemoMaps.text) "libc.so" 2 = Some r1 /\
    populate_vma_for_module (pv_trie r1) (Some DemoMaps.text) "ld-linux" 3 = Some r2 /\
    block_module (pv_trie r2) 0x7ffff7f11234 = Some {| module_id := 3; base_addr := 0x7ffff7f90000 |}.
Proof.
  apply (shared_block_last_wins DemoMaps.trie DemoMaps.text "libc.so" 2 0x7ffff7e00000 0x7ffff7f80000
    "ld-linux" 3 0x7ffff7f90000 0x7ffff7fc0000 0x7ffff7e00000 0x7ffff7f80000 0x7ffff7f11234).
  - vm_compute. reflexivity.
  - discriminate.
  - vm_compute. reflexivity.
  - discriminate.
  - vm_compute. discriminate.
  - vm_compute. discriminate.
  - vm_compute. discriminate.
  - eexists. split; [right; right; left|]. split; vm_compute; reflexivity.
  - lia.
  - split; lia.
  - split; vm_compute; congruence.
Defined.
