(* ===== verification/LoaderPolicy.v ===== *)
(** * src/runtime/loader.c: building the policy

    The part of [main] that runs while the child is stopped: waiting for
    libc, registering modules, filling the policy maps from the binary, libc,
    ld.so and the other libraries, the CFI policy, and tracking the child;
    and the reload of the main policy on SIGHUP.  The maps are those of the
    enforcer; [create_ok n] says whether the [n]-th creation of a policy map
    succeeds: first the main binary's, then libc's, then one per library. *)
From S2P Require Import Prelude Shared BpfMaps Elf CLib Enforcer LoaderElf CallGraph ProcMaps.

Definition PTRACE_STEP_LIMIT : Z := 10000.

(** ** Waiting for libc

    [snap n] is the memory map after [n] steps of the child and [exited n]
    whether step [n] ended it. *)
Fixpoint wait_for_libc (fuel : nat) (snap : Z -> option string) (exited : Z -> bool) (steps : Z)
    : option (Z * Z) :=
  match fuel with
  | O => None
  | S fuel =>
      let libc_base := get_libc_base (snap steps) in
      if negb (libc_base =? 0) then Some (libc_base, steps)
      else if exited (steps + 1) then Some (0, steps)
      else if PTRACE_STEP_LIMIT <? steps + 1 then Some (0, steps + 1)
      else wait_for_libc fuel snap exited (steps + 1)
  end.

(** Each iteration is one step, and the limit ends the loop. *)
Definition wait_fuel : nat := Z.to_nat (PTRACE_STEP_LIMIT + 2).

(** ** Policy values *)

Definition policy_value (nr : Z) : Z :=
  if 0 <=? nr then Z.lor POLICY_FLAG_CHECK_NR (u32 nr) else 1.

(** The wrappers of libc whose number is known. *)
Definition libc_syms : list (string * Z) :=
  [ ("write", 1); ("__write", 1); ("__libc_write", 1); ("__write_nocancel", 1);
    ("read", 0); ("__read", 0); ("__libc_read", 0); ("__read_nocancel", 0);
    ("openat", 257); ("openat64", 257); ("__openat_nocancel", 257);
    ("open", 257); ("open64", 257); ("__open", 257);
    ("__open64", 257); ("__libc_open", 257); ("__libc_open64", 257);
    ("__open_nocancel", 257); ("__open64_nocancel", 257);
    ("mmap", 9); ("mmap64", 9); ("__mmap", 9);
    ("mprotect", 10); ("__mprotect", 10);
    ("connect", 42); ("__connect", 42);
    ("memfd_create", 319);
    ("prctl", 157); ("__prctl", 157);
    ("sendmsg", 46); ("__sendmsg", 46);
    ("dup2", 33);
    ("close", 3); ("__close", 3); ("__libc_close", 3); ("__close_nocancel", 3);
    ("ioctl", 16) ].

Definition cancel_syms : list string :=
  [ "__syscall_cancel_arch"; "__syscall_cancel"; "__internal_syscall_cancel" ].

(** The wrappers the call-graph filter binds to their number. *)
Definition nr_bindings : list (string * Z) :=
  [ ("write", 1); ("__write", 1); ("__libc_write", 1);
    ("__write_nocancel", 1);
    ("read", 0); ("__read", 0); ("__libc_read", 0);
    ("__read_nocancel", 0);
    ("openat", 257); ("openat64", 257); ("__openat_nocancel", 257);
    ("open", 257); ("open64", 257); ("__open", 257);
    ("__libc_open", 257); ("__open_nocancel", 257);
    ("mmap", 9); ("mmap64", 9); ("__mmap", 9);
    ("mprotect", 10); ("__mprotect", 10);
    ("connect", 42); ("__connect", 42);
    ("memfd_create", 319);
    ("prctl", 157); ("__prctl", 157);
    ("sendmsg", 46); ("__sendmsg", 46);
    ("dup2", 33); ("close", 3); ("__close", 3);
    ("ioctl", 16) ].

(** The value for a site the call-graph filter found: bound to a number when
    the symbol around it is one of [nr_bindings]. *)
Definition callgraph_value (syms : list libc_sym_entry) (site : Z) : Z :=
  match find_sym_at_addr syms site ≫= fun i => syms !! i with
  | Some containing_sym =>
      match List.find (fun b => strcmp_eq (se_name containing_sym) b.1) nr_bindings with
      | Some b => Z.lor POLICY_FLAG_CHECK_NR b.2
      | None => 1
      end
  | None => 1
  end.

Definition sizeof_libc_sym_entry : Z := 8 + 8 + 128.

(** [if (0)]: the call-graph filter is written out but switched off. *)
Definition callgraph_filter : bool := false.

Definition or_diverges {A} (o : option A) : res A :=
  match o with Some a => Ok a | None => Fault NoFuel end.

Section Load.
Context {B : BpfOps}.

(** ** The maps *)

Definition with_inner (s : bpf_maps) (i : gmap Z (bpf_hash Z)) : bpf_maps :=
  {| inner_maps := i; policy_registry := policy_registry s; vma_map := vma_map s;
     target_pid_map := target_pid_map s; cfi_policy := cfi_policy s; cgroup_map := cgroup_map s;
     learn_map := learn_map s; fallback_policy := fallback_policy s; lib_allow_map := lib_allow_map s |}.
Definition with_registry (s : bpf_maps) (r : bpf_aom) : bpf_maps :=
  {| inner_maps := inner_maps s; policy_registry := r; vma_map := vma_map s;
     target_pid_map := target_pid_map s; cfi_policy := cfi_policy s; cgroup_map := cgroup_map s;
     learn_map := learn_map s; fallback_policy := fallback_policy s; lib_allow_map := lib_allow_map s |}.
Definition with_vma (s : bpf_maps) (t : bpf_lpm vma_value) : bpf_maps :=
  {| inner_maps := inner_maps s; policy_registry := policy_registry s; vma_map := t;
     target_pid_map := target_pid_map s; cfi_policy := cfi_policy s; cgroup_map := cgroup_map s;
     learn_map := learn_map s; fallback_policy := fallback_policy s; lib_allow_map := lib_allow_map s |}.
Definition with_cfi (s : bpf_maps) (h : bpf_hash cfi_range) : bpf_maps :=
  {| inner_maps := inner_maps s; policy_registry := policy_registry s; vma_map := vma_map s;
     target_pid_map := target_pid_map s; cfi_policy := h; cgroup_map := cgroup_map s;
     learn_map := learn_map s; fallback_policy := fallback_policy s; lib_allow_map := lib_allow_map s |}.
Definition with_pids (s : bpf_maps) (h : bpf_hash Z) : bpf_maps :=
  {| inner_maps := inner_maps s; policy_registry := policy_registry s; vma_map := vma_map s;
     target_pid_map := h; cfi_policy := cfi_policy s; cgroup_map := cgroup_map s;
     learn_map := learn_map s; fallback_policy := fallback_policy s; lib_allow_map := lib_allow_map s |}.

(** [bpf_create_map(BPF_MAP_TYPE_HASH, 8, 8, 4096, 0)]: a new map and its id. *)
Definition create_map (s : bpf_maps) : bpf_maps * Z :=
  let id := fresh (dom (inner_maps s)) in
  (with_inner s (<[id := hash_new Z inner_policy_max_entries]> (inner_maps s)), id).

(** A system call on the inner map [id], through its descriptor. *)
Definition on_map (s : bpf_maps) (id : Z) (f : bpf_hash Z -> bpf_hash Z) : bpf_maps :=
  with_inner s (alter f id (inner_maps s)).

(** Creating the policy map of a module and registering it; [None] when
    either fails, with the maps as they are then. *)
Definition register_module (s : bpf_maps) (created : bool) (mod_id : Z) : bpf_maps * option Z :=
  if created then
    let '(s, id) := create_map s in
    let r := aom_update (policy_registry s) mod_id id in
    let s := with_registry s r.1 in
    (s, if r.2 =? 0 then Some id else None)
  else (s, None).

(** ** Main binary *)

(** One [bpf_map_update_elem], counting the successful ones. *)
Definition put (f : map_flag) (acc : bpf_hash Z * Z) (k v : Z) : bpf_hash Z * Z :=
  let r := hash_update acc.1 k v f in
  (r.1, if r.2 =? 0 then acc.2 + 1 else acc.2).

Definition load_entries (elf_load_base : Z) (es : list (Z * Z)) (m : bpf_hash Z) : bpf_hash Z * Z :=
  foldl (fun acc e => put BPF_ANY acc (u64 (e.1 - elf_load_base)) (policy_value e.2)) (m, 0) es.

Definition add_sites (f : map_flag) (v : Z) (sites : list Z) (m : bpf_hash Z) : bpf_hash Z * Z :=
  foldl (fun acc site => put f acc site v) (m, 0) sites.

(** ** Libc *)

(** The bound wrappers, then the cancellation trampolines, then every other
    syscall instruction of libc. *)
Definition whitelist_wrappers (env : elf_env) (libc_path : string) (m : bpf_hash Z) : res (bpf_hash Z) :=
  res_fold (fun m p =>
    let* sites := resolve_libc_syscall_sites env libc_path p.1 8 in
    Ok (add_sites BPF_ANY (Z.lor POLICY_FLAG_CHECK_NR p.2) sites m).1) libc_syms m.

Definition whitelist_trampolines (env : elf_env) (libc_path : string) (m : bpf_hash Z)
    : res (bpf_hash Z) :=
  res_fold (fun m name =>
    let* sites := resolve_libc_syscall_sites env libc_path name 4 in
    Ok (add_sites BPF_ANY 1 sites m).1) cancel_syms m.

Definition whitelist_libc (env : elf_env) (libc_path : string) (m : bpf_hash Z) : res (bpf_hash Z) :=
  let* m := whitelist_wrappers env libc_path m in
  let* m := whitelist_trampolines env libc_path m in
  let* all_sites := scan_elf_text_for_syscalls env libc_path 512 in
  Ok (add_sites BPF_NOEXIST 1 all_sites m).1.

(** The call-graph filter, [libc_total] included; [None] is
    [goto libc_fallback].  The scan at the end only serves the report. *)
Definition whitelist_callgraph (env : elf_env) (alloc_ok : Z -> bool) (libc_path : string)
    (app_imports : list string) (m : bpf_hash Z) : res (option (bpf_hash Z * Z)) :=
  if negb (alloc_ok (MAX_LIBC_SYMS * sizeof_libc_sym_entry)) then Ok None
  else
    let* syms := build_libc_symtab env libc_path MAX_LIBC_SYMS in
    if (length syms =? 0)%nat then Ok None
    else
      let* r := trace_libc_callgraph env alloc_ok libc_path syms app_imports 2048 in
      let acc := foldl (fun acc site => put BPF_ANY acc site (callgraph_value syms site)) (m, 0) r.1 in
      let* all_sites := scan_elf_text_for_syscalls env libc_path 512 in
      Ok (Some acc).

(** Filling libc's map.  The imports are never read, so the filter would get
    none. *)
Definition fill_libc (env : elf_env) (alloc_ok : Z -> bool) (libc_path : string) (m : bpf_hash Z)
    : res (bpf_hash Z) :=
  if callgraph_filter then
    let* r := whitelist_callgraph env alloc_ok libc_path [] m in
    (match r with
     | Some acc => Ok acc.1
     | None => whitelist_libc env libc_path m
     end)
  else whitelist_libc env libc_path m.

(** ** ld.so *)

Definition is_ld_line (l : string) : bool := strstr l "ld-linux" || strstr l "ld-musl".

(** The base of ld.so: the first line that mentions it; 0 if none. *)
Fixpoint ld_base_in (lines : list string) : Z :=
  match lines with
  | [] => 0
  | l :: lines =>
      if is_ld_line l then (if sscanf_lx l is Some (b, _) then b else 0) else ld_base_in lines
  end.

(** The bounds of ld.so; a line [sscanf] cannot read leaves [s] and [e]
    unset. *)
Definition ld_bounds (lines : list string) : res (Z * Z) :=
  res_fold (fun b l =>
    if is_ld_line l then
      match sscanf_range l with
      | Some (s, e) => Ok (if s <? b.1 then s else b.1, if b.2 <? e then e else b.2)
      | None => Fault Uninitialised
      end
    else Ok b) lines (ULONG_MAX, 0).

(** ld.so's sites go to libc's map, relative to libc's base, and its blocks
    to the trie as libc's. *)
Definition whitelist_ld (env : elf_env) (maps : option string) (libc_base : Z)
    (m : bpf_hash Z) (t : bpf_lpm vma_value) : res (bpf_hash Z * bpf_lpm vma_value) :=
  let lines := match maps with Some c => fgets_lines 512 c | None => [] end in
  let ld_base := ld_base_in lines in
  if ld_base =? 0 then Ok (m, t)
  else match find_module_path maps "ld-linux" 512 with
  | None => Ok (m, t)
  | Some ld_path =>
      let* sites := scan_elf_text_for_syscalls env ld_path 256 in
      let m := (add_sites BPF_NOEXIST 1 ((fun x => u64 (u64 (ld_base + x) - libc_base)) <$> sites) m).1 in
      let* b := ld_bounds lines in
      if b.1 =? ULONG_MAX then Ok (m, t)
      else
        let blk := block_floor b.1 in
        let v := {| module_id := MODULE_LIBC; base_addr := libc_base |} in
        let* r := or_diverges (insert_blocks (block_fuel b.2 blk) v b.2 blk t 0) in
        Ok (m, r.1)
  end.

(** ** Other libraries *)

(** The path of a line, when it is a library that has no policy yet. *)
Definition library_path (bin_name : string) (line : string) : option string :=
  if negb (strstr line "r-xp") && negb (strstr line "r--p") then None
  else match strchr line slash with
  | None => None
  | Some p =>
      let path := cut_at p newline in
      if strstr path bin_name then None
      else if strstr path "/libc.so" || strstr path "/libc-" then None
      else if strstr path "ld-linux" || strstr path "ld-musl" then None
      else if negb (strstr path ".so") then None
      else if strstr path "ld.so.cache" || strstr path "ld.so.conf" || strstr path ".cache" ||
              strstr path "locale-archive" || strstr path "gconv-modules" then None
      else Some path
  end.

(** Up to 32 distinct paths, in order of appearance. *)
Fixpoint discover_libs (bin_name : string) (lines : list string) (seen : list string) : list string :=
  match lines with
  | [] => seen
  | l :: lines =>
      if (length seen <? 32)%nat then
        match library_path bin_name l with
        | Some path =>
            if existsb (fun p => strcmp_eq p path) seen then discover_libs bin_name lines seen
            else discover_libs bin_name lines (seen ++ [strncpy_term path 512])
        | None => discover_libs bin_name lines seen
        end
      else seen
  end.

Definition base_name (path : string) : string :=
  match strrchr path slash with Some (String _ n) => n | _ => path end.

(** One iteration for a library; the next module id only advances when the
    library got its policy map. *)
Definition load_library (env : elf_env) (create_ok : nat -> bool) (maps : option string)
    (st : bpf_maps * Z) (lib : nat * string) : res (bpf_maps * Z) :=
  let '(s, next_mod_id) := st in
  let '(i, lib_path) := lib in
  if 64 <=? next_mod_id then Ok st
  else
    match register_module s (create_ok (2 + i)%nat) next_mod_id with
    | (s, None) => Ok (s, next_mod_id)
    | (s, Some id) =>
        let* p := or_diverges (populate_vma_for_module (vma_map s) maps (base_name lib_path) next_mod_id) in
        let s := with_vma s (pv_trie p) in
        let* sites := scan_elf_text_for_syscalls env lib_path 512 in
        let s := on_map s id (fun m => (add_sites BPF_ANY 1 sites m).1) in
        Ok (s, u32 (next_mod_id + 1))
    end.

Definition load_libraries (env : elf_env) (create_ok : nat -> bool) (maps : option string)
    (bin_name : string) (s : bpf_maps) : res bpf_maps :=
  match maps with
  | None => Ok s
  | Some c =>
      let* r := res_fold (load_library env create_ok maps)
                  (imap pair (discover_libs bin_name (fgets_lines 512 c) [])) (s, MODULE_DYNAMIC_BASE) in
      Ok r.1
  end.

(** ** CFI policy *)

(** The size of the function at [func_addr], from the first symbol table
    that gives one; 0 if none does. *)
Fixpoint size_in_symtab (s : elf_scn) (func_addr : Z) (k i : nat) : res Z :=
  match k with
  | O => Ok 0
  | S k =>
      let* y := getsym s i in
      if (st_value y =? func_addr) && (GELF_ST_TYPE (st_info y) =? STT_FUNC)
      then Ok (st_size y)
      else size_in_symtab s func_addr k (S i)
  end.

Fixpoint function_size (l : list elf_scn) (func_addr : Z) : res Z :=
  match l with
  | [] => Ok 0
  | s :: l =>
      if negb (sh_type s =? SHT_SYMTAB) then function_size l func_addr
      else match scn_data s with
      | None => function_size l func_addr
      | Some _ =>
          let* n := symbol_count s in
          let* z := size_in_symtab s func_addr (Z.to_nat n) 0 in
          if negb (z =? 0) then Ok z else function_size l func_addr
      end
  end.

Definition elf_scns (env : elf_env) (path : string) : list elf_scn :=
  if elf_version_ok env then
    match elf_image env path with Opened f => scns f | _ => [] end
  else [].

(** Each site of [.sentinel_cfi] requires a caller in its function. *)
Definition load_cfi_entries (env : elf_env) (binary : string) (elf_load_base : Z)
    (es : list (Z * Z)) (h : bpf_hash cfi_range) : res (bpf_hash cfi_range) :=
  res_fold (fun h e =>
    let site_offset := u64 (e.1 - elf_load_base) in
    let func_offset := u64 (e.2 - elf_load_base) in
    let* z := function_size (elf_scns env binary) e.2 in
    let func_size := if z =? 0 then 4096 else z in
    Ok (hash_update h site_offset
          {| start := func_offset; end_ := u64 (func_offset + func_size) |} BPF_ANY).1) es h.

(** Address and size of the last symbol with this name. *)
Definition last_symbol (l : list elf_scn) (name : string) : res (Z * Z) :=
  res_fold (fun r s =>
    if negb (sh_type s =? SHT_SYMTAB) then Ok r
    else match scn_data s with
    | None => Ok r
    | Some _ =>
        let* n := symbol_count s in
        res_fold (fun r i =>
          let* y := getsym s i in
          Ok (if (if sym_name y is Some m then strcmp_eq m name else false)
              then (st_value y, st_size y) else r)) (seq 0 (Z.to_nat n)) r
    end) l (0, 0).

(** The two functions of the CFI test binary. *)
Definition setup_cfi_policy (env : elf_env) (bin_path : string) (policy_offsets : list Z)
    (elf_load_base : Z) (h : bpf_hash cfi_range) : res (bpf_hash cfi_range) :=
  let l := elf_scns env bin_path in
  let* w := last_symbol l "do_write" in
  let* c := last_symbol l "safe_caller" in
  if (w.1 =? 0) || (c.1 =? 0) then Ok h
  else
    let do_write_addr := u64 (w.1 - elf_load_base) in
    let safe_caller_addr := u64 (c.1 - elf_load_base) in
    let inside off :=
      let adj := u64 (off - elf_load_base) in
      (do_write_addr <=? adj) && (adj <? u64 (do_write_addr + w.2)) in
    let syscall_offset :=
      match List.find inside policy_offsets with
      | Some off => u64 (off - elf_load_base)
      | None => u64 (do_write_addr + 16)
      end in
    Ok (hash_update h syscall_offset
          {| start := safe_caller_addr; end_ := u64 (safe_caller_addr + c.2) |} BPF_ANY).1.

Definition load_cfi (env : elf_env) (binary : string) (pol : parse_result) (s : bpf_maps)
    : res bpf_maps :=
  let elf_load_base := default 0 (ps_load_base pol) in
  let* es := parse_sentinel_cfi env binary MAX_POLICY_ENTRIES in
  let* h :=
    (match es with
     | [] => setup_cfi_policy env binary (fst <$> ps_entries pol) elf_load_base (cfi_policy s)
     | _ => load_cfi_entries env binary elf_load_base es (cfi_policy s)
     end) in
  Ok (with_cfi s h).

(** ** The whole load *)

(** The stopped child: its pid, its memory map, and the base of libc the
    wait ended with. *)
Record child := {
  ch_pid : Z;
  ch_maps : option string;
  ch_libc_base : Z;
}.

(** [Fatal] is [goto cleanup], [killed] when the child was killed first. *)
Inductive load_outcome :=
| Loaded (s : bpf_maps) (main_map : Z)
| Fatal (s : bpf_maps) (killed : bool).

(** Step 8: the blocks of the binary, and of libc when there is one.  The
    result has libc's base as step 10 uses it. *)
Definition load_vmas (binary : string) (c : child) (s : bpf_maps) : res (bpf_maps * Z) :=
  let* p := or_diverges (populate_vma_for_module (vma_map s) (ch_maps c) (base_name binary) MODULE_MAIN) in
  let s := with_vma s (pv_trie p) in
  if ch_libc_base c =? 0 then Ok (s, 0)
  else
    let* p := or_diverges (populate_vma_for_module (vma_map s) (ch_maps c) "libc" MODULE_LIBC) in
    Ok (with_vma s (pv_trie p), default (ch_libc_base c) (pv_base p)).

(** Step 10; [None] is the fatal error. *)
Definition load_libc (env : elf_env) (alloc_ok : Z -> bool) (create_ok : nat -> bool) (c : child) (libc_base : Z)
    (s : bpf_maps) : res (bpf_maps * bool) :=
  if libc_base =? 0 then Ok (s, true)
  else match register_module s (create_ok 1%nat) MODULE_LIBC with
  | (s, None) => Ok (s, negb (create_ok 1%nat))
  | (s, Some id) =>
      match find_libc_path (ch_maps c) 512, inner_maps s !! id with
      | Some libc_path, Some m =>
          let* m := fill_libc env alloc_ok libc_path m in
          let* r := whitelist_ld env (ch_maps c) libc_base m (vma_map s) in
          Ok (with_vma (with_inner s (<[id := r.1]> (inner_maps s))) r.2, true)
      | _, _ => Ok (s, true)
      end
  end.

(** Step 12: the child's process id joins the tracked ones. *)
Definition track_child (s : bpf_maps) (g_child : Z) : bpf_maps * Z :=
  let u := hash_update (target_pid_map s) (u32 g_child) 1 BPF_ANY in (with_pids s u.1, u.2).

Definition load_policy (env : elf_env) (alloc_ok : Z -> bool) (create_ok : nat -> bool) (binary : string)
    (pol : parse_result) (c : child) (s : bpf_maps) : res load_outcome :=
  let* v := load_vmas binary c s in
  match register_module v.1 (create_ok 0%nat) MODULE_MAIN with
  | (s, None) => Ok (Fatal s false)
  | (s, Some main_map) =>
      let s := on_map s main_map (fun m =>
        (load_entries (default 0 (ps_load_base pol)) (ps_entries pol) m).1) in
      let* r := load_libc env alloc_ok create_ok c v.2 s in
      if negb r.2 then Ok (Fatal r.1 false)
      else
        let* s := load_libraries env create_ok (ch_maps c) (base_name binary) r.1 in
        let* s := load_cfi env binary pol s in
        let '(s, ret) := track_child s (ch_pid c) in
        if ret =? 0 then Ok (Loaded s main_map) else Ok (Fatal s true)
  end.

(** ** Reload *)

(** The SIGHUP branch of the wait loop. *)
Definition hot_reload (env : elf_env) (binary : string) (main_map : Z) (s : bpf_maps) : res bpf_maps :=
  let* pol := parse_sentinel_section env binary MAX_POLICY_ENTRIES in
  if 0 <? ps_ret pol then
    Ok (on_map s main_map (fun m => (load_entries (default 0 (ps_load_base pol)) (ps_entries pol) m).1))
  else Ok s.

End Load.
