(* ===== verification/MapUpdates.v ===== *)
(** * Sequences of updates of a map

    What a map holds after the loader's loops over [bpf_map_update_elem]:
    the last value of each key while there is room, and only the first keys
    once the map is full. *)
From S2P Require Import Prelude BpfMaps LoaderPolicy.

(** The value the last update of [k] writes. *)
Definition last_value {V} (kvs : list (Z * V)) (k : Z) : option V :=
  foldl (fun o kv => if decide (kv.1 = k) then Some kv.2 else o) None kvs.

Lemma last_value_snoc {V} (kvs : list (Z * V)) kv k :
  last_value (kvs ++ [kv]) k = if decide (kv.1 = k) then Some kv.2 else last_value kvs k.
Proof. unfold last_value. by rewrite foldl_snoc. Qed.

Lemma last_value_app {V} (l1 l2 : list (Z * V)) k :
  last_value (l1 ++ l2) k = match last_value l2 k with Some v => Some v | None => last_value l1 k end.
Proof.
  induction l2 as [|kv l2 IH] using rev_ind; [by rewrite app_nil_r|].
  rewrite app_assoc, !last_value_snoc, IH. by case_decide.
Qed.

Lemma last_value_fun {V} (g : Z -> V) ks k :
  last_value ((fun x => (x, g x)) <$> ks) k = if decide (k ∈ ks) then Some (g k) else None.
Proof.
  induction ks as [|x ks IH] using rev_ind; [by rewrite decide_False by apply not_elem_of_nil|].
  rewrite fmap_app. cbn [fmap list_fmap]. rewrite last_value_snoc, IH. cbn [fst snd].
  destruct (decide (x = k)) as [->|]; [by rewrite decide_True by set_solver|].
  destruct (decide (k ∈ ks)); [by rewrite decide_True by set_solver|].
  by rewrite decide_False by set_solver.
Qed.

Lemma last_value_const {V} (v : V) ks k :
  last_value ((fun x => (x, v)) <$> ks) k = if decide (k ∈ ks) then Some v else None.
Proof. exact (last_value_fun (fun _ => v) ks k). Qed.

Lemma last_value_values {V W} (g : V -> W) (kvs : list (Z * V)) k :
  last_value ((fun kv => (kv.1, g kv.2)) <$> kvs) k = g <$> last_value kvs k.
Proof.
  induction kvs as [|kv kvs IH] using rev_ind; [done|].
  rewrite fmap_app. cbn [fmap list_fmap]. rewrite !last_value_snoc. cbn [fst snd]. rewrite IH. by case_decide.
Qed.

Lemma last_value_elem {V} (kvs : list (Z * V)) k v : last_value kvs k = Some v -> (k, v) ∈ kvs.
Proof.
  induction kvs as [|[k' v'] kvs IH] using rev_ind; [done|]. rewrite last_value_snoc. cbn [fst snd].
  rewrite elem_of_app, list_elem_of_singleton. case_decide; naive_solver.
Qed.

Lemma last_value_None {V} (kvs : list (Z * V)) k : last_value kvs k = None <-> k ∉ kvs.*1.
Proof.
  induction kvs as [|kv kvs IH] using rev_ind; [set_solver|].
  rewrite last_value_snoc, fmap_app. cbn [fmap list_fmap].
  rewrite elem_of_app, list_elem_of_singleton. case_decide; naive_solver.
Qed.

Section Updates.
Context {B : BpfOps} {L : BpfLaws B} {V : Type}.
Implicit Types (m : bpf_hash V) (kvs : list (Z * V)).

Definition room m (n : nat) : Prop := (hash_size m + n <= hash_max m)%nat.

Definition updates (f : map_flag) kvs m : bpf_hash V :=
  foldl (fun m kv => (hash_update m kv.1 kv.2 f).1) m kvs.

Lemma updates_snoc f kvs kv m :
  updates f (kvs ++ [kv]) m = (hash_update (updates f kvs m) kv.1 kv.2 f).1.
Proof. unfold updates. by rewrite foldl_snoc. Qed.

Lemma updates_max f kvs m : hash_max (updates f kvs m) = hash_max m.
Proof.
  induction kvs as [|kv kvs IH] using rev_ind; [done|]. by rewrite updates_snoc, hash_update_max.
Qed.

Lemma updates_size f kvs m : (hash_size (updates f kvs m) <= hash_size m + length kvs)%nat.
Proof.
  induction kvs as [|kv kvs IH] using rev_ind; [cbn; lia|]. rewrite updates_snoc, length_app. cbn [length].
  pose proof (hash_update_size _ (updates f kvs m) kv.1 kv.2 f). lia.
Qed.

(** With room for every update, [BPF_ANY] writes the last value of each
    key. *)
Lemma updates_any kvs m k :
  room m (length kvs) ->
  hash_lookup (updates BPF_ANY kvs m) k =
    match last_value kvs k with Some v => Some v | None => hash_lookup m k end.
Proof.
  unfold room. revert k. induction kvs as [|kv kvs IH] using rev_ind; intros k Hr; [done|].
  rewrite length_app in Hr. cbn [length] in Hr. rewrite updates_snoc, last_value_snoc.
  pose proof (updates_size BPF_ANY kvs m). pose proof (updates_max BPF_ANY kvs m).
  rewrite hash_update_ok; [rewrite IH by lia; by case_decide|].
  destruct (hash_lookup (updates BPF_ANY kvs m) kv.1) eqn:El; [by eapply hash_update_replace|].
  apply hash_update_room; [done|lia].
Qed.

(** Whatever the room, a value found afterwards was there before or is one
    of those written. *)
Lemma updates_sound f kvs m k v :
  hash_lookup (updates f kvs m) k = Some v -> hash_lookup m k = Some v \/ (k, v) ∈ kvs.
Proof.
  induction kvs as [|[k' v'] kvs IH] using rev_ind; [by left|]. rewrite updates_snoc. cbn [fst snd].
  rewrite elem_of_app, list_elem_of_singleton.
  destruct (decide ((hash_update (updates f kvs m) k' v' f).2 = 0)) as [E|E].
  - rewrite hash_update_ok by done. case_decide; naive_solver.
  - rewrite hash_update_err by done. naive_solver.
Qed.

(** Keys never lose their rule. *)
Lemma updates_keep f kvs m k :
  is_Some (hash_lookup m k) -> is_Some (hash_lookup (updates f kvs m) k).
Proof.
  intros Hk. induction kvs as [|kv kvs IH] using rev_ind; [done|]. rewrite updates_snoc.
  destruct (decide ((hash_update (updates f kvs m) kv.1 kv.2 f).2 = 0)) as [E|E].
  - rewrite hash_update_ok by done. by case_decide.
  - by rewrite hash_update_err.
Qed.

Lemma updates_other f kvs m k :
  k ∉ kvs.*1 -> hash_lookup (updates f kvs m) k = hash_lookup m k.
Proof.
  induction kvs as [|kv kvs IH] using rev_ind; intros Hk; [done|]. rewrite updates_snoc.
  rewrite fmap_app in Hk. cbn [fmap list_fmap] in Hk.
  destruct (decide ((hash_update (updates f kvs m) kv.1 kv.2 f).2 = 0)) as [E|E].
  - rewrite hash_update_ok, decide_False, IH by set_solver. done.
  - rewrite hash_update_err, IH by set_solver. done.
Qed.

(** A full map: of distinct new keys, exactly those that still fit are
    stored. *)
Lemma updates_full f kvs m :
  NoDup (kvs.*1) -> (forall k, k ∈ kvs.*1 -> hash_lookup m k = None) -> (hash_size m <= hash_max m)%nat ->
  hash_size (updates f kvs m) = Nat.min (hash_max m) (hash_size m + length kvs) /\
  forall i kv, kvs !! i = Some kv ->
    hash_lookup (updates f kvs m) kv.1 = if decide (hash_size m + i < hash_max m)%nat then Some kv.2 else None.
Proof.
  induction kvs as [|kv kvs IH] using rev_ind; intros Hnd Hnew Hle; [cbn; split; [lia|done]|].
  rewrite fmap_app in Hnd, Hnew. cbn [fmap list_fmap] in Hnd, Hnew.
  apply NoDup_app in Hnd as (Hnd & Hdj & _).
  destruct IH as [Hs Hl]; [done|set_solver|done|].
  assert (kv.1 ∉ kvs.*1) as Hni by set_solver.
  assert (hash_lookup (updates f kvs m) kv.1 = None) as Hn by (rewrite updates_other by done; set_solver).
  assert ((hash_update (updates f kvs m) kv.1 kv.2 f).2 = 0 <-> (hash_size m + length kvs < hash_max m)%nat) as Hok.
  { pose proof (updates_max f kvs m) as Hm. split; intros E.
    - destruct (decide (hash_size m + length kvs < hash_max m)%nat); [done|].
      exfalso. eapply hash_update_full; [exact Hn| |exact E]. lia.
    - apply hash_update_room; [done|lia]. }
  rewrite updates_snoc, length_app. cbn [length]. split.
  - destruct (decide ((hash_update (updates f kvs m) kv.1 kv.2 f).2 = 0)) as [E|E].
    + rewrite hash_update_grow, Hs by done. apply Hok in E. lia.
    + rewrite hash_update_err_size, Hs by done. rewrite Hok in E. lia.
  - intros i kv' Hi. destruct (decide ((hash_update (updates f kvs m) kv.1 kv.2 f).2 = 0)) as [E|E];
      [rewrite hash_update_ok by done|rewrite hash_update_err by done];
      apply lookup_app_Some in Hi as [Hi|[Hi1 Hi2]].
    + rewrite decide_False; [by apply Hl|]. intros Hx. apply Hni. rewrite Hx.
      by apply list_elem_of_fmap_2, (list_elem_of_lookup_2 _ i).
    + apply list_lookup_singleton_Some in Hi2 as [Hi2 <-]. rewrite !decide_True; [done|apply Hok in E; lia|done].
    + by apply Hl.
    + apply list_lookup_singleton_Some in Hi2 as [Hi2 <-]. rewrite Hn, decide_False; [done|].
      rewrite Hok in E. lia.
Qed.

End Updates.

(** ** The loader's loops *)

Section Loops.
Context {B : BpfOps} {L : BpfLaws B}.
Implicit Types (m : bpf_hash Z) (kvs : list (Z * Z)).

Lemma foldl_put f {A} (g : A -> Z * Z) l m n :
  (foldl (fun acc a => put f acc (g a).1 (g a).2) (m, n) l).1 = updates f (g <$> l) m.
Proof.
  revert m n. induction l as [|a l IH]; intros m n; [done|]. apply IH.
Qed.

Lemma load_entries_updates base es m :
  (load_entries base es m).1 = updates BPF_ANY ((fun e => (u64 (e.1 - base), policy_value e.2)) <$> es) m.
Proof. exact (foldl_put BPF_ANY (fun e => (u64 (e.1 - base), policy_value e.2)) es m 0). Qed.

Lemma add_sites_updates f v sites m : (add_sites f v sites m).1 = updates f ((fun x => (x, v)) <$> sites) m.
Proof. exact (foldl_put f (fun x => (x, v)) sites m 0). Qed.

(** [BPF_NOEXIST] only fills keys that have no value. *)
Lemma sites_noexist v ks m k :
  room m (length ks) ->
  hash_lookup (add_sites BPF_NOEXIST v ks m).1 k =
    match hash_lookup m k with Some w => Some w | None => if decide (k ∈ ks) then Some v else None end.
Proof.
  unfold room. rewrite add_sites_updates. revert k.
  induction ks as [|x ks IH] using rev_ind; intros k Hr.
  { cbn. destruct (hash_lookup m k); [done|]. by rewrite decide_False by apply not_elem_of_nil. }
  rewrite length_app in Hr. cbn [length] in Hr. rewrite fmap_app. cbn [fmap list_fmap]. rewrite updates_snoc.
  set (kvs := _ <$> ks) in *. assert (length kvs = length ks) as Hl by (subst kvs; by rewrite length_fmap).
  pose proof (updates_size BPF_NOEXIST kvs m). pose proof (updates_max BPF_NOEXIST kvs m). cbn [fst snd].
  pose proof (fun k => IH k ltac:(lia)) as Hk.
  destruct (hash_lookup (updates BPF_NOEXIST kvs m) x) as [w|] eqn:El.
  - rewrite hash_update_err, Hk by (by eapply hash_update_noexist).
    destruct (hash_lookup m k) eqn:Ek; [done|].
    rewrite Hk in El. destruct (decide (k = x)) as [->|]; [|apply decide_ext; set_solver].
    rewrite Ek in El. case_decide; [|done]. rewrite decide_True; [done|set_solver].
  - rewrite hash_update_ok, Hk by (apply hash_update_room; [done|lia]).
    rewrite Hk in El. destruct (decide (x = k)) as [->|].
    + destruct (hash_lookup m k); [done|]. by rewrite decide_True by set_solver.
    + destruct (hash_lookup m k); [done|]. apply decide_ext. set_solver.
Qed.

Lemma sites_any v ks m k :
  room m (length ks) ->
  hash_lookup (add_sites BPF_ANY v ks m).1 k = if decide (k ∈ ks) then Some v else hash_lookup m k.
Proof.
  intros Hr. rewrite add_sites_updates, updates_any by (by rewrite length_fmap).
  rewrite last_value_const. by case_decide.
Qed.

Lemma sites_size f v ks m :
  (hash_size (add_sites f v ks m).1 <= hash_size m + length ks)%nat /\
  hash_max (add_sites f v ks m).1 = hash_max m.
Proof.
  rewrite add_sites_updates. split; [|apply updates_max].
  pose proof (updates_size f ((fun x => (x, v)) <$> ks) m) as H. by rewrite length_fmap in H.
Qed.

End Loops.
