(* ===== verification/LoaderPolicyProps.v ===== *)
(** * Properties of the policy the loader builds *)
From S2P Require Import Prelude Shared BpfMaps Elf CLib Enforcer EnforcerSpec LoaderElf LoaderElfProps.
From S2P Require Import CallGraph ProcMaps ProcMapsProps LoaderPolicy MapUpdates.

(** ** Policy values *)

Lemma lor_flag x : 0 <= x < 2 ^ 32 -> Z.lor POLICY_FLAG_CHECK_NR x = 2 ^ 32 + x.
Proof.
  intros Hx. change POLICY_FLAG_CHECK_NR with (2 ^ 32). rewrite <- (Z.add_0_r (Z.lor _ _)).
  assert (Z.land (2 ^ 32) x = 0) as <-; [|apply Z.add_lor_land].
  apply Z.bits_inj'. intros i Hi. rewrite Z.land_spec, Z.bits_0, Z.pow2_bits_eqb by lia.
  destruct (Z.eqb_spec 32 i) as [<-|]; [|done]. cbn [andb].
  rewrite <- (Z.mod_small x (2 ^ 32)) by lia. by rewrite Z.mod_pow2_bits_high by lia.
Qed.

Lemma flagged_admits x n : 0 <= x < 2 ^ 32 -> rule_admits (Z.lor POLICY_FLAG_CHECK_NR x) n <-> x = n.
Proof.
  intros Hx. unfold rule_admits. rewrite lor_flag by done.
  assert ((2 ^ 32 + x) mod 2 ^ 32 = x) as -> by (rewrite <- (Z.mul_1_l (2 ^ 32)) at 1;
    rewrite Z.add_comm, Z_mod_plus_full, Z.mod_small; lia).
  assert (Z.testbit (2 ^ 32 + x) 32 = true) as ->.
  { rewrite <- lor_flag, Z.lor_spec by done. done. }
  naive_solver.
Qed.

(** A number binds the site to it; no number admits every call. *)
Lemma policy_value_admits nr n : rule_admits (policy_value nr) n <-> (0 <= nr -> u32 nr = n).
Proof.
  unfold policy_value. destruct (Z.leb_spec 0 nr) as [H|H].
  - rewrite flagged_admits by apply u32_range. naive_solver.
  - split; [lia|]. intros _ Hf. done.
Qed.

(** ** How many sites a scan returns *)

Lemma scan_loop_length buf start base limit max k j acc r :
  scan_loop buf start base limit max k j acc = Ok r ->
  Z.of_nat (length r) <= Z.max (Z.of_nat (length acc)) max.
Proof.
  revert j acc. induction k as [|k IH]; intros j acc H; cbn [scan_loop] in H; [res_inv; lia|].
  destruct ((j + 1 <? limit) && (Z.of_nat (length acc) <? max)) eqn:E; [|res_inv; lia].
  apply andb_true_iff in E as [_ E%Z.ltb_lt]. res_inv.
  match goal with H : scan_loop _ _ _ _ _ _ _ (if ?h then _ else _) = _ |- _ =>
    apply IH in H; destruct h; rewrite ?length_app in H; cbn [length] in H; lia end.
Qed.

Lemma resolve_length env path name max r :
  0 <= max -> resolve_libc_syscall_sites env path name max = Ok r -> Z.of_nat (length r) <= max.
Proof.
  intros Hm. unfold resolve_libc_syscall_sites.
  destruct (elf_version_ok env); cbn [negb]; [|intros [= <-]; cbn; lia].
  destruct (elf_image env path) as [| |f]; [intros [= <-]; cbn; lia..|].
  intros H. res_inv. destruct x as [[a z]|]; [|res_inv; cbn; lia].
  set (z' := if z =? 0 then _ else _) in *. clearbody z'.
  match goal with H : scan_symbol ?l _ _ _ = _ |- _ => revert H; generalize l end.
  intros l. induction l as [|s l IH]; cbn [scan_symbol]; intros H'; [res_inv; cbn; lia|].
  destruct (negb (is_exec s)); [by apply IH|]. destruct (_ || _); [by apply IH|].
  destruct (scn_data s) as [[[buf|] dsz]|]; [|res_inv; cbn; lia..].
  apply scan_loop_length in H'. cbn in H'. lia.
Qed.

Lemma scan_text_length env path max r :
  0 <= max -> scan_elf_text_for_syscalls env path max = Ok r -> Z.of_nat (length r) <= max.
Proof.
  intros Hm. unfold scan_elf_text_for_syscalls.
  destruct (elf_version_ok env); cbn [negb]; [|intros [= <-]; cbn; lia].
  destruct (elf_image env path) as [| |f]; [intros [= <-]; cbn; lia..|].
  assert (Z.of_nat (length (@nil Z)) <= max) as H0 by (cbn; lia). revert H0. generalize (@nil Z).
  induction (scns f) as [|s l IH]; intros acc Ha H; cbn [res_fold] in H; [by res_inv|].
  res_inv. eapply IH; [|done]. unfold scan_section in *.
  destruct (negb (is_exec s)); [by res_inv|].
  destruct (scn_data s) as [[[buf|] dsz]|]; [|by res_inv..].
  match goal with H : scan_bytes _ _ _ _ _ _ = _ |- _ => apply scan_loop_length in H end. lia.
Qed.

(** ** The libc policy *)

Lemma res_fold_fmap {A A' B} (f : B -> A -> res B) (g : A' -> A) l b :
  res_fold f (g <$> l) b = res_fold (fun b a => f b (g a)) l b.
Proof.
  revert b. induction l as [|a l IH]; intros b; [done|]. cbn.
  destruct (f b (g a)); [apply IH|done].
Qed.

Lemma bind_fmap_l {A A' B} (f : A -> list B) (g : A' -> A) l : (g <$> l) ≫= f = l ≫= (fun a => f (g a)).
Proof. induction l as [|a l IH]; [done|]. cbn. by rewrite <- IH. Qed.

Lemma bind_pairs {A} (f : A -> list Z) (v : Z) (l : list A) :
  l ≫= (fun a => (fun x => (x, v)) <$> f a) = (fun x => (x, v)) <$> (l ≫= f).
Proof. induction l as [|a l IH]; [done|]. cbn. by rewrite fmap_app, <- IH. Qed.

Section Libc.
Context {B : BpfOps} {L : BpfLaws B}.

(** Resolving a list of symbols and adding the sites of each. *)
Lemma whitelist_symbols env path max (l : list (string * Z)) (sites : string -> list Z) m :
  (forall p, p ∈ l -> resolve_libc_syscall_sites env path p.1 max = Ok (sites p.1)) ->
  0 <= max -> room m (length l * Z.to_nat max) ->
  exists m', res_fold (fun m p =>
      let* s := resolve_libc_syscall_sites env path p.1 max in
      Ok (add_sites BPF_ANY p.2 s m).1) l m = Ok m' /\
    (forall k, hash_lookup m' k =
       match last_value (l ≫= fun p => (fun x => (x, p.2)) <$> sites p.1) k with
       | Some v => Some v | None => hash_lookup m k end) /\
    (hash_size m' <= hash_size m + length l * Z.to_nat max)%nat /\ hash_max m' = hash_max m.
Proof.
  unfold room. intros H Hmax. revert m. induction l as [|p l IH]; intros m Hr; cbn [res_fold length] in *.
  - exists m. split_and!; [done|done|lia|done].
  - rewrite H by left. cbn [res_bind].
    pose proof (resolve_length _ _ _ _ _ Hmax (H p (list_elem_of_here _ _))) as Hlen.
    pose proof (fun k => sites_any p.2 (sites p.1) m k ltac:(unfold room; lia)) as H1.
    destruct (sites_size BPF_ANY p.2 (sites p.1) m) as (H2 & H3).
    destruct (IH (fun q Hq => H q (list_elem_of_further _ _ _ Hq)) (add_sites BPF_ANY p.2 (sites p.1) m).1)
      as (m' & E & H4 & H5 & H6); [lia|].
    exists m'. split_and!; [done| |lia|congruence].
    intros k. rewrite H4, H1. cbn [mbind list_bind]. rewrite last_value_app, last_value_const.
    by repeat case_match.
Qed.

Lemma libc_syms_length : length libc_syms = 37%nat.
Proof. done. Qed.
Lemma cancel_syms_length : length cancel_syms = 3%nat.
Proof. done. Qed.

(** What libc's map holds at offset [k]; [ws] and [cs] are the sites of the
    wrappers and trampolines, [all] those of the full scan. *)
Definition libc_rule (ws cs : string -> list Z) (all : list Z) (k : Z) : option Z :=
  if decide (k ∈ (cancel_syms ≫= cs)) then Some 1
  else match last_value (libc_syms ≫= fun p =>
               (fun x => (x, Z.lor POLICY_FLAG_CHECK_NR p.2)) <$> ws p.1) k with
       | Some v => Some v
       | None => if decide (k ∈ all) then Some 1 else None
       end.

(** The answers of the ELF readers that a whitelisting of libc uses. *)
Record libc_sites (env : elf_env) (path : string) (ws cs : string -> list Z) (all : list Z) : Prop := {
  ls_wrappers : forall p, p ∈ libc_syms -> resolve_libc_syscall_sites env path p.1 8 = Ok (ws p.1);
  ls_cancel : forall n, n ∈ cancel_syms -> resolve_libc_syscall_sites env path n 4 = Ok (cs n);
  ls_all : scan_elf_text_for_syscalls env path 512 = Ok all;
}.

(** At most 37 * 8 + 3 * 4 + 512 keys are written. *)
Lemma whitelist_libc_spec env path ws cs all :
  libc_sites env path ws cs all ->
  exists m, whitelist_libc env path (hash_new Z inner_policy_max_entries) = Ok m /\
    (forall k, hash_lookup m k = libc_rule ws cs all k) /\
    (hash_size m <= 820)%nat /\ hash_max m = inner_policy_max_entries.
Proof.
  intros [Hw Hc Ha]. unfold whitelist_libc, whitelist_wrappers, whitelist_trampolines.
  set (flag := fun p : string * Z => (p.1, Z.lor POLICY_FLAG_CHECK_NR p.2)).
  set (wild := fun n : string => (n, 1)).
  destruct (whitelist_symbols env path 8 (flag <$> libc_syms) ws (hash_new Z inner_policy_max_entries))
    as (m1 & E1 & L1 & S1 & M1).
  { intros q (p & -> & Hp)%list_elem_of_fmap. exact (Hw p Hp). } { lia. }
  { unfold room, inner_policy_max_entries. rewrite hash_new_size, hash_new_max, length_fmap, libc_syms_length. lia. }
  rewrite hash_new_size in S1. rewrite hash_new_max in M1.
  rewrite length_fmap, libc_syms_length in S1.
  destruct (whitelist_symbols env path 4 (wild <$> cancel_syms) cs m1) as (m2 & E2 & L2 & S2 & M2).
  { intros q (p & -> & Hp)%list_elem_of_fmap. exact (Hc p Hp). } { lia. }
  { unfold room. rewrite M1, length_fmap, cancel_syms_length. unfold inner_policy_max_entries. lia. }
  rewrite length_fmap, cancel_syms_length in S2. rewrite M1 in M2.
  pose proof (scan_text_length env path 512 all ltac:(lia) Ha) as Hlen.
  assert (room m2 (length all)) as Hroom by (unfold room; rewrite M2; unfold inner_policy_max_entries; lia).
  pose proof (fun k => sites_noexist 1 all m2 k Hroom) as L3.
  destruct (sites_size BPF_NOEXIST 1 all m2) as [S3 M3].
  rewrite res_fold_fmap in E1. rewrite res_fold_fmap in E2. cbn [fst snd flag wild] in E1, E2.
  rewrite E1. cbn [res_bind]. rewrite E2. cbn [res_bind].
  rewrite Ha. eexists. split_and!; [done| |cbn in *; lia|by rewrite M3].
  intros k. rewrite L3, L2, L1, hash_new_lookup. unfold libc_rule.
  rewrite !bind_fmap_l. cbn [fst snd flag wild].
  rewrite (bind_pairs cs), last_value_const. case_decide; [done|]. by destruct (last_value _ k).
Qed.

(** C14: The libc policy is exact, given the sites the scans of libc found:
    each of the at most 4 sites of a cancellation trampoline admits any
    number; each of the at most 8 sites of a known wrapper is bound to the
    number of the last wrapper that holds it; every other one of the at most
    512 sites of the full scan admits any number, whether or not the call
    graph reaches it; and nothing else is admitted.  The map never fills
    up. *)
Theorem libc_policy_exact env path ws cs all :
  libc_sites env path ws cs all ->
  exists m, whitelist_libc env path (hash_new Z inner_policy_max_entries) = Ok m /\
    (forall k, hash_lookup m k = libc_rule ws cs all k) /\ (hash_size m <= 820)%nat.
Proof.
  intros H. destruct (whitelist_libc_spec _ _ _ _ _ H) as (m & E & Hm & Hs & _). by exists m.
Qed.

(** The map the call-graph filter would give: the sites of the reachable
    functions, each bound to the number of the wrapper around it, and nothing
    else. *)
Theorem callgraph_policy_exact env alloc_ok path imports r :
  whitelist_callgraph env alloc_ok path imports (hash_new Z inner_policy_max_entries) = Ok (Some r) ->
  exists syms sites cnt, build_libc_symtab env path MAX_LIBC_SYMS = Ok syms /\
    trace_libc_callgraph env alloc_ok path syms imports 2048 = Ok (sites, cnt) /\
    ((length sites <= inner_policy_max_entries)%nat -> forall k,
       hash_lookup r.1 k = if decide (k ∈ sites) then Some (callgraph_value syms k) else None).
Proof.
  unfold whitelist_callgraph. intros H. destruct (negb _); [by res_inv|]. res_inv. rename x into syms.
  destruct (length syms =? 0)%nat; [by res_inv|]. res_inv.
  match goal with H : trace_libc_callgraph _ _ _ _ _ _ = Ok ?x |- _ => destruct x as [sites cnt] end. cbn [fst] in *.
  exists syms, sites, cnt. split_and!; [done|done|]. intros Hl k.
  rewrite (foldl_put BPF_ANY (fun x => (x, callgraph_value syms x))), updates_any.
  - rewrite last_value_fun, hash_new_lookup. by case_decide.
  - unfold room. by rewrite hash_new_size, hash_new_max, length_fmap.
Qed.

End Libc.

(** Waiting for libc ends: within 10001 steps of the child the wait
    stops with libc's base or without one, and a base it reports is the one
    the memory map shows. *)
Theorem wait_for_libc_ends snap exited :
  exists base steps, wait_for_libc wait_fuel snap exited 0 = Some (base, steps) /\
    0 <= steps <= PTRACE_STEP_LIMIT + 1 /\ (base <> 0 -> base = get_libc_base (snap steps)).
Proof.
  assert (forall fuel steps, 0 <= steps <= PTRACE_STEP_LIMIT -> PTRACE_STEP_LIMIT - steps < Z.of_nat fuel ->
    exists base n, wait_for_libc fuel snap exited steps = Some (base, n) /\
      0 <= n <= PTRACE_STEP_LIMIT + 1 /\ (base <> 0 -> base = get_libc_base (snap n))) as H.
  { induction fuel as [|fuel IH]; intros steps Hs Hf; [lia|]. cbn [wait_for_libc].
    destruct (Z.eqb_spec (get_libc_base (snap steps)) 0); cbn [negb].
    - destruct (exited (steps + 1)); [by eexists _, _; split; [done|]; split; [lia|]|].
      destruct (Z.ltb_spec PTRACE_STEP_LIMIT (steps + 1)).
      + eexists _, _. split; [done|]. split; [lia|done].
      + apply IH; lia.
    - eexists _, _. split; [done|]. split; [lia|done]. }
  apply H; unfold wait_fuel, PTRACE_STEP_LIMIT; lia.
Qed.

(** ** Concrete runs *)

Module DemoLibc.

Definition sites (name : string) (max : Z) : list Z :=
  match resolve_libc_syscall_sites DemoElf.env "/lib/libc.so.6" name max with Ok l => l | _ => [] end.

Lemma answers :
  libc_sites DemoElf.env "/lib/libc.so.6" (fun n => sites n 8) (fun n => sites n 4) [0x1010; 0x1018].
Proof.
  split.
  - intros p Hp. apply list_elem_of_In in Hp. cbn in Hp.
    repeat (destruct Hp as [<-|Hp]; [vm_compute; reflexivity|]). destruct Hp.
  - intros p Hp. apply list_elem_of_In in Hp. cbn in Hp.
    repeat (destruct Hp as [<-|Hp]; [vm_compute; reflexivity|]). destruct Hp.
  - vm_compute. reflexivity.
Qed.

End DemoLibc.

Lemma libc_policy_exact_witness :
  exists m, whitelist_libc DemoElf.env "/lib/libc.so.6" (hash_new Z inner_policy_max_entries) = Ok m /\
    hash_lookup m 0x1010 = Some 1 /\ hash_lookup m 0x1018 = Some 1 /\ hash_lookup m 0x1000 = None.
Proof.
  destruct (libc_policy_exact _ _ _ _ _ DemoLibc.answers) as (m & E & Hm & _).
  exists m. split; [exact E|]. rewrite !Hm. vm_compute. auto.
Defined.
