(* ===== verification/LoaderModules.v ===== *)
(** * The modules a load registers

    What each step of [load_policy] does to the maps: which policy map it
    registers for which module, what that map holds, and what it leaves as
    it is. *)
From S2P Require Import Prelude Shared BpfMaps Elf CLib Enforcer EnforcerSpec LoaderElf.
From S2P Require Import ProcMaps LoaderPolicy MapUpdates LoaderPolicyProps.

Section Modules.
Context {B : BpfOps} {L : BpfLaws B}.

(** The policy map of module [mid] is [id], holding [m]. *)
Definition module_rules (s : bpf_maps) (mid id : Z) (m : bpf_hash Z) : Prop :=
  aom_lookup (policy_registry s) mid = Some id /\ inner_maps s !! id = Some m.

Lemma module_rules_lookup s mid id m : module_rules s mid id m -> registry_lookup s mid = Some m.
Proof. intros [H1 H2]. unfold registry_lookup. by rewrite H1. Qed.

(** The registry names existing maps, each for one module. *)
Definition registry_ok (s : bpf_maps) : Prop :=
  (forall mid id, aom_lookup (policy_registry s) mid = Some id -> is_Some (inner_maps s !! id)) /\
  (forall mid mid' id, aom_lookup (policy_registry s) mid = Some id ->
     aom_lookup (policy_registry s) mid' = Some id -> mid = mid').

(** More maps, or maps with other contents. *)
Lemma registry_ok_inner s i :
  registry_ok s -> (forall j, is_Some (inner_maps s !! j) -> is_Some (i !! j)) -> registry_ok (with_inner s i).
Proof. intros [H1 H2] Hi. split; [|exact H2]. intros mid id H. apply Hi. by eapply H1. Qed.

Lemma registry_ok_on_map s id f : registry_ok s -> registry_ok (on_map s id f).
Proof. intros H. apply registry_ok_inner; [done|]. intros j. by rewrite lookup_alter_is_Some. Qed.

(** The policies of the modules in [P] stay, blocks stay 1 MiB, the registry
    stays in order, and neither a process nor a CFI rule is added. *)
Record keeps (P : Z -> Prop) (s s' : bpf_maps) : Prop := {
  kp_rules : forall mid id m, P mid -> module_rules s mid id m -> module_rules s' mid id m;
  kp_wf : vma_wf (vma_map s) -> vma_wf (vma_map s');
  kp_pids : target_pid_map s' = target_pid_map s;
  kp_cfi : cfi_policy s' = cfi_policy s;
  kp_size : aom_max (policy_registry s') = aom_max (policy_registry s);
  kp_reg : registry_ok s -> registry_ok s';
}.

#[export] Instance keeps_preorder P : PreOrder (keeps P).
Proof.
  split; [by intros s; split|].
  intros s1 s2 s3 [H1 H2 H3 H4 H5 H6] [I1 I2 I3 I4 I5 I6]. split; [eauto|eauto|congruence..|eauto].
Qed.

Lemma keeps_weaken (P Q : Z -> Prop) s s' : (forall x, Q x -> P x) -> keeps P s s' -> keeps Q s s'.
Proof. intros HQ [H1 H2 H3 H4 H5 H6]. split; eauto. Qed.

(** Writing to a map that did not exist before. *)
Lemma keeps_fresh P s s' id i :
  keeps P s s' -> inner_maps s !! id = None -> (forall j, j <> id -> i !! j = inner_maps s' !! j) ->
  (is_Some (inner_maps s' !! id) -> is_Some (i !! id)) -> keeps P s (with_inner s' i).
Proof.
  intros [H1 H2 H3 H4 H5 H6] Hid Hi Hs. split; [|done..|].
  - intros mid j m HP Hm. destruct (H1 _ _ _ HP Hm) as [R1 R2]. destruct Hm as [_ Hm]. split; [done|]. cbn.
    rewrite Hi; [done|]. intros ->. congruence.
  - intros H. apply registry_ok_inner; [auto|]. intros j.
    destruct (decide (j = id)) as [->|Hj]; [done|by rewrite Hi].
Qed.

Lemma keeps_vma P s s' t :
  keeps P s s' -> (vma_wf (vma_map s') -> vma_wf t) -> keeps P s (with_vma s' t).
Proof. intros [H1 H2 H3 H4 H5 H6] Ht. split; [exact H1|cbn; auto|done..|exact H6]. Qed.

(** ** Registering one module *)

Lemma register_ok s mod_id id :
  inner_maps s !! id = None -> registry_ok s ->
  registry_ok (with_registry (with_inner s (<[id := hash_new Z inner_policy_max_entries]> (inner_maps s)))
    (aom_update (policy_registry s) mod_id id).1).
Proof.
  intros Hid [H1 H2].
  assert (forall j, aom_lookup (policy_registry s) j <> Some id) as Hn.
  { intros j Hj. destruct (H1 _ _ Hj) as [? ?]. congruence. }
  assert (forall j x, aom_lookup (aom_update (policy_registry s) mod_id id).1 j = Some x ->
    (j = mod_id /\ x = id) \/ aom_lookup (policy_registry s) j = Some x) as Hl.
  { intros j x. destruct (decide ((aom_update (policy_registry s) mod_id id).2 = 0)).
    - rewrite aom_update_ok by done. case_decide; naive_solver.
    - rewrite aom_update_err by done. auto. }
  split; cbn.
  - intros mid x [[-> ->]|H]%Hl; [by rewrite lookup_insert, decide_True|].
    rewrite lookup_insert. case_decide; [done|by eapply H1].
  - intros mid mid' x [[-> ->]|Ha]%Hl [[-> E]|Hb]%Hl; subst; try done; [by destruct (Hn mid')|by destruct (Hn mid)|].
    by eapply H2.
Qed.

Lemma register_module_spec s b mod_id s' o :
  register_module s b mod_id = (s', o) ->
  keeps (fun mid => mid <> mod_id) s s' /\ vma_map s' = vma_map s /\
  (forall id, o = Some id -> b = true /\ inner_maps s !! id = None /\
     module_rules s' mod_id id (hash_new Z inner_policy_max_entries)) /\
  (b = true -> 0 <= mod_id < Z.of_nat (aom_max (policy_registry s)) -> is_Some o).
Proof.
  unfold register_module, create_map. intros H. destruct b; [|by simplify_eq].
  set (id := fresh (dom (inner_maps s))) in *.
  assert (inner_maps s !! id = None) as Hid by apply not_elem_of_dom, is_fresh.
  cbn [policy_registry with_inner with_registry] in H.
  set (r := aom_update (policy_registry s) mod_id id) in *. simplify_eq. split_and!; [|done|..].
  - split; [|done|done|done|apply aom_update_max|by apply register_ok]. intros mid j m Hne [H1 H2]. split; cbn.
    + destruct (decide (r.2 = 0)) as [E|E]; [|by unfold r; rewrite aom_update_err].
      unfold r. rewrite aom_update_ok, decide_False by done. done.
    + rewrite lookup_insert_ne; [done|]. intros <-. congruence.
  - intros id' Ho. destruct (Z.eqb_spec r.2 0) as [E|]; [|done]. simplify_eq. split_and!; [done|done|].
    split; cbn; [unfold r; by rewrite aom_update_ok, decide_True|by rewrite lookup_insert, decide_True].
  - intros _ Hr. apply (aom_update_range (policy_registry s) mod_id id) in Hr. fold r in Hr. by rewrite Hr.
Qed.

(** ** Blocks stay blocks *)

Lemma insert_blocks_wf fuel v max a t c t' n :
  insert_blocks fuel v max a t c = Some (t', n) -> vma_wf t -> vma_wf t'.
Proof.
  revert a t c. induction fuel as [|fuel IH]; intros a t c H Hw; [done|]. cbn [insert_blocks] in H.
  destruct (a <? max); [|by simplify_eq]. apply IH in H; [done|].
  cbn [prefixlen]. set (d := vma_key_data _). intros p w.
  destruct (decide ((lpm_update t VMA_BLOCK_PREFIX d v).2 = 0)) as [E|E].
  - rewrite lpm_update_ok by done. case_decide as Hp; [|apply Hw]. intros _. subst p d.
    rewrite vma_key_data_bits. change (Z.to_nat VMA_BLOCK_PREFIX) with 44%nat.
    rewrite (take_msb_bits 44 20). apply length_msb_bits.
  - rewrite lpm_update_err by done. apply Hw.
Qed.

Lemma or_diverges_Ok {A} (o : option A) a : or_diverges o = Ok a -> o = Some a.
Proof. destruct o; naive_solver. Qed.

Lemma populate_wf t maps name mid r :
  or_diverges (populate_vma_for_module t maps name mid) = Ok r -> vma_wf t -> vma_wf (pv_trie r).
Proof.
  intros H%or_diverges_Ok. revert H.
  unfold populate_vma_for_module. destruct maps as [m|]; [|by intros [= <-]].
  destruct (module_bounds _ name) as [lo hi]. destruct (lo =? ULONG_MAX); [by intros [= <-]|].
  destruct (insert_blocks _ _ _ _ _ _) as [[t' n]|] eqn:E; [|done]. intros [= <-]. cbn.
  by eapply insert_blocks_wf.
Qed.

(** ** ld.so *)

(** The offsets, relative to libc, of ld.so's syscall sites. *)
Definition ld_offsets (env : elf_env) (maps : option string) (libc_base : Z) : res (list Z) :=
  let ld_base := ld_base_in (match maps with Some c => fgets_lines 512 c | None => [] end) in
  if ld_base =? 0 then Ok []
  else match find_module_path maps "ld-linux" 512 with
  | None => Ok []
  | Some ld_path =>
      let* sites := scan_elf_text_for_syscalls env ld_path 256 in
      Ok ((fun x => u64 (u64 (ld_base + x) - libc_base)) <$> sites)
  end.

Lemma ld_offsets_length env maps lb ks : ld_offsets env maps lb = Ok ks -> (length ks <= 256)%nat.
Proof.
  unfold ld_offsets. destruct (_ =? 0); [intros [= <-]; cbn; lia|].
  destruct (find_module_path _ _ _); [|intros [= <-]; cbn; lia]. intros H. res_inv.
  rewrite length_fmap. match goal with H : scan_elf_text_for_syscalls _ _ _ = _ |- _ =>
    apply scan_text_length in H; lia end.
Qed.

Lemma whitelist_ld_spec env maps lb m t r :
  whitelist_ld env maps lb m t = Ok r ->
  (vma_wf t -> vma_wf r.2) /\
  exists ks, ld_offsets env maps lb = Ok ks /\ r.1 = (add_sites BPF_NOEXIST 1 ks m).1.
Proof.
  unfold whitelist_ld, ld_offsets. intros H.
  destruct (ld_base_in _ =? 0); [by res_inv; split; [|exists []]|].
  destruct (find_module_path maps "ld-linux" 512); [|by res_inv; split; [|exists []]]. res_inv.
  match goal with H : scan_elf_text_for_syscalls _ _ _ = Ok ?x |- _ => rewrite H end. cbn [res_bind].
  destruct (_ =? ULONG_MAX); [by res_inv; split; [|eexists]|]. res_inv. split; [|by eexists].
  match goal with H : or_diverges _ = Ok ?y |- _ => apply or_diverges_Ok in H; destruct y as [t' n] end.
  cbn. eauto using insert_blocks_wf.
Qed.

(** ** Libc *)

Lemma load_libc_spec env alloc_ok create_ok c lb s r :
  load_libc env alloc_ok create_ok c lb s = Ok r ->
  keeps (fun mid => mid <> MODULE_LIBC) s r.1 /\
  (lb <> 0 -> create_ok 1%nat = true -> r.2 = true -> forall path, find_libc_path (ch_maps c) 512 = Some path ->
   exists id m ks, whitelist_libc env path (hash_new Z inner_policy_max_entries) = Ok m /\
     ld_offsets env (ch_maps c) lb = Ok ks /\
     module_rules r.1 MODULE_LIBC id (add_sites BPF_NOEXIST 1 ks m).1).
Proof.
  unfold load_libc. intros H. destruct (Z.eqb_spec lb 0); [by res_inv|].
  destruct (register_module s (create_ok 1%nat) MODULE_LIBC) as [s1 o] eqn:E.
  destruct (register_module_spec _ _ _ _ _ E) as (Hk & Ev & Hid & _).
  destruct o as [id|]; [|by res_inv; split; [|intros _ ->]].
  destruct (Hid id eq_refl) as (Hc & Hn & [R1 R2]). rewrite R2 in H.
  destruct (find_libc_path _ 512) as [path|]; [|by res_inv]. unfold fill_libc in H. cbn [callgraph_filter] in H.
  res_inv. match goal with H : whitelist_ld _ _ _ _ _ = _ |- _ =>
    destruct (whitelist_ld_spec _ _ _ _ _ _ H) as (Hw & ks & Hks & Hr) end. cbn [fst snd]. split.
  - apply keeps_vma; [|cbn; by rewrite <- ?Ev]. eapply keeps_fresh; [done|exact Hn|..].
    + intros j Hj. by rewrite lookup_insert_ne.
    + intros _. by rewrite lookup_insert, decide_True.
  - intros _ _ _ path' [= <-]. eexists id, _, ks. split_and!; [done|done|]. rewrite <- Hr.
    split; [done|]. cbn. by rewrite lookup_insert, decide_True.
Qed.

(** ** Libraries *)

(** The libraries whose policy map could be created, in order. *)
Definition created (create_ok : nat -> bool) (l : list (nat * string)) : list string :=
  snd <$> List.filter (fun x => create_ok (2 + x.1)%nat) l.

Lemma load_library_spec env create_ok maps st lib r :
  load_library env create_ok maps st lib = Ok r ->
  MODULE_DYNAMIC_BASE <= st.2 < 64 -> aom_max (policy_registry st.1) = 64%nat ->
  keeps (fun mid => mid < st.2) st.1 r.1 /\
  if create_ok (2 + lib.1)%nat then
    r.2 = st.2 + 1 /\ exists id sites, scan_elf_text_for_syscalls env lib.2 512 = Ok sites /\
      module_rules r.1 st.2 id (add_sites BPF_ANY 1 sites (hash_new Z inner_policy_max_entries)).1
  else r.2 = st.2.
Proof.
  destruct st as [s next], lib as [i lib]. unfold load_library. intros H Hn Ha. cbn [fst snd] in *.
  destruct (Z.leb_spec 64 next); [lia|].
  destruct (register_module s (create_ok (2 + i)%nat) next) as [s1 o] eqn:E.
  destruct (register_module_spec _ _ _ _ _ E) as (Hk & Ev & Hid & Hok).
  apply (keeps_weaken _ (fun mid => mid < next)) in Hk; [|lia].
  destruct o as [id|]; [|res_inv; split; [done|]; destruct (create_ok _); [|done]].
  2: { destruct Hok as [? [=]]; [done|rewrite Ha; unfold MODULE_DYNAMIC_BASE in *; lia]. }
  destruct (Hid id eq_refl) as (-> & Hf & [R1 R2]). res_inv. cbn [fst snd]. split.
  - eapply keeps_fresh; [apply keeps_vma; [done|]|exact Hf|..].
    + match goal with H : or_diverges _ = _ |- _ => exact (populate_wf _ _ _ _ _ H) end.
    + intros j Hj. by rewrite lookup_alter_ne.
    + by rewrite lookup_alter_is_Some.
  - split; [rewrite u32_id; [done|unfold is_u32, MODULE_DYNAMIC_BASE in *; lia]|].
    eexists id, _. split; [done|]. split; [done|]. cbn. rewrite lookup_alter, decide_True by done. by rewrite R2.
Qed.

Lemma load_library_fold_spec env create_ok maps l st r :
  res_fold (load_library env create_ok maps) l st = Ok r ->
  MODULE_DYNAMIC_BASE <= st.2 -> st.2 + Z.of_nat (length l) <= 64 -> aom_max (policy_registry st.1) = 64%nat ->
  keeps (fun mid => mid < st.2) st.1 r.1 /\ r.2 = st.2 + Z.of_nat (length (created create_ok l)) /\
  forall k path, created create_ok l !! k = Some path ->
    exists id sites, scan_elf_text_for_syscalls env path 512 = Ok sites /\
      module_rules r.1 (st.2 + Z.of_nat k) id (add_sites BPF_ANY 1 sites (hash_new Z inner_policy_max_entries)).1.
Proof.
  revert st. induction l as [|lib l IH]; intros st H Hlo Hhi Ha; cbn [res_fold] in H; res_inv.
  { split_and!; [done|cbn; lia|done]. }
  cbn [length] in Hhi. match goal with H : load_library _ _ _ _ _ = Ok ?x |- _ =>
    rename x into st1; apply load_library_spec in H as [Hk Hl]; [|lia|done] end.
  assert (aom_max (policy_registry st1.1) = 64%nat) as Ha1 by (by rewrite (kp_size _ _ _ Hk)).
  unfold created. cbn [List.filter]. destruct (create_ok (2 + lib.1)%nat).
  - destruct Hl as (Hn & id & sites & Hs & Hm). destruct (IH st1) as (Hk1 & Hr & Hc); [done|lia..|done|].
    split_and!; [|cbn [fmap list_fmap length]; unfold created in Hr; lia|].
    + etrans; [exact Hk|]. eapply keeps_weaken; [|exact Hk1]. cbn. lia.
    + intros [|k] path Hp; cbn in Hp.
      * simplify_eq. exists id, sites. split; [done|]. rewrite Z.add_0_r. apply Hk1; [lia|done].
      * replace (st.2 + Z.of_nat (S k)) with (st1.2 + Z.of_nat k) by lia. by apply Hc.
  - destruct (IH st1) as (Hk1 & Hr & Hc); [done|lia..|done|]. rewrite Hl in *.
    split_and!; [|done|done]. etrans; [exact Hk|]. exact Hk1.
Qed.

End Modules.

(** ** Which libraries *)

Lemma discover_libs_bound bin lines seen :
  (length seen <= 32)%nat -> (length (discover_libs bin lines seen) <= 32)%nat.
Proof.
  revert seen. induction lines as [|l lines IH]; intros seen Hs; [done|]. cbn [discover_libs].
  destruct (Nat.ltb_spec (length seen) 32); [|done].
  destruct (library_path bin l); [|by apply IH]. destruct (existsb _ seen); [by apply IH|].
  apply IH. rewrite length_app. cbn. lia.
Qed.

Lemma created_length create_ok l : (length (created create_ok l) <= length l)%nat.
Proof. unfold created. rewrite length_fmap. apply filter_length_le. Qed.

(** The libraries that get a policy map, in the order of their module ids. *)
Definition policy_libs (create_ok : nat -> bool) (maps : option string) (bin_name : string) : list string :=
  match maps with
  | None => []
  | Some c => created create_ok (imap pair (discover_libs bin_name (fgets_lines 512 c) []))
  end.

Lemma policy_libs_bound create_ok maps bin : (length (policy_libs create_ok maps bin) <= 32)%nat.
Proof.
  destruct maps as [c|]; cbn; [|lia]. etrans; [apply created_length|]. rewrite length_imap.
  by apply discover_libs_bound, Nat.le_0_l.
Qed.

Lemma load_libraries_spec `{B : BpfOps} `{!BpfLaws B} env create_ok maps bin s s' :
  load_libraries env create_ok maps bin s = Ok s' -> aom_max (policy_registry s) = 64%nat ->
  keeps (fun mid => mid < MODULE_DYNAMIC_BASE) s s' /\
  forall k path, policy_libs create_ok maps bin !! k = Some path ->
    exists id sites, scan_elf_text_for_syscalls env path 512 = Ok sites /\
      module_rules s' (MODULE_DYNAMIC_BASE + Z.of_nat k) id
        (add_sites BPF_ANY 1 sites (hash_new Z inner_policy_max_entries)).1.
Proof.
  unfold load_libraries, policy_libs. intros H Ha. destruct maps as [c|]; [|by res_inv]. res_inv.
  match goal with H : res_fold _ _ _ = _ |- _ =>
    apply load_library_fold_spec in H as (Hk & _ & Hc); [by split|cbn; lia| |done] end.
  rewrite length_imap. cbn. unfold MODULE_DYNAMIC_BASE.
  pose proof (discover_libs_bound bin (fgets_lines 512 c) [] ltac:(cbn; lia)). lia.
Qed.
