(* ===== verification/LoaderVmas.v ===== *)
(** * Which addresses belong to a module

    Every block of the trie after a load comes from the address range of a
    module the loader registered, whatever the order of the registrations
    and the room in the trie. *)
From S2P Require Import Prelude Shared BpfMaps Elf CLib Enforcer EnforcerSpec LoaderElf.
From S2P Require Import ProcMaps ProcMapsProps LoaderPolicy MapUpdates LoaderPolicyProps LoaderModules.

Section Vmas.
Context {B : BpfOps} {L : BpfLaws B}.

(** Every stored block satisfies [P] (module, block number). *)
Definition blocks_in (P : vma_value -> Z -> Prop) (t : bpf_lpm vma_value) : Prop :=
  forall x w, 0 <= x < 2 ^ 44 -> lpm_view t (msb_bits 44 x) = Some w -> P w x.

Lemma insert_blocks_sound P fuel v max b t c t' n :
  insert_blocks fuel v max (b * 2 ^ 20) t c = Some (t', n) -> 0 <= b < 2 ^ 44 ->
  blocks_in P t -> (forall x, b <= x -> x * 2 ^ 20 < max -> P v x) -> blocks_in P t'.
Proof.
  revert b t c. induction fuel as [|fuel IH]; intros b t c H Hb Ht HP; [done|].
  pose proof H as H'. cbn [insert_blocks] in H.
  destruct (Z.ltb_spec (b * 2 ^ 20) max) as [Hlt|Hge]; [|by simplify_eq].
  assert (max <= 2 ^ 64 - 2 ^ 20) as Hmax.
  { destruct (Z.le_gt_cases max (2 ^ 64 - 2 ^ 20)); [done|].
    rewrite block_loop_diverges in H'; [done|lia|unfold is_u64; lia|by rewrite Z.mod_mul]. }
  replace (u64 (b * 2 ^ 20 + VMA_BLOCK_SIZE)) with ((b + 1) * 2 ^ 20) in H
    by (rewrite u64_id by (unfold is_u64, VMA_BLOCK_SIZE; lia); unfold VMA_BLOCK_SIZE; lia).
  apply IH in H; [done|lia| |intros x Hx; apply HP; lia].
  cbn [prefixlen]. set (d := vma_key_data _). intros x w Hx.
  destruct (decide ((lpm_update t VMA_BLOCK_PREFIX d v).2 = 0)) as [E|E].
  - rewrite lpm_update_ok by done. subst d. rewrite block_key_bits. case_decide as Hk; [|by apply Ht].
    intros [= <-]. apply msb44_inj in Hk; [|lia..]. subst x. apply HP; lia.
  - rewrite lpm_update_err by done. by apply Ht.
Qed.

(** Block [x] overlaps the range from [lo]'s block to [hi]. *)
Definition touches (lo hi x : Z) : Prop := lo / 2 ^ 20 <= x /\ x * 2 ^ 20 < hi.

Lemma insert_range_sound P v lo hi t c t' n :
  insert_blocks (block_fuel hi (block_floor lo)) v hi (block_floor lo) t c = Some (t', n) -> is_u64 lo ->
  blocks_in P t -> (forall x, touches lo hi x -> P v x) -> blocks_in P t'.
Proof.
  unfold is_u64. intros H Hlo Ht HP. rewrite block_floor_spec in H by lia.
  eapply insert_blocks_sound; [exact H|Z.div_mod_to_equations; lia|done|]. intros x H1 H2. by apply HP.
Qed.

Definition lines_of (maps : option string) : list string :=
  match maps with Some m => fgets_lines 512 m | None => [] end.

Lemma populate_sound P t maps name mid r :
  or_diverges (populate_vma_for_module t maps name mid) = Ok r -> blocks_in P t ->
  (forall lo hi x, module_bounds (lines_of maps) name = (lo, hi) -> touches lo hi x ->
     P {| module_id := mid; base_addr := lo |} x) ->
  blocks_in P (pv_trie r).
Proof.
  intros H%or_diverges_Ok. revert H. unfold populate_vma_for_module. destruct maps as [m|]; [|by intros [= <-]].
  cbn [lines_of]. destruct (module_bounds _ name) as [lo hi] eqn:Eb.
  destruct (lo =? ULONG_MAX); [by intros [= <-]|].
  destruct (insert_blocks _ _ _ _ _ _) as [[t' n]|] eqn:E; [|done]. intros [= <-] Ht HP. cbn [pv_trie].
  eapply insert_range_sound; [exact E|by destruct (module_bounds_spec _ _ _ _ Eb)|done|]. intros x Hx. by apply (HP lo hi).
Qed.

Lemma ld_bounds_range lines b : ld_bounds lines = Ok b -> is_u64 b.1.
Proof.
  unfold ld_bounds. intros H.
  assert (forall l p, is_u64 p.1 -> res_fold (fun b l =>
    if is_ld_line l then
      match sscanf_range l with
      | Some (s, e) => Ok (if s <? b.1 then s else b.1, if b.2 <? e then e else b.2)
      | None => Fault Uninitialised
      end
    else Ok b) l p = Ok b -> is_u64 b.1) as Hf.
  { induction l as [|x l IH]; intros p Hp Hl; cbn [res_fold] in Hl; [by res_inv|]. res_inv.
    eapply IH; [|done]. destruct (is_ld_line x); [|by res_inv].
    destruct (sscanf_range x) as [[s e]|] eqn:Er; [|done].
    destruct (sscanf_range_bounds _ _ _ Er) as [Hs He]. res_inv. cbn. by destruct (s <? p.1). }
  exact (Hf lines (ULONG_MAX, 0) ltac:(done) H).
Qed.

Lemma whitelist_ld_sound P env maps lb m t r :
  whitelist_ld env maps lb m t = Ok r -> blocks_in P t ->
  (forall lo hi x, ld_bounds (lines_of maps) = Ok (lo, hi) -> touches lo hi x ->
     P {| module_id := MODULE_LIBC; base_addr := lb |} x) ->
  blocks_in P r.2.
Proof.
  unfold whitelist_ld. fold (lines_of maps). intros H Ht HP.
  destruct (ld_base_in _ =? 0); [by res_inv|].
  destruct (find_module_path maps "ld-linux" 512); [|by res_inv]. res_inv.
  match goal with H : ld_bounds _ = Ok ?b |- _ => pose proof (ld_bounds_range _ _ H); destruct b as [lo hi]; rename H into Hb end.
  destruct (_ =? ULONG_MAX); [by res_inv|]. res_inv.
  match goal with H : or_diverges _ = Ok ?y |- _ => apply or_diverges_Ok in H; destruct y as [t' n] end.
  cbn [fst snd] in *. eapply insert_range_sound; [done|done|done|]. intros y Hy. by eapply HP.
Qed.

Lemma register_module_vma s b mid s' o : register_module s b mid = (s', o) -> vma_map s' = vma_map s.
Proof. intros H. by apply register_module_spec in H as (_ & ? & _). Qed.

Lemma load_libc_vmas P env alloc_ok create_ok c lb s r :
  load_libc env alloc_ok create_ok c lb s = Ok r -> blocks_in P (vma_map s) ->
  (forall lo hi x, ld_bounds (lines_of (ch_maps c)) = Ok (lo, hi) -> touches lo hi x ->
     P {| module_id := MODULE_LIBC; base_addr := lb |} x) ->
  blocks_in P (vma_map r.1).
Proof.
  unfold load_libc. intros H Ht HP. destruct (lb =? 0); [by res_inv|].
  destruct (register_module _ _ _) as [s1 o] eqn:E. rewrite <- (register_module_vma _ _ _ _ _ E) in Ht.
  destruct o as [id|]; [|by res_inv].
  destruct (find_libc_path _ 512); [|by res_inv]. destruct (inner_maps s1 !! id); [|by res_inv]. res_inv. cbn.
  eapply whitelist_ld_sound; [done|done|done].
Qed.

Lemma load_library_vmas P env create_ok maps st lib r :
  load_library env create_ok maps st lib = Ok r -> blocks_in P (vma_map st.1) ->
  (create_ok (2 + lib.1)%nat = true -> forall lo hi x,
     module_bounds (lines_of maps) (base_name lib.2) = (lo, hi) -> touches lo hi x ->
     P {| module_id := st.2; base_addr := lo |} x) ->
  blocks_in P (vma_map r.1).
Proof.
  destruct st as [s next], lib as [i lib]. unfold load_library. intros H Ht HP. cbn [fst snd] in *.
  destruct (64 <=? next); [by res_inv|].
  destruct (register_module _ _ _) as [s1 o] eqn:E.
  destruct (register_module_spec _ _ _ _ _ E) as (_ & Ev & Hid & _). rewrite <- Ev in Ht.
  destruct o as [id|]; [|by res_inv]. destruct (Hid id eq_refl) as (Hc & _). res_inv. cbn.
  eapply populate_sound; [done|done|]. intros lo hi y. by apply HP.
Qed.

Lemma load_library_fold_vmas P env create_ok maps l st r :
  res_fold (load_library env create_ok maps) l st = Ok r -> blocks_in P (vma_map st.1) ->
  MODULE_DYNAMIC_BASE <= st.2 -> st.2 + Z.of_nat (length l) <= 64 -> aom_max (policy_registry st.1) = 64%nat ->
  (forall k path lo hi x, created create_ok l !! k = Some path ->
     module_bounds (lines_of maps) (base_name path) = (lo, hi) -> touches lo hi x ->
     P {| module_id := st.2 + Z.of_nat k; base_addr := lo |} x) ->
  blocks_in P (vma_map r.1).
Proof.
  revert st. induction l as [|lib l IH]; intros st H Ht Hlo Hhi Ha HP; cbn [res_fold] in H; res_inv; [done|].
  cbn [length] in Hhi. match goal with H : load_library _ _ _ _ _ = Ok ?x |- _ =>
    rename x into st1; pose proof H as Hv; apply load_library_spec in H as [Hk Hl]; [|lia|done] end.
  assert (aom_max (policy_registry st1.1) = 64%nat) as Ha1 by (by rewrite (kp_size _ _ _ Hk)).
  unfold created in HP. cbn [List.filter] in HP. apply (load_library_vmas P) in Hv; [|done|].
  2: { intros Hc lo hi x. rewrite Hc in HP. rewrite <- (Z.add_0_r st.2) at 1.
       exact (HP 0%nat lib.2 lo hi x eq_refl). }
  destruct (create_ok (2 + lib.1)%nat).
  - destruct Hl as (Hn & _). apply (IH st1); [done|done|lia..|done|]. intros k path lo hi x Hp.
    replace (st1.2 + Z.of_nat k) with (st.2 + Z.of_nat (S k)) by lia. exact (HP (S k) path lo hi x Hp).
  - apply (IH st1); [done|done|lia..|done|]. by rewrite Hl.
Qed.

Lemma load_libraries_vmas P env create_ok maps bin s s' :
  load_libraries env create_ok maps bin s = Ok s' -> blocks_in P (vma_map s) ->
  aom_max (policy_registry s) = 64%nat ->
  (forall k path lo hi x, policy_libs create_ok maps bin !! k = Some path ->
     module_bounds (lines_of maps) (base_name path) = (lo, hi) -> touches lo hi x ->
     P {| module_id := MODULE_DYNAMIC_BASE + Z.of_nat k; base_addr := lo |} x) ->
  blocks_in P (vma_map s').
Proof.
  unfold load_libraries, policy_libs. intros H Ht Ha HP. destruct maps as [c|]; [|by res_inv]. res_inv.
  match goal with H : res_fold _ _ _ = _ |- _ => eapply (load_library_fold_vmas P) in H; [done..| |done|exact HP] end.
  rewrite length_imap. unfold MODULE_DYNAMIC_BASE. cbn [snd].
  pose proof (discover_libs_bound bin (fgets_lines 512 c) [] ltac:(cbn; lia)). lia.
Qed.

Lemma load_vmas_sound P binary c s r :
  load_vmas binary c s = Ok r -> blocks_in P (vma_map s) ->
  (forall lo hi x, module_bounds (lines_of (ch_maps c)) (base_name binary) = (lo, hi) -> touches lo hi x ->
     P {| module_id := MODULE_MAIN; base_addr := lo |} x) ->
  (ch_libc_base c <> 0 -> forall lo hi x, module_bounds (lines_of (ch_maps c)) "libc" = (lo, hi) ->
     touches lo hi x -> P {| module_id := MODULE_LIBC; base_addr := lo |} x) ->
  blocks_in P (vma_map r.1).
Proof.
  unfold load_vmas. intros H Ht H1 H2. res_inv.
  match goal with H : or_diverges _ = Ok ?p |- _ => apply (populate_sound P) in H; [|done..] end.
  destruct (Z.eqb_spec (ch_libc_base c) 0); res_inv; [done|]. cbn.
  match goal with H : or_diverges _ = Ok ?p |- _ => apply (populate_sound P) in H; [done..|] end.
  intros lo hi y. by apply H2.
Qed.

End Vmas.
