(* ===== verification/LoaderCfi.v ===== *)
(** * The CFI policy the loader builds

    The size the loader finds for a function, the ranges it stores for the
    sites of [.sentinel_cfi], and what the 1024 entries of the CFI map can
    hold. *)
From S2P Require Import Prelude Shared BpfMaps Elf CLib Enforcer LoaderElf LoaderElfProps.
From S2P Require Import CallGraph CallGraphProps ProcMaps LoaderPolicy MapUpdates.

(** ** Function sizes *)

Definition is_function_at (a : Z) (y : elf_sym) : bool :=
  (st_value y =? a) && (GELF_ST_TYPE (st_info y) =? STT_FUNC).

(** The size the first symbol for the function at [a] gives; 0 if none. *)
Definition first_size (ys : list elf_sym) (a : Z) : Z :=
  match List.find (is_function_at a) ys with Some y => st_size y | None => 0 end.

Lemma size_in_symtab_spec s a k i ys :
  take k (drop i (scn_syms s)) = ys -> length ys = k -> size_in_symtab s a k i = Ok (first_size ys a).
Proof.
  revert i ys. induction k as [|k IH]; intros i ys Hy Hl; cbn [size_in_symtab].
  { by apply nil_length_inv in Hl as ->. }
  unfold getsym. destruct (scn_syms s !! i) as [y|] eqn:E.
  - rewrite (drop_S _ _ _ E) in Hy. cbn [take firstn] in Hy. subst ys. cbn [res_bind].
    unfold first_size, is_function_at. cbn [List.find]. case_match; [done|].
    cbn [length] in Hl. injection Hl as Hl. rewrite (IH (S i) _ eq_refl Hl). done.
  - rewrite drop_ge in Hy by (by apply lookup_ge_None). subst ys. by destruct k.
Qed.

(** The symbol tables with data, each with as many symbols as its header
    says. *)
Definition symtabs (l : list elf_scn) : list elf_scn :=
  List.filter (fun s => (sh_type s =? SHT_SYMTAB) && (if scn_data s is Some _ then true else false)) l.

Definition counted (s : elf_scn) : Prop :=
  exists n, symbol_count s = Ok n /\ Z.to_nat n = length (scn_syms s).

(** The first table that knows a size decides. *)
Fixpoint size_of (l : list elf_scn) (a : Z) : Z :=
  match l with
  | [] => 0
  | s :: l => if first_size (scn_syms s) a =? 0 then size_of l a else first_size (scn_syms s) a
  end.

Lemma function_size_spec l a :
  Forall counted (symtabs l) -> function_size l a = Ok (size_of (symtabs l) a).
Proof.
  unfold symtabs. induction l as [|s l IH]; [done|]. cbn [function_size List.filter].
  destruct (sh_type s =? SHT_SYMTAB); cbn [negb andb]; [|done].
  destruct (scn_data s); [|done]. rewrite Forall_cons. intros [(n & -> & Hn) Hl].
  cbn [res_bind size_of]. rewrite (size_in_symtab_spec _ _ _ _ (scn_syms s)).
  - cbn [res_bind]. destruct (_ =? 0); cbn [negb]; [by apply IH|done].
  - rewrite drop_0. apply take_ge. lia.
  - by rewrite Hn.
Qed.

(** A size that is found is the size of a function symbol at that address. *)
Lemma size_of_symbol l a :
  size_of l a <> 0 -> exists s y, s ∈ l /\ y ∈ scn_syms s /\ st_value y = a /\
    GELF_ST_TYPE (st_info y) = STT_FUNC /\ st_size y = size_of l a.
Proof.
  induction l as [|s l IH]; [done|]. cbn [size_of].
  destruct (Z.eqb_spec (first_size (scn_syms s) a) 0) as [E|E].
  - intros H. destruct (IH H) as (s' & y & Hs & ?). exists s', y. split; [by right|done].
  - intros _. unfold first_size in *. destruct (List.find _ _) as [y|] eqn:F; [|done].
    apply find_some in F as [Hy [H1 H2]%andb_true_iff]. apply Z.eqb_eq in H1, H2.
    exists s, y. split_and!; [by left|by apply list_elem_of_In|done..].
Qed.

(** ** The CFI map *)

Section Cfi.
Context {B : BpfOps} {L : BpfLaws B}.

(** Site offset and caller range of one entry (site address, function
    address); functions of unknown size get 4096 bytes. *)
Definition cfi_rule (l : list elf_scn) (base : Z) (e : Z * Z) : Z * cfi_range :=
  let z := size_of (symtabs l) e.2 in
  (u64 (e.1 - base),
   {| start := u64 (e.2 - base); end_ := u64 (u64 (e.2 - base) + (if z =? 0 then 4096 else z)) |}).

Lemma load_cfi_entries_spec env binary base es h :
  Forall counted (symtabs (elf_scns env binary)) ->
  load_cfi_entries env binary base es h =
    Ok (updates BPF_ANY (cfi_rule (elf_scns env binary) base <$> es) h).
Proof.
  intros Hc. unfold load_cfi_entries, updates. revert h.
  induction es as [|e es IH]; intros h; [done|]. cbn [res_fold fmap list_fmap foldl].
  rewrite function_size_spec by done. cbn [res_bind]. by rewrite IH.
Qed.

(** What [load_cfi] does for a binary with a [.sentinel_cfi] section. *)
Lemma load_cfi_spec env binary pol s es :
  Forall counted (symtabs (elf_scns env binary)) ->
  parse_sentinel_cfi env binary MAX_POLICY_ENTRIES = Ok es -> es <> [] ->
  load_cfi env binary pol s =
    Ok (with_cfi s (updates BPF_ANY
          (cfi_rule (elf_scns env binary) (default 0 (ps_load_base pol)) <$> es) (cfi_policy s))).
Proof.
  intros Hc Hp Hne. unfold load_cfi. rewrite Hp. cbn [res_bind].
  destruct es as [|e es]; [done|]. by rewrite load_cfi_entries_spec.
Qed.

(** C25: The CFI map holds 1024 rules although up to 4096 entries are read:
    for entries with distinct sites, loaded into the initial maps, exactly
    the first 1024 get their rule; the sites of the others stay without
    one. *)
Theorem cfi_capacity env binary pol es :
  Forall counted (symtabs (elf_scns env binary)) ->
  parse_sentinel_cfi env binary MAX_POLICY_ENTRIES = Ok es -> es <> [] ->
  let rules := cfi_rule (elf_scns env binary) (default 0 (ps_load_base pol)) <$> es in
  NoDup (rules.*1) ->
  exists s, load_cfi env binary pol initial_maps = Ok s /\
  forall i k r, rules !! i = Some (k, r) ->
    hash_lookup (cfi_policy s) k = if decide (i < 1024)%nat then Some r else None.
Proof.
  intros Hc Hp Hne rules Hnd. rewrite (load_cfi_spec _ _ _ _ _ Hc Hp Hne). eexists. split; [done|].
  intros i k r Hi. cbn [cfi_policy with_cfi initial_maps].
  destruct (updates_full BPF_ANY rules (hash_new cfi_range 1024)) as [_ H]; [done| | |].
  - intros j _. apply hash_new_lookup.
  - rewrite hash_new_size. lia.
  - specialize (H _ _ Hi). rewrite hash_new_size, hash_new_max in H. exact H.
Qed.

End Cfi.

(** ** A binary with 1025 CFI entries *)
Module DemoCfi.

Definition site (i : nat) : Z * Z := (0x401000 + 8 * Z.of_nat i, 0x401000).
Definition entries : list (Z * Z) := site <$> seq 0 1025.

Definition binary : elf_file :=
  {| phdrs := []; shdrstrndx_ok := true;
     scns := [ {| scn_name := Some ".symtab"; sh_type := SHT_SYMTAB; sh_flags := 0; sh_addr := 0;
                  sh_size := 24; sh_entsize := 24; scn_data := Some (DemoElf.of_bytes []);
                  scn_syms := [DemoElf.func "big" 0x401000 0x4000] |};
               DemoElf.plain_scn ".sentinel_cfi" SHT_PROGBITS 2 0x404000
                 (Some (DemoElf.of_bytes (entries ≫= fun e => le_bytes 8 e.1 ++ le_bytes 8 e.2))) ] |}.

Definition env : elf_env := {| elf_version_ok := true; elf_image _ := Opened binary |}.

Definition pol : parse_result :=
  {| ps_ret := 0; ps_entries := []; ps_text_base := None; ps_load_base := Some 0x400000 |}.

Lemma tables : Forall counted (symtabs (elf_scns env "/bin/big")).
Proof. constructor; [|constructor]. exists 1. split; reflexivity. Qed.

End DemoCfi.

Lemma cfi_capacity_witness :
  exists s, load_cfi DemoCfi.env "/bin/big" DemoCfi.pol initial_maps = Ok s /\
    hash_lookup (cfi_policy s) 0x1000 = Some {| start := 0x1000; end_ := 0x5000 |} /\
    hash_lookup (cfi_policy s) 0x3000 = None.
Proof.
  destruct (cfi_capacity DemoCfi.env "/bin/big" DemoCfi.pol DemoCfi.entries DemoCfi.tables) as (s & E & H).
  - vm_compute. reflexivity.
  - discriminate.
  - apply (bool_decide_unpack _). vm_compute. exact I.
  - exists s. split; [exact E|]. split.
    + apply (H 0%nat). vm_compute. reflexivity.
    + apply (H 1024%nat 0x3000 {| start := 0x1000; end_ := 0x5000 |}). vm_compute. reflexivity.
Defined.
