(* ===== verification/LoaderEnforce.v ===== *)
(** * From the load to the enforcement

    What a successful load promises about the maps ([policy_loaded]), and
    what the enforcer then decides for the child's system calls from the
    main binary, libc and ld.so, the other libraries, and code that belongs
    to none of them. *)
From S2P Require Import Prelude Shared BpfMaps Elf CLib Enforcer EnforcerSpec LoaderElf LoaderElfProps.
From S2P Require Import ProcMaps ProcMapsProps LoaderPolicy MapUpdates LoaderPolicyProps LoaderModules.
From S2P Require Import LoaderVmas LoaderCfi.

(** ** What a load promises *)

(** The number bound to an offset by the last entry for it; [base] is the
    binary's load base. *)
Definition entry_for_offset (es : list (Z * Z)) (base off : Z) : option Z :=
  last_value ((fun e => (u64 (e.1 - base), e.2)) <$> es) off.

(** The base of libc that offsets are relative to: the lowest mapping whose
    line mentions [libc], if the wait found libc at all. *)
Definition libc_base_used (c : child) : Z :=
  if ch_libc_base c =? 0 then 0
  else
    let lo := (module_bounds (lines_of (ch_maps c)) "libc").1 in
    if lo =? ULONG_MAX then ch_libc_base c else lo.

(** The module and base of an address range of the memory map. *)
Inductive module_range (create_ok : nat -> bool) (binary : string) (c : child) : vma_value -> Z -> Z -> Prop :=
| range_main lo hi :
    module_bounds (lines_of (ch_maps c)) (base_name binary) = (lo, hi) ->
    module_range create_ok binary c {| module_id := MODULE_MAIN; base_addr := lo |} lo hi
| range_libc lo hi :
    ch_libc_base c <> 0 -> module_bounds (lines_of (ch_maps c)) "libc" = (lo, hi) ->
    module_range create_ok binary c {| module_id := MODULE_LIBC; base_addr := lo |} lo hi
| range_ld lo hi :
    ld_bounds (lines_of (ch_maps c)) = Ok (lo, hi) ->
    module_range create_ok binary c {| module_id := MODULE_LIBC; base_addr := libc_base_used c |} lo hi
| range_lib k path lo hi :
    policy_libs create_ok (ch_maps c) (base_name binary) !! k = Some path ->
    module_bounds (lines_of (ch_maps c)) (base_name path) = (lo, hi) ->
    module_range create_ok binary c {| module_id := MODULE_DYNAMIC_BASE + Z.of_nat k; base_addr := lo |} lo hi.

Section Loaded.
Context {B : BpfOps} {L : BpfLaws B}.

Definition main_entries (pol : parse_result) (m : bpf_hash Z) : bpf_hash Z :=
  (load_entries (default 0 (ps_load_base pol)) (ps_entries pol) m).1.

Record policy_loaded (env : elf_env) (create_ok : nat -> bool) (binary : string) (pol : parse_result)
    (c : child) (s : bpf_maps) (mm : Z) : Prop := {
  pl_wf : vma_wf (vma_map s);
  pl_child : forall p, hash_lookup (target_pid_map s) p = if decide (u32 (ch_pid c) = p) then Some 1 else None;
  pl_main : module_rules s MODULE_MAIN mm (main_entries pol (hash_new Z inner_policy_max_entries));
  pl_libc : forall path, libc_base_used c <> 0 -> create_ok 1%nat = true ->
    find_libc_path (ch_maps c) 512 = Some path ->
    exists id m ks, whitelist_libc env path (hash_new Z inner_policy_max_entries) = Ok m /\
      ld_offsets env (ch_maps c) (libc_base_used c) = Ok ks /\
      module_rules s MODULE_LIBC id (add_sites BPF_NOEXIST 1 ks m).1;
  pl_libs : forall k path, policy_libs create_ok (ch_maps c) (base_name binary) !! k = Some path ->
    exists id sites, scan_elf_text_for_syscalls env path 512 = Ok sites /\
      module_rules s (MODULE_DYNAMIC_BASE + Z.of_nat k) id
        (add_sites BPF_ANY 1 sites (hash_new Z inner_policy_max_entries)).1;
  pl_cfi : forall es, Forall counted (symtabs (elf_scns env binary)) ->
    parse_sentinel_cfi env binary MAX_POLICY_ENTRIES = Ok es -> es <> [] ->
    cfi_policy s = updates BPF_ANY
      (cfi_rule (elf_scns env binary) (default 0 (ps_load_base pol)) <$> es) (hash_new cfi_range 1024);
  pl_blocks : blocks_in (fun v x => exists lo hi, module_range create_ok binary c v lo hi /\ touches lo hi x)
    (vma_map s);
  pl_reg : registry_ok s;
}.

Lemma load_vmas_keeps binary c s r :
  load_vmas binary c s = Ok r -> keeps (fun _ => True) s r.1 /\ inner_maps r.1 = inner_maps s /\
  policy_registry r.1 = policy_registry s /\ r.2 = libc_base_used c.
Proof.
  unfold load_vmas, libc_base_used. intros H. res_inv.
  match goal with H : or_diverges _ = Ok _ |- _ => pose proof (populate_wf _ _ _ _ _ H) as Hw end.
  destruct (ch_libc_base c =? 0); res_inv; [split_and!; [by apply keeps_vma|done..]|].
  match goal with H : or_diverges _ = Ok _ |- _ => pose proof (populate_wf _ _ _ _ _ H) as Hw2 end.
  split_and!; [by apply keeps_vma; [apply keeps_vma|]|done..|]. cbn [snd].
  match goal with H : or_diverges (populate_vma_for_module _ _ "libc" _) = _ |- _ =>
    apply or_diverges_Ok in H; revert H end.
  unfold populate_vma_for_module. destruct (ch_maps c) as [m|]; [|by intros [= <-]]. cbn [lines_of].
  destruct (module_bounds (fgets_lines 512 m) "libc") as [lo hi]. cbn [fst].
  destruct (lo =? ULONG_MAX); [by intros [= <-]|].
  destruct (insert_blocks _ _ _ _ _ _) as [[t' n]|]; [|done]. by intros [= <-].
Qed.

Lemma load_policy_inv env alloc_ok create_ok binary pol c s0 s mm :
  load_policy env alloc_ok create_ok binary pol c s0 = Ok (Loaded s mm) ->
  exists v s1 r s2 s3,
    load_vmas binary c s0 = Ok v /\ register_module v.1 (create_ok 0%nat) MODULE_MAIN = (s1, Some mm) /\
    load_libc env alloc_ok create_ok c v.2 (on_map s1 mm (main_entries pol)) = Ok (r, true) /\
    load_libraries env create_ok (ch_maps c) (base_name binary) r = Ok s2 /\
    load_cfi env binary pol s2 = Ok s3 /\
    (hash_update (target_pid_map s3) (u32 (ch_pid c)) 1 BPF_ANY).2 = 0 /\
    s = with_pids s3 (hash_update (target_pid_map s3) (u32 (ch_pid c)) 1 BPF_ANY).1.
Proof.
  unfold load_policy, track_child. intros H. res_inv. rename x into v.
  destruct (register_module v.1 (create_ok 0%nat) MODULE_MAIN) as [s1 [m|]] eqn:Er; [|by res_inv]. res_inv.
  rename x into r. destruct r as [r []]; cbn [snd fst negb] in *; [|by res_inv]. res_inv.
  match goal with H : (if ?b =? 0 then _ else _) = _ |- _ => destruct (Z.eqb_spec b 0); [|by res_inv] end.
  match goal with H : Ok (Loaded _ _) = _ |- _ => injection H as <- <- end.
  do 5 eexists. split_and!; [eassumption..|reflexivity].
Qed.

Lemma initial_wf : vma_wf (vma_map initial_maps).
Proof. intros p w. cbn. by rewrite lpm_new_view. Qed.

Lemma load_cfi_frame env binary pol s s' :
  load_cfi env binary pol s = Ok s' -> exists h, s' = with_cfi s h.
Proof. unfold load_cfi. intros H. res_inv. by eexists. Qed.

(** A successful load keeps its promises. *)
Lemma load_policy_loaded env alloc_ok create_ok binary pol c s mm :
  load_policy env alloc_ok create_ok binary pol c initial_maps = Ok (Loaded s mm) ->
  policy_loaded env create_ok binary pol c s mm.
Proof.
  intros (v & s1 & r & s2 & s3 & Hv & Hm & Hc & Hl & Hf & Hu & ->)%load_policy_inv.
  destruct (load_vmas_keeps _ _ _ _ Hv) as (Kv & _ & _ & Eb). rewrite Eb in Hc.
  destruct (register_module_spec _ _ _ _ _ Hm) as (Km & Em & Hmm & _).
  destruct (Hmm mm eq_refl) as (_ & Hfresh & [R1 R2]).
  destruct (load_libc_spec _ _ _ _ _ _ _ Hc) as (Kc & Hlibc). cbn [fst snd] in Kc, Hlibc.
  assert (aom_max (policy_registry r) = 64%nat) as Hmax.
  { rewrite (kp_size _ _ _ Kc). cbn. rewrite (kp_size _ _ _ Km), (kp_size _ _ _ Kv). apply aom_new_max. }
  destruct (load_libraries_spec _ _ _ _ _ _ Hl Hmax) as (Kl & Hlibs).
  destruct (load_cfi_frame _ _ _ _ _ Hf) as [h ->].
  assert (forall mid, mid < MODULE_DYNAMIC_BASE -> forall id m, module_rules r mid id m ->
    module_rules s2 mid id m) as Kr by (intros; by eapply (kp_rules _ _ _ Kl)).
  split.
  - cbn. apply Kl, Kc. cbn. rewrite Em. apply Kv, initial_wf.
  - intros p. cbn [target_pid_map with_pids with_cfi] in *. rewrite hash_update_ok by done.
    rewrite (kp_pids _ _ _ Kl), (kp_pids _ _ _ Kc). cbn.
    rewrite (kp_pids _ _ _ Km), (kp_pids _ _ _ Kv). cbn. by rewrite hash_new_lookup.
  - apply (Kr MODULE_MAIN); [done|]. apply (kp_rules _ _ _ Kc); [done|]. split; [done|]. cbn.
    rewrite lookup_alter, decide_True by done. by rewrite R2.
  - intros path Hb Hok Hp. destruct (Hlibc Hb Hok eq_refl path Hp) as (id & m & ks & H1 & H2 & H3).
    exists id, m, ks. split_and!; [done|done|]. by apply (Kr MODULE_LIBC).
  - exact Hlibs.
  - intros es Hcnt Hp Hne. rewrite (load_cfi_spec _ _ _ _ _ Hcnt Hp Hne) in Hf. simplify_eq. cbn.
    f_equal. rewrite (kp_cfi _ _ _ Kl), (kp_cfi _ _ _ Kc). cbn. by rewrite (kp_cfi _ _ _ Km), (kp_cfi _ _ _ Kv).
  - cbn. eapply load_libraries_vmas; [exact Hl| |done|].
    + eapply (load_libc_vmas _ _ _ _ _ _ _ _ Hc); cbn [vma_map on_map with_inner].
      * rewrite Em. eapply (load_vmas_sound _ _ _ _ _ Hv).
        -- intros x w _. cbn. by rewrite lpm_new_view.
        -- intros lo hi x Hb Hx. exists lo, hi. split; [by constructor|done].
        -- intros Hn lo hi x Hb Hx. exists lo, hi. split; [by constructor|done].
      * intros lo hi x Hb Hx. exists lo, hi. split; [by constructor|done].
    + intros k path lo hi x Hk Hb Hx. exists lo, hi. split; [by econstructor|done].
  - cbn. apply Kl, Kc, registry_ok_on_map, Km, Kv. split; cbn; intros *; by rewrite aom_new_lookup.
Qed.

End Loaded.

(** ** What the enforcer then decides *)

Section Enforced.
Context {B : BpfOps} {L : BpfLaws B}.
Context (env : elf_env) (alloc_ok : Z -> bool) (create_ok : nat -> bool) (binary : string)
  (pol : parse_result) (c : child) (s : bpf_maps) (mm : Z).
Hypothesis Hload : load_policy env alloc_ok create_ok binary pol c initial_maps = Ok (Loaded s mm).

(** A task of the child at instruction pointer [ip], with the constants the
    loader sets. *)
Context (g : config) (t : hook_ctx) (nr ip : Z).
Hypothesis Hchild : tgid_of t = u32 (ch_pid c).
Hypothesis Hscope : cgroup_filter g = 0.
Hypothesis Hip : pt_regs_ip t = Some ip.

Definition site_of : Z := u64 (ip - 2).

(** The signals the call gets: none when [allowed], otherwise those of the
    enforcement mode. *)
Definition decided_by (allowed : Prop) : Prop :=
  (allowed -> signals (sentinel_check g s t nr no_effects).2 = []) /\
  (~ allowed -> signals (sentinel_check g s t nr no_effects).2 = deny_signals g).

Lemma decided_iff (P Q : Prop) : P <-> Q -> decided_by P -> decided_by Q.
Proof. unfold decided_by. tauto. Qed.

Lemma child_monitored : monitored s t.
Proof.
  unfold monitored. rewrite Hchild, (pl_child _ _ _ _ _ _ _ (load_policy_loaded _ _ _ _ _ _ _ _ Hload)).
  by rewrite decide_True.
Qed.

(** The site's CFI rule, if there is one, admits the caller. *)
Definition cfi_admits (base off : Z) : Prop :=
  forall r, hash_lookup (cfi_policy s) off = Some r -> caller_admitted t base r.

Lemma enforced_by m id p :
  block_module (vma_map s) site_of = Some m -> module_rules s (module_id m) id p ->
  decided_by (module_allows s p (base_addr m) t nr (u64 (site_of - base_addr m))).
Proof.
  intros Hm Hp. pose proof (load_policy_loaded _ _ _ _ _ _ _ _ Hload) as Hl.
  eapply (check_module _ _ _ _ _ _ _ no_effects); [by eapply pl_wf|apply child_monitored|by left|done|done|].
  by eapply module_rules_lookup.
Qed.

Lemma main_entries_lookup k :
  (length (ps_entries pol) <= inner_policy_max_entries)%nat ->
  hash_lookup (main_entries pol (hash_new Z inner_policy_max_entries)) k =
  policy_value <$> entry_for_offset (ps_entries pol) (default 0 (ps_load_base pol)) k.
Proof.
  intros Hl. unfold main_entries. rewrite load_entries_updates, updates_any.
  - rewrite hash_new_lookup. unfold entry_for_offset. rewrite <- last_value_values, <- list_fmap_compose.
    unfold compose. cbn [fst snd]. by destruct (last_value _ k).
  - unfold room. by rewrite hash_new_size, hash_new_max, length_fmap.
Qed.

(** C3: Loading and enforcing fit together for the main binary: after a
    successful load, a system call the child makes from it gets no signal
    exactly when the last policy entry for the site's offset has no number
    or has that number, and the site's CFI rule, if any, admits the caller;
    any other call gets the signal of the enforcement mode. *)
Theorem main_binary_enforced base :
  (length (ps_entries pol) <= inner_policy_max_entries)%nat ->
  block_module (vma_map s) site_of = Some {| module_id := MODULE_MAIN; base_addr := base |} ->
  let off := u64 (site_of - base) in
  decided_by ((exists v, entry_for_offset (ps_entries pol) (default 0 (ps_load_base pol)) off = Some v /\
                 (0 <= v -> u32 v = nr)) /\ cfi_admits base off).
Proof.
  intros Hlen Hm off. pose proof (load_policy_loaded _ _ _ _ _ _ _ _ Hload) as Hl.
  eapply decided_iff; [|exact (enforced_by _ _ _ Hm (pl_main _ _ _ _ _ _ _ Hl))].
  unfold module_allows, cfi_admits. cbn [base_addr]. fold off. rewrite main_entries_lookup by done.
  apply and_iff_compat_r. split.
  - intros (w & (v & -> & ->)%fmap_Some & Ha). exists v. split; [done|]. by apply policy_value_admits.
  - intros (v & -> & Ha). exists (policy_value v). split; [done|]. by apply policy_value_admits.
Qed.

(** C4: A system call from libc or ld.so: it gets no signal exactly when
    the site is a libc site whose rule admits the number, or a site of ld.so
    that libc has no rule for, and the site's CFI rule, if any, admits the
    caller.  The libc sites are the ones the scans of libc find (at most 8
    of a wrapper, 4 of a trampoline and 512 of the whole file), whether or
    not the program's imports reach them; those of ld.so are the at most 256
    the scan of that file finds. *)
Theorem libc_enforced base path ws cs all ks :
  libc_base_used c <> 0 -> create_ok 1%nat = true -> find_libc_path (ch_maps c) 512 = Some path ->
  libc_sites env path ws cs all -> ld_offsets env (ch_maps c) (libc_base_used c) = Ok ks ->
  block_module (vma_map s) site_of = Some {| module_id := MODULE_LIBC; base_addr := base |} ->
  let off := u64 (site_of - base) in
  decided_by (match libc_rule ws cs all off with
              | Some v => rule_admits v nr
              | None => off ∈ ks
              end /\ cfi_admits base off).
Proof.
  intros Hb Hok Hp Hs Hk Hm off. pose proof (load_policy_loaded _ _ _ _ _ _ _ _ Hload) as Hl.
  destruct (pl_libc _ _ _ _ _ _ _ Hl path Hb Hok Hp) as (id & m & ks' & Ew & Ek & Hr).
  destruct (whitelist_libc_spec _ _ _ _ _ Hs) as (m' & Ew' & Hlk & Hsz & Hmx).
  assert (m' = m) as -> by congruence. assert (ks' = ks) as -> by congruence.
  eapply decided_iff; [|exact (enforced_by _ _ _ Hm Hr)].
  unfold module_allows, cfi_admits. cbn [base_addr]. fold off. rewrite sites_noexist, Hlk.
  2: { unfold room. rewrite Hmx. pose proof (ld_offsets_length _ _ _ _ Hk). unfold inner_policy_max_entries. lia. }
  apply and_iff_compat_r. destruct (libc_rule ws cs all off) as [v|]; [naive_solver|].
  case_decide; [|naive_solver]. split; [done|]. intros _. by exists 1.
Qed.

(** C5: A system call from another library, the [k]-th one that got a
    policy map: it gets no signal exactly when the site is a syscall
    instruction the scan of the library found, and the site's CFI rule, if
    any, admits the caller.  The scan stops after 512 sites and takes no
    account of what the program's imports reach. *)
Theorem library_enforced base k path sites :
  policy_libs create_ok (ch_maps c) (base_name binary) !! k = Some path ->
  scan_elf_text_for_syscalls env path 512 = Ok sites ->
  block_module (vma_map s) site_of =
    Some {| module_id := MODULE_DYNAMIC_BASE + Z.of_nat k; base_addr := base |} ->
  let off := u64 (site_of - base) in
  decided_by (off ∈ sites /\ cfi_admits base off).
Proof.
  intros Hk Hs Hm off. pose proof (load_policy_loaded _ _ _ _ _ _ _ _ Hload) as Hl.
  destruct (pl_libs _ _ _ _ _ _ _ Hl k path Hk) as (id & sites' & Es & Hr).
  assert (sites' = sites) as -> by congruence.
  eapply decided_iff; [|exact (enforced_by _ _ _ Hm Hr)].
  unfold module_allows, cfi_admits. cbn [base_addr]. fold off. rewrite sites_any, hash_new_lookup.
  2: { pose proof (scan_text_length env path 512 sites ltac:(lia) Hs). unfold room.
       rewrite hash_new_size, hash_new_max. unfold inner_policy_max_entries. lia. }
  apply and_iff_compat_r. case_decide; split; [done|intros _; by exists 1|naive_solver|done].
Qed.

(** C6: A site of the main binary with an entry in [.sentinel_cfi], when
    that section has between 1 and 1024 entries, as many as the CFI map
    holds: its calls get no signal exactly when its policy entry admits the
    number and the return address above the site lies between the start of
    the function the last CFI entry for the site names and its end, the
    address just past the function included; a function of unknown size
    counts as 4096 bytes. *)
Theorem cfi_enforced base es r :
  (length (ps_entries pol) <= inner_policy_max_entries)%nat ->
  Forall counted (symtabs (elf_scns env binary)) ->
  parse_sentinel_cfi env binary MAX_POLICY_ENTRIES = Ok es -> (0 < length es <= 1024)%nat ->
  block_module (vma_map s) site_of = Some {| module_id := MODULE_MAIN; base_addr := base |} ->
  let off := u64 (site_of - base) in
  last_value (cfi_rule (elf_scns env binary) (default 0 (ps_load_base pol)) <$> es) off = Some r ->
  decided_by ((exists v, entry_for_offset (ps_entries pol) (default 0 (ps_load_base pol)) off = Some v /\
                 (0 <= v -> u32 v = nr)) /\ caller_admitted t base r).
Proof.
  intros Hlen Hcnt Hp Hes Hm off Hr. pose proof (load_policy_loaded _ _ _ _ _ _ _ _ Hload) as Hl.
  assert (hash_lookup (cfi_policy s) off = Some r) as Hc.
  { rewrite (pl_cfi _ _ _ _ _ _ _ Hl es Hcnt Hp); [|by destruct es; [cbn in Hes; lia|]].
    rewrite updates_any; [by rewrite Hr|]. unfold room. rewrite hash_new_size, hash_new_max, length_fmap. lia. }
  eapply decided_iff; [|exact (enforced_by _ _ _ Hm (pl_main _ _ _ _ _ _ _ Hl))].
  unfold module_allows. cbn [base_addr]. fold off. rewrite Hc, main_entries_lookup by done.
  split.
  - intros [(w & (v & Hv & ->)%fmap_Some & Ha) Hcal]. split; [|by apply Hcal].
    exists v. split; [done|]. by apply policy_value_admits.
  - intros [(v & Hv & Ha) Hcal]. split; [|by intros r' [= <-]].
    exists (policy_value v). rewrite Hv. split; [done|]. by apply policy_value_admits.
Qed.

(** C7: Code that belongs to no registered module is denied: a call from
    an address whose 1 MiB block lies in the range of neither the binary,
    libc, ld.so nor a library with a policy map gets the signal of the
    enforcement mode. *)
Theorem foreign_code_denied :
  (forall v lo hi, module_range create_ok binary c v lo hi -> ~ touches lo hi (site_of / 2 ^ 20)) ->
  signals (sentinel_check g s t nr no_effects).2 = deny_signals g.
Proof.
  intros Hf. pose proof (load_policy_loaded _ _ _ _ _ _ _ _ Hload) as Hl.
  assert (block_module (vma_map s) site_of = None) as Hn.
  { destruct (block_module (vma_map s) site_of) as [v|] eqn:E; [|done].
    unfold block_module in E. apply (pl_blocks _ _ _ _ _ _ _ Hl) in E as (lo & hi & Hr & Ht).
    - rewrite Z.shiftr_div_pow2 in Ht by lia. by destruct (Hf _ _ _ Hr).
    - apply shiftr20_range, u64_range. }
  rewrite (check_denied g s t nr EVENT_BLOCK site_of 0 0 (PkUnknownVma (tid_of t) nr site_of) no_effects);
    [done|by eapply pl_wf|apply child_monitored|by left|by eapply denied_no_module].
Qed.

(** C24: Module ids stay in range: every block of the trie names a module
    below 35, within the 64 entries of the registry, and every library's
    block names a module that has its policy map. *)
Theorem module_ids_bounded a v :
  is_u64 a -> block_module (vma_map s) a = Some v ->
  MODULE_MAIN <= module_id v < MODULE_DYNAMIC_BASE + 32 /\
  Z.of_nat (aom_max (policy_registry initial_maps)) = 64 /\
  (MODULE_DYNAMIC_BASE <= module_id v -> is_Some (registry_lookup s (module_id v))).
Proof.
  intros Ha E. pose proof (load_policy_loaded _ _ _ _ _ _ _ _ Hload) as Hl.
  unfold block_module in E. apply (pl_blocks _ _ _ _ _ _ _ Hl) in E as (lo & hi & Hr & _);
    [|by apply shiftr20_range].
  cbn [policy_registry initial_maps]. rewrite aom_new_max.
  unfold MODULE_DYNAMIC_BASE, MODULE_MAIN in *.
  destruct Hr as [| | |k path lo hi Hk _]; cbn [module_id]; unfold MODULE_MAIN, MODULE_LIBC; [split_and!; lia..|].
  destruct (pl_libs _ _ _ _ _ _ _ Hl k path Hk) as (id & sites & _ & Hm).
  apply lookup_lt_Some in Hk. pose proof (policy_libs_bound create_ok (ch_maps c) (base_name binary)).
  unfold MODULE_DYNAMIC_BASE in *. split_and!; [lia..|]. intros _.
  by rewrite (module_rules_lookup _ _ _ _ Hm).
Qed.

End Enforced.

(** ** Reload *)

Section Reload.
Context {B : BpfOps} {L : BpfLaws B}.

Lemma on_map_id s mm : on_map s mm id = s.
Proof. unfold on_map, with_inner. rewrite alter_id by done. by destruct s. Qed.

Lemma on_map_twice s id f g : on_map (on_map s id f) id g = on_map s id (g ∘ f).
Proof. unfold on_map, with_inner. cbn. by rewrite alter_alter_eq. Qed.

(** A call from another module does not see changes of the main map. *)
Lemma check_other_module g s mm f t nr e :
  vma_wf (vma_map s) -> registry_ok s -> aom_lookup (policy_registry s) MODULE_MAIN = Some mm ->
  (forall ip m, pt_regs_ip t = Some ip -> block_module (vma_map s) (u64 (ip - 2)) = Some m ->
     module_id m <> MODULE_MAIN) ->
  sentinel_check g (on_map s mm f) t nr e = sentinel_check g s t nr e.
Proof.
  intros Hw [_ Hinj] Hmain Ht. unfold sentinel_check. cbn [target_pid_map cgroup_map fallback_policy vma_map cfi_policy on_map with_inner].
  destruct (hash_lookup (target_pid_map s) _); [|done]. destruct (negb _ && _); [done|].
  destruct (pt_regs_ip t) as [ip|] eqn:Hip; [|done]. cbn [prefixlen].
  rewrite vma_lookup_block by done. destruct (block_module _ _) as [m|] eqn:Hm; [|done].
  assert (registry_lookup (on_map s mm f) (module_id m) = registry_lookup s (module_id m)) as ->; [|done].
  unfold registry_lookup. cbn. destruct (aom_lookup (policy_registry s) (module_id m)) as [id|] eqn:Hid; [|done].
  cbn. apply lookup_alter_ne. intros <-. by destruct (Ht ip m eq_refl Hm (Hinj _ _ _ Hid Hmain)).
Qed.

Lemma hot_reload_rules env binary s s' mm m :
  hot_reload env binary mm s = Ok s' -> module_rules s MODULE_MAIN mm m ->
  exists pol, parse_sentinel_section env binary MAX_POLICY_ENTRIES = Ok pol /\
  (exists f, s' = on_map s mm f) /\
  module_rules s' MODULE_MAIN mm (if 0 <? ps_ret pol then main_entries pol m else m).
Proof.
  unfold hot_reload. intros H [H1 H2]. res_inv. rename x into pol. exists pol. split; [done|].
  destruct (0 <? ps_ret pol); res_inv; split.
  - by eexists.
  - split; [done|]. cbn. rewrite lookup_alter, decide_True by done. by rewrite H2.
  - exists id. by rewrite on_map_id.
  - done.
Qed.

(** C18: A reload only adds: a site the main policy admits keeps a rule,
    unchanged unless the reloaded entries name its offset; sites that are no
    longer in the binary's policy are not revoked; and every rule that is
    new or changed is one of the reloaded entries. *)
Theorem hot_reload_never_revokes env binary s s' mm m :
  hot_reload env binary mm s = Ok s' -> module_rules s MODULE_MAIN mm m ->
  exists pol m', parse_sentinel_section env binary MAX_POLICY_ENTRIES = Ok pol /\
  module_rules s' MODULE_MAIN mm m' /\
  (forall k, is_Some (hash_lookup m k) -> is_Some (hash_lookup m' k)) /\
  (forall k, entry_for_offset (ps_entries pol) (default 0 (ps_load_base pol)) k = None ->
     hash_lookup m' k = hash_lookup m k) /\
  (forall k v, hash_lookup m' k = Some v -> hash_lookup m k = Some v \/
     exists e, e ∈ ps_entries pol /\ k = u64 (e.1 - default 0 (ps_load_base pol)) /\ v = policy_value e.2).
Proof.
  intros H Hm. destruct (hot_reload_rules _ _ _ _ _ _ H Hm) as (pol & Hp & _ & Hr).
  exists pol. eexists. split; [done|]. split; [exact Hr|].
  destruct (0 <? ps_ret pol); [|by split_and!; eauto].
  unfold main_entries. rewrite load_entries_updates. split_and!.
  - intros k. apply updates_keep.
  - unfold entry_for_offset. intros k Hk%last_value_None. rewrite updates_other; [done|].
    intros Hin. apply Hk. revert Hin. by rewrite <- !list_fmap_compose.
  - intros k v [Hv|(e & [= -> ->] & He)%list_elem_of_fmap]%updates_sound; [by left|]. right. by exists e.
Qed.

End Reload.

(** ** A concrete load

    Process 4242 runs /bin/guarded, with libc, libm and ld.so mapped.  Its
    [.sentinel_cfi] requires the site at 0x401200 to be called from the
    function at 0x4011e0. *)
Module DemoLoad.

Definition text_at (a : Z) (code : list Z) : elf_scn :=
  DemoElf.plain_scn ".text" SHT_PROGBITS 6 a (Some (DemoElf.of_bytes code)).

Definition guarded : elf_file :=
  {| phdrs := phdrs DemoElf.victim; shdrstrndx_ok := true;
     scns := scns DemoElf.victim ++
       [ {| scn_name := Some ".symtab"; sh_type := SHT_SYMTAB; sh_flags := 0; sh_addr := 0;
            sh_size := 48; sh_entsize := 24; scn_data := Some (DemoElf.of_bytes []);
            scn_syms := [DemoElf.func "main" 0x401120 64; DemoElf.func "emit" 0x4011e0 48] |};
         DemoElf.plain_scn ".sentinel_cfi" SHT_PROGBITS 2 0x404000
           (Some (DemoElf.of_bytes (le_bytes 8 0x401200 ++ le_bytes 8 0x4011e0))) ] |}.

Definition image (code : list Z) : elf_file :=
  {| phdrs := []; shdrstrndx_ok := true; scns := [text_at 0x1000 code] |}.

Definition env : elf_env :=
  {| elf_version_ok := true;
     elf_image p :=
       if String.eqb p "/bin/guarded" then Opened guarded
       else if String.eqb p "/lib/libm.so.6" then Opened (image [0x90; 0x0f; 0x05])
       else if String.eqb p "/lib/ld-linux-x86-64.so.2" then Opened (image [0x0f; 0x05; 0xc3])
       else elf_image DemoElf.env p |}.

Definition maps : string := maps_text [
  {| vm_start := 0x400000; vm_end := 0x404000; vm_rest := "r-xp 00000000 08:01 11 /bin/guarded" |};
  {| vm_start := 0x7ffff7c00000; vm_end := 0x7ffff7c80000; vm_rest := "r-xp 00000000 08:01 12 /lib/libm.so.6" |};
  {| vm_start := 0x7ffff7e00000; vm_end := 0x7ffff7f80000; vm_rest := "r-xp 00000000 08:01 13 /lib/libc.so.6" |};
  {| vm_start := 0x7ffff8000000; vm_end := 0x7ffff8030000;
     vm_rest := "r-xp 00000000 08:01 14 /lib/ld-linux-x86-64.so.2" |} ].

Definition kid : child :=
  {| ch_pid := 4242; ch_maps := Some maps; ch_libc_base := get_libc_base (Some maps) |}.

Definition pol : parse_result :=
  {| ps_ret := 2; ps_entries := [(0x401136, 1); (0x401200, -1)];
     ps_text_base := Some 0x401000; ps_load_base := Some 0x400000 |}.

Definition outcome : res load_outcome :=
  load_policy env (fun _ => true) (fun _ => true) "/bin/guarded" pol kid initial_maps.

Definition maps_of (o : res load_outcome) : bpf_maps :=
  match o with Ok (Loaded s _) => s | _ => initial_maps end.
Definition map_of (o : res load_outcome) : Z := match o with Ok (Loaded _ mm) => mm | _ => 0 end.
Definition is_loaded (o : res load_outcome) : bool := match o with Ok (Loaded _ _) => true | _ => false end.

Lemma is_loaded_eq o : is_loaded o = true -> o = Ok (Loaded (maps_of o) (map_of o)).
Proof. by destruct o as [[]|]. Qed.

Definition final : bpf_maps := maps_of outcome.
Definition main_map : Z := map_of outcome.

Lemma loaded :
  load_policy env (fun _ => true) (fun _ => true) "/bin/guarded" pol kid initial_maps = Ok (Loaded final main_map).
Proof. apply is_loaded_eq. vm_compute. reflexivity. Qed.

Lemma final_main : module_rules final MODULE_MAIN main_map (main_entries pol (hash_new Z inner_policy_max_entries)).
Proof. exact (pl_main _ _ _ _ _ _ _ (load_policy_loaded _ _ _ _ _ _ _ _ loaded)). Qed.

Definition ok_or {A} (a : A) (r : res A) : A := match r with Ok x => x | Fault _ => a end.
Definition is_ok {A} (r : res A) : bool := match r with Ok _ => true | Fault _ => false end.

Lemma is_ok_eq {A} (a : A) r : is_ok r = true -> r = Ok (ok_or a r).
Proof. by destruct r. Qed.

Definition reloaded : bpf_maps := ok_or final (hot_reload env "/bin/guarded" main_map final).

Lemma reload : hot_reload env "/bin/guarded" main_map final = Ok reloaded.
Proof. apply is_ok_eq. vm_compute. reflexivity. Qed.

(** The child at instruction pointer [ip], called from [caller]. *)
Definition task (ip caller : Z) : hook_ctx :=
  {| pid_tgid := 4242 * 2 ^ 32 + 4242; cgroup_id := 1; pt_regs_ip := Some ip;
     stack_ret := 32; stack := [ip; caller; 0; 0]; ktime := 99; ringbuf_has_room := true |}.

Definition sites (name : string) (max : Z) : list Z :=
  match resolve_libc_syscall_sites env "/lib/libc.so.6" name max with Ok l => l | _ => [] end.

Lemma libc_answers : libc_sites env "/lib/libc.so.6" (fun n => sites n 8) (fun n => sites n 4) [0x1010; 0x1018].
Proof.
  split.
  - intros p Hp. apply list_elem_of_In in Hp. cbn in Hp.
    repeat (destruct Hp as [<-|Hp]; [vm_compute; reflexivity|]). destruct Hp.
  - intros p Hp. apply list_elem_of_In in Hp. cbn in Hp.
    repeat (destruct Hp as [<-|Hp]; [vm_compute; reflexivity|]). destruct Hp.
  - vm_compute. reflexivity.
Qed.

Lemma guarded_counted : Forall counted (symtabs (elf_scns env "/bin/guarded")).
Proof. constructor; [|constructor]. exists 2. split; reflexivity. Qed.

Lemma no_cfi_at off : hash_lookup (cfi_policy final) off = None ->
  forall t base, cfi_admits final t base off.
Proof. intros E t base r. by rewrite E. Qed.

End DemoLoad.

(** [write] from its bound site passes; [read] from there is killed. *)
Lemma main_binary_enforced_witness :
  signals (sentinel_check default_config DemoLoad.final (DemoLoad.task 0x401138 0) 1 no_effects).2 = [] /\
  signals (sentinel_check default_config DemoLoad.final (DemoLoad.task 0x401138 0) 0 no_effects).2 = [9].
Proof.
  split.
  - apply (main_binary_enforced _ _ _ _ _ _ _ _ DemoLoad.loaded default_config (DemoLoad.task 0x401138 0) 1 0x401138
      eq_refl eq_refl eq_refl 0x400000).
    + cbn. unfold inner_policy_max_entries. lia.
    + vm_compute. reflexivity.
    + split; [exists 1; split; vm_compute; reflexivity|]. apply DemoLoad.no_cfi_at. vm_compute. reflexivity.
  - apply (main_binary_enforced _ _ _ _ _ _ _ _ DemoLoad.loaded default_config (DemoLoad.task 0x401138 0) 0 0x401138
      eq_refl eq_refl eq_refl 0x400000).
    + cbn. unfold inner_policy_max_entries. lia.
    + vm_compute. reflexivity.
    + intros [(v & Hv & Hn) _]. vm_compute in Hv. injection Hv as <-. by discriminate Hn.
Defined.

(** A site of ld.so, and one that is neither libc's nor ld.so's. *)
Lemma libc_enforced_witness :
  signals (sentinel_check default_config DemoLoad.final (DemoLoad.task 0x7ffff8001002 0) 9 no_effects).2 = [] /\
  signals (sentinel_check default_config DemoLoad.final (DemoLoad.task 0x7ffff8001004 0) 9 no_effects).2 = [9].
Proof.
  split.
  - apply (libc_enforced _ _ _ _ _ _ _ _ DemoLoad.loaded default_config (DemoLoad.task 0x7ffff8001002 0) 9 0x7ffff8001002
      eq_refl eq_refl eq_refl 0x7ffff7e00000 "/lib/libc.so.6" _ _ _ [0x201000]
      ltac:(vm_compute; discriminate) eq_refl eq_refl DemoLoad.libc_answers).
    + vm_compute. reflexivity.
    + vm_compute. reflexivity.
    + split; [|apply DemoLoad.no_cfi_at; vm_compute; reflexivity]. vm_compute. left.
  - apply (libc_enforced _ _ _ _ _ _ _ _ DemoLoad.loaded default_config (DemoLoad.task 0x7ffff8001004 0) 9 0x7ffff8001004
      eq_refl eq_refl eq_refl 0x7ffff7e00000 "/lib/libc.so.6" _ _ _ [0x201000]
      ltac:(vm_compute; discriminate) eq_refl eq_refl DemoLoad.libc_answers).
    + vm_compute. reflexivity.
    + vm_compute. reflexivity.
    + intros [H _]. vm_compute in H. apply list_elem_of_In in H. cbn in H. destruct H as [H|[]]. discriminate H.
Defined.

Lemma library_enforced_witness :
  signals (sentinel_check default_config DemoLoad.final (DemoLoad.task 0x7ffff7c01003 0) 0 no_effects).2 = [].
Proof.
  apply (library_enforced _ _ _ _ _ _ _ _ DemoLoad.loaded default_config (DemoLoad.task 0x7ffff7c01003 0) 0 0x7ffff7c01003
    eq_refl eq_refl eq_refl 0x7ffff7c00000 0 "/lib/libm.so.6" [0x1001]).
  - vm_compute. reflexivity.
  - vm_compute. reflexivity.
  - vm_compute. reflexivity.
  - split; [|apply DemoLoad.no_cfi_at; vm_compute; reflexivity]. apply list_elem_of_In. vm_compute. by left.
Defined.

(** Called from inside the function the site passes, called from outside it
    does not. *)
Lemma cfi_enforced_witness :
  signals (sentinel_check default_config DemoLoad.final (DemoLoad.task 0x401202 0x4011f0) 0 no_effects).2 = [] /\
  signals (sentinel_check default_config DemoLoad.final (DemoLoad.task 0x401202 0x401300) 0 no_effects).2 = [9].
Proof.
  split.
  - apply (cfi_enforced _ _ _ _ _ _ _ _ DemoLoad.loaded default_config (DemoLoad.task 0x401202 0x4011f0) 0 0x401202
      eq_refl eq_refl eq_refl 0x400000 [(0x401200, 0x4011e0)] {| start := 0x11e0; end_ := 0x1210 |}).
    + cbn. unfold inner_policy_max_entries. lia.
    + exact DemoLoad.guarded_counted.
    + vm_compute. reflexivity.
    + cbn. lia.
    + vm_compute. reflexivity.
    + vm_compute. reflexivity.
    + split; [exists (-1); split; [vm_compute; reflexivity|lia]|]. vm_compute. by split_and!.
  - apply (cfi_enforced _ _ _ _ _ _ _ _ DemoLoad.loaded default_config (DemoLoad.task 0x401202 0x401300) 0 0x401202
      eq_refl eq_refl eq_refl 0x400000 [(0x401200, 0x4011e0)] {| start := 0x11e0; end_ := 0x1210 |}).
    + cbn. unfold inner_policy_max_entries. lia.
    + exact DemoLoad.guarded_counted.
    + vm_compute. reflexivity.
    + cbn. lia.
    + vm_compute. reflexivity.
    + vm_compute. reflexivity.
    + intros [_ (_ & _ & H)]. vm_compute in H. by destruct H.
Defined.

(** A call from the stack. *)
Lemma foreign_code_denied_witness :
  signals (sentinel_check default_config DemoLoad.final (DemoLoad.task 0x7ffffffde002 0) 59 no_effects).2 = [9].
Proof.
  apply (foreign_code_denied _ _ _ _ _ _ _ _ DemoLoad.loaded default_config (DemoLoad.task 0x7ffffffde002 0) 59
    0x7ffffffde002 eq_refl eq_refl eq_refl).
  intros v lo hi Hr [_ Ht]. revert Ht. apply Z.le_ngt. destruct Hr as [lo hi Hb|lo hi _ Hb|lo hi Hb|k path lo hi Hk Hb].
  - vm_compute in Hb. injection Hb as <- <-. vm_compute. discriminate.
  - vm_compute in Hb. injection Hb as <- <-. vm_compute. discriminate.
  - vm_compute in Hb. injection Hb as <- <-. vm_compute. discriminate.
  - assert (policy_libs (fun _ => true) (ch_maps DemoLoad.kid) (base_name "/bin/guarded") = ["/lib/libm.so.6"]) as E
      by (vm_compute; reflexivity).
    rewrite E in Hk. destruct k as [|k]; [|discriminate Hk]. injection Hk as <-.
    vm_compute in Hb. injection Hb as <- <-. vm_compute. discriminate.
Defined.

Lemma module_ids_bounded_witness :
  MODULE_MAIN <= 3 < MODULE_DYNAMIC_BASE + 32 /\ is_Some (registry_lookup DemoLoad.final 3).
Proof.
  destruct (module_ids_bounded _ _ _ _ _ _ _ _ DemoLoad.loaded 0x7ffff7c01001
    {| module_id := 3; base_addr := 0x7ffff7c00000 |}) as (H1 & _ & H2).
  - split; vm_compute; congruence.
  - vm_compute. reflexivity.
  - split; [exact H1|]. apply H2. vm_compute. congruence.
Defined.

Lemma hot_reload_never_revokes_witness :
  exists m', module_rules DemoLoad.reloaded MODULE_MAIN DemoLoad.main_map m' /\ is_Some (hash_lookup m' 0x1136).
Proof.
  destruct (hot_reload_never_revokes DemoLoad.env "/bin/guarded" DemoLoad.final DemoLoad.reloaded DemoLoad.main_map
    (main_entries DemoLoad.pol (hash_new Z inner_policy_max_entries)) DemoLoad.reload DemoLoad.final_main)
    as (pol & m' & _ & Hm & Hk & _).
  exists m'. split; [exact Hm|]. apply Hk. vm_compute. eauto.
Defined.
