(* ===== verification/LoaderMain.v ===== *)
(** * src/runtime/loader.c: command line, configuration, environment and output

    What main does around the policy: its options, the usage text, the
    constants it sets in the enforcer, the environment it gives the child,
    and the audit lines it prints. *)
From S2P Require Import Prelude Shared CLib Enforcer.

(** ** Command line *)

Inductive cli :=
| CliHelp
| CliVersion
| CliNoBinary
| CliRun (audit : bool) (mode : Z) (child_argv : list string).

(** The options before the binary; [child_argv] is [&argv[arg_start]]. *)
Fixpoint parse_cli (audit : bool) (mode : Z) (args : list string) : cli :=
  match args with
  | [] => CliNoBinary
  | a :: rest =>
      if strcmp_eq a "--help" || strcmp_eq a "-h" then CliHelp
      else if strcmp_eq a "--version" || strcmp_eq a "-v" then CliVersion
      else if strcmp_eq a "--audit" then parse_cli true mode rest
      else if strcmp_eq a "--permissive" then parse_cli true ENFORCE_PERMISSIVE rest
      else if strcmp_eq a "--enforce=kill" then parse_cli audit ENFORCE_KILL rest
      else if strcmp_eq a "--enforce=permissive" then parse_cli true ENFORCE_PERMISSIVE rest
      else if strcmp_eq a "--enforce=term" then parse_cli audit ENFORCE_TERM rest
      else CliRun audit mode args
  end.

Definition cli_of (args : list string) : cli := parse_cli false ENFORCE_KILL args.

(** [g_skel->rodata->..]: the loader sets two of the enforcer's constants. *)
Definition rodata (audit : bool) (mode : Z) : config :=
  {| audit_mode := if audit then 1 else 0; fexit_mode := fexit_mode default_config;
     enforce_mode := mode; learn_mode := learn_mode default_config;
     shadow_cfi := shadow_cfi default_config; system_wide := system_wide default_config;
     cgroup_filter := cgroup_filter default_config |}.

(** [print_usage]. *)
Definition usage_options : string :=
  cat [ "Options:"; nl;
        "  --help                Show this help message"; nl;
        "  --version             Show version"; nl;
        "  --audit               Enable real-time audit event printing"; nl;
        "  --fexit               Enable post-syscall return value auditing"; nl;
        "  --permissive          Log violations but do not kill (audit-only)"; nl;
        "  --enforce=MODE        Enforcement: kill (default), permissive, term"; nl;
        "  --watch-dlopen        Monitor for dlopen() and extend policy at runtime"; nl;
        "  --cgroup=PATH         Restrict enforcement to processes in this cgroup v2"; nl;
        "  --audit-format=FMT    Output format: text (default), json"; nl;
        "  --audit-target=TGT    Output target: stdout (default), syslog"; nl;
        "  --learn               Learning mode: record syscall profile, generate policy"; nl;
        "  --shadow-cfi          Enable shadow stack CFI validation in kernel"; nl;
        "  --system-wide         Enforce fallback policy for ALL processes"; nl;
        "  --surface             Print kernel attack surface report and exit"; nl;
        "  --tpm                 Use TPM2-backed key for signature verification"; nl;
        nl; "Enforcement Modes:"; nl;
        "  kill        SIGKILL on violation (default, fail-closed)"; nl;
        "  permissive  Log violation but allow syscall (for policy development)"; nl;
        "  term        SIGTERM on violation (allows graceful shutdown handlers)"; nl ].

Definition print_usage (prog : string) : string :=
  cat [ "Sentinel-CC Loader v"; SENTINEL_VERSION; nl; nl;
        "Usage: "; prog; " [options] <binary> [args...]"; nl; nl;
        usage_options; nl; "Example:"; nl;
        "  sudo "; prog; " ./victim"; nl;
        "  sudo "; prog; " --audit --permissive ./victim_phase2"; nl;
        "  sudo "; prog; " --audit --watch-dlopen --enforce=term ./app"; nl;
        "  sudo "; prog; " --audit --audit-format=json --audit-target=syslog ./app"; nl ].

(** What main prints and returns when it does not get to the binary:
    standard output, standard error and the exit code. *)
Definition cli_output (prog : string) (c : cli) : option (string * string * Z) :=
  match c with
  | CliHelp => Some (print_usage prog, EmptyString, 0)
  | CliVersion => Some (cat ["Sentinel-CC Loader v"; SENTINEL_VERSION; nl], EmptyString, 0)
  | CliNoBinary => Some (EmptyString, cat ["[FATAL] No binary specified. Use --help for usage."; nl], 1)
  | CliRun _ _ _ => None
  end.

(** The options [print_usage] lists that take the place of the binary when
    they are given. *)
Definition usage_only_flags : list string :=
  [ "--fexit"; "--watch-dlopen"; "--cgroup=PATH"; "--audit-format=json"; "--audit-target=syslog";
    "--learn"; "--shadow-cfi"; "--system-wide"; "--surface"; "--tpm" ].

(** ** The child's environment

    [environ] is a list of entries NAME=value. *)

Definition sets (name entry : string) : bool := String.prefix (String.append name "=") entry.

Definition getenv (name : string) (environ : list string) : option string :=
  (fun e => String.substring (String.length name + 1) (String.length e) e)
    <$> List.find (sets name) environ.

Definition unsetenv (name : string) (environ : list string) : list string :=
  List.filter (fun e => negb (sets name e)) environ.

Definition sanitize_env (environ : list string) : list string :=
  unsetenv "LD_AUDIT" (unsetenv "LD_LIBRARY_PATH" (unsetenv "LD_PRELOAD" environ)).

(** The warnings main prints before the fork. *)
Definition env_warning (environ : list string) (name : string) : string :=
  match getenv name environ with
  | Some (String c v) =>
      cat ["[WARN] "; name; " detected: "; String c v; " (will be sanitized)"; nl]
  | _ => EmptyString
  end.

Definition env_warnings (environ : list string) : string :=
  cat [env_warning environ "LD_PRELOAD"; env_warning environ "LD_AUDIT";
       env_warning environ "LD_LIBRARY_PATH"].

(** ** Audit events *)

Definition action_str (a : Z) : string :=
  if a =? EVENT_ALLOW then "ALLOW"
  else if a =? EVENT_BLOCK then "BLOCK"
  else if a =? EVENT_CFI_OK then "ALLOW+CFI"
  else if a =? EVENT_CFI_FAIL then "CFI-FAIL"
  else if a =? EVENT_NR_MISMATCH then "NR-MISMATCH"
  else if a =? EVENT_FORK_TRACK then "FORK-TRACK"
  else "UNKNOWN".

(** What is printed for a record of [data_sz] bytes. *)
Definition audit_event_handler (evt : audit_event) (data_sz : Z) : string :=
  if data_sz <? sizeof audit_event_members then EmptyString
  else cat [ "["; action_str (action evt); "] TID="; fmt_zu (ev_tid evt); " SYS="; fmt_zu (ev_syscall_nr evt);
             " Off=0x"; fmt_lx (ev_offset evt); " Mod="; fmt_zu (ev_module_id evt); nl ].
