(* ===== verification/LoaderMainProps.v ===== *)
(** * Properties of the command line and the child's environment *)
From S2P Require Import Prelude Shared CLib Enforcer LoaderMain.
From Stdlib Require Import Ascii.

(** ** Command line *)

Definition mode_options : list string :=
  ["--audit"; "--permissive"; "--enforce=kill"; "--enforce=permissive"; "--enforce=term"].
Definition info_options : list string := ["--help"; "-h"; "--version"; "-v"].

(** Auditing is on when an option asks for it or for permissive mode. *)
Definition audits (o : string) : bool :=
  String.eqb o "--audit" || String.eqb o "--permissive" || String.eqb o "--enforce=permissive".

(** The mode an option selects, if it selects one. *)
Definition selects (o : string) : option Z :=
  if String.eqb o "--permissive" || String.eqb o "--enforce=permissive" then Some ENFORCE_PERMISSIVE
  else if String.eqb o "--enforce=kill" then Some ENFORCE_KILL
  else if String.eqb o "--enforce=term" then Some ENFORCE_TERM
  else None.

Definition mode_after (mode : Z) (opts : list string) : Z := foldl (fun m o => default m (selects o)) mode opts.
Definition audit_after (audit : bool) (opts : list string) : bool := audit || existsb audits opts.

Lemma parse_cli_option audit mode o args :
  o ∈ mode_options -> parse_cli audit mode (o :: args) = parse_cli (audit || audits o) (default mode (selects o)) args.
Proof.
  intros H. unfold mode_options in H.
  repeat (apply elem_of_cons in H as [->|H]; [cbn; by rewrite ?orb_true_r, ?orb_false_r|]). by apply elem_of_nil in H.
Qed.

Lemma parse_cli_options audit mode opts args :
  Forall (fun o => o ∈ mode_options) opts ->
  parse_cli audit mode (opts ++ args) = parse_cli (audit_after audit opts) (mode_after mode opts) args.
Proof.
  intros H. revert audit mode. induction H as [|o opts Ho _ IH]; intros audit mode.
  - unfold audit_after. cbn. by rewrite orb_false_r.
  - rewrite <- app_comm_cons, parse_cli_option, IH by done. f_equal. unfold audit_after. cbn. by rewrite orb_assoc.
Qed.

Lemma parse_cli_binary audit mode b args :
  b ∉ info_options -> b ∉ mode_options -> parse_cli audit mode (b :: args) = CliRun audit mode (b :: args).
Proof.
  unfold info_options, mode_options. rewrite !not_elem_of_cons. intros H1 H2. destruct_and?.
  cbn [parse_cli]. unfold strcmp_eq. by rewrite !(proj2 (String.eqb_neq b _)) by done.
Qed.

(** Options, then something that is no mode option. *)
Lemma split_options args :
  exists opts rest, args = opts ++ rest /\ Forall (fun o => o ∈ mode_options) opts /\
    match rest with [] => True | b :: _ => b ∉ mode_options end.
Proof.
  induction args as [|a args (opts & rest & -> & Ho & Hr)]; [by exists [], []|].
  destruct (decide (a ∈ mode_options)); [|by exists [], (a :: opts ++ rest)].
  exists (a :: opts), rest. split_and!; [done|by constructor|done].
Qed.

(** C33: The command line selects exactly what its options say: a run starts
    when, after options that each set auditing or one of the three modes,
    comes a word that is no option; that word and what follows are the
    child's arguments, the last mode option decides the mode (kill if there
    is none), and auditing is on when some option asks for it or for
    permissive mode. *)
Theorem cli_exact args audit mode child_argv :
  cli_of args = CliRun audit mode child_argv <->
  exists opts b rest, args = opts ++ child_argv /\ child_argv = b :: rest /\
    Forall (fun o => o ∈ mode_options) opts /\ (b ∉ info_options) /\ (b ∉ mode_options) /\
    audit = existsb audits opts /\ mode = mode_after ENFORCE_KILL opts.
Proof.
  unfold cli_of. split.
  - intros H. destruct (split_options args) as (opts & rest & -> & Ho & Hr).
    rewrite parse_cli_options in H by done. destruct rest as [|b rest]; [done|].
    destruct (decide (b ∈ info_options)) as [Hb|Hb].
    { unfold info_options in Hb. repeat (apply elem_of_cons in Hb as [->|Hb]; [done|]). by apply elem_of_nil in Hb. }
    rewrite parse_cli_binary in H by done. injection H as <- <- <-. by exists opts, b, rest.
  - intros (opts & b & rest & -> & -> & Ho & H1 & H2 & -> & ->).
    rewrite parse_cli_options by done. by apply parse_cli_binary.
Qed.

(** Permissive mode is never selected without auditing. *)
Lemma permissive_audits opts :
  mode_after ENFORCE_KILL opts = ENFORCE_PERMISSIVE -> existsb audits opts = true.
Proof.
  induction opts as [|o opts IH] using rev_ind; [done|]. unfold mode_after in *. rewrite foldl_snoc, existsb_app. cbn.
  rewrite orb_false_r. unfold selects, audits at 2.
  destruct (String.eqb o "--permissive"), (String.eqb o "--enforce=permissive"); cbn; rewrite ?orb_true_r; try done.
  destruct (String.eqb o "--enforce=kill"); [done|]. destruct (String.eqb o "--enforce=term"); [done|].
  cbn. intros H. by rewrite IH.
Qed.

(** ** Usage *)

Lemma strstr_append_l a s n : strstr s n = true -> strstr (String.append a s) n = true.
Proof.
  intros H. induction a as [|c a IH]; [done|]. rewrite append_cons. cbn [strstr]. by rewrite IH, orb_true_r.
Qed.

Lemma prefix_append n s t : String.prefix n s = true -> String.prefix n (String.append s t) = true.
Proof.
  revert n. induction s as [|c s IH]; intros [|d n] H; [by destruct t|by cbn in H|done|].
  rewrite append_cons. cbn in *. destruct (Ascii.ascii_dec d c); [by apply IH|done].
Qed.

Lemma strstr_append_r s t n : strstr s n = true -> strstr (String.append s t) n = true.
Proof.
  induction s as [|c s IH]; intros H.
  - cbn in H. rewrite orb_false_r in H. destruct n; [|done]. by destruct t.
  - cbn [strstr] in H. rewrite append_cons. cbn [strstr]. apply orb_true_iff in H as [H|H]; apply orb_true_iff.
    + left. rewrite <- append_cons. by apply prefix_append.
    + right. by apply IH.
Qed.

(** An option as the usage text lists it: up to the value it takes. *)
Definition listed (prog o : string) : Prop := strstr (print_usage prog) (String.append "  " o) = true.

Definition usage_stems : list string :=
  [ "--fexit"; "--watch-dlopen"; "--cgroup="; "--audit-format="; "--audit-target="; "--learn"; "--shadow-cfi";
    "--system-wide"; "--surface"; "--tpm" ].

Lemma usage_lists prog o : strstr usage_options (String.append "  " o) = true -> listed prog o.
Proof.
  intros H. unfold listed, print_usage, cat.
  do 9 (cbn [String.concat]; apply strstr_append_l; rewrite append_nil_l).
  cbn [String.concat]. apply strstr_append_r. exact H.
Qed.

(** The options that are listed with [--help] and those that main knows. *)
Theorem usage_flags_not_parsed prog flag rest :
  flag ∈ usage_only_flags ->
  cli_of (flag :: rest) = CliRun false ENFORCE_KILL (flag :: rest) /\
  exists stem, stem ∈ usage_stems /\ String.prefix stem flag = true /\ listed prog stem.
Proof.
  intros H. split.
  - unfold usage_only_flags in H.
    repeat (apply elem_of_cons in H as [->|H]; [done|]). by apply elem_of_nil in H.
  - assert (Forall (fun f => exists stem, stem ∈ usage_stems /\ String.prefix stem f = true /\
      strstr usage_options (String.append "  " stem) = true) usage_only_flags) as Hf.
    { unfold usage_only_flags. 
      repeat (apply Forall_cons; split; [match goal with |- exists _, _ /\ String.prefix _ ?f = _ /\ _ =>
        first [exists f; split_and!; [apply list_elem_of_In; cbn; tauto|reflexivity|vm_compute; reflexivity]
              |idtac] end|]); [..|apply Forall_nil].
      - exists "--cgroup=". split_and!; [apply list_elem_of_In; cbn; tauto|reflexivity|vm_compute; reflexivity].
      - exists "--audit-format=". split_and!; [apply list_elem_of_In; cbn; tauto|reflexivity|vm_compute; reflexivity].
      - exists "--audit-target=". split_and!; [apply list_elem_of_In; cbn; tauto|reflexivity|vm_compute; reflexivity].
      - done. }
    rewrite Forall_forall in Hf. destruct (Hf flag H) as (stem & H1 & H2 & H3). exists stem.
    split_and!; [done|done|by apply usage_lists].
Qed.

(** ** Environment *)

Definition dangerous : list string := ["LD_PRELOAD"; "LD_LIBRARY_PATH"; "LD_AUDIT"].

Lemma find_filter {A} (f g : A -> bool) l :
  (forall a, f a = true -> g a = true) -> List.find f (List.filter g l) = List.find f l.
Proof.
  intros H. induction l as [|a l IH]; [done|]. cbn. destruct (g a) eqn:Eg; cbn; destruct (f a) eqn:Ef; try done.
  by rewrite (H a Ef) in Eg.
Qed.

Lemma sanitize_filter environ :
  sanitize_env environ = List.filter (fun e => negb (existsb (fun n => sets n e) dangerous)) environ.
Proof.
  unfold sanitize_env, unsetenv, dangerous. induction environ as [|e l IH]; [done|]. cbn.
  destruct (sets "LD_PRELOAD" e) eqn:E1; cbn; [done|].
  destruct (sets "LD_LIBRARY_PATH" e) eqn:E2; cbn; [done|]. destruct (sets "LD_AUDIT" e) eqn:E3; cbn; [done|]. by f_equal.
Qed.

Lemma prefix_cons a b s t :
  String.prefix (String a s) (String b t) = true -> a = b /\ String.prefix s t = true.
Proof. cbn [String.prefix]. by destruct (Ascii.ascii_dec a b). Qed.

(** Names without an equals sign: an entry sets one name only. *)
Lemma sets_unique n m e :
  strchr n "="%char = None -> strchr m "="%char = None -> sets n e = true -> sets m e = true -> n = m.
Proof.
  unfold sets. revert m e. induction n as [|c n IH]; intros [|d m] [|x e] Hn Hm H1 H2; try done;
    rewrite ?append_nil_l, ?append_cons in H1; rewrite ?append_nil_l, ?append_cons in H2;
    apply prefix_cons in H1 as [E1 H1]; apply prefix_cons in H2 as [E2 H2]; subst; cbn in Hn, Hm; try done.
  destruct (Ascii.eqb _ "="%char); [done|]. f_equal. by eapply IH.
Qed.

(** C34: The child's environment: none of LD_PRELOAD, LD_LIBRARY_PATH and
    LD_AUDIT is set in it, whatever entries the loader inherited and however
    often; every other variable has the value it had, and the remaining
    entries keep their order. *)
Theorem child_env_sanitized environ :
  (forall n, n ∈ dangerous -> getenv n (sanitize_env environ) = None) /\
  (forall n, n ∉ dangerous -> strchr n "="%char = None -> getenv n (sanitize_env environ) = getenv n environ) /\
  sublist (sanitize_env environ) environ.
Proof.
  rewrite sanitize_filter. split_and!.
  - intros n Hn. unfold getenv. destruct (List.find _ _) as [e|] eqn:E; [|done].
    apply find_some in E as [[_ He]%filter_In Hs]. apply negb_true_iff in He. rewrite <- not_true_iff_false in He.
    destruct He. apply existsb_exists. exists n. split; [by apply list_elem_of_In|done].
  - intros n Hn Hc. unfold getenv. f_equal. apply find_filter. intros e He. apply negb_true_iff.
    destruct (existsb _ dangerous) eqn:E; [|done]. apply existsb_exists in E as (m & Hm & Hs).
    apply list_elem_of_In in Hm. destruct Hn. rewrite (sets_unique n m e); [done|done| |done|done].
    unfold dangerous in Hm. repeat (apply elem_of_cons in Hm as [->|Hm]; [done|]). by apply elem_of_nil in Hm.
  - induction environ as [|e l IH]; [done|]. cbn. destruct (negb _); by constructor.
Qed.
