(* ===== verification/LifeCycle.v ===== *)
(** * src/runtime/loader.c: the life cycle of the loader

    The control flow of main from opening the binary to the last return, as a
    step relation over the objects it owns: the BPF skeleton, the child, the
    ring buffer and the main policy map's descriptor.  What a kernel or
    library call answers is a choice of the step.  Signals are steps of their
    own, taken between any two steps of main; a handler runs to its end.
    Setting up the policy is one step here ([policy_end] is how
    [load_policy] ends). *)
From S2P Require Import Prelude Shared.

(** Where main is: the call it makes next. *)
Inductive point : Set :=
| POpenBinary
| PParse
| PSkelOpen
| PSkelLoad
| PSkelAttach
| PRing
| PFork
| PExecTrap
| PWaitLibc
| PPolicy
| PDetach
| PPoll
| PWait
| PCleanup
| PClearSkel
| PReturn (code : Z)
| PExited (code : Z).

#[export] Instance point_eq_dec : EqDecision point.
Proof. solve_decision. Defined.

(** [g_skel]: NULL, a live object, or a pointer to one that was destroyed. *)
Inductive skel_state : Set := SkelNull | SkelLive | SkelDangling.

Inductive child_state : Set :=
| NoChild
| Running
| Stopped
| Dead.

#[export] Instance child_state_eq_dec : EqDecision child_state.
Proof. solve_decision. Defined.

Inductive fd_state : Set := FdUnset | FdInvalid | FdOpen | FdClosed.

Record life := {
  pc : point;
  g_skel : skel_state;
  attached : bool;
  g_child : child_state;
  tracked : bool;
  ring : bool;
  main_fd : fd_state;
  g_reload : bool;
  sent_term : bool;
  double_free : bool;
  bad_close : bool;
}.

Definition start_life : life :=
  {| pc := POpenBinary; g_skel := SkelNull; attached := false; g_child := NoChild; tracked := false;
     ring := false; main_fd := FdUnset; g_reload := false; sent_term := false; double_free := false;
     bad_close := false |}.

Definition goto (s : life) (p : point) : life :=
  {| pc := p; g_skel := g_skel s; attached := attached s; g_child := g_child s; tracked := tracked s;
     ring := ring s; main_fd := main_fd s; g_reload := g_reload s; sent_term := sent_term s;
     double_free := double_free s; bad_close := bad_close s |}.
Definition set_skel (s : life) (k : skel_state) (a : bool) : life :=
  {| pc := pc s; g_skel := k; attached := a; g_child := g_child s; tracked := tracked s;
     ring := ring s; main_fd := main_fd s; g_reload := g_reload s; sent_term := sent_term s;
     double_free := double_free s; bad_close := bad_close s |}.
Definition set_child (s : life) (c : child_state) : life :=
  {| pc := pc s; g_skel := g_skel s; attached := attached s; g_child := c; tracked := tracked s;
     ring := ring s; main_fd := main_fd s; g_reload := g_reload s; sent_term := sent_term s;
     double_free := double_free s; bad_close := bad_close s |}.
Definition set_ring (s : life) (b : bool) : life :=
  {| pc := pc s; g_skel := g_skel s; attached := attached s; g_child := g_child s; tracked := tracked s;
     ring := b; main_fd := main_fd s; g_reload := g_reload s; sent_term := sent_term s;
     double_free := double_free s; bad_close := bad_close s |}.
Definition set_fd (s : life) (f : fd_state) : life :=
  {| pc := pc s; g_skel := g_skel s; attached := attached s; g_child := g_child s; tracked := tracked s;
     ring := ring s; main_fd := f; g_reload := g_reload s; sent_term := sent_term s;
     double_free := double_free s; bad_close := bad_close s |}.
Definition set_tracked (s : life) : life :=
  {| pc := pc s; g_skel := g_skel s; attached := attached s; g_child := g_child s; tracked := true;
     ring := ring s; main_fd := main_fd s; g_reload := g_reload s; sent_term := sent_term s;
     double_free := double_free s; bad_close := bad_close s |}.
Definition set_reload (s : life) (b : bool) : life :=
  {| pc := pc s; g_skel := g_skel s; attached := attached s; g_child := g_child s; tracked := tracked s;
     ring := ring s; main_fd := main_fd s; g_reload := b; sent_term := sent_term s;
     double_free := double_free s; bad_close := bad_close s |}.
Definition set_sent (s : life) : life :=
  {| pc := pc s; g_skel := g_skel s; attached := attached s; g_child := g_child s; tracked := tracked s;
     ring := ring s; main_fd := main_fd s; g_reload := g_reload s; sent_term := true;
     double_free := double_free s; bad_close := bad_close s |}.

(** [sentinel_bpf__destroy(g_skel)]: detaches the programs and frees the
    object; the pointer stays. *)
Definition destroy (s : life) : life :=
  match g_skel s with
  | SkelNull => s
  | SkelLive => set_skel s SkelDangling false
  | SkelDangling =>
      {| pc := pc s; g_skel := SkelDangling; attached := attached s; g_child := g_child s;
         tracked := tracked s; ring := ring s; main_fd := main_fd s; g_reload := g_reload s;
         sent_term := sent_term s; double_free := true; bad_close := bad_close s |}
  end.

(** [close(main_map_fd)]. *)
Definition close_main (s : life) : life :=
  match main_fd s with
  | FdOpen => set_fd s FdClosed
  | _ =>
      {| pc := pc s; g_skel := g_skel s; attached := attached s; g_child := g_child s;
         tracked := tracked s; ring := ring s; main_fd := main_fd s; g_reload := g_reload s;
         sent_term := sent_term s; double_free := double_free s; bad_close := true |}
  end.

(** How setting up the policy ends: the five exits of steps 8 to 12. *)
Inductive policy_end : Set :=
| EndLoaded
| EndNoMap
| EndNoRegister
| EndNoLibc
| EndNoTrack.

Definition after_policy (s : life) (e : policy_end) : life :=
  match e with
  | EndLoaded => goto (set_tracked (set_fd s FdOpen)) PDetach
  | EndNoMap => goto (set_fd s FdInvalid) PCleanup
  | EndNoRegister => goto (close_main (set_fd s FdOpen)) PCleanup
  | EndNoLibc => goto (set_fd s FdOpen) PCleanup
  | EndNoTrack => goto (set_child (set_fd s FdOpen) Dead) PCleanup
  end.

(** A tracee that is detached runs on. *)
Definition release (s : life) : life :=
  set_child s (match g_child s with Stopped => Running | c => c end).

(** [ptrace(PTRACE_DETACH, ..)], then the loop of the ring buffer or the
    plain wait. *)
Definition detach (s : life) : life := goto (release s) (if ring s then PPoll else PWait).

(** The loader is gone.  It never sets PTRACE_O_EXITKILL, so the kernel
    detaches and restarts a child it still traces. *)
Definition exit_process (s : life) (code : Z) : life := goto (release s) (PExited code).

(** [waitpid(.., WNOHANG)] reports the child's end: the loop is left and the
    ring buffer freed. *)
Definition poll_reaps (s : life) : life := goto (set_ring (set_child (set_reload s false) Dead) false) PCleanup.

(** [waitpid] without a ring buffer. *)
Definition wait_returns (s : life) : life := goto (set_child s Dead) PCleanup.

(** The label [cleanup], up to the destruction of the skeleton. *)
Definition cleanup (s : life) : life := goto (destroy (close_main s)) PClearSkel.

(** One step of main; [audit] is [audit_mode].  A child that was reaped
    before is not reported again, so [PPoll] only ends for one that was
    not. *)
Inductive main_step (audit : bool) (s : life) : life -> Prop :=
| step_open : pc s = POpenBinary -> main_step audit s (goto s PParse)
| step_open_fails : pc s = POpenBinary -> main_step audit s (goto s (PExited 1))
| step_parse : pc s = PParse -> main_step audit s (goto s PSkelOpen)
| step_parse_fails : pc s = PParse -> main_step audit s (goto s (PExited 1))
| step_skel : pc s = PSkelOpen -> main_step audit s (goto (set_skel s SkelLive false) PSkelLoad)
| step_skel_fails : pc s = PSkelOpen -> main_step audit s (goto s (PExited 1))
| step_load : pc s = PSkelLoad -> main_step audit s (goto s PSkelAttach)
| step_load_fails : pc s = PSkelLoad -> main_step audit s (goto (destroy s) (PReturn 1))
| step_attach : pc s = PSkelAttach -> main_step audit s (goto (set_skel s (g_skel s) true) PRing)
| step_attach_fails : pc s = PSkelAttach -> main_step audit s (goto (destroy s) (PReturn 1))
| step_ring b : pc s = PRing -> main_step audit s (goto (set_ring s (audit && b)) PFork)
| step_fork : pc s = PFork -> main_step audit s (goto (set_child s Running) PExecTrap)
| step_fork_fails : pc s = PFork -> main_step audit s (goto (destroy s) (PReturn 1))
| step_trapped : pc s = PExecTrap -> main_step audit s (goto (set_child s Stopped) PWaitLibc)
| step_not_trapped : pc s = PExecTrap ->
    main_step audit s (goto (destroy (set_child s Dead)) (PReturn 1))
| step_libc : pc s = PWaitLibc -> main_step audit s (goto s PPolicy)
| step_libc_exited : pc s = PWaitLibc -> main_step audit s (goto (set_child s Dead) PPolicy)
| step_policy e : pc s = PPolicy -> main_step audit s (after_policy s e)
| step_detach : pc s = PDetach ->
    main_step audit s (detach s)
| step_poll : pc s = PPoll -> main_step audit s (set_reload s false)
| step_poll_exited : pc s = PPoll -> g_child s <> Dead ->
    main_step audit s (poll_reaps s)
| step_wait : pc s = PWait -> main_step audit s (wait_returns s)
| step_cleanup : pc s = PCleanup ->
    main_step audit s (cleanup s)
| step_clear : pc s = PClearSkel -> main_step audit s (goto (set_skel s SkelNull (attached s)) (PReturn 0))
| step_return code : pc s = PReturn code -> main_step audit s (exit_process s code).

Definition exited (s : life) : bool := match pc s with PExited _ => true | _ => false end.

(** [signal_handler]: SIGINT and SIGTERM. *)
Definition signal_handler (sig : Z) (s : life) : life :=
  let s := match g_child s with NoChild => s | _ => set_sent s end in
  let s := match g_skel s with SkelNull => s | _ => set_skel (destroy s) SkelNull false end in
  exit_process s (128 + sig).

(** [sighup_handler], installed without SA_RESTART: the plain [waitpid]
    returns and main goes on to the cleanup. *)
Definition sighup (s : life) : life :=
  let s := set_reload s true in
  match pc s with PWait => goto s PCleanup | _ => s end.

Inductive label : Set := LMain | LTerm (sig : Z) | LHup.

(** Signals take effect once main has installed the handlers.  Interrupting
    the wait for the exec trap leaves [status] unset: main may go on as if
    the child had been trapped ([by_hup_trap]) or not. *)
Inductive life_step (audit : bool) (s : life) : label -> life -> Prop :=
| by_main s' : main_step audit s s' -> life_step audit s LMain s'
| by_term sig : exited s = false -> life_step audit s (LTerm sig) (signal_handler sig s)
| by_hup : exited s = false -> life_step audit s LHup (sighup s)
| by_hup_trap : pc s = PExecTrap -> life_step audit s LHup (goto (set_reload s true) PWaitLibc).

Inductive life_run (audit : bool) : life -> list label -> life -> Prop :=
| run_nil s : life_run audit s [] s
| run_cons s l s' ls s'' :
    life_step audit s l s' -> life_run audit s' ls s'' -> life_run audit s (l :: ls) s''.
