(* ===== verification/LifeCycleProps.v ===== *)
(** * Properties of the loader's life cycle *)
From S2P Require Import Prelude Shared LifeCycle.

(** What holds at each point: the skeleton exists and is attached from the
    attach on, the child is tracked before it is released, and nothing is
    attached once the skeleton was destroyed. *)
Definition life_inv (s : life) : Prop :=
  match pc s with
  | POpenBinary | PParse | PSkelOpen => g_skel s = SkelNull /\ attached s = false
  | PSkelLoad | PSkelAttach => g_skel s = SkelLive
  | PDetach | PPoll | PWait => g_skel s = SkelLive /\ attached s = true /\ tracked s = true
  | PClearSkel | PReturn _ | PExited _ => g_skel s <> SkelLive /\ attached s = false
  | _ => g_skel s = SkelLive /\ attached s = true
  end.

Lemma main_step_inv audit s s' :
  main_step audit s s' -> life_inv s -> life_inv s' /\ double_free s' = double_free s.
Proof.
  unfold life_inv. intros Hstep Hi.
  destruct Hstep; match goal with H : pc s = _ |- _ => rewrite H in Hi end;
    try match goal with e : policy_end |- _ => destruct e end;
    unfold after_policy, detach, exit_process, release, poll_reaps, wait_returns, cleanup, close_main, destroy; cbn -[ring]; destruct_and?;
    repeat match goal with H : g_skel s = _ |- _ => rewrite H end;
    try (destruct (main_fd s)); try (destruct (ring s)); cbn;
    repeat match goal with H : g_skel s = _ |- _ => rewrite H | H : pc s = _ |- _ => rewrite H end; done.
Qed.

Lemma term_inv sig s : life_inv s -> life_inv (signal_handler sig s).
Proof.
  unfold life_inv, signal_handler, destroy. intros Hi.
  assert (g_skel s = SkelNull -> attached s = false) as Hn.
  { intros E. destruct (pc s); rewrite E in Hi; naive_solver. }
  destruct (g_child s), (g_skel s) eqn:E; cbn; rewrite ?E; cbn; rewrite ?E; (split; [congruence|auto]).
Qed.

Lemma hup_inv s : life_inv s -> life_inv (sighup s) /\ double_free (sighup s) = double_free s.
Proof.
  unfold life_inv, sighup. cbn. destruct (pc s) eqn:E; cbn; rewrite ?E; naive_solver.
Qed.

Lemma life_step_inv audit s l s' :
  life_step audit s l s' -> life_inv s ->
  life_inv s' /\ ((forall sig, l <> LTerm sig) -> double_free s' = double_free s).
Proof.
  intros [s'' H|sig _|_|H] Hi.
  - destruct (main_step_inv _ _ _ H Hi). by split.
  - split; [by apply term_inv|]. intros Hn. by destruct (Hn sig).
  - destruct (hup_inv s Hi). by split.
  - split; [|done]. unfold life_inv in *. cbn. by rewrite H in Hi.
Qed.

Lemma life_run_spec audit ls s0 s :
  life_run audit s0 ls s -> life_inv s0 ->
  life_inv s /\ ((forall sig, LTerm sig ∉ ls) -> double_free s = double_free s0).
Proof.
  intros Hrun. induction Hrun as [s|s0 l s1 ls s2 Hs _ IH]; intros Hi; [done|].
  destruct (life_step_inv _ _ _ _ Hs Hi) as [Hi1 Hd]. destruct (IH Hi1) as [Hi2 Hd2].
  split; [done|]. intros Hn. rewrite Hd2 by set_solver. apply Hd. intros sig ->. apply (Hn sig). left.
Qed.

Lemma life_run_app audit s0 ls s1 ls' s2 :
  life_run audit s0 ls s1 -> life_run audit s1 ls' s2 -> life_run audit s0 (ls ++ ls') s2.
Proof. induction 1 as [|s0 l s1 ls s Hs _ IH]; intros H2; [done|]. econstructor; [exact Hs|by apply IH]. Qed.

Lemma life_run_inv audit ls s0 s : life_run audit s0 ls s -> life_inv s0 -> life_inv s.
Proof. intros Hr Hi. by destruct (life_run_spec _ _ _ _ Hr Hi). Qed.

(** C8: The loader's life cycle: whatever its calls answer and whenever
    signals arrive, the child only runs past the detach while it is tracked
    and the programs are attached, and no programs stay attached when the
    loader has exited; without SIGINT and SIGTERM the skeleton is never
    destroyed twice. *)
Theorem life_cycle_invariant audit ls s :
  life_run audit start_life ls s ->
  (pc s = PPoll \/ pc s = PWait -> attached s = true /\ tracked s = true) /\
  (exited s = true -> attached s = false) /\
  ((forall sig, LTerm sig ∉ ls) -> double_free s = false).
Proof.
  intros Hrun. destruct (life_run_spec _ _ _ _ Hrun) as [Hi Hd]; [done|]. unfold life_inv, exited in *.
  split_and!; [|destruct (pc s); naive_solver|done].
  intros [E|E]; rewrite E in Hi; naive_solver.
Qed.

Tactic Notation "main_go" uconstr(c) := eapply run_cons; [apply by_main; eapply c; reflexivity|].

(** C37: Hazards of the life cycle, each reached by a run: without auditing,
    one SIGHUP to the loader ends it with code 0 while the child runs on with
    no programs attached; when the main policy map cannot be created, the
    loader exits with code 0 and closes an invalid descriptor, and the
    kernel, which detaches the tracees of a process that exits, lets the
    child run without policy, neither killed nor tracked; and SIGTERM right
    after a failed load destroys the skeleton twice. *)
Theorem life_cycle_hazards :
  (exists ls s, life_run false start_life ls s /\ (forall sig, LTerm sig ∉ ls) /\
     pc s = PExited 0 /\ g_child s = Running /\ tracked s = true /\ attached s = false) /\
  (exists ls s, life_run true start_life ls s /\ (LHup ∉ ls) /\ (forall sig, LTerm sig ∉ ls) /\
     pc s = PExited 0 /\ g_child s = Running /\ tracked s = false /\ attached s = false /\ bad_close s = true) /\
  (exists ls s, life_run false start_life ls s /\ pc s = PExited 143 /\ double_free s = true).
Proof.
  split_and!; eexists _, _; split.
  - main_go step_open. main_go step_parse. main_go step_skel. main_go step_load. main_go step_attach.
    main_go (step_ring false _ true). main_go step_fork. main_go step_trapped. main_go step_libc.
    main_go (step_policy false _ EndLoaded). main_go step_detach.
    eapply run_cons; [apply by_hup; reflexivity|].
    main_go step_cleanup. main_go step_clear. main_go (step_return false _ 0). apply run_nil.
  - split; [set_solver|]. repeat split; reflexivity.
  - main_go step_open. main_go step_parse. main_go step_skel. main_go step_load. main_go step_attach.
    main_go (step_ring true _ true). main_go step_fork. main_go step_trapped. main_go step_libc.
    main_go (step_policy true _ EndNoMap). main_go step_cleanup. main_go step_clear.
    main_go (step_return true _ 0). apply run_nil.
  - split; [set_solver|]. split; [set_solver|]. repeat split; reflexivity.
  - main_go step_open. main_go step_parse. main_go step_skel. main_go step_load_fails.
    eapply run_cons; [apply (by_term _ _ 15); reflexivity|]. apply run_nil.
  - split; reflexivity.
Qed.

(** ** Termination *)

(** Every run from [s] by [step] reaches [P]: no run is stuck before, and
    none goes on for ever. *)
Inductive eventually {S} (step : S -> S -> Prop) (P : S -> Prop) (s : S) : Prop :=
| ev_now : P s -> eventually step P s
| ev_later : (exists s', step s s') -> (forall s', step s s' -> eventually step P s') ->
    eventually step P s.

(** A measure that decreases on every step up to [P]. *)
Lemma eventually_measure {S} (step : S -> S -> Prop) (P I : S -> Prop) (f : S -> nat) s :
  (forall s, I s -> P s \/ ((exists s', step s s') /\ forall s', step s s' -> I s' /\ (f s' < f s)%nat)) ->
  I s -> eventually step P s.
Proof.
  intros H. remember (f s) as n eqn:E. revert s E.
  induction (lt_wf n) as [n _ IH]. intros s -> Hs.
  destruct (H s Hs) as [HP|[Hex Hall]]; [by apply ev_now|]. apply ev_later; [done|].
  intros s' Hs'. destruct (Hall s' Hs') as [Hi Hf]. by apply (IH (f s')).
Qed.

(** A step of main, other than a poll that does not see the child exit. *)
Definition quiet_step (audit : bool) (s s' : life) : Prop :=
  main_step audit s s' /\ ~ (pc s = PPoll /\ pc s' = PPoll).

(** Polling for a child that was reaped before. *)
Definition polls_dead (s : life) : Prop := pc s = PPoll /\ g_child s = Dead.

(** The calls main still has to make. *)
Definition calls_left (p : point) : nat :=
  match p with
  | POpenBinary => 15 | PParse => 14 | PSkelOpen => 13 | PSkelLoad => 12 | PSkelAttach => 11
  | PRing => 10 | PFork => 9 | PExecTrap => 8 | PWaitLibc => 7 | PPolicy => 6 | PDetach => 5
  | PPoll => 4 | PWait => 4 | PCleanup => 3 | PClearSkel => 2 | PReturn _ => 1 | PExited _ => 0
  end.

Lemma quiet_step_decreases audit s s' :
  quiet_step audit s s' -> (calls_left (pc s') < calls_left (pc s))%nat.
Proof.
  intros [Hs Hq]. destruct Hs; match goal with H : pc s = _ |- _ => rewrite H in *; cbn end;
    repeat match goal with
    | e : policy_end |- _ => destruct e
    | |- context [if ring s then _ else _] => destruct (ring s)
    end; cbn; try lia.
  by destruct Hq.
Qed.

Lemma quiet_step_exists audit s :
  exited s = false -> ~ polls_dead s -> exists s', quiet_step audit s s'.
Proof.
  unfold exited, polls_dead, quiet_step. intros He Hp. destruct (pc s) eqn:E; try done.
  12: eexists; split; [apply step_poll_exited; [done|naive_solver]|by intros [_ [=]]].
  10: eexists; split; [by apply step_policy with (e := EndLoaded)|intros [? _]; congruence].
  6: eexists; split; [by apply step_ring with (b := true)|intros [? _]; congruence].
  all: eexists; split; [by constructor|intros [? _]; congruence].
Qed.

Lemma polls_dead_forever audit s ls s' :
  life_run audit s ls s' -> polls_dead s -> (forall sig, LTerm sig ∉ ls) -> polls_dead s'.
Proof.
  induction 1 as [s|s l s1 ls s2 Hs _ IH]; intros Hp Hn; [done|].
  apply IH; [|set_solver]. destruct Hp as [Hpc Hd].
  destruct Hs as [s' Hm|sig _|_|Hx]; [|set_solver|unfold sighup; cbn; by rewrite Hpc|congruence].
  destruct Hm; try congruence. done.
Qed.

(** C9: The loader ends: from every state, if each of its calls returns and
    the child ends, main makes at most 15 more calls besides polling and
    exits, except when it polls for a child that was reaped while waiting
    for libc, where no number of polls and reload requests ever ends it; an
    audited static binary that exits early leads there.  SIGINT and SIGTERM
    end the loader at once from anywhere. *)
Theorem loader_terminates audit s :
  eventually (quiet_step audit) (fun s => exited s = true \/ polls_dead s) s /\
  (forall s', quiet_step audit s s' -> (calls_left (pc s') < calls_left (pc s) <= 15)%nat) /\
  (forall ls s', polls_dead s -> life_run audit s ls s' -> (forall sig, LTerm sig ∉ ls) -> exited s' = false) /\
  (exists ls s', life_run true start_life ls s' /\ (forall l, l ∈ ls -> l = LMain) /\ polls_dead s') /\
  (forall sig, exited (signal_handler sig s) = true).
Proof.
  split_and!.
  - apply (eventually_measure _ _ (fun _ => True) (fun s => calls_left (pc s))); [|done].
    clear s. intros s _. destruct (exited s) eqn:E; [by left; left|].
    destruct (decide (pc s = PPoll)) as [Hp|Hp], (decide (g_child s = Dead)) as [Hd|Hd]; [by left; right|..];
      (right; split; [apply quiet_step_exists; [done|by intros [? ?]]
                     |intros s' Hs'; split; [done|by eapply quiet_step_decreases]]).
  - intros s' Hs'. split; [by eapply quiet_step_decreases|]. destruct (pc s); cbn; lia.
  - intros ls s' Hp Hr Hn. destruct (polls_dead_forever _ _ _ _ Hr Hp Hn) as [E _]. unfold exited. by rewrite E.
  - eexists _, _. split.
    + main_go step_open. main_go step_parse. main_go step_skel. main_go step_load. main_go step_attach.
      main_go (step_ring true _ true). main_go step_fork. main_go step_trapped. main_go step_libc_exited.
      main_go (step_policy true _ EndLoaded). main_go step_detach. apply run_nil.
    + split; [|done]. intros l Hl. repeat (apply elem_of_cons in Hl as [->|Hl]; [done|]).
      by apply elem_of_nil in Hl.
  - intros sig. unfold signal_handler, exited. by destruct (g_child s), (g_skel s) eqn:E; cbn; rewrite ?E.
Qed.

(** An audited run with one reload request, up to polling, and to its end. *)
Lemma life_cycle_invariant_witness :
  exists s s', life_run true start_life (repeat LMain 11 ++ [LHup]) s /\ pc s = PPoll /\
    attached s = true /\ tracked s = true /\
    life_run true s (repeat LMain 4) s' /\ pc s' = PExited 0 /\ attached s' = false /\ double_free s' = false.
Proof.
  pose proof (fun ls s => life_cycle_invariant true ls s) as H.
  assert (exists s, life_run true start_life (repeat LMain 11 ++ [LHup]) s /\ pc s = PPoll /\ g_child s = Running)
    as (s & Hr & Hp & Hc).
  { eexists. split.
    - main_go step_open. main_go step_parse. main_go step_skel. main_go step_load. main_go step_attach.
      main_go (step_ring true _ true). main_go step_fork. main_go step_trapped. main_go step_libc.
      main_go (step_policy true _ EndLoaded). main_go step_detach.
      eapply run_cons; [apply by_hup; reflexivity|]. apply run_nil.
    - done. }
  assert (exists s', life_run true s (repeat LMain 4) s' /\ pc s' = PExited 0) as (s' & Hr' & Hp').
  { eexists. split.
    - eapply run_cons; [apply by_main, step_poll_exited; [done|by rewrite Hc]|].
      main_go step_cleanup. main_go step_clear. main_go (step_return true _ 0). apply run_nil.
    - done. }
  destruct (H _ _ Hr) as [H1 _]. destruct H1 as [Ha Ht]; [by left|].
  destruct (H _ _ (life_run_app _ _ _ _ _ _ Hr Hr')) as (_ & H2 & H3).
  exists s, s'. split_and!; [done..|apply H2; unfold exited; by rewrite Hp'|apply H3; intros sig; set_solver].
Defined.
