(* ===== verification/System.v ===== *)
(** * The whole system: loader, maps and enforcer

    The life cycle of the loader run together with the maps it fills and the
    hooks the kernel runs on them.  A step is a call of main, a signal to
    the loader, or a system call of some task.  Main's steps that touch the
    maps run [parse_sentinel_section], [wait_for_libc], [load_policy] and
    [hot_reload]; all others are those of [main_step]. *)
From S2P Require Import Prelude Shared BpfMaps Elf CLib Enforcer EnforcerSpec LoaderElf ProcMaps.
From S2P Require Import LoaderPolicy LoaderMain LifeCycle.

Section System.
Context {B : BpfOps}.

(** [pols] are the policies loaded so far, the binary's first. *)
Record system := {
  lf : life;
  maps : bpf_maps;
  parsed : parse_result;
  kid : child;
  main_map : Z;
  pols : list parse_result;
  output : effects;
}.

Definition no_policy : parse_result :=
  {| ps_ret := 0; ps_entries := []; ps_text_base := None; ps_load_base := None |}.

Definition no_kid : child := {| ch_pid := -1; ch_maps := None; ch_libc_base := 0 |}.

Definition start_system : system :=
  {| lf := start_life; maps := initial_maps; parsed := no_policy; kid := no_kid; main_map := -1;
     pols := []; output := no_effects |}.

Definition with_life (s : system) (l : life) : system :=
  {| lf := l; maps := maps s; parsed := parsed s; kid := kid s; main_map := main_map s;
     pols := pols s; output := output s |}.
Definition with_parsed (s : system) (r : parse_result) : system :=
  {| lf := lf s; maps := maps s; parsed := r; kid := kid s; main_map := main_map s;
     pols := pols s; output := output s |}.
Definition with_kid (s : system) (c : child) : system :=
  {| lf := lf s; maps := maps s; parsed := parsed s; kid := c; main_map := main_map s;
     pols := pols s; output := output s |}.
Definition with_maps (s : system) (m : bpf_maps) : system :=
  {| lf := lf s; maps := m; parsed := parsed s; kid := kid s; main_map := main_map s;
     pols := pols s; output := output s |}.
Definition with_main (s : system) (mm : Z) : system :=
  {| lf := lf s; maps := maps s; parsed := parsed s; kid := kid s; main_map := mm;
     pols := pols s; output := output s |}.
Definition with_pols (s : system) (l : list parse_result) : system :=
  {| lf := lf s; maps := maps s; parsed := parsed s; kid := kid s; main_map := main_map s;
     pols := l; output := output s |}.
Definition with_output (s : system) (e : effects) : system :=
  {| lf := lf s; maps := maps s; parsed := parsed s; kid := kid s; main_map := main_map s;
     pols := pols s; output := e |}.

(** Main's calls that only concern the life cycle. *)
Definition plain (p : point) : bool :=
  match p with PParse | PFork | PWaitLibc | PPolicy | PPoll => false | _ => true end.

(** The exits of the load that [load_policy] calls fatal. *)
Definition fatal_end (killed : bool) (e : policy_end) : bool :=
  match e with
  | EndLoaded => false
  | EndNoTrack => killed
  | _ => negb killed
  end.

(** The loop ended because the child did. *)
Definition child_ended (base steps : Z) : bool := (base =? 0) && (steps <=? PTRACE_STEP_LIMIT).

(** One step of main, started with [audit] and [mode] on [binary].  The
    files may change between steps, so each reading has its own [env]. *)
Inductive sys_main (audit : bool) (binary : string) (s : system) : system -> Prop :=
| sys_plain l : plain (pc (lf s)) = true -> main_step audit (lf s) l -> sys_main audit binary s (with_life s l)
| sys_parse env r : pc (lf s) = PParse ->
    parse_sentinel_section env binary MAX_POLICY_ENTRIES = Ok r ->
    sys_main audit binary s
      (with_life (with_parsed s r) (goto (lf s) (if ps_ret r <? 0 then PExited 1 else PSkelOpen)))
| sys_fork pid : pc (lf s) = PFork -> 0 < pid < 2 ^ 31 ->
    sys_main audit binary s
      (with_life (with_kid s {| ch_pid := pid; ch_maps := None; ch_libc_base := 0 |})
         (goto (set_child (lf s) Running) PExecTrap))
| sys_fork_fails : pc (lf s) = PFork ->
    sys_main audit binary s (with_life s (goto (destroy (lf s)) (PReturn 1)))
| sys_wait_libc snap ended base steps : pc (lf s) = PWaitLibc ->
    wait_for_libc wait_fuel snap ended 0 = Some (base, steps) ->
    sys_main audit binary s
      (with_life
         (with_kid s {| ch_pid := ch_pid (kid s);
                        ch_maps := if child_ended base steps then None else snap steps;
                        ch_libc_base := base |})
         (goto (if child_ended base steps then set_child (lf s) Dead else lf s) PPolicy))
| sys_loaded env alloc_ok create_ok m mm : pc (lf s) = PPolicy ->
    load_policy env alloc_ok create_ok binary (parsed s) (kid s) (maps s) = Ok (Loaded m mm) ->
    sys_main audit binary s
      (with_life (with_pols (with_main (with_maps s m) mm) [parsed s]) (after_policy (lf s) EndLoaded))
| sys_fatal env alloc_ok create_ok m killed e : pc (lf s) = PPolicy ->
    load_policy env alloc_ok create_ok binary (parsed s) (kid s) (maps s) = Ok (Fatal m killed) ->
    fatal_end killed e = true ->
    sys_main audit binary s (with_life (with_maps s m) (after_policy (lf s) e))
| sys_reload env r m l : pc (lf s) = PPoll -> g_reload (lf s) = true ->
    parse_sentinel_section env binary MAX_POLICY_ENTRIES = Ok r ->
    hot_reload env binary (main_map s) (maps s) = Ok m -> main_step audit (lf s) l ->
    sys_main audit binary s (with_life (with_pols (with_maps s m) (if 0 <? ps_ret r then pols s ++ [r] else pols s)) l)
| sys_poll l : pc (lf s) = PPoll -> g_reload (lf s) = false -> main_step audit (lf s) l ->
    sys_main audit binary s (with_life s l).

Inductive sys_label : Set :=
| SLoader (l : label)
| SCall (t : hook_ctx) (name : string).

(** A signal to the loader, or a task of the machine entering system call
    [name]: the attached program runs. *)
Inductive sys_step (audit : bool) (mode : Z) (binary : string) (s : system) : sys_label -> system -> Prop :=
| sys_by_main s' : sys_main audit binary s s' -> sys_step audit mode binary s (SLoader LMain) s'
| sys_by_signal l life' : l <> LMain -> life_step audit (lf s) l life' ->
    sys_step audit mode binary s (SLoader l) (with_life s life')
| sys_by_call t name :
    sys_step audit mode binary s (SCall t name)
      (if attached (lf s)
       then with_output s (sys_enter (rodata audit mode) (maps s) t name (output s)) else s).

Inductive sys_run (audit : bool) (mode : Z) (binary : string) : system -> list sys_label -> system -> Prop :=
| sys_nil s : sys_run audit mode binary s [] s
| sys_cons s l s' ls s'' :
    sys_step audit mode binary s l s' -> sys_run audit mode binary s' ls s'' ->
    sys_run audit mode binary s (l :: ls) s''.

(** The loader's part of a run. *)
Definition loader_labels (ls : list sys_label) : list label :=
  omap (fun l => match l with SLoader l => Some l | SCall _ _ => None end) ls.

End System.
