(* ===== verification/SystemProps.v ===== *)
(** * Properties of the whole system

    The system refines the life cycle, and in every run, whatever the files,
    the signals and the tasks of the machine do, the enforcer only touches
    the launched process, only while its policy is in force, and lets a call
    of its binary pass only if a loaded policy has an entry for it. *)
From S2P Require Import Prelude Shared BpfMaps Elf CLib Enforcer EnforcerSpec EnforcerProps LoaderElf ProcMaps.
From S2P Require Import LoaderPolicy MapUpdates LoaderPolicyProps LoaderModules LoaderEnforce LoaderMain.
From S2P Require Import LifeCycle LifeCycleProps System.

(** ** Points of main *)

(** Main has not set up the policy yet. *)
Definition before_policy (p : point) : bool :=
  match p with
  | POpenBinary | PParse | PSkelOpen | PSkelLoad | PSkelAttach | PRing | PFork | PExecTrap
  | PWaitLibc | PPolicy => true
  | _ => false
  end.

(** The policy is in place and main waits for the child. *)
Definition enforcing (p : point) : bool :=
  match p with PDetach | PPoll | PWait => true | _ => false end.

Section Props.
Context {B : BpfOps} {L : BpfLaws B}.
Context (audit : bool) (mode : Z) (binary : string).

(** ** Refinement of the life cycle *)

Lemma sys_main_life s s' : sys_main audit binary s s' -> main_step audit (lf s) (lf s').
Proof.
  intros H. destruct H; cbn [lf with_life]; try done.
  - destruct (ps_ret r <? 0); by constructor.
  - by constructor.
  - by constructor.
  - destruct (child_ended base steps); by constructor.
  - by constructor.
  - by constructor.
Qed.

Lemma sys_step_life s l s' :
  sys_step audit mode binary s l s' ->
  match l with SLoader l => life_step audit (lf s) l (lf s') | SCall _ _ => lf s' = lf s end.
Proof.
  intros [s1 H|l' life' _ H|t name]; [by apply by_main, sys_main_life|done|].
  by destruct (attached (lf s)).
Qed.

Lemma sys_run_life s ls s' :
  sys_run audit mode binary s ls s' -> life_run audit (lf s) (loader_labels ls) (lf s').
Proof.
  induction 1 as [s|s l s1 ls s2 Hs _ IH]; [constructor|]. apply sys_step_life in Hs.
  destruct l as [l|t name]; cbn in *; [by eapply run_cons|by rewrite <- Hs].
Qed.

(** ** Invariant *)

(** Rules of the main map come from the loaded policies. *)
Definition rules_from (ps : list parse_result) (m : bpf_hash Z) : Prop :=
  forall k v, hash_lookup m k = Some v -> exists p e, p ∈ ps /\ e ∈ ps_entries p /\
    k = u64 (e.1 - default 0 (ps_load_base p)) /\ v = policy_value e.2.

Lemma rules_from_load ps p m :
  rules_from ps m -> rules_from (ps ++ [p]) (main_entries p m).
Proof.
  unfold main_entries. rewrite load_entries_updates.
  intros H k v [Hk|(e & [= -> ->] & He)%list_elem_of_fmap]%updates_sound.
  - destruct (H k v Hk) as (q & e & Hq & ?). exists q, e. split; [set_solver|done].
  - exists p, e. split; [set_solver|done].
Qed.

(** The load of this run, which gave the maps [m0]. *)
Definition load_gave (s : system) (m0 : bpf_maps) : Prop :=
  exists env alloc_ok create_ok,
    load_policy env alloc_ok create_ok binary (parsed s) (kid s) initial_maps = Ok (Loaded m0 (main_map s)).

Definition in_force (s : system) : Prop :=
  vma_wf (vma_map (maps s)) /\
  is_Some (hash_lookup (target_pid_map (maps s)) (u32 (ch_pid (kid s)))) /\
  (exists m, module_rules (maps s) MODULE_MAIN (main_map s) m /\ rules_from (pols s) m) /\
  exists m0 f, load_gave s m0 /\ maps s = on_map m0 (main_map s) f.

Record sys_inv (s : system) : Prop := {
  si_before : before_policy (pc (lf s)) = true -> maps s = initial_maps;
  si_force : enforcing (pc (lf s)) = true -> in_force s;
  si_only : forall p, is_Some (hash_lookup (target_pid_map (maps s)) p) -> p = u32 (ch_pid (kid s));
}.

(** How a step moves main past the policy. *)
Lemma main_step_points l l' :
  main_step audit l l' ->
  (before_policy (pc l') = true -> before_policy (pc l) = true) /\
  (enforcing (pc l') = true -> pc l <> PPolicy -> enforcing (pc l) = true).
Proof.
  intros H. destruct H; match goal with H : pc l = _ |- _ => rewrite H; cbn; rewrite ?H end;
    try done; (by destruct (ring l)) || (by destruct e).
Qed.

Lemma life_step_points l lab l' :
  life_step audit l lab l' -> lab <> LMain ->
  (before_policy (pc l') = true -> before_policy (pc l) = true) /\
  (enforcing (pc l') = true -> enforcing (pc l) = true).
Proof.
  intros H Hl. destruct H as [l' Hm|sig He|He|Hp]; [done|by cbn| |cbn; by rewrite Hp].
  unfold sighup. cbn. by destruct (pc l) eqn:E; cbn; rewrite ?E.
Qed.

(** Moving the life cycle alone. *)
Lemma sys_inv_life s l :
  sys_inv s ->
  (before_policy (pc l) = true -> before_policy (pc (lf s)) = true) ->
  (enforcing (pc l) = true -> enforcing (pc (lf s)) = true) -> sys_inv (with_life s l).
Proof. intros [H1 H2 H3] Hb He. split; cbn; [auto|intros H; exact (H2 (He H))|exact H3]. Qed.

Lemma initial_untracked p : hash_lookup (target_pid_map initial_maps) p = None.
Proof. apply hash_new_lookup. Qed.

(** A load that fails tracks nobody but the child. *)
Lemma load_policy_fatal env alloc_ok create_ok bin pol c m killed p :
  load_policy env alloc_ok create_ok bin pol c initial_maps = Ok (Fatal m killed) ->
  hash_lookup (target_pid_map m) p = None.
Proof.
  unfold load_policy, track_child. intros H. res_inv. rename x into v.
  match goal with H : load_vmas _ _ _ = _ |- _ => destruct (load_vmas_keeps _ _ _ _ H) as (Kv & _) end.
  destruct (register_module v.1 (create_ok 0%nat) MODULE_MAIN) as [s1 o] eqn:Er.
  destruct (register_module_spec _ _ _ _ _ Er) as (Km & _).
  assert (target_pid_map s1 = target_pid_map initial_maps) as E1
    by (by rewrite (kp_pids _ _ _ Km), (kp_pids _ _ _ Kv)).
  destruct o as [mm|]; [|res_inv; rewrite E1; apply initial_untracked]. res_inv. rename x into r.
  match goal with H : load_libc _ _ _ _ _ _ = _ |- _ => destruct (load_libc_spec _ _ _ _ _ _ _ H) as (Kc & _) end.
  assert (target_pid_map r.1 = target_pid_map initial_maps) as E2 by (by rewrite (kp_pids _ _ _ Kc)).
  destruct r as [r []]; cbn [fst snd negb] in *; [|res_inv; rewrite E2; apply initial_untracked]. res_inv.
  match goal with H : load_cfi _ _ _ _ = _ |- _ => destruct (load_cfi_frame _ _ _ _ _ H) as [h ->] end.
  match goal with H : load_libraries _ _ _ _ _ = _ |- _ => apply load_libraries_spec in H as (Kl & _) end.
  2: { rewrite (kp_size _ _ _ Kc). cbn. rewrite (kp_size _ _ _ Km), (kp_size _ _ _ Kv). apply aom_new_max. }
  match goal with H : (if ?b =? 0 then _ else _) = _ |- _ => destruct (Z.eqb_spec b 0); [by res_inv|] end.
  match goal with H : Ok (Fatal _ _) = _ |- _ => injection H as <- <- end.
  cbn [target_pid_map with_pids]. rewrite hash_update_err by done. cbn.
  rewrite (kp_pids _ _ _ Kl), E2. apply initial_untracked.
Qed.

Lemma sys_main_inv s s' : sys_main audit binary s s' -> sys_inv s -> sys_inv s'.
Proof.
  intros H Hi. pose proof Hi as [H1 H2 H3].
  destruct H as [l Hp Hm|env r Hp Hr|pid Hp Hpid|Hp|snap ended base steps Hp Hw
    |env al cr m mm Hp Hl|env al cr m killed e Hp Hl He|env r m l Hp Hg Hr Hh Hm|l Hp Hg Hm].
  - destruct (main_step_points _ _ Hm) as [Pb Pe]. apply sys_inv_life; [done|done|]. intros He.
    apply Pe; [done|]. intros E. by rewrite E in Hp.
  - rewrite Hp in H1, H2. specialize (H1 eq_refl).
    split; cbn; [done|by destruct (ps_ret r <? 0)|done].
  - rewrite Hp in H1. specialize (H1 eq_refl). split; cbn; [done|done|].
    rewrite H1. intros p. rewrite initial_untracked. by intros [? ?].
  - rewrite Hp in H1. split; cbn; [done|done|done].
  - rewrite Hp in H1. specialize (H1 eq_refl). split; cbn; done.
  - rewrite Hp in H1. rewrite (H1 eq_refl) in Hl. pose proof Hl as [W C M _ _ _ _ _]%load_policy_loaded.
    split; cbn; [done| |].
    + intros _. split_and!; cbn; [done|by rewrite C, decide_True|..].
      * eexists. split; [exact M|]. apply (rules_from_load []). intros k v. by rewrite hash_new_lookup.
      * exists m, id. rewrite on_map_id. split; [by do 3 eexists|done].
    + intros p. rewrite C. case_decide; [done|]. by intros [? ?].
  - rewrite Hp in H1. rewrite (H1 eq_refl) in Hl. split.
    + by destruct e.
    + by destruct e.
    + cbn. intros p. rewrite (load_policy_fatal _ _ _ _ _ _ _ _ _ Hl). by intros [? ?].
  - rewrite Hp in H2. destruct (H2 eq_refl) as (W & C & (h & Hm1 & Hm2) & m0 & f0 & Hl & Em).
    destruct (hot_reload_rules _ _ _ _ _ _ Hh Hm1) as (r' & Hr' & [f ->] & Hrules).
    assert (r' = r) as -> by congruence.
    split; cbn; [|intros _; split_and!; cbn; [done|done|..]|done].
    + destruct (main_step_points _ _ Hm) as [Pb _]. intros Hb. by rewrite Hp in Pb; specialize (Pb Hb).
    + eexists. split; [exact Hrules|]. destruct (0 <? ps_ret r); [|done]. by apply rules_from_load.
    + exists m0, (f ∘ f0). split; [exact Hl|]. by rewrite Em, on_map_twice.
  - destruct (main_step_points _ _ Hm) as [Pb Pe]. apply sys_inv_life; [done|done|].
    intros _. by rewrite Hp.
Qed.

Lemma sys_step_inv s l s' : sys_step audit mode binary s l s' -> sys_inv s -> sys_inv s'.
Proof.
  intros [s1 H|lab l' Hl H|t name] Hi.
  - by eapply sys_main_inv.
  - destruct (life_step_points _ _ _ H Hl) as [Pb Pe]. by apply sys_inv_life.
  - destruct (attached (lf s)); [|done]. destruct Hi as [H1 H2 H3]. by split.
Qed.

Lemma start_inv : sys_inv start_system.
Proof. split; [done|done|]. cbn. intros p. rewrite hash_new_lookup. by intros [? ?]. Qed.

Lemma sys_run_inv ls s : sys_run audit mode binary start_system ls s -> sys_inv s.
Proof.
  assert (forall s0, sys_run audit mode binary s0 ls s -> sys_inv s0 -> sys_inv s) as H.
  { induction 1; eauto using sys_step_inv. }
  intros Hr. exact (H _ Hr start_inv).
Qed.

(** ** Theorems *)

Lemma rodata_scope m t : in_scope (rodata audit mode) m t.
Proof. by left. Qed.

Lemma call_unmonitored s t name s' :
  sys_step audit mode binary s (SCall t name) s' -> ~ monitored (maps s) t -> output s' = output s.
Proof.
  inversion_clear 1. intros Hm. destruct (attached (lf s)); [|done]. cbn.
  by apply sys_enter_unmonitored.
Qed.

(** C15: Whatever happens on the machine, the enforcer touches nobody but the
    process the loader launched: in every run, a system call of a task of any
    other process, the launched process's own forks included, produces no
    audit record, trace line or signal. *)
Theorem only_child_enforced ls s t name s' :
  sys_run audit mode binary start_system ls s -> sys_step audit mode binary s (SCall t name) s' ->
  tgid_of t <> u32 (ch_pid (kid s)) -> output s' = output s.
Proof.
  intros Hr Hs Hne. eapply call_unmonitored; [done|]. intros Hm.
  apply Hne, (si_only _ (sys_run_inv _ _ Hr)), Hm.
Qed.

(** C16: The enforcer is silent before the policy is loaded and after the
    loader has exited: in every run, no call of any task, the child's
    included, has an effect while main is still before the end of the load
    or has exited. *)
Theorem enforcement_window ls s t name s' :
  sys_run audit mode binary start_system ls s -> sys_step audit mode binary s (SCall t name) s' ->
  before_policy (pc (lf s)) = true \/ exited (lf s) = true -> output s' = output s.
Proof.
  intros Hr Hs [Hb|He].
  - eapply call_unmonitored; [done|]. unfold monitored.
    rewrite (si_before _ (sys_run_inv _ _ Hr) Hb), initial_untracked. by intros [? ?].
  - apply sys_run_life in Hr. inversion_clear Hs.
    assert (life_inv (lf s)) as Hi by (by eapply life_run_inv).
    unfold life_inv, exited in *. destruct (pc (lf s)); try done. by destruct Hi as [_ ->].
Qed.

(** The hooks that run the core check, with the number they pass. *)
Definition checked : list (string * Z) :=
  [ ("write", 1); ("read", 0); ("openat", 257); ("execve", 59); ("mmap", 9); ("mprotect", 10);
    ("connect", 42); ("memfd_create", 319); ("prctl", 157); ("sendmsg", 46); ("dup2", 33);
    ("close", 3); ("ioctl", 16) ].

Lemma sys_enter_checked g m t name nr e :
  (name, nr) ∈ checked -> sys_enter g m t name e = (sentinel_check g m t nr e).2.
Proof.
  intros H. unfold checked in H.
  repeat (apply elem_of_cons in H as [[= -> ->]|H]; [done|]). by apply elem_of_nil in H.
Qed.

(** C1: End to end: in every run, whatever signals, reloads and other tasks
    intervene, while the loader waits for the child in kill or term mode, a
    checked system call of the child from its main binary that sends no
    signal was permitted by a policy the loader read: the binary's at the
    start or at a reload has an entry for that offset, without a number or
    with that number. *)
Theorem system_enforces ls s t name nr s' ip base :
  sys_run audit mode binary start_system ls s -> enforcing (pc (lf s)) = true ->
  mode = ENFORCE_KILL \/ mode = ENFORCE_TERM ->
  (name, nr) ∈ checked -> sys_step audit mode binary s (SCall t name) s' ->
  tgid_of t = u32 (ch_pid (kid s)) -> pt_regs_ip t = Some ip ->
  block_module (vma_map (maps s)) (u64 (ip - 2)) = Some {| module_id := MODULE_MAIN; base_addr := base |} ->
  signals (output s') = signals (output s) ->
  exists p e, p ∈ pols s /\ e ∈ ps_entries p /\
    u64 (u64 (ip - 2) - base) = u64 (e.1 - default 0 (ps_load_base p)) /\ (0 <= e.2 -> u32 e.2 = nr).
Proof.
  intros Hr He Hmode Hn Hs Ht Hip Hm Hq. pose proof (sys_run_inv _ _ Hr) as [_ Hf _].
  destruct (Hf He) as (Hw & Hc & (m & Hmr & Hfrom) & _).
  assert (attached (lf s) = true) as Ha.
  { apply sys_run_life, life_run_inv in Hr; [|done]. unfold life_inv in Hr.
    destruct (pc (lf s)); try done; naive_solver. }
  inversion Hs as [| |t' name' E1 E2]; subst. rewrite Ha in Hq. cbn in Hq.
  rewrite (sys_enter_checked _ _ _ _ _ _ Hn) in Hq.
  destruct (check_module (rodata audit mode) (maps s) t nr ip
    {| module_id := MODULE_MAIN; base_addr := base |} m (output s) Hw) as [_ Hd];
    [unfold monitored; by rewrite Ht|apply rodata_scope|done|exact Hm|by eapply module_rules_lookup|].
  assert (deny_signals (rodata audit mode) <> []) as Hne by (by destruct Hmode as [-> | ->]).
  assert (~ ~ module_allows (maps s) m base t nr (u64 (u64 (ip - 2) - base))) as Hall.
  { intros Hna. apply Hne, (app_inv_head (signals (output s))). rewrite app_nil_r.
    etrans; [symmetry; exact (Hd Hna)|exact Hq]. }
  assert (exists v, hash_lookup m (u64 (u64 (ip - 2) - base)) = Some v /\ rule_admits v nr) as (v & Hv & Hadm).
  { destruct (hash_lookup m (u64 (u64 (ip - 2) - base))) as [v|] eqn:Ev.
    - destruct (decide (rule_admits v nr)); [by exists v|]. destruct Hall. intros [(w & Hw1 & Hw2) _]. congruence.
    - destruct Hall. intros [(w & Hw1 & _) _]. congruence. }
  destruct (Hfrom _ _ Hv) as (p & e & Hp & Hpe & Hk & ->). exists p, e. split_and!; [done|done|done|].
  by apply policy_value_admits.
Qed.

(** C17: Reloads concern the main binary only: in every run, while the loader
    waits for the child, a check of any call that does not come from the
    main binary has the effects it had right after the load that this run
    made, whatever signals and reloads intervened; so what a load means for
    libc, the libraries and foreign code holds until the end. *)
Theorem others_decided_by_load ls s :
  sys_run audit mode binary start_system ls s -> enforcing (pc (lf s)) = true ->
  exists m0, load_gave s m0 /\ forall t nr e,
    (forall ip m, pt_regs_ip t = Some ip -> block_module (vma_map (maps s)) (u64 (ip - 2)) = Some m ->
       module_id m <> MODULE_MAIN) ->
    sentinel_check (rodata audit mode) (maps s) t nr e = sentinel_check (rodata audit mode) m0 t nr e.
Proof.
  intros Hr He. destruct (si_force _ (sys_run_inv _ _ Hr) He) as (_ & _ & _ & m0 & f & Hl & Em). rewrite Em.
  exists m0. split; [done|]. intros t nr e Ht. destruct Hl as (env & al & cr & [W _ [M _] _ _ _ _ R]%load_policy_loaded).
  by apply check_other_module.
Qed.

End Props.

(** ** A concrete run

    The load of [DemoLoad], up to the wait for the child. *)
Module DemoSys.

Tactic Notation "sys_go" uconstr(c) := eapply sys_cons; [apply sys_by_main; eapply c|].

Definition life_up (audit : bool) : life :=
  {| pc := if audit then PPoll else PWait; g_skel := SkelLive; attached := true; g_child := Running;
     tracked := true; ring := audit;
     main_fd := FdOpen; g_reload := false; sent_term := false; double_free := false; bad_close := false |}.

Definition up_to (audit : bool) : system :=
  {| lf := life_up audit; maps := DemoLoad.final; parsed := DemoLoad.pol; kid := DemoLoad.kid;
     main_map := DemoLoad.main_map; pols := [DemoLoad.pol]; output := no_effects |}.

Definition waiting : system := up_to false.

Definition steps : list sys_label := replicate 11 (SLoader LMain).

Lemma parsed_policy : parse_sentinel_section DemoLoad.env "/bin/guarded" MAX_POLICY_ENTRIES = Ok DemoLoad.pol.
Proof. vm_compute. reflexivity. Qed.

Definition base : Z := get_libc_base (Some DemoLoad.maps).

Lemma base_alive : child_ended base 0 = false.
Proof. vm_compute. reflexivity. Qed.

Lemma libc_found : wait_for_libc wait_fuel (fun _ => Some DemoLoad.maps) (fun _ => false) 0 = Some (base, 0).
Proof. unfold wait_fuel. vm_compute. reflexivity. Qed.

(** Main's eleven steps up to the wait. *)
Lemma run_up audit : sys_run audit ENFORCE_KILL "/bin/guarded" start_system steps (up_to audit).
Proof.
  sys_go sys_plain; [done|by apply step_open|].
  sys_go sys_parse; [done|exact parsed_policy|].
  sys_go sys_plain; [done|by apply step_skel|].
  sys_go sys_plain; [done|by apply step_load|].
  sys_go sys_plain; [done|by apply step_attach|].
  sys_go sys_plain; [done|by apply (step_ring _ _ true)|]. rewrite andb_true_r.
  sys_go (sys_fork _ _ _ 4242); [done|done|].
  sys_go sys_plain; [done|by apply step_trapped|].
  sys_go (sys_wait_libc _ _ _ _ _ base 0); [done|exact libc_found|]. rewrite base_alive.
  sys_go (sys_loaded _ _ _ _ _ _ DemoLoad.final DemoLoad.main_map); [done|exact DemoLoad.loaded|].
  sys_go sys_plain; [done|by apply step_detach|]. destruct audit; apply sys_nil.
Qed.

Lemma run : sys_run false ENFORCE_KILL "/bin/guarded" start_system steps waiting.
Proof. exact (run_up false). Qed.

(** With auditing, a SIGHUP and the reload it asks for. *)
Definition after_hup : list sys_label := steps ++ [SLoader LHup; SLoader LMain].

Definition reloaded : system :=
  {| lf := life_up true; maps := DemoLoad.reloaded; parsed := DemoLoad.pol; kid := DemoLoad.kid;
     main_map := DemoLoad.main_map; pols := [DemoLoad.pol; DemoLoad.pol]; output := no_effects |}.

Lemma sys_run_app audit mode binary (s1 s2 s3 : system) ls ls' :
  sys_run audit mode binary s1 ls s2 -> sys_run audit mode binary s2 ls' s3 ->
  sys_run audit mode binary s1 (ls ++ ls') s3.
Proof. intros H H2. induction H; [done|]. cbn. eapply sys_cons; eauto. Qed.

Lemma run_reload : sys_run true ENFORCE_KILL "/bin/guarded" start_system after_hup reloaded.
Proof.
  eapply sys_run_app; [exact (run_up true)|].
  eapply sys_cons; [apply sys_by_signal; [done|by apply by_hup]|].
  sys_go sys_reload; [done|done|exact parsed_policy|exact DemoLoad.reload|by apply step_poll|]. apply sys_nil.
Qed.

End DemoSys.

Lemma system_enforces_witness :
  exists p e, p ∈ pols DemoSys.waiting /\ e ∈ ps_entries p /\
    u64 (u64 (0x401138 - 2) - 0x400000) = u64 (e.1 - default 0 (ps_load_base p)) /\ (0 <= e.2 -> u32 e.2 = 1).
Proof.
  eapply (system_enforces false ENFORCE_KILL "/bin/guarded" DemoSys.steps DemoSys.waiting
    (DemoLoad.task 0x401138 0) "write" 1 _ 0x401138 0x400000 DemoSys.run).
  - reflexivity.
  - left. reflexivity.
  - left.
  - apply sys_by_call.
  - reflexivity.
  - reflexivity.
  - vm_compute. reflexivity.
  - vm_compute. reflexivity.
Defined.

(** A fork of the child, with its own process id. *)
Lemma only_child_enforced_witness :
  exists s', sys_step false ENFORCE_KILL "/bin/guarded" DemoSys.waiting (SCall (Demo.task 4243 0x401202 0) "execve") s' /\
    output s' = output DemoSys.waiting.
Proof.
  eexists. split; [apply sys_by_call|].
  apply (only_child_enforced false ENFORCE_KILL "/bin/guarded" DemoSys.steps DemoSys.waiting
    (Demo.task 4243 0x401202 0) "execve" _ DemoSys.run).
  - apply sys_by_call.
  - vm_compute. discriminate.
Defined.

Lemma enforcement_window_witness :
  exists s', sys_step false ENFORCE_KILL "/bin/guarded" start_system (SCall (DemoLoad.task 0x401138 0) "execve") s' /\
    output s' = output start_system.
Proof.
  eexists. split; [apply sys_by_call|].
  apply (enforcement_window false ENFORCE_KILL "/bin/guarded" [] start_system
    (DemoLoad.task 0x401138 0) "execve" _ (sys_nil _ _ _ _)).
  - apply sys_by_call.
  - left. reflexivity.
Defined.

(** A site of libm, after a reload. *)
Lemma others_decided_by_load_witness :
  exists m0, load_gave "/bin/guarded" DemoSys.reloaded m0 /\
    forall nr, sentinel_check (rodata true ENFORCE_KILL) DemoLoad.reloaded (DemoLoad.task 0x7ffff7c01003 0) nr no_effects =
      sentinel_check (rodata true ENFORCE_KILL) m0 (DemoLoad.task 0x7ffff7c01003 0) nr no_effects.
Proof.
  destruct (others_decided_by_load true ENFORCE_KILL "/bin/guarded" DemoSys.after_hup DemoSys.reloaded DemoSys.run_reload)
    as (m0 & Hl & H); [reflexivity|].
  exists m0. split; [exact Hl|]. intros nr. apply H. intros ip m E. injection E as <-.
  vm_compute. intros E. injection E as <-. discriminate.
Defined.
