(* ===== verification/Pass.v ===== *)
(** * src/compiler/SentinelPass.cpp: the LLVM pass

    The pass sees a module through LLVM's classes: a function is a list of
    basic blocks, a block a label and a list of instructions, and an
    instruction is a call (inline assembly, direct or indirect), an invoke,
    a PHI node, a branch or something else.  What the pass asks LLVM to do
    is the interface [LlvmOps], with the documented behaviour in [LlvmLaws].
    Addresses are symbolic until the linker assigns them. *)
From S2P Require Import Prelude Shared CLib.
From Stdlib Require Import Ascii.

(** ** Known wrappers *)

Definition wrapper_names : list string :=
  [ "write"; "read"; "open"; "close"; "lseek";
    "__write"; "__read"; "__open"; "__close";
    "__libc_write"; "__libc_read"; "__libc_open"; "__libc_close";
    "__sys_write"; "__sys_read";
    "syscall";
    "openat"; "fstat"; "stat"; "lstat"; "fstatat";
    "fork"; "vfork"; "clone"; "execve"; "execveat";
    "mmap"; "munmap"; "mprotect"; "mremap"; "brk";
    "socket"; "connect"; "bind"; "listen"; "accept"; "accept4";
    "send"; "sendto"; "recv"; "recvfrom"; "sendmsg"; "recvmsg";
    "ptrace"; "kill"; "tkill"; "tgkill";
    "sigaction"; "rt_sigaction"; "rt_sigprocmask";
    "printf"; "fprintf"; "vprintf"; "vfprintf"; "sprintf"; "snprintf"; "dprintf";
    "puts"; "fputs"; "putchar"; "fputc"; "putc";
    "fwrite"; "fread"; "fflush";
    "fopen"; "fclose"; "fdopen"; "freopen";
    "fgets"; "fgetc"; "getchar"; "getline"; "getdelim";
    "perror" ].

Definition isKnownSyscallWrapper (Name : string) : bool :=
  existsb (String.eqb Name) wrapper_names.

(** The numbers, in the order of the tests. *)
Definition wrapper_numbers : list (list string * Z) :=
  [ (["write"; "__write"; "__libc_write"], 1);
    (["read"; "__read"; "__libc_read"], 0);
    (["open"; "__open"; "__libc_open"], 2);
    (["close"; "__close"; "__libc_close"], 3);
    (["lseek"], 8); (["openat"], 257); (["fstat"], 5); (["stat"], 4);
    (["lstat"], 6); (["fstatat"], 262);
    (["fork"], 57); (["vfork"], 58); (["clone"], 56); (["execve"], 59); (["execveat"], 322);
    (["mmap"], 9); (["munmap"], 11); (["mprotect"], 10); (["mremap"], 25); (["brk"], 12);
    (["socket"], 41); (["connect"], 42); (["bind"], 49); (["listen"], 50);
    (["accept"], 43); (["accept4"], 288); (["send"; "sendto"], 44); (["recv"; "recvfrom"], 45);
    (["sendmsg"], 46); (["recvmsg"], 47);
    (["ptrace"], 101); (["kill"], 62); (["tkill"], 200); (["tgkill"], 234);
    (["sigaction"; "rt_sigaction"], 13); (["rt_sigprocmask"], 14) ].

Fixpoint number_in (l : list (list string * Z)) (Name : string) : Z :=
  match l with
  | [] => -1
  | (names, nr) :: l => if existsb (String.eqb Name) names then nr else number_in l Name
  end.

Definition getSyscallNumberForWrapper (Name : string) : Z := number_in wrapper_numbers Name.

(** ** The IR *)

(** A [ConstantInt] operand with its sign-extended value, or any other. *)
Inductive operand :=
| ConstInt (v : Z)
| OtherOperand.

Inductive callee :=
| InlineAsm (asm constraints : string)
| Direct (name : string)
| Indirect.

Inductive inst_op :=
| Call (c : callee) (args : list operand)
| Invoke (c : callee) (args : list operand)
| Phi (incoming : list nat)
| Br (target : nat)
| OtherTerminator
| OtherInst.

(** [i_id] is the instruction's identity, as its address is in LLVM. *)
Record inst := { i_id : nat; i_op : inst_op }.
Record basic_block := { bb_label : nat; bb_insts : list inst }.
Record function := {
  fn_name : string;
  fn_uses : bool;
  fn_blocks : list basic_block;
}.

Definition isDeclaration (f : function) : bool :=
  match fn_blocks f with [] => true | _ => false end.

(** ** Constraints of inline assembly *)

Inductive constraint_type := isInput | isOutput | isClobber | isLabel.
Record constraint := {
  c_type : constraint_type;
  c_isIndirect : bool;
  c_codes : list string;
}.

Definition is_rax (code : string) : bool :=
  String.eqb code "a" || String.eqb code "{ax}" || String.eqb code "{rax}" || String.eqb code "{eax}".

Fixpoint rax_operand (cs : list constraint) (args : list operand) (argIdx : nat) : Z :=
  match cs with
  | [] => -1
  | C :: cs =>
      match c_type C with
      | isOutput => rax_operand cs args (if c_isIndirect C then S argIdx else argIdx)
      | isInput =>
          if existsb is_rax (c_codes C) then
            match args !! argIdx with Some (ConstInt v) => v | _ => -1 end
          else rax_operand cs args (S argIdx)
      | _ => rax_operand cs args argIdx
      end
  end.

(** ** Obfuscated syscalls

    The two regular expressions are sequences of single characters,
    optional characters, runs and a word boundary. *)

Inductive item :=
| One (p : ascii -> bool)
| Opt (p : ascii -> bool)
| Many (p : ascii -> bool)
| WordBoundary.

Definition tolower (c : ascii) : ascii :=
  let n := Ascii.nat_of_ascii c in
  if (65 <=? n)%nat && (n <=? 90)%nat then Ascii.ascii_of_nat (n + 32) else c.

Definition is_word (c : ascii) : bool :=
  let n := Ascii.nat_of_ascii c in
  ((48 <=? n)%nat && (n <=? 57)%nat) || ((65 <=? n)%nat && (n <=? 90)%nat) ||
  ((97 <=? n)%nat && (n <=? 122)%nat) || (n =? 95)%nat.

(** [\b] between the character before and the one after. *)
Definition at_boundary (prev : option ascii) (s : string) : bool :=
  let before := match prev with Some c => is_word c | None => false end in
  let after := match s with String c _ => is_word c | EmptyString => false end in
  xorb before after.

(** The pattern matches a prefix of [s]. *)
Fixpoint match_here (pat : list item) (prev : option ascii) (s : string) : bool :=
  match pat with
  | [] => true
  | One p :: pat =>
      match s with String c s' => p c && match_here pat (Some c) s' | EmptyString => false end
  | Opt p :: pat =>
      match s with String c s' => p c && match_here pat (Some c) s' | EmptyString => false end
      || match_here pat prev s
  | Many p :: pat =>
      (fix many (prev : option ascii) (s : string) : bool :=
        match s with String c s' => p c && many (Some c) s' | EmptyString => false end
        || match_here pat prev s) prev s
  | WordBoundary :: pat => at_boundary prev s && match_here pat prev s
  end.

Fixpoint search_from (pat : list item) (prev : option ascii) (s : string) : bool :=
  match_here pat prev s ||
  match s with String c s' => search_from pat (Some c) s' | EmptyString => false end.

Definition regex_search (s : string) (pat : list item) : bool := search_from pat None s.

(** A character under [std::regex::icase], and a literal string of them. *)
Definition ch (c : ascii) : ascii -> bool := fun d => Ascii.eqb (tolower d) (tolower c).
Fixpoint lits (s : string) : list item :=
  match s with EmptyString => [] | String c s => One (ch c) :: lits s end.
Fixpoint opts (s : string) : list item :=
  match s with EmptyString => [] | String c s => Opt (ch c) :: opts s end.

Definition separator : list item :=
  [Many is_space; One (fun c => Ascii.eqb c ("," : ascii)%char || Ascii.eqb c (";" : ascii)%char); Many is_space]
  ++ opts ".byte" ++ [Many is_space].

Definition HexPat : list item :=
  lits ".byte" ++ [One is_space; Many is_space] ++ lits "0x" ++ opts "0" ++ lits "f" ++
  separator ++ lits "0x" ++ opts "0" ++ lits "5".

Definition DecPat : list item :=
  lits ".byte" ++ [One is_space; Many is_space] ++ lits "15" ++
  separator ++ lits "5" ++ [WordBoundary].

Definition containsObfuscatedSyscall (AsmStr : string) : bool :=
  regex_search AsmStr HexPat || regex_search AsmStr DecPat ||
  strstr AsmStr "\x0f\x05" || strstr AsmStr "\x0F\x05".

(** ** run: identifying the sites *)

Definition asm_has_syscall (AsmStr : string) : bool :=
  strstr AsmStr "syscall" || strstr AsmStr "int $0x80" || strstr AsmStr "int $$0x80" ||
  strstr AsmStr "svc #0" || strstr AsmStr "svc 0".

Definition is_syscall (i : inst) : bool :=
  match i_op i with
  | Call (InlineAsm asm _) _ => asm_has_syscall asm || containsObfuscatedSyscall asm
  | Call (Direct name) _ => isKnownSyscallWrapper name
  | _ => false
  end.

(** The warning for a site found only by its bytes. *)
Definition obfuscation_warning (f : function) (i : inst) : list string :=
  match i_op i with
  | Call (InlineAsm asm _) _ =>
      if negb (asm_has_syscall asm) && containsObfuscatedSyscall asm then
        [cat ["[Sentinel] WARNING: Obfuscated syscall detected in "; fn_name f; " via .byte encoding!"]]
      else []
  | _ => []
  end.

Definition fn_insts (f : function) : list inst := fn_blocks f ≫= bb_insts.

Definition fn_syscalls (f : function) : list inst :=
  if isDeclaration f then [] else List.filter is_syscall (fn_insts f).

Definition collect_syscalls (fs : list function) : list inst := fs ≫= fn_syscalls.
Definition collect_warnings (fs : list function) : list string :=
  fs ≫= fun f => if isDeclaration f then [] else fn_insts f ≫= obfuscation_warning f.

(** Names of the declarations in use, without LLVM's own. *)
Definition external_imports (fs : list function) : gset string :=
  list_to_set (fn_name <$> List.filter (fun f =>
    isDeclaration f && negb (String.eqb (fn_name f) EmptyString) && fn_uses f &&
    negb (String.prefix "llvm." (fn_name f))) fs).

(** ** run: instrumentation *)

(** An address the linker resolves. *)
Inductive symbol :=
| SNull
| SBlock (l : nat)
| SFunc (name : string).

Record sym_entry := {
  se_site : symbol;
  se_func : symbol;
  se_nr : Z;
}.

(** [EncodedNr]: 0 is "any". *)
Definition encode_nr (SyscallNr : Z) : Z := if 0 <=? SyscallNr then i64 (SyscallNr + 1) else 0.

(** ** What the pass asks of LLVM

    [InlineAsm::ParseConstraints]; the name of [I->getParent()->getParent()];
    and [splitBasicBlock(I, ..)], given the number of the block LLVM
    allocates for it. *)
Class LlvmOps := {
  ParseConstraints : string -> list constraint;
  getFunction : list function -> inst -> string;
  splitBasicBlock : list function -> inst -> nat -> list function;
}.

Definition is_phi (i : inst) : bool := match i_op i with Phi _ => true | _ => false end.
Definition is_terminator (i : inst) : bool :=
  match i_op i with Invoke _ _ | Br _ | OtherTerminator => true | _ => false end.

Definition named_insts (fs : list function) : list (string * inst) :=
  fs ≫= fun f => pair (fn_name f) <$> fn_insts f.
Definition site_id (p : string * inst) : nat := i_id p.2.

Definition terminated (b : basic_block) : Prop :=
  exists xs t, bb_insts b = xs ++ [t] /\ is_terminator t = true.

(** Valid IR, in which numbers from [n0] on are unused: instructions have
    distinct identities, and every block ends with a terminator. *)
Definition module_wf (n0 : nat) (fs : list function) : Prop :=
  NoDup (site_id <$> named_insts fs) /\
  Forall (fun p => site_id p < n0)%nat (named_insts fs) /\
  Forall (fun f => Forall (fun b => bb_label b < n0 /\ terminated b)%nat (fn_blocks f)) fs.

(** An instruction after a split: the incoming blocks of a PHI node may have
    been redirected to the new block, and nothing else changes. *)
Definition kept (i i' : inst) : Prop :=
  i_id i' = i_id i /\ if is_phi i then is_phi i' = true else i' = i.
Definition kept_block (b b' : basic_block) : Prop :=
  bb_label b' = bb_label b /\ Forall2 kept (bb_insts b) (bb_insts b').

(** The documented effect of a split: the instructions before [I] stay in
    the block and a branch to the new block is added to it; the rest, with
    the old terminator, moves to the new block. *)
Inductive split_of (I : inst) (new : nat) : list function -> list function -> Prop :=
| split_of_intro fs1 f fs2 bs1 b bs2 pre post bs1' bs2' pre' post' :
    fn_blocks f = bs1 ++ b :: bs2 -> bb_insts b = pre ++ I :: post ->
    Forall2 kept_block bs1 bs1' -> Forall2 kept_block bs2 bs2' ->
    Forall2 kept pre pre' -> Forall2 kept post post' ->
    split_of I new (fs1 ++ f :: fs2) (fs1 ++
      {| fn_name := fn_name f; fn_uses := fn_uses f;
         fn_blocks := bs1' ++
           {| bb_label := bb_label b; bb_insts := pre' ++ [ {| i_id := new; i_op := Br new |} ] |} ::
           {| bb_label := new; bb_insts := I :: post' |} :: bs2' |} :: fs2).

Class LlvmLaws (L : LlvmOps) : Prop := {
  getFunction_spec n0 fs n I :
    module_wf n0 fs -> (n, I) ∈ named_insts fs -> getFunction fs I = n;
  splitBasicBlock_spec n0 fs n I :
    module_wf n0 fs -> (n, I) ∈ named_insts fs -> is_phi I = false -> is_terminator I = false ->
    split_of I n0 fs (splitBasicBlock fs I n0);
}.

Section Run.
Context {L : LlvmOps}.

Definition extractSyscallNumberFromAsm (constraints : string) (args : list operand) : Z :=
  rax_operand (ParseConstraints constraints) args 0.

Definition syscall_number (i : inst) : Z :=
  match i_op i with
  | Call (InlineAsm _ constraints) args => extractSyscallNumberFromAsm constraints args
  | Call (Direct name) _ => getSyscallNumberForWrapper name
  | _ => -1
  end.

Record instr_state := {
  st_fns : list function;
  st_next : nat;
  st_entries : list sym_entry;
  st_errs : list string;
}.

(** One iteration of [for (Instruction *I : Syscalls)]. *)
Definition instrument (s : instr_state) (I : inst) : instr_state :=
  let F := getFunction (st_fns s) I in
  let NewBB := st_next s in
  let SyscallNr := syscall_number I in
  {| st_fns := splitBasicBlock (st_fns s) I NewBB;
     st_next := S (st_next s);
     st_entries := st_entries s ++
       [ {| se_site := SBlock NewBB; se_func := SFunc F; se_nr := encode_nr SyscallNr |} ];
     st_errs := st_errs s ++
       [ cat [ "[Sentinel] Captured syscall site in "; F;
               if 0 <=? SyscallNr then cat [" (nr="; fmt_zu SyscallNr; ")"] else " (nr=any)" ] ] |}.

(** The types of the table, as the pass declares them to LLVM. *)
Definition SentinelEntry : struct :=
  {| s_packed := false; s_members := [scalar "Site" 8; scalar "Function" 8; scalar "Size" 8] |}.
Definition SentinelHeader : struct :=
  {| s_packed := true; s_members := [array "Magic" 1 4; scalar "Version" 1; scalar "Count" 4] |}.

(** A packed global: the header and the entries, before linking. *)
Record policy_table := {
  pt_section : string;
  pt_header : sentinel_header;
  pt_entries : list sym_entry;
}.

Record module_ := {
  m_functions : list function;
  m_used : option (list string);
  m_policy : list policy_table;
}.

Definition dummy_entry : sym_entry := {| se_site := SNull; se_func := SNull; se_nr := 0 |}.

Record run_result := {
  rr_module : module_;
  rr_modified : bool;
  rr_errs : list string;
}.

(** The table joins the globals in [llvm.used], which is created if absent. *)
Definition append_used (used : option (list string)) (name : string) : option (list string) :=
  Some (default [] used ++ [name]).

(** [next] is above every label and identity of the module. *)
Definition run (M : module_) (next : nat) : run_result :=
  let Syscalls := collect_syscalls (m_functions M) in
  let s := foldl instrument
    {| st_fns := m_functions M; st_next := next; st_entries := [];
       st_errs := collect_warnings (m_functions M) |} Syscalls in
  let '(PolicyEntries, errs) :=
    match st_entries s with
    | [] => ([dummy_entry], st_errs s ++
        ["[Sentinel] No syscalls found. Creating dummy entry to prevent stripping."])
    | es => (es, st_errs s)
    end in
  let n := Z.of_nat (length PolicyEntries) in
  {| rr_module := {|
       m_functions := st_fns s;
       m_used := append_used (m_used M) "__sentinel_policy";
       m_policy := m_policy M ++
         [ {| pt_section := ".llvm.syscall.bounds";
              pt_header := {| magic := [0x7f; 83; 69; 78]; version := 1; count := u32 n |};
              pt_entries := PolicyEntries |} ] |};
     rr_modified := negb (match Syscalls with [] => true | _ => false end);
     rr_errs := errs ++
       [cat ["[Sentinel] Injected "; fmt_zu n; " precise entries into .llvm.syscall.bounds section."]] |}.

End Run.

(** ** Linking

    The linker gives every symbol an address and lays out the packed
    constant; sections of one name are concatenated without padding, since
    the table is aligned to one byte. *)

Definition sym_addr (link : symbol -> Z) (s : symbol) : Z :=
  match s with SNull => 0 | _ => link s end.

Definition linked_entry (link : symbol -> Z) (e : sym_entry) : policy_entry :=
  {| site_addr := sym_addr link (se_site e);
     func_addr := sym_addr link (se_func e);
     syscall_nr := se_nr e |}.

Definition header_bytes (h : sentinel_header) : list Z :=
  struct_image SentinelHeader [le_Z (magic h); version h; count h].
Definition entry_bytes (e : policy_entry) : list Z :=
  struct_image SentinelEntry [site_addr e; func_addr e; syscall_nr e].

Definition table_image (link : symbol -> Z) (t : policy_table) : list Z :=
  header_bytes (pt_header t) ++ (pt_entries t ≫= fun e => entry_bytes (linked_entry link e)).
