(* ===== verification/PassProps.v ===== *)
(** * Properties of the LLVM pass *)
From S2P Require Import Prelude Shared CLib Pass.
From Stdlib Require Import Ascii.

(** ** Splitting blocks *)

Lemma kept_ids l l' : Forall2 kept l l' -> i_id <$> l' = i_id <$> l.
Proof. induction 1 as [|i i' l l' [E _] _ IH]; [done|]. cbn. by rewrite E, IH. Qed.

Lemma kept_insts bs bs' : Forall2 kept_block bs bs' -> Forall2 kept (bs ≫= bb_insts) (bs' ≫= bb_insts).
Proof. induction 1 as [|b b' bs bs' [_ H] _ IH]; [constructor|]. by apply Forall2_app. Qed.

Lemma kept_elem l l' i : Forall2 kept l l' -> is_phi i = false -> i ∈ l -> i ∈ l'.
Proof.
  intros H Hp Hi. induction H as [|x x' l l' [_ Hx] _ IH]; [by apply elem_of_nil in Hi|].
  apply elem_of_cons in Hi as [<-|Hi]; [rewrite Hp in Hx; subst; left|right; auto].
Qed.

Lemma kept_head l l' i : Forall2 kept l l' -> is_phi i = false -> head l = Some i -> head l' = Some i.
Proof. destruct 1 as [|x x' l l' [_ Hx] _]; [done|]. intros Hp [= ->]. rewrite Hp in Hx. by subst. Qed.

Lemma kept_terminator i i' : kept i i' -> is_terminator i = true -> is_terminator i' = true.
Proof.
  intros [_ H] Ht. destruct (is_phi i) eqn:E; [|by subst].
  unfold is_phi, is_terminator in *. by destruct (i_op i).
Qed.

Lemma kept_terminated b b' : terminated b -> Forall2 kept (bb_insts b) (bb_insts b') -> terminated b'.
Proof.
  intros (xs & t & E & Ht) H. rewrite E in H.
  apply Forall2_app_inv_l in H as (xs' & ts & _ & H & E').
  inversion H as [|? t' ? ? Hk Hn]; subst. inversion Hn; subst. exists xs', t'. eauto using kept_terminator.
Qed.

(** The rest of a block after an instruction that is no terminator. *)
Lemma terminated_suffix b pre i post l :
  terminated b -> bb_insts b = pre ++ i :: post -> is_terminator i = false ->
  terminated {| bb_label := l; bb_insts := i :: post |}.
Proof.
  intros (xs & t & E & Ht) Eb Hi. rewrite Eb in E. destruct post as [|y post _] using rev_ind.
  - apply app_inj_tail in E as [_ <-]. congruence.
  - rewrite app_comm_cons, app_assoc in E. apply app_inj_tail in E as [_ ->]. by exists (i :: post), t.
Qed.

(** Block [l] starts with instruction [i]. *)
Definition starts_at (bs : list basic_block) (l : nat) (i : inst) : Prop :=
  exists b, b ∈ bs /\ bb_label b = l /\ head (bb_insts b) = Some i.

Definition fn_starts_at (fs : list function) (fname : string) (l : nat) (i : inst) : Prop :=
  exists f, f ∈ fs /\ fn_name f = fname /\ starts_at (fn_blocks f) l i.

Lemma kept_starts bs bs' l i :
  Forall2 kept_block bs bs' -> is_phi i = false -> starts_at bs l i -> starts_at bs' l i.
Proof.
  intros H Hp (b & [k Hk]%list_elem_of_lookup_1 & Hl & Hh).
  destruct (Forall2_lookup_l _ _ _ _ _ H Hk) as (b' & Hb' & E & Hi).
  exists b'. split_and!; [by eapply list_elem_of_lookup_2|congruence|by eapply kept_head].
Qed.

Lemma starts_at_app bs1 bs2 l i : starts_at (bs1 ++ bs2) l i <-> starts_at bs1 l i \/ starts_at bs2 l i.
Proof. unfold starts_at. setoid_rewrite elem_of_app. naive_solver. Qed.

Lemma starts_at_cons b bs l i :
  starts_at (b :: bs) l i <-> (bb_label b = l /\ head (bb_insts b) = Some i) \/ starts_at bs l i.
Proof. unfold starts_at. setoid_rewrite elem_of_cons. naive_solver. Qed.

Lemma elem_of_named n i fs : (n, i) ∈ named_insts fs <-> exists f, f ∈ fs /\ fn_name f = n /\ i ∈ fn_insts f.
Proof.
  unfold named_insts. rewrite list_elem_of_bind. setoid_rewrite list_elem_of_fmap. naive_solver.
Qed.

Lemma named_ids fs : site_id <$> named_insts fs = i_id <$> (fs ≫= fn_insts).
Proof.
  induction fs as [|f fs IH]; [done|]. unfold named_insts in *. cbn [mbind list_bind].
  rewrite !fmap_app, <- IH. f_equal. rewrite <- list_fmap_compose. done.
Qed.

(** ** What a split keeps and adds *)

Section Split.
Context (I : inst) (new : nat) (fs fs' : list function).
Hypothesis Hs : split_of I new fs fs'.

Lemma split_ids : site_id <$> named_insts fs' ≡ₚ new :: (site_id <$> named_insts fs).
Proof.
  rewrite !named_ids. destruct Hs as [fs1 f fs2 bs1 b bs2 pre post bs1' bs2' pre' post' Ef Eb H1 H2 H3 H4].
  rewrite !bind_app. cbn [mbind list_bind]. unfold fn_insts. cbn [fn_blocks]. rewrite Ef, !bind_app.
  cbn [mbind list_bind bb_insts]. rewrite Eb, !fmap_app. cbn [fmap list_fmap i_id].
  rewrite (kept_ids _ _ (kept_insts _ _ H1)), (kept_ids _ _ (kept_insts _ _ H2)),
    (kept_ids _ _ H3), (kept_ids _ _ H4). cbn [fmap list_fmap i_id].
  rewrite <- !app_assoc. cbn [app]. rewrite !Permutation_middle. solve_Permutation.
Qed.

Lemma split_starts_new : exists n, (n, I) ∈ named_insts fs /\ fn_starts_at fs' n new I.
Proof.
  destruct Hs as [fs1 f fs2 bs1 b bs2 pre post bs1' bs2' pre' post' Ef Eb H1 H2 H3 H4].
  exists (fn_name f). split.
  - apply elem_of_named. exists f. unfold fn_insts. rewrite Ef. split_and!; [set_solver|done|].
    rewrite bind_app. cbn [mbind list_bind]. rewrite Eb. set_solver.
  - eexists. split; [apply elem_of_app; right; left|]. split; [done|]. cbn [fn_blocks].
    rewrite starts_at_app, !starts_at_cons. right. right. by left.
Qed.

Lemma split_starts n l i :
  is_phi i = false -> i <> I -> fn_starts_at fs n l i -> fn_starts_at fs' n l i.
Proof.
  intros Hp Hi (g & Hg & Hn & Hst).
  destruct Hs as [fs1 f fs2 bs1 b bs2 pre post bs1' bs2' pre' post' Ef Eb H1 H2 H3 H4].
  apply elem_of_app in Hg as [Hg|[->|Hg]%elem_of_cons]; [exists g; set_solver| |exists g; set_solver].
  eexists. split; [apply elem_of_app; right; left|]. split; [done|]. cbn [fn_blocks].
  rewrite Ef in Hst. rewrite !starts_at_app, !starts_at_cons in *.
  destruct Hst as [Hst|[[Hl Hh]|Hst]]; [left; by eapply kept_starts| |do 3 right; by eapply kept_starts].
  right. left. split; [done|]. cbn [bb_insts]. rewrite Eb in Hh.
  destruct H3 as [|x x' pre pre' Hx Hpre]; cbn in *; [congruence|].
  injection Hh as ->. destruct Hx as [_ Hx]. rewrite Hp in Hx. by subst.
Qed.

Lemma split_named n i : is_phi i = false -> (n, i) ∈ named_insts fs -> (n, i) ∈ named_insts fs'.
Proof.
  rewrite !elem_of_named. intros Hp (g & Hg & Hn & Hi).
  destruct Hs as [fs1 f fs2 bs1 b bs2 pre post bs1' bs2' pre' post' Ef Eb H1 H2 H3 H4].
  apply elem_of_app in Hg as [Hg|[->|Hg]%elem_of_cons]; [exists g; set_solver| |exists g; set_solver].
  eexists. split; [apply elem_of_app; right; left|]. split; [done|].
  unfold fn_insts in *. cbn [fn_blocks]. rewrite Ef in Hi. rewrite !bind_app in *. cbn [mbind list_bind bb_insts] in *.
  rewrite Eb in Hi. rewrite !elem_of_app, !elem_of_cons in *.
  pose proof (kept_elem _ _ i (kept_insts _ _ H1) Hp). pose proof (kept_elem _ _ i (kept_insts _ _ H2) Hp).
  pose proof (kept_elem _ _ i H3 Hp). pose proof (kept_elem _ _ i H4 Hp). naive_solver.
Qed.

Lemma split_wf : is_terminator I = false -> module_wf new fs -> module_wf (S new) fs'.
Proof.
  intros Ht (Hnd & Hlt & Hb). assert (Forall (fun k => k < new)%nat (site_id <$> named_insts fs)) as Hids
    by (by apply Forall_fmap). split_and!.
  - rewrite split_ids. apply NoDup_cons. split; [|done]. intros Hin.
    rewrite Forall_forall in Hids. specialize (Hids _ Hin). lia.
  - apply (Forall_fmap site_id (fun k => k < S new)%nat). rewrite split_ids. constructor; [lia|].
    eapply Forall_impl; [exact Hids|]. intros k Hk. cbn in *. lia.
  - clear Hnd Hlt Hids. assert (forall b b', bb_label b < new /\ terminated b -> kept_block b b' ->
      bb_label b' < S new /\ terminated b')%nat as Hk.
    { intros b b' [Hl Hbt] [El Hi]. split; [lia|]. by apply (kept_terminated b). }
    destruct Hs as [fs1 f fs2 bs1 b bs2 pre post bs1' bs2' pre' post' Ef Eb H1 H2 H3 H4].
    assert (forall gs, Forall (fun f => Forall (fun b => bb_label b < new /\ terminated b)%nat (fn_blocks f)) gs ->
      Forall (fun f => Forall (fun b => bb_label b < S new /\ terminated b)%nat (fn_blocks f)) gs) as Hmono.
    { intros gs H. eapply Forall_impl; [exact H|]. intros g Hg. eapply Forall_impl; [exact Hg|]. intros ? []. split; [lia|done]. }
    apply Forall_app in Hb as [Hb1 [Hf Hb2]%Forall_cons]. apply Forall_app. split; [by apply Hmono|].
    constructor; [|by apply Hmono]. cbn [fn_blocks]. rewrite Ef in Hf.
    apply Forall_app in Hf as [F1 [[Fl Ft] F2]%Forall_cons]. apply Forall_app. split.
    { clear -H1 F1 Hk. induction H1; inversion F1; subst; constructor; eauto. }
    constructor; [split; [cbn; lia|by eexists _, _]|].
    constructor; [split; [cbn; lia|]|clear -H2 F2 Hk; induction H2; inversion F2; subst; constructor; eauto].
    apply (kept_terminated {| bb_label := new; bb_insts := I :: post |}); [by eapply terminated_suffix|].
    constructor; [split; [done|by destruct (is_phi I)]|done].
Qed.
End Split.

(** ** The sites of a module *)

(** The instructions that are syscall sites, in program order, with the
    function they are in. *)
Definition sites (fs : list function) : list (string * inst) :=
  List.filter (fun p => is_syscall p.2) (named_insts fs).

Lemma collect_syscalls_sites fs : collect_syscalls fs = snd <$> sites fs.
Proof.
  unfold collect_syscalls, sites, named_insts.
  induction fs as [|f fs IH]; [done|]. cbn [mbind list_bind].
  rewrite List.filter_app, fmap_app, <- IH. f_equal. unfold fn_syscalls.
  assert (List.filter is_syscall (fn_insts f) =
    snd <$> List.filter (fun p => is_syscall p.2) (pair (fn_name f) <$> fn_insts f)) as <-.
  { induction (fn_insts f) as [|i l IHl]; [done|]. cbn. destruct (is_syscall i); cbn; by rewrite IHl. }
  unfold fn_insts, isDeclaration. by destruct (fn_blocks f).
Qed.

Lemma elem_of_sites p fs : p ∈ sites fs -> p ∈ named_insts fs /\ is_syscall p.2 = true.
Proof. intros Hp%list_elem_of_In. apply filter_In in Hp as [? ?]. by rewrite list_elem_of_In. Qed.

(** A site is a call. *)
Lemma is_syscall_call i : is_syscall i = true -> is_phi i = false /\ is_terminator i = false.
Proof. unfold is_syscall, is_phi, is_terminator. by destruct (i_op i). Qed.

Lemma NoDup_fmap_key {A B} (f : A -> B) l x y :
  NoDup (f <$> l) -> x ∈ l -> y ∈ l -> f x = f y -> x = y.
Proof.
  intros Hnd [i Hi]%list_elem_of_lookup_1 [j Hj]%list_elem_of_lookup_1 E.
  assert (i = j) as <-; [|congruence].
  eapply NoDup_lookup; [done| |]; rewrite list_lookup_fmap; [by rewrite Hi|by rewrite Hj, E].
Qed.

Lemma NoDup_filter_key {A B} (f : A -> B) (p : A -> bool) l :
  NoDup (f <$> l) -> NoDup (f <$> List.filter p l).
Proof.
  induction l as [|x l IH]; [done|]. cbn. rewrite NoDup_cons. intros [Hx Hl].
  destruct (p x); [|auto]. cbn. apply NoDup_cons. split; [|auto].
  intros (y & E & Hy)%list_elem_of_fmap. apply Hx. rewrite E. apply list_elem_of_fmap_2.
  by apply list_elem_of_In, filter_In, proj1, list_elem_of_In in Hy.
Qed.

Section Fold.
Context {L : LlvmOps} {HL : LlvmLaws L} (n0 : nat) (fs : list function).

Definition entry_for (k : nat) (p : string * inst) : sym_entry :=
  {| se_site := SBlock (n0 + k); se_func := SFunc p.1; se_nr := encode_nr (syscall_number p.2) |}.

Definition fold_inv (done_ : list (string * inst)) (s : instr_state) : Prop :=
  module_wf (st_next s) (st_fns s) /\
  (forall n i, is_phi i = false -> (n, i) ∈ named_insts fs -> (n, i) ∈ named_insts (st_fns s)) /\
  st_next s = (n0 + length done_)%nat /\
  st_entries s = imap entry_for done_ /\
  forall k n i, done_ !! k = Some (n, i) -> is_phi i = false /\ fn_starts_at (st_fns s) n (n0 + k) i.

Lemma instrument_step done_ s p :
  fold_inv done_ s -> p ∈ sites fs -> site_id p ∉ site_id <$> done_ ->
  fold_inv (done_ ++ [p]) (instrument s p.2).
Proof.
  intros (Hw & Hc & Hn & He & Hs) [Hp [Hphi Hterm]%is_syscall_call]%elem_of_sites Hnew.
  destruct p as [n i]. cbn [snd] in *. pose proof (Hc n i Hphi Hp) as Hin.
  pose proof (splitBasicBlock_spec _ _ _ _ Hw Hin Hphi Hterm) as Hsp.
  split_and!; cbn [instrument st_fns st_next st_entries].
  - by eapply split_wf.
  - intros m j Hj Hm. eapply split_named; eauto.
  - rewrite length_app, Hn. cbn. lia.
  - rewrite He, imap_app. do 2 f_equal. unfold entry_for. cbn.
    by rewrite (getFunction_spec _ _ _ _ Hw Hin), Hn, Nat.add_0_r.
  - intros k m j [Hk|[Hge Hk]]%lookup_app_Some.
    + destruct (Hs k m j Hk) as [Hj Hst]. split; [done|]. eapply split_starts; [done|done| |done].
      intros ->. apply Hnew. apply (list_elem_of_fmap_2 site_id done_ (m, i)). by eapply list_elem_of_lookup_2.
    + apply list_lookup_singleton_Some in Hk as [Hk [= <- <-]].
      replace (n0 + k)%nat with (st_next s) by lia. split; [done|].
      destruct (split_starts_new _ _ _ _ Hsp) as (m & Hm & Hst).
      destruct Hw as (Hnd & _). assert ((m, i) = (n, i)) as [= ->] by (by eapply NoDup_fmap_key). done.
Qed.

Lemma instrument_fold todo done_ s :
  fold_inv done_ s -> Forall (fun p => p ∈ sites fs) todo -> NoDup (site_id <$> (done_ ++ todo)) ->
  fold_inv (done_ ++ todo) (foldl instrument s (snd <$> todo)).
Proof.
  revert done_ s. induction todo as [|p todo IH]; intros done_ s Hi Hin Hnd; cbn.
  - by rewrite app_nil_r.
  - inversion Hin; subst. rewrite (cons_middle p done_ todo), (app_assoc done_ [p]) in *.
    apply IH; [|done|done]. apply instrument_step; [done|done|].
    rewrite !fmap_app in Hnd. apply NoDup_app in Hnd as (Hnd & _).
    apply NoDup_app in Hnd as (_ & Hnd & _). intros ?%Hnd. set_solver.
Qed.
End Fold.

(** ** Theorems *)

Lemma run_fold {L : LlvmOps} {HL : LlvmLaws L} n0 M :
  module_wf n0 (m_functions M) ->
  fold_inv n0 (m_functions M) (sites (m_functions M))
    (foldl instrument
      {| st_fns := m_functions M; st_next := n0; st_entries := [];
         st_errs := collect_warnings (m_functions M) |}
      (collect_syscalls (m_functions M))).
Proof.
  intros Hwf. rewrite collect_syscalls_sites. apply (instrument_fold n0 (m_functions M) (sites (m_functions M)) []).
  - split_and!; cbn; [done|done|lia|done|done].
  - by apply Forall_forall.
  - cbn. apply NoDup_filter_key. by destruct Hwf.
Qed.

(** C10: The pass records exactly the syscall sites: it adds one table, in
    section .llvm.syscall.bounds and kept alive by llvm.used, whose entries
    are the sites of the module in program order with their encoded number
    (or the one dummy entry when there are none); the block each entry names
    starts with the site's instruction; and the header counts the entries. *)
Theorem run_records_sites {L : LlvmOps} {HL : LlvmLaws L} n0 M :
  module_wf n0 (m_functions M) ->
  exists t, let M' := rr_module (run M n0) in
    m_policy M' = m_policy M ++ [t] /\
    m_used M' = Some (default [] (m_used M) ++ ["__sentinel_policy"]) /\
    pt_section t = ".llvm.syscall.bounds" /\
    pt_header t = {| magic := [127; 83; 69; 78]; version := SENTINEL_POLICY_VERSION;
                     count := u32 (Z.of_nat (length (pt_entries t))) |} /\
    pt_entries t = match sites (m_functions M) with
                   | [] => [dummy_entry]
                   | ss => imap (entry_for n0) ss
                   end /\
    forall k n i, sites (m_functions M) !! k = Some (n, i) ->
      fn_starts_at (m_functions M') n (n0 + k) i.
Proof.
  intros Hwf. pose proof (run_fold n0 M Hwf) as (_ & _ & _ & He & Hs). unfold run.
  set (s := foldl _ _ _) in *. rewrite He.
  destruct (sites (m_functions M)) as [|p ps]; eexists; (split_and!; [reflexivity|done..|]);
    [done|]. intros k n i Hk. by apply Hs.
Qed.

(** Every wrapper that has a number is a known wrapper, so a recorded
    number always comes from the table of the wrapper that was called; and
    the wrappers without one are the generic [syscall], the internal
    [__sys_*] aliases and buffered I/O. *)
Theorem wrapper_numbers_known name :
  (0 <= getSyscallNumberForWrapper name -> isKnownSyscallWrapper name = true) /\
  (isKnownSyscallWrapper name = true -> getSyscallNumberForWrapper name < 0 ->
   name ∈ ["syscall"; "__sys_write"; "__sys_read"] ++ drop 50 wrapper_names).
Proof.
  split.
  - unfold getSyscallNumberForWrapper.
    assert (Forall (fun p => Forall (fun n => isKnownSyscallWrapper n = true) p.1) wrapper_numbers) as H
      by (repeat constructor).
    induction H as [|[ns nr] l Hp _ IH]; cbn [number_in]; [done|].
    destruct (existsb (String.eqb name) ns) eqn:E; [|apply IH]. intros _.
    apply existsb_exists in E as (n & Hn & ->%String.eqb_eq).
    rewrite Forall_forall in Hp. apply Hp. by apply list_elem_of_In.
  - intros Hk Hn. apply existsb_exists in Hk as (n & Hin & <-%String.eqb_eq).
    assert (forallb (fun n => (0 <=? getSyscallNumberForWrapper n) ||
      existsb (String.eqb n) (["syscall"; "__sys_write"; "__sys_read"] ++ drop 50 wrapper_names))
      wrapper_names = true) as H by (vm_compute; reflexivity).
    rewrite forallb_forall in H. specialize (H _ Hin).
    apply orb_true_iff in H as [H%Z.leb_le|H]; [lia|].
    apply existsb_exists in H as (m & Hm & <-%String.eqb_eq). by apply list_elem_of_In.
Qed.

(** ** The byte patterns *)

Fixpoint all_chars (p : ascii -> bool) (s : string) : bool :=
  match s with EmptyString => true | String c s => p c && all_chars p s end.

(** What the patterns miss and what they take for a syscall: the opcode
    bytes in two directives separated by a newline, or as one 16-bit value,
    are not recorded as a site, nor is a wrapper called with [invoke] (a call
    in a C++ try block), while 0x0f, 0x58 (an SSE addition) is. *)
Theorem obfuscated_bytes_gaps args :
  let site asm := is_syscall {| i_id := 0; i_op := Call (InlineAsm asm EmptyString) args |} in
  site (cat [".byte 0x0f"; nl; ".byte 0x05"]) = false /\
  site ".word 0x050f" = false /\
  is_syscall {| i_id := 0; i_op := Invoke (Direct "write") args |} = false /\
  site ".byte 0x0f, 0x58, 0xc1" = true.
Proof. split_and!; vm_compute; reflexivity. Qed.

(** ** A concrete module *)
Module DemoPass.

(** The constraint parser for the strings of the demo. *)
Definition parse (c : string) : list constraint :=
  if String.eqb c "={ax},{ax},{di}" then
    [ {| c_type := isOutput; c_isIndirect := false; c_codes := ["{ax}"] |};
      {| c_type := isInput; c_isIndirect := false; c_codes := ["{ax}"] |};
      {| c_type := isInput; c_isIndirect := false; c_codes := ["{di}"] |} ]
  else [].

(** An implementation of LLVM's operations on modules. *)
Fixpoint split_first {A} (p : A -> bool) (l : list A) : option (list A * A * list A) :=
  match l with
  | [] => None
  | x :: l =>
      if p x then Some ([], x, l)
      else match split_first p l with Some (pre, y, post) => Some (x :: pre, y, post) | None => None end
  end.

Definition same (i j : inst) : bool := (i_id j =? i_id i)%nat.
Definition in_block (i : inst) (b : basic_block) : bool := existsb (same i) (bb_insts b).
Definition in_fn (i : inst) (f : function) : bool := existsb (in_block i) (fn_blocks f).

Definition retarget (old new : nat) (i : inst) : inst :=
  match i_op i with
  | Phi ls => {| i_id := i_id i; i_op := Phi ((fun l => if (l =? old)%nat then new else l) <$> ls) |}
  | _ => i
  end.
Definition retarget_block (old new : nat) (b : basic_block) : basic_block :=
  {| bb_label := bb_label b; bb_insts := retarget old new <$> bb_insts b |}.

Definition split_fn (i : inst) (new : nat) (f : function) : function :=
  match split_first (in_block i) (fn_blocks f) with
  | Some (bs1, b, bs2) =>
      match split_first (same i) (bb_insts b) with
      | Some (pre, x, post) =>
          let r := retarget (bb_label b) new in
          let rb := retarget_block (bb_label b) new in
          {| fn_name := fn_name f; fn_uses := fn_uses f;
             fn_blocks := (rb <$> bs1) ++
               {| bb_label := bb_label b; bb_insts := (r <$> pre) ++ [ {| i_id := new; i_op := Br new |} ] |} ::
               {| bb_label := new; bb_insts := x :: (r <$> post) |} :: (rb <$> bs2) |}
      | None => f
      end
  | None => f
  end.

#[export] Instance llvm : LlvmOps := {
  ParseConstraints := parse;
  getFunction fs i :=
    match split_first (in_fn i) fs with Some (_, f, _) => fn_name f | None => EmptyString end;
  splitBasicBlock fs i new :=
    match split_first (in_fn i) fs with
    | Some (fs1, f, fs2) => fs1 ++ split_fn i new f :: fs2
    | None => fs
    end;
}.

Lemma split_first_spec {A} (p : A -> bool) l x :
  x ∈ l -> p x = true -> exists pre y post, split_first p l = Some (pre, y, post) /\ l = pre ++ y :: post /\ p y = true.
Proof.
  induction l as [|z l IH]; [by intros ?%elem_of_nil|]. intros Hx Hp. cbn.
  destruct (p z) eqn:E; [by exists [], z, l|].
  apply elem_of_cons in Hx as [->|Hx]; [congruence|].
  destruct (IH Hx Hp) as (pre & y & post & -> & -> & Hy). by exists (z :: pre), y, post.
Qed.

Lemma kept_retarget old new l : Forall2 kept l (retarget old new <$> l).
Proof.
  induction l as [|i l IH]; constructor; [|done]. unfold kept, retarget, is_phi. by destruct i as [k []].
Qed.

Lemma kept_retarget_block old new bs : Forall2 kept_block bs (retarget_block old new <$> bs).
Proof. induction bs; constructor; [split; [done|apply kept_retarget]|done]. Qed.

(** Where an instruction of a valid module is found. *)
Lemma find_inst n0 fs n i :
  module_wf n0 fs -> (n, i) ∈ named_insts fs ->
  exists fs1 f fs2 bs1 b bs2 pre post,
    split_first (in_fn i) fs = Some (fs1, f, fs2) /\ fs = fs1 ++ f :: fs2 /\ fn_name f = n /\
    split_first (in_block i) (fn_blocks f) = Some (bs1, b, bs2) /\ fn_blocks f = bs1 ++ b :: bs2 /\
    split_first (same i) (bb_insts b) = Some (pre, i, post) /\ bb_insts b = pre ++ i :: post.
Proof.
  intros (Hnd & _) Hin. pose proof Hin as (g & Hg & Hn & (c & Hic & Hc)%list_elem_of_bind)%elem_of_named.
  assert (forall c, i ∈ bb_insts c -> in_block i c = true) as Hib.
  { intros d Hd. apply existsb_exists. exists i. split; [by apply list_elem_of_In|apply Nat.eqb_refl]. }
  assert (in_fn i g = true) as Hig
    by (apply existsb_exists; exists c; split; [by apply list_elem_of_In|auto]).
  destruct (split_first_spec _ _ _ Hg Hig) as (fs1 & f & fs2 & E1 & Ef & Hf).
  apply existsb_exists in Hf as (d & Hd%list_elem_of_In & Hib').
  destruct (split_first_spec _ _ _ Hd Hib') as (bs1 & b & bs2 & E2 & Eb & Hb).
  apply existsb_exists in Hb as (x & Hx%list_elem_of_In & Hsame).
  destruct (split_first_spec _ _ _ Hx Hsame) as (pre & y & post & E3 & Ey & Hy).
  assert ((fn_name f, y) = (n, i)) as [= Hfn ->].
  { eapply (NoDup_fmap_key site_id); [exact Hnd| |exact Hin|by apply Nat.eqb_eq].
    apply elem_of_named. exists f. rewrite Ef. unfold fn_insts. rewrite Eb, bind_app. cbn [mbind list_bind].
    rewrite Ey. set_solver. }
  by exists fs1, f, fs2, bs1, b, bs2, pre, post.
Qed.

#[export] Instance llvm_laws : LlvmLaws llvm.
Proof.
  split.
  - intros n0 fs n i Hw Hin.
    destruct (find_inst n0 fs n i Hw Hin) as (fs1 & f & fs2 & _ & _ & _ & _ & _ & E1 & _ & Hf & _).
    cbn. by rewrite E1.
  - intros n0 fs n i Hw Hin _ _.
    destruct (find_inst n0 fs n i Hw Hin) as (fs1 & f & fs2 & bs1 & b & bs2 & pre & post & E1 & -> & _ & E2 & Eb & E3 & Ei).
    cbn [splitBasicBlock llvm]. rewrite E1. unfold split_fn. rewrite E2, E3.
    apply (split_of_intro i n0 fs1 f fs2 bs1 b bs2 pre post); auto using kept_retarget, kept_retarget_block.
Qed.

Definition main : function := {|
  fn_name := "main"; fn_uses := false;
  fn_blocks := [
    {| bb_label := 0; bb_insts := [
         {| i_id := 0; i_op := OtherInst |};
         {| i_id := 1; i_op := Call (Direct "write") [OtherOperand] |};
         {| i_id := 2; i_op := Call (InlineAsm "syscall" "={ax},{ax},{di}") [ConstInt 60; ConstInt 0] |};
         {| i_id := 3; i_op := Br 1 |} ] |};
    {| bb_label := 1; bb_insts := [
         {| i_id := 4; i_op := Phi [0%nat] |};
         {| i_id := 5; i_op := Call (Direct "printf") [OtherOperand] |};
         {| i_id := 6; i_op := OtherTerminator |} ] |} ] |}.

Definition write_decl : function := {| fn_name := "write"; fn_uses := true; fn_blocks := [] |}.

Definition M : module_ := {| m_functions := [main; write_decl]; m_used := None; m_policy := [] |}.

Lemma wf : module_wf 7 (m_functions M).
Proof.
  split_and!; [vm_compute; repeat (constructor; [set_solver|]); constructor|repeat constructor; cbn; lia|].
  constructor; [constructor; [|constructor; [|constructor]]|constructor; constructor]; (split; [cbn; lia|]).
  - by eexists [_; _; _], _.
  - by eexists [_; _], _.
Qed.

End DemoPass.

Lemma run_records_sites_witness :
  exists t, m_policy (rr_module (run (L := DemoPass.llvm) DemoPass.M 7)) = [t] /\
    pt_entries t =
      [ {| se_site := SBlock 7; se_func := SFunc "main"; se_nr := 2 |};
        {| se_site := SBlock 8; se_func := SFunc "main"; se_nr := 61 |};
        {| se_site := SBlock 9; se_func := SFunc "main"; se_nr := 0 |} ].
Proof.
  destruct (run_records_sites (HL := DemoPass.llvm_laws) 7 DemoPass.M DemoPass.wf) as (t & Ht & _ & _ & _ & He & _).
  exists t. split; [exact Ht|]. rewrite He. vm_compute. reflexivity.
Defined.
