(* ===== verification/RegexProps.v ===== *)
(** * The byte patterns of the pass, as languages

    What each pattern item stands for, in the context of the characters
    around it; that the backtracking search finds a match exactly when the
    text contains a word of the pattern's language; and which spellings of
    the syscall opcode those words are. *)
From S2P Require Import Prelude CLib Pass PassProps.
From Stdlib Require Import Ascii.

(** The character before the point after [w], which follows [prev]. *)
Fixpoint last_char (prev : option ascii) (w : string) : option ascii :=
  match w with EmptyString => prev | String c w => last_char (Some c) w end.

(** [w], between [prev] and [after], is matched by one item. *)
Definition item_lang (it : item) (prev : option ascii) (w after : string) : Prop :=
  match it with
  | One p => exists c, w = String c EmptyString /\ p c = true
  | Opt p => w = EmptyString \/ exists c, w = String c EmptyString /\ p c = true
  | Many p => all_chars p w = true
  | WordBoundary => w = EmptyString /\ at_boundary prev after = true
  end.

(** [w], between [prev] and [post], is matched by the whole pattern. *)
Fixpoint lang (pat : list item) (prev : option ascii) (w post : string) : Prop :=
  match pat with
  | [] => w = EmptyString
  | it :: pat => exists w1 w2, w = String.append w1 w2 /\
      item_lang it prev w1 (String.append w2 post) /\ lang pat (last_char prev w1) w2 post
  end.

(** A match at this point of the text. *)
Definition matches (pat : list item) (prev : option ascii) (s : string) : Prop :=
  exists w post, s = String.append w post /\ lang pat prev w post.

(** One item, then the rest of the pattern. *)
Lemma matches_cons it pat prev s :
  matches (it :: pat) prev s <->
  exists w1 s', s = String.append w1 s' /\ item_lang it prev w1 s' /\ matches pat (last_char prev w1) s'.
Proof.
  split.
  - intros (w & post & -> & w1 & w2 & -> & Hi & Hl). exists w1, (String.append w2 post).
    split_and!; [by rewrite append_assoc|done|by exists w2, post].
  - intros (w1 & s' & -> & Hi & w2 & post & -> & Hl). exists (String.append w1 w2), post.
    split; [by rewrite append_assoc|]. by exists w1, w2.
Qed.

(** The run of [Many], with the rest of the pattern as [k]. *)
Lemma many_spec (p : ascii -> bool) (k : option ascii -> string -> bool) prev s :
  (fix many (prev : option ascii) (s : string) : bool :=
     match s with String c s' => p c && many (Some c) s' | EmptyString => false end || k prev s) prev s = true <->
  exists w s', s = String.append w s' /\ all_chars p w = true /\ k (last_char prev w) s' = true.
Proof.
  revert prev. induction s as [|c s IH]; intros prev.
  - rewrite orb_false_l. split.
    + intros H. by exists EmptyString, EmptyString.
    + intros ([|c w] & s' & E & _ & Hk); [|done]. rewrite append_nil_l in E. by subst s'.
  - rewrite orb_true_iff, andb_true_iff, IH. split.
    + intros [[Hc (w & s' & -> & Hw & Hk)]|Hk]; [|by exists EmptyString, (String c s)].
      exists (String c w), s'. cbn. by rewrite Hc.
    + intros ([|d w] & s' & E & Hw & Hk).
      * right. rewrite append_nil_l in E. by subst s'.
      * rewrite append_cons in E. injection E as <- ->. cbn in Hw. apply andb_true_iff in Hw as [Hc Hw].
        left. split; [done|]. by exists w, s'.
Qed.

Lemma match_here_exact pat prev s : match_here pat prev s = true <-> matches pat prev s.
Proof.
  revert prev s. induction pat as [|it pat IH]; intros prev s.
  { split; [intros _; by exists EmptyString, s|done]. }
  rewrite matches_cons. destruct it as [p|p|p|]; cbn [match_here item_lang].
  - split.
    + destruct s as [|c s]; [done|]. intros [Hc H%IH]%andb_true_iff.
      exists (String c EmptyString), s. split_and!; [done|by exists c|done].
    + intros (w1 & s' & -> & (c & -> & Hc) & H%IH). rewrite append_cons, append_nil_l. cbn in H. by rewrite Hc, H.
  - rewrite orb_true_iff. split.
    + intros [H|H%IH]; [|by exists EmptyString, s; split_and!; [done|left|]].
      destruct s as [|c s]; [done|]. apply andb_true_iff in H as [Hc H%IH].
      exists (String c EmptyString), s. split_and!; [done|right; by exists c|done].
    + intros (w1 & s' & -> & [->|(c & -> & Hc)] & H%IH); [by right|].
      left. rewrite append_cons, append_nil_l. cbn in H. by rewrite Hc, H.
  - rewrite (many_spec p (match_here pat)). split.
    + intros (w & s' & -> & Hw & H%IH). by exists w, s'.
    + intros (w & s' & -> & Hw & H%IH). by exists w, s'.
  - rewrite andb_true_iff. split.
    + intros [Hb H%IH]. by exists EmptyString, s.
    + intros (w1 & s' & -> & [-> Hb] & H%IH). by rewrite append_nil_l.
Qed.

Lemma search_exact pat prev s :
  search_from pat prev s = true <->
  exists pre s', s = String.append pre s' /\ matches pat (last_char prev pre) s'.
Proof.
  revert prev. induction s as [|c s IH]; intros prev; cbn [search_from].
  - rewrite orb_false_r, match_here_exact. split.
    + intros H. by exists EmptyString, EmptyString.
    + intros ([|c pre] & s' & E & H); [|done]. rewrite append_nil_l in E. by subst s'.
  - rewrite orb_true_iff, match_here_exact, IH. split.
    + intros [H|(pre & s' & -> & H)]; [by exists EmptyString, (String c s)|]. by exists (String c pre), s'.
    + intros ([|d pre] & s' & E & H); [left; rewrite append_nil_l in E; by subst s'|].
      rewrite append_cons in E. injection E as <- ->. right. by exists pre, s'.
Qed.

(** ** The spellings of the opcode *)

Fixpoint lower (s : string) : string :=
  match s with EmptyString => EmptyString | String c s => String (tolower c) (lower s) end.

(** Some of the characters of the second string, in order. *)
Inductive subseq : string -> string -> Prop :=
| sub_nil s : subseq EmptyString s
| sub_take c w s : subseq w s -> subseq (String c w) (String c s)
| sub_skip c w s : subseq w s -> subseq w (String c s).

Definition blank (s : string) : Prop := all_chars is_space s = true.

(** [.byte], the first byte spelled as in [xs], a comma or semicolon, what
    may be left of another [.byte], and the second byte spelled as in [ys],
    with white space between them. *)
Definition two_bytes (xs ys : list string) (w : string) : Prop :=
  exists byte sp0 sp1 x sp2 sep sp3 dir sp4 y,
    w = cat [byte; String sp0 sp1; x; sp2; String sep EmptyString; sp3; dir; sp4; y] /\
    lower byte = ".byte" /\ is_space sp0 = true /\ blank sp1 /\ lower x ∈ xs /\
    blank sp2 /\ sep ∈ [","%char; ";"%char] /\ blank sp3 /\ subseq (lower dir) ".byte" /\ blank sp4 /\
    lower y ∈ ys.

(** What follows a number that has ended. *)
Definition no_word (post : string) : Prop :=
  match post with String c _ => is_word c = false | EmptyString => True end.

(** The spellings of the opcode 0f 05 the pass looks for. *)
Inductive spells_syscall : string -> string -> Prop :=
| spells_hex w post : two_bytes ["0xf"; "0x0f"] ["0x5"; "0x05"] w -> spells_syscall w post
| spells_dec w post : two_bytes ["15"] ["5"] w -> no_word post -> spells_syscall w post
| spells_escape_lower post : spells_syscall "\x0f\x05" post
| spells_escape_upper post : spells_syscall "\x0F\x05" post.

(** ** The languages of the parts of the patterns *)

Lemma lower_append a b : lower (String.append a b) = String.append (lower a) (lower b).
Proof. induction a as [|c a IH]; [done|]. rewrite !append_cons. cbn. by rewrite IH. Qed.

Lemma lower_append_inv w a b :
  lower w = String.append a b -> exists w1 w2, w = String.append w1 w2 /\ lower w1 = a /\ lower w2 = b.
Proof.
  revert w. induction a as [|c a IH]; intros w H; [by exists EmptyString, w|].
  rewrite append_cons in H. destruct w as [|d w]; [done|]. injection H as <- (w1 & w2 & -> & <- & <-)%IH.
  by exists (String d w1), w2.
Qed.

Lemma lang_app p1 p2 prev w post :
  lang (p1 ++ p2) prev w post <->
  exists w1 w2, w = String.append w1 w2 /\ lang p1 prev w1 (String.append w2 post) /\ lang p2 (last_char prev w1) w2 post.
Proof.
  revert prev w. induction p1 as [|it p1 IH]; intros prev w; cbn [app lang].
  - split; [by exists EmptyString, w|]. by intros (w1 & w2 & -> & -> & H).
  - setoid_rewrite IH. assert (forall u v, last_char (last_char prev u) v = last_char prev (String.append u v)) as Hl.
    { intros u. revert prev. clear. induction u as [|c u IHu]; intros prev v; [done|]. rewrite append_cons. cbn. apply IHu. }
    split.
    + intros (u & v & -> & Hi & w1 & w2 & -> & H1 & H2). exists (String.append u w1), w2.
      split_and!; [by rewrite append_assoc| |by rewrite <- Hl].
      exists u, w1. split_and!; [done| |done]. by rewrite <- append_assoc.
    + intros (u & w2 & -> & (u1 & w1 & -> & Hi & H1) & H2). exists u1, (String.append w1 w2).
      split_and!; [by rewrite append_assoc|by rewrite append_assoc|]. exists w1, w2. by rewrite Hl.
Qed.

Lemma lang_single it prev w post : lang [it] prev w post <-> item_lang it prev w post.
Proof.
  cbn. split.
  - intros (w1 & w2 & -> & H & ->). by rewrite append_nil_r.
  - intros H. exists w, EmptyString. by rewrite append_nil_r, append_nil_l.
Qed.

Lemma lang_lits s prev w post : lang (lits s) prev w post <-> lower w = lower s.
Proof.
  revert prev w. induction s as [|c s IH]; intros prev w; cbn [lits lang item_lang lower]; [by destruct w|].
  split.
  - intros (w1 & w2 & -> & (d & -> & Hd) & H%IH). unfold ch in Hd. apply Ascii.eqb_eq in Hd.
    rewrite append_cons, append_nil_l. cbn. congruence.
  - destruct w as [|d w]; [done|]. intros [= Hd Hw]. exists (String d EmptyString), w.
    split_and!; [done|exists d; split; [done|by apply Ascii.eqb_eq]|by apply IH].
Qed.

Lemma lang_opts s prev w post : lang (opts s) prev w post <-> subseq (lower w) (lower s).
Proof.
  revert prev w. induction s as [|c s IH]; intros prev w; cbn [opts lang item_lang lower].
  { split; [intros ->; constructor|]. intros H. destruct w; [done|inversion H]. }
  split.
  - intros (w1 & w2 & -> & [->|(d & -> & Hd)] & H%IH).
    + by constructor.
    + unfold ch in Hd. apply Ascii.eqb_eq in Hd. rewrite append_cons, append_nil_l. cbn. rewrite Hd. by constructor.
  - intros H. inversion H as [? E|c' w' ? Hs E|? ? ? Hs]; subst.
    + exists EmptyString, EmptyString. destruct w; [|done]. split_and!; [done|by left|apply IH; constructor].
    + destruct w as [|d w]; [done|]. injection E as Hd ->. exists (String d EmptyString), w.
      split_and!; [done|right; exists d; split; [done|by apply Ascii.eqb_eq]|by apply IH].
    + exists EmptyString, w. split_and!; [done|by left|by apply IH].
Qed.

Lemma lang_hex d prev w post :
  lower d = d ->
  lang (lits "0x" ++ opts "0" ++ lits d) prev w post <-> lower w ∈ [String.append "0x" d; String.append "0x0" d].
Proof.
  intros Hd. rewrite lang_app. setoid_rewrite lang_app. setoid_rewrite lang_lits. setoid_rewrite lang_opts.
  rewrite Hd, elem_of_cons, list_elem_of_singleton. split.
  - intros (w1 & w2 & -> & H1 & w3 & w4 & -> & H3 & H4). rewrite !lower_append, H1, H4.
    inversion H3 as [|? ? ? H E|? ? ? H]; [by left| |]; inversion H; [by right|by left].
  - intros [(w1 & w2 & -> & H1 & H2)%lower_append_inv|H].
    + exists w1, w2. split_and!; [done|done|]. exists EmptyString, w2. split_and!; [done|constructor|done].
    + change "0x0" with (String.append "0x" "0") in H. rewrite append_assoc in H.
      apply lower_append_inv in H as (w1 & w2 & -> & H1 & (w3 & w4 & -> & H3 & H4)%lower_append_inv).
      exists w1, (String.append w3 w4). split_and!; [done|done|]. exists w3, w4. split_and!; [done| |done].
      rewrite H3. repeat constructor.
Qed.

Lemma cat_bytes a c s b d e f g h j :
  cat [a; String c s; b; d; String e EmptyString; f; g; h; j] =
  String.append a (String.append (String c EmptyString) (String.append s (String.append b (String.append d
    (String.append (String e EmptyString) (String.append f (String.append g (String.append h j)))))))).
Proof. unfold cat. cbn [String.concat]. by rewrite !append_nil_l, !append_cons, !append_nil_l. Qed.

(** The digit 5 is a word character, however it is spelled. *)
Lemma digit_word c : tolower c = "5"%char -> is_word c = true.
Proof. destruct c as [[] [] [] [] [] [] [] []]; done. Qed.

Lemma prefix_spec n s : String.prefix n s = true <-> exists post, s = String.append n post.
Proof.
  revert s. induction n as [|c n IH]; intros s; [split; [by exists s|by destruct s]|].
  destruct s as [|d s]; cbn; [split; [done|by intros [? ?]]|].
  destruct (Ascii.ascii_dec c d) as [->|Hn]; [rewrite IH|]; setoid_rewrite append_cons; naive_solver.
Qed.

Lemma strstr_spec s n :
  strstr s n = true <-> exists pre post, s = String.append pre (String.append n post).
Proof.
  induction s as [|c s IH]; cbn [strstr]; rewrite orb_true_iff, prefix_spec, ?IH; split.
  - intros [[post E]|?]; [by exists EmptyString, post|done].
  - intros ([|] & post & E); [left; by exists post|done].
  - intros [[post E]|(pre & post & ->)]; [by exists EmptyString, post|by exists (String c pre), post].
  - intros ([|d pre] & post & E); [left; by exists post|]. rewrite append_cons in E. injection E as -> ->.
    right. by exists pre, post.
Qed.

(** The frame both patterns share; [P] is what the end of the pattern asks
    of the text that follows. *)
Lemma lang_two_bytes px py xs ys (P : string -> Prop) :
  (forall prev w post, lang px prev w post <-> lower w ∈ xs) ->
  (forall prev w post, lang py prev w post <-> lower w ∈ ys /\ P post) ->
  forall prev w post,
    lang (lits ".byte" ++ [One is_space; Many is_space] ++ px ++ separator ++ py) prev w post <->
    two_bytes xs ys w /\ P post.
Proof.
  intros Hx Hy prev w post. unfold two_bytes. split.
  - intros (b & r1 & -> & Hb%lang_lits & H)%lang_app.
    destruct H as (? & r2 & -> & (sp0 & -> & H0) & sp1 & r3 & -> & H1 & H).
    apply (lang_app px) in H as (x & r4 & -> & Hxs%Hx & H).
    destruct H as (sp2 & r5 & -> & H2 & ? & r6 & -> & (sep & -> & Hsep) & sp3 & r7 & -> & H3 & H).
    apply (lang_app (opts ".byte")) in H as (dir & r8 & -> & Hdir%lang_opts & sp4 & y & -> & H4 & [Hys HP]%Hy).
    split; [|done]. exists b, sp0, sp1, x, sp2, sep, sp3, dir, sp4, y. rewrite cat_bytes.
    split_and!; try done. apply orb_true_iff in Hsep as [->%Ascii.eqb_eq| ->%Ascii.eqb_eq]; set_solver.
  - intros [(b & sp0 & sp1 & x & sp2 & sep & sp3 & dir & sp4 & y & -> & Hb & H0 & H1 & Hxs & H2 & Hsep & H3 & Hdir & H4 & Hys) HP].
    rewrite cat_bytes. apply (lang_app (lits ".byte")). eexists _, _. split_and!; [done|by apply lang_lits|].
    eexists _, _. split_and!; [done|by exists sp0|]. eexists _, _. split_and!; [done|done|].
    apply (lang_app px). eexists _, _. split_and!; [done|by apply Hx|]. eexists _, _. split_and!; [done|done|].
    eexists _, _. split_and!; [done|exists sep; split; [done|]|].
    { by apply elem_of_cons in Hsep as [->| ->%list_elem_of_singleton]. }
    eexists _, _. split_and!; [done|done|]. apply (lang_app (opts ".byte")). eexists _, _. split_and!; [done|by apply lang_opts|].
    eexists _, _. split_and!; [done|done|]. by apply Hy.
Qed.

Lemma lang_hex_pattern prev w post :
  lang HexPat prev w post <-> two_bytes ["0xf"; "0x0f"] ["0x5"; "0x05"] w.
Proof.
  pose proof (lang_two_bytes (lits "0x" ++ opts "0" ++ lits "f") (lits "0x" ++ opts "0" ++ lits "5")
    ["0xf"; "0x0f"] ["0x5"; "0x05"] (fun _ => True)) as H.
  etransitivity; [apply H|naive_solver].
  - intros. by apply (lang_hex "f").
  - intros. rewrite (lang_hex "5") by done. naive_solver.
Qed.

Lemma lang_dec_pattern prev w post :
  lang DecPat prev w post <-> two_bytes ["15"] ["5"] w /\ no_word post.
Proof.
  apply (lang_two_bytes (lits "15") (lits "5" ++ [WordBoundary]) ["15"] ["5"] no_word).
  - intros. rewrite lang_lits, list_elem_of_singleton. done.
  - intros pr v po. rewrite lang_app, list_elem_of_singleton. split.
    + intros (w1 & w2 & -> & H1%lang_lits & [-> H2]%lang_single). rewrite append_nil_r. split; [done|].
      destruct w1 as [|c [|]]; [done| |done]. injection H1 as H1.
      cbn [last_char] in H2. unfold at_boundary in H2. rewrite (digit_word c H1) in H2.
      destruct po; [done|by apply negb_true_iff in H2].
    + intros [H1 H2]. exists v, EmptyString. rewrite append_nil_r. split_and!; [done|by apply lang_lits|].
      apply lang_single. split; [done|]. destruct v as [|c [|]]; [done| |done]. injection H1 as H1.
      cbn [last_char]. unfold at_boundary. rewrite (digit_word c H1). destruct po; [done|]. cbn [no_word] in H2. by rewrite H2.
Qed.

Lemma search_contains pat s :
  regex_search s pat = true <->
  exists pre w post, s = String.append pre (String.append w post) /\ lang pat (last_char None pre) w post.
Proof.
  unfold regex_search. rewrite search_exact. split.
  - intros (pre & s' & -> & w & post & -> & Hl). by exists pre, w, post.
  - intros (pre & w & post & -> & Hl). exists pre, (String.append w post). split; [done|]. by exists w, post.
Qed.

