(* ===== verification/Dump.v ===== *)
(** * src/runtime/sentinel_dump.c: the policy inspector

    Reading and printing the [.llvm.syscall.bounds] section of a binary, as
    text or as JSON.  The output is the string the calls of [printf]
    produce. *)
From S2P Require Import Prelude Shared Elf CLib.

(** Name and number of the system calls the inspector knows. *)
Definition syscall_name (nr : Z) : option string :=
  match nr with
  | 0 => Some "read"
  | 1 => Some "write"
  | 2 => Some "open"
  | 3 => Some "close"
  | 9 => Some "mmap"
  | 10 => Some "mprotect"
  | 16 => Some "ioctl"
  | 33 => Some "dup2"
  | 42 => Some "connect"
  | 46 => Some "sendmsg"
  | 56 => Some "clone"
  | 57 => Some "fork"
  | 59 => Some "execve"
  | 101 => Some "ptrace"
  | 157 => Some "prctl"
  | 257 => Some "openat"
  | 311 => Some "process_vm_writev"
  | 317 => Some "seccomp"
  | 319 => Some "memfd_create"
  | _ => None
  end.

(** The inspector's own structures, the header under [#pragma pack]. *)
Definition dump_header : struct :=
  {| s_packed := true; s_members := [array "magic" 1 4; scalar "version" 1; scalar "count" 4] |}.
Definition dump_entry : struct :=
  {| s_packed := false; s_members := [scalar "site_addr" 8; scalar "func_addr" 8; scalar "syscall_nr" 8] |}.

Definition sizeof_header : Z := sizeof dump_header.
Definition sizeof_entry : Z := sizeof dump_entry.
Definition magic_bytes : list Z := [0x7f; 0x53; 0x45; 0x4e].

(** [int nr = (nr_raw > 0) ? (int)(nr_raw - 1) : -1]. *)
Definition dump_nr (nr_raw : Z) : Z := if 0 <? nr_raw then i32 (nr_raw - 1) else -1.

Definition name_of (nr : Z) : option string := if 0 <=? nr then syscall_name nr else None.

Definition text_row (text_vaddr : Z) (index : Z) (e : policy_entry) : string :=
  let nr := dump_nr (syscall_nr e) in
  cat [ "  ["; pad_left 3 space (fmt_zu index); "]  0x";
        pad_left 16 zero_char (fmt_lx (site_addr e)); " 0x";
        pad_left 16 zero_char (fmt_lx (func_addr e)); " 0x";
        pad_left 8 zero_char (fmt_lx (u64 (site_addr e - text_vaddr)));
        if 0 <=? nr then
          match name_of nr with
          | Some n => cat [" "; n; " ("; fmt_d nr; ")"; nl]
          | None => cat [" NR="; fmt_d nr; nl]
          end
        else cat [" (any)"; nl] ].

Definition json_object (text_vaddr : Z) (e : policy_entry) : string :=
  let nr := dump_nr (syscall_nr e) in
  let hex z := quoted (cat ["0x"; fmt_lx z]) in
  cat [ "    {"; quoted "site"; ":"; hex (site_addr e);
        ","; quoted "func"; ":"; hex (func_addr e);
        ","; quoted "offset"; ":"; hex (u64 (site_addr e - text_vaddr));
        if 0 <=? nr then
          cat [ ","; quoted "syscall_nr"; ":"; fmt_d nr;
                match name_of nr with
                | Some n => cat [","; quoted "syscall_name"; ":"; quoted n]
                | None => EmptyString
                end ]
        else cat [","; quoted "syscall_nr"; ":"; quoted "any"];
        "}" ].

Definition json_row (text_vaddr : Z) (last : bool) (e : policy_entry) : string :=
  cat [json_object text_vaddr e; if last then EmptyString else ","; nl].

(** Entry [i] of the array at byte [p] of the section. *)
Definition read_entry (buf : list Z) (p : Z) : res policy_entry :=
  let* nr := load_field dump_entry buf p "syscall_nr" in
  let* site := load_field dump_entry buf p "site_addr" in
  let* func := load_field dump_entry buf p "func_addr" in
  Ok {| site_addr := site; func_addr := func; syscall_nr := i64 nr |}.

(** [for (size_t i = 0; i < hdr->count; i++)]; [k] is [count - i], [ends]
    is [offset + expected_size >= data->d_size]. *)
Fixpoint dump_rows (json : bool) (text_vaddr : Z) (buf : list Z) (ends : bool) (k : nat) (p : Z)
    (index : Z) (out : string) : res (Z * string) :=
  match k with
  | O => Ok (index, out)
  | S k =>
      let* e := read_entry buf p in
      let row :=
        if json then json_row text_vaddr (ends && (k =? 0)%nat) e
        else text_row text_vaddr index e in
      dump_rows json text_vaddr buf ends k (p + sizeof_entry) (u64 (index + 1)) (String.append out row)
  end.

(** [while (offset + sizeof(struct sentinel_header) <= data->d_size)]. *)
Fixpoint dump_units (fuel : nat) (json : bool) (text_vaddr : Z) (buf : list Z) (d_size : Z)
    (offset index : Z) (out : string) : res (Z * string) :=
  match fuel with
  | O => Fault NoFuel
  | S fuel =>
      if u64 (offset + sizeof_header) <=? d_size then
        let* m := load_field dump_header buf offset "magic" in
        if negb (m =? le_Z magic_bytes) then
          Ok (index, if json then out else
            String.append out
              (cat ["  [ERROR] Invalid magic bytes at offset "; fmt_zu offset; "."; nl]))
        else
          let* count := load_field dump_header buf offset "count" in
          let expected_size := u64 (sizeof_header + count * sizeof_entry) in
          if d_size <? u64 (offset + expected_size) then
            Ok (index, if json then out else
              String.append out
                (cat ["  [ERROR] Section too small for declared count at offset "; fmt_zu offset; "."; nl]))
          else
            let* r := dump_rows json text_vaddr buf (d_size <=? u64 (offset + expected_size))
                        (Z.to_nat count) (offset + sizeof_header) index out in
            dump_units fuel json text_vaddr buf d_size (u64 (offset + expected_size)) r.1 r.2
      else Ok (index, out)
  end.

Definition text_head : string :=
  let row a b c d e :=
    cat ["  "; pad_right 6 a; " "; pad_right 18 b; " "; pad_right 18 c; " "; pad_right 10 d; " "; e; nl] in
  String.append
    (row "Index" "Site Address" "Function" "Offset" "Syscall")
    (row "-----" "------------------" "------------------" "----------" "-------").

Definition json_head : string := cat ["  "; quoted "llvm_syscall_bounds"; ": ["; nl].

Definition text_total (n : Z) : string :=
  cat ["  Total: "; fmt_zu n; " syscall site(s) across all translation units"; nl].

(** Every iteration of the outer loop advances by at least the nine bytes of
    a header, so [d_size / 9 + 2] iterations are enough. *)
Definition unit_fuel (d_size : Z) : nat := Z.to_nat (d_size / sizeof_header + 2).

Definition dump_sentinel (json : bool) (data : option elf_data) (text_vaddr : Z) : res string :=
  let missing := Ok (cat ["  (empty or missing header)"; nl]) in
  match data with
  | None => missing
  | Some d =>
      match d_buf d with
      | None => missing
      | Some buf =>
          if d_size d <? sizeof_header then missing
          else
            let* r := dump_units (unit_fuel (d_size d)) json text_vaddr buf (d_size d) 0 0
                        (if json then json_head else text_head) in
            Ok (String.append r.2 (if json then "  ]" else text_total r.1))
      end
  end.

(** ** main *)

Inductive dump_cmd :=
| DHelp
| DVersion
| DUsage
| DPath (json : bool) (path : string).

Fixpoint dump_args (json : bool) (args : list string) : dump_cmd :=
  match args with
  | [] => DUsage
  | a :: args =>
      if strcmp_eq a "--help" || strcmp_eq a "-h" then DHelp
      else if strcmp_eq a "--version" || strcmp_eq a "-v" then DVersion
      else if strcmp_eq a "--json" then dump_args true args
      else DPath json a
  end.

(** The last [.text] gives the base, the last [.llvm.syscall.bounds] the
    data, and [found] whether there was one. *)
Definition find_bounds (l : list elf_scn) : Z * option elf_data * bool :=
  foldl (fun '(t, d, found) s =>
    match scn_name s with
    | None => (t, d, found)
    | Some n =>
        if strcmp_eq n ".text" then (sh_addr s, d, found)
        else if strcmp_eq n ".llvm.syscall.bounds" then (t, scn_data s, true)
        else (t, d, found)
    end) (0, None, false) l.

Record dump_output := {
  do_stdout : string;
  do_stderr : string;
  do_exit : Z;
}.

Definition VERSION : string := "4.2.0-research".

Definition banner : string := cat ["Sentinel-CC Policy Inspector v"; VERSION; nl].

(** What follows the section scan. *)
Definition dump_report (json : bool) (path : string) (text_vaddr : Z) (data : option elf_data)
    : res string :=
  let* body := dump_sentinel json data text_vaddr in
  Ok (if json then
        cat [ "{"; nl; "  "; quoted "binary"; ": "; quoted path; ","; nl;
              "  "; quoted "text_vaddr"; ": "; quoted (cat ["0x"; fmt_lx text_vaddr]); ","; nl;
              body; nl; "}"; nl ]
      else
        cat [ banner; "Binary: "; path; nl; ".text vaddr: 0x"; fmt_lx text_vaddr; nl; nl;
              "── .llvm.syscall.bounds (Syscall Policy) ───────────────────────"; nl;
              body; nl; "Sections present: .llvm.syscall.bounds"; nl ]).

(** [errmsg] is what [elf_errmsg(-1)] and [strerror] answer. *)
Definition dump_main (env : elf_env) (errmsg : string) (prog : string) (args : list string)
    : res dump_output :=
  let fail s := Ok {| do_stdout := EmptyString; do_stderr := s; do_exit := 1 |} in
  let done s := Ok {| do_stdout := s; do_stderr := EmptyString; do_exit := 0 |} in
  match dump_args false args with
  | DHelp =>
      done (cat [ banner; nl; "Usage: "; prog; " [--json] <binary>"; nl; nl;
        "Reads and displays the .llvm.syscall.bounds section from an ELF binary."; nl ])
  | DVersion => done banner
  | DUsage => fail (cat ["Usage: "; prog; " [--json] <binary>"; nl])
  | DPath json path =>
      if negb (elf_version_ok env) then fail (cat ["ELF init failed: "; errmsg; nl])
      else match elf_image env path with
      | OpenFails => fail (cat [path; ": "; errmsg; nl])
      | BeginFails => fail (cat ["elf_begin: "; errmsg; nl])
      | Opened f =>
          if negb (shdrstrndx_ok f) then fail (cat ["Cannot read section string table."; nl])
          else
            let '(text_vaddr, data, found) := find_bounds (scns f) in
            if found then
              let* out := dump_report json path text_vaddr data in done out
            else
              fail (cat [ "No .llvm.syscall.bounds section found in '"; path; "'."; nl;
                          "Was it compiled with -fpass-plugin=SentinelPass.so?"; nl ])
      end
  end.
