(* ===== verification/DumpProps.v ===== *)
(** * Properties of the policy inspector, and of the format the pass emits *)
From S2P Require Import Prelude Shared Elf CLib LoaderElf LoaderElfProps Pass PassProps Dump.

(** ** The section of a linked binary *)

Definition unit_header (n : Z) : sentinel_header :=
  {| magic := magic_bytes; version := SENTINEL_POLICY_VERSION; count := u32 n |}.

(** What one translation unit contributes. *)
Definition unit_image (es : list policy_entry) : list Z :=
  header_image (unit_header (Z.of_nat (length es))) ++ entries_image es.

Definition section_image (us : list (list policy_entry)) : list Z := us ≫= unit_image.

Lemma length_unit_image es : length (unit_image es) = (9 + 24 * length es)%nat.
Proof.
  unfold unit_image, header_image. cbn [magic unit_header version count].
  rewrite !length_app, !length_le_bytes, length_entries_image. done.
Qed.

(** ** Rows *)

Fixpoint text_rows (tv index : Z) (es : list policy_entry) : string :=
  match es with
  | [] => EmptyString
  | e :: es => String.append (text_row tv index e) (text_rows tv (index + 1) es)
  end.

(** JSON objects separated by commas; [last] when nothing follows them. *)
Fixpoint json_rows (tv : Z) (last : bool) (es : list policy_entry) : string :=
  match es with
  | [] => EmptyString
  | e :: es =>
      String.append (json_row tv (last && (length es =? 0)%nat) e) (json_rows tv last es)
  end.

Definition rows (json : bool) (tv : Z) (last : bool) (index : Z) (es : list policy_entry) : string :=
  if json then json_rows tv last es else text_rows tv index es.

(** The inspector's structures. *)
Lemma sizeof_header_eq : sizeof_header = 9. Proof. done. Qed.
Lemma sizeof_entry_eq : sizeof_entry = 24. Proof. done. Qed.

Lemma dump_entry_words : three_words dump_entry "site_addr" "func_addr" "syscall_nr".
Proof. split; [done|]. intros buf p. rewrite <- (Z.add_0_r p) at 2. done. Qed.

Lemma dump_header_fields buf p :
  load_field dump_header buf p "magic" = load 4 buf p /\ load_field dump_header buf p "count" = load 4 buf (p + 5).
Proof. rewrite <- (Z.add_0_r p) at 2. done. Qed.

Ltac dump_fields :=
  repeat match goal with
  | |- context [load_field dump_header ?b ?p "magic"] => rewrite (proj1 (dump_header_fields b p))
  | |- context [load_field dump_header ?b ?p "count"] => rewrite (proj2 (dump_header_fields b p))
  | |- context [load_field dump_entry ?b ?p _] => destruct (proj2 dump_entry_words b p) as (-> & -> & ->)
  end.

Lemma read_entry_image pre e post :
  entry_ok e -> read_entry (pre ++ entry_image e ++ post) (Z.of_nat (length pre)) = Ok e.
Proof.
  intros He. destruct (load_entry pre e post He) as (H1 & H2 & H3).
  unfold read_entry. dump_fields. rewrite H3, H1, H2. cbn [res_bind].
  destruct He as (_ & _ & Hn). rewrite i64_id by done. by destruct e.
Qed.

Lemma dump_rows_spec json tv ends es pre post index out :
  Forall entry_ok es -> 0 <= index -> index + Z.of_nat (length es) < 2 ^ 64 ->
  dump_rows json tv (pre ++ entries_image es ++ post) ends (length es) (Z.of_nat (length pre)) index out =
  Ok (index + Z.of_nat (length es), String.append out (rows json tv ends index es)).
Proof.
  intros H. revert pre index out. induction H as [|e es He Hes IH]; intros pre index out Hi Hl.
  - cbn. rewrite Z.add_0_r. by destruct json; cbn; rewrite append_nil_r.
  - cbn [length] in *. rewrite entries_image_cons, <- app_assoc. cbn [dump_rows].
    rewrite read_entry_image by done. cbn [res_bind].
    replace (Z.of_nat (length pre) + sizeof_entry) with (Z.of_nat (length (pre ++ entry_image e)))
      by (rewrite length_app, length_entry_image, sizeof_entry_eq; lia).
    rewrite (app_assoc pre), u64_id by (unfold is_u64; lia).
    rewrite IH by lia. rewrite append_assoc. unfold rows. destruct json; do 2 f_equal; lia.
Qed.

(** ** The units of a section *)

Lemma load_magic pre n post :
  load 4 (pre ++ header_image (unit_header n) ++ post) (Z.of_nat (length pre)) = Ok (le_Z magic_bytes).
Proof. unfold header_image. rewrite <- !app_assoc. by apply load_app. Qed.

Lemma load_version pre n post :
  load 1 (pre ++ header_image (unit_header n) ++ post) (Z.of_nat (length pre) + 4) = Ok SENTINEL_POLICY_VERSION.
Proof.
  unfold header_image. cbn [magic version count unit_header]. rewrite <- !app_assoc.
  replace (Z.of_nat (length pre) + 4) with (Z.of_nat (length (pre ++ magic_bytes)))
    by (rewrite !length_app; cbn; lia).
  by rewrite (app_assoc pre), load_app by apply length_le_bytes.
Qed.

Lemma load_count pre n post :
  0 <= n < 2 ^ 32 ->
  load 4 (pre ++ header_image (unit_header n) ++ post) (Z.of_nat (length pre) + 5) = Ok n.
Proof.
  intros Hn. unfold header_image. cbn [magic version count unit_header]. rewrite <- !app_assoc.
  replace (Z.of_nat (length pre) + 5) with
    (Z.of_nat (length ((pre ++ magic_bytes) ++ le_bytes 1 SENTINEL_POLICY_VERSION)))
    by (rewrite !length_app, length_le_bytes; simpl; lia).
  rewrite (app_assoc pre), (app_assoc (pre ++ _)), load_app by apply length_le_bytes.
  rewrite le_Z_le_bytes. change (2 ^ (8 * Z.of_nat 4)) with (2 ^ 32).
  unfold u32. by rewrite Z.mod_mod, Z.mod_small by lia.
Qed.

(** The rows of all units; [last] when nothing follows the last unit. *)
Fixpoint unit_rows (json : bool) (tv : Z) (last : bool) (index : Z) (us : list (list policy_entry))
    : string :=
  match us with
  | [] => EmptyString
  | es :: us =>
      String.append (rows json tv (last && (length us =? 0)%nat) index es)
        (unit_rows json tv last (index + Z.of_nat (length es)) us)
  end.

(** One iteration: the header, the size test and the rows of one unit. *)
Lemma dump_units_step json tv es more pre index out fuel size :
  Forall entry_ok es -> size = Z.of_nat (length (pre ++ unit_image es ++ more)) -> size < 2 ^ 32 ->
  0 <= index -> index + Z.of_nat (length es) < 2 ^ 64 ->
  dump_units (S fuel) json tv (pre ++ unit_image es ++ more) size (Z.of_nat (length pre)) index out =
  dump_units fuel json tv ((pre ++ unit_image es) ++ more) size (Z.of_nat (length (pre ++ unit_image es)))
    (index + Z.of_nat (length es)) (String.append out (rows json tv (length more =? 0)%nat index es)).
Proof.
  intros Hes Hsz Hs32 Hi Hi64. cbn [dump_units]. pose proof (length_unit_image es) as Hlu.
  rewrite !length_app, Hlu in Hsz.
  rewrite u64_id by (rewrite ?sizeof_header_eq; unfold is_u64; lia).
  rewrite (proj2 (Z.leb_le _ _)) by (rewrite sizeof_header_eq; lia).
  unfold unit_image at 1 2. rewrite <- (app_assoc (header_image _)).
  dump_fields. rewrite load_magic. cbn [res_bind]. rewrite Z.eqb_refl. cbn [negb].
  dump_fields. rewrite load_count by lia. cbn [res_bind].
  assert (u64 (sizeof_header + Z.of_nat (length es) * sizeof_entry) = Z.of_nat (length (unit_image es))) as ->
    by (rewrite u64_id, Hlu; unfold is_u64; rewrite ?sizeof_header_eq, ?sizeof_entry_eq; lia).
  rewrite u64_id by (unfold is_u64; lia). rewrite (proj2 (Z.ltb_ge _ _)) by lia.
  replace (Z.of_nat (length pre) + sizeof_header) with
    (Z.of_nat (length (pre ++ header_image (unit_header (Z.of_nat (length es))))))
    by (rewrite length_app; unfold header_image; rewrite sizeof_header_eq, !length_app, !length_le_bytes; simpl; lia).
  rewrite Nat2Z.id, (app_assoc pre).
  assert ((pre ++ unit_image es) ++ more =
    (pre ++ header_image (unit_header (Z.of_nat (length es)))) ++ entries_image es ++ more) as E
    by (unfold unit_image; by rewrite <- !app_assoc).
  rewrite E, dump_rows_spec by (done || lia). cbn [res_bind fst snd]. rewrite <- E.
  rewrite <- Nat2Z.inj_add, <- length_app. do 4 f_equal. rewrite length_app.
  destruct (Nat.eqb_spec (length more) 0), (Z.leb_spec size (Z.of_nat (length pre + length (unit_image es)))); lia || done.
Qed.

(** [tail] is too short for a header. *)
Lemma dump_units_spec json tv us tail pre index out fuel size :
  Forall (Forall entry_ok) us -> (length tail < 9)%nat ->
  size = Z.of_nat (length (pre ++ section_image us ++ tail)) -> size < 2 ^ 32 ->
  0 <= index -> index + Z.of_nat (length (section_image us)) < 2 ^ 64 -> (length us < fuel)%nat ->
  dump_units fuel json tv (pre ++ section_image us ++ tail) size (Z.of_nat (length pre)) index out =
  Ok (index + Z.of_nat (length (concat us)),
      String.append out (unit_rows json tv (length tail =? 0)%nat index us)).
Proof.
  intros H Ht. revert pre index out fuel. induction H as [|es us Hes Hus IH];
    intros pre index out fuel Hsz Hs32 Hi Hi64 Hf; (destruct fuel as [|fuel]; [lia|]).
  - cbn [dump_units]. change (section_image []) with (@nil Z) in *. rewrite length_app in Hsz. cbn [app] in *.
    rewrite sizeof_header_eq, u64_id by (unfold is_u64; lia).
    rewrite (proj2 (Z.leb_gt _ _)) by lia.
    cbn. by rewrite append_nil_r, Z.add_0_r.
  - change (section_image (es :: us)) with (unit_image es ++ section_image us) in *.
    cbn [length] in Hf. pose proof (length_unit_image es) as Hlu.
    rewrite <- app_assoc in *. rewrite length_app in Hi64.
    rewrite dump_units_step by (done || lia).
    rewrite IH by (rewrite <- ?app_assoc; done || lia).
    rewrite append_assoc. cbn [concat unit_rows]. rewrite (length_app es).
    do 2 f_equal; [lia|]. do 3 f_equal. rewrite length_app.
    destruct us as [|es' us]; [cbn; by rewrite andb_true_r|].
    change (section_image (es' :: us)) with (unit_image es' ++ section_image us).
    rewrite length_app, length_unit_image. cbn. by rewrite andb_false_r.
Qed.

Definition tailed (us : list (list policy_entry)) (tail : list Z) : elf_data :=
  {| d_buf := Some (section_image us ++ tail); d_size := Z.of_nat (length (section_image us ++ tail)) |}.

Lemma dump_section_spec json tv us tail :
  us <> [] -> Forall (Forall entry_ok) us -> (length tail < 9)%nat ->
  Z.of_nat (length (section_image us ++ tail)) < 2 ^ 32 ->
  dump_sentinel json (Some (tailed us tail)) tv =
  Ok (cat [ if json then json_head else text_head; unit_rows json tv (length tail =? 0)%nat 0 us;
            if json then "  ]" else text_total (Z.of_nat (length (concat us))) ]).
Proof.
  intros Hne Hok Ht Hsz. unfold dump_sentinel, tailed. cbn [d_buf d_size].
  assert (9 * Z.of_nat (length us) <= Z.of_nat (length (section_image us))) as Hl.
  { clear. induction us as [|es us IH]; [done|].
    change (section_image (es :: us)) with (unit_image es ++ section_image us).
    rewrite length_app, length_unit_image. cbn [length]. lia. }
  assert (0 < length us)%nat by (destruct us; [done|simpl; lia]).
  rewrite length_app in *. rewrite (proj2 (Z.ltb_ge _ _)) by (rewrite sizeof_header_eq; lia).
  change 0 with (Z.of_nat (length (@nil Z))) at 1.
  rewrite (dump_units_spec json tv us tail []); try done; try lia; [|by rewrite <- length_app|].
  - cbn [res_bind fst snd]. unfold cat. cbn [String.concat].
    rewrite !append_nil_l, <- append_assoc. by destruct json.
  - unfold unit_fuel. rewrite sizeof_header_eq. Z.div_mod_to_equations. lia.
Qed.

(** ** Rows as lists *)

Lemma text_unit_rows tv last index us :
  unit_rows false tv last index us = text_rows tv index (concat us).
Proof.
  assert (forall es es' i, text_rows tv i (es ++ es') =
    String.append (text_rows tv i es) (text_rows tv (i + Z.of_nat (length es)) es')) as Happ.
  { intros es es'. induction es as [|e es IH]; intros i; cbn [text_rows app length].
    - by rewrite append_nil_l, Z.add_0_r.
    - rewrite IH, append_assoc. do 3 f_equal. lia. }
  revert index. induction us as [|es us IH]; intros index; [done|].
  cbn [unit_rows concat rows]. by rewrite Happ, IH.
Qed.

(** The objects of a JSON array, without the closing bracket. *)
Definition json_items (tv : Z) (last : bool) (es : list policy_entry) : string :=
  cat [ String.concat (cat [","; nl]) (json_object tv <$> es); if last then nl else cat [","; nl] ].

Lemma json_rows_items tv last es : es <> [] -> json_rows tv last es = json_items tv last es.
Proof.
  intros Hne. unfold json_items, cat. cbn [String.concat]. rewrite !append_nil_l.
  induction es as [|e [|e' es] IH]; [done| |].
  - cbn [json_rows length Nat.eqb fmap list_fmap String.concat]. rewrite andb_true_r, append_nil_r.
    unfold json_row, cat. cbn [String.concat]. rewrite !append_nil_l. by destruct last.
  - change (json_rows tv last (e :: e' :: es)) with
      (String.append (json_row tv (last && false) e) (json_rows tv last (e' :: es))).
    rewrite IH by done. rewrite andb_false_r.
    change (json_object tv <$> e :: e' :: es) with (json_object tv e :: json_object tv e' :: (json_object tv <$> es)).
    change (json_object tv <$> e' :: es) with (json_object tv e' :: (json_object tv <$> es)).
    cbn [String.concat]. unfold json_row, cat. cbn [String.concat].
    by rewrite !append_nil_l, !append_assoc.
Qed.

Lemma json_unit_rows tv last index us :
  us <> [] -> Forall (fun es => es <> []) us ->
  unit_rows true tv last index us = json_items tv last (concat us).
Proof.
  intros Hne H. assert (concat us <> []) as Hc by (destruct H as [|[] ?]; done).
  rewrite <- json_rows_items by done. clear Hc.
  assert (forall es es', es' <> [] -> json_rows tv last (es ++ es') =
    String.append (json_rows tv false es) (json_rows tv last es')) as Happ.
  { intros es es' Hes. induction es as [|e es IH]; [done|]. cbn [json_rows app].
    rewrite IH, append_assoc. destruct es' as [|x es']; [done|]. do 2 f_equal.
    rewrite length_app. cbn [length]. by rewrite Nat.add_succ_r, andb_false_r. }
  revert index Hne. induction H as [|es us Hes Hus IH]; intros index Hne; [done|].
  cbn [unit_rows concat rows]. destruct us as [|es' us].
  - cbn. by rewrite andb_true_r, append_nil_r, app_nil_r.
  - rewrite IH by done. cbn [length Nat.eqb]. rewrite andb_false_r, Happ; [done|].
    inversion Hus; subst. by destruct es'.
Qed.

(** ** Linked translation units *)

Record trans_unit := {
  tu_module : module_;
  tu_next : nat;
  tu_link : symbol -> Z;
}.

Section Linked.
Context {L : LlvmOps} {HL : LlvmLaws L}.

Definition tu_ok (u : trans_unit) : Prop :=
  module_wf (tu_next u) (m_functions (tu_module u)) /\ m_policy (tu_module u) = [] /\
  forall s, is_u64 (tu_link u s).

(** The bytes the pass put in the unit's section. *)
Definition tu_bytes (u : trans_unit) : list Z :=
  m_policy (rr_module (run (tu_module u) (tu_next u))) ≫= table_image (tu_link u).

(** The entries of the unit: its sites, or the dummy. *)
Definition tu_entries (u : trans_unit) : list policy_entry :=
  linked_entry (tu_link u) <$>
  match sites (m_functions (tu_module u)) with
  | [] => [dummy_entry]
  | ss => imap (entry_for (tu_next u)) ss
  end.

Lemma i64_range x : is_i64 (i64 x).
Proof.
  unfold is_i64, i64, signed. pose proof (Z.mod_pos_bound x (2 ^ 64)).
  change (64 - 1) with 63. zcase; lia.
Qed.

Lemma encode_nr_range nr : is_i64 (encode_nr nr).
Proof. unfold encode_nr. destruct (0 <=? nr); [apply i64_range|done]. Qed.

(** The table's image, member by member. *)
Lemma entry_bytes_image e : entry_bytes e = entry_image e.
Proof.
  unfold entry_bytes, struct_image, entry_image.
  change (layout SentinelEntry) with [(scalar "Site" 8, 0); (scalar "Function" 8, 8); (scalar "Size" 8, 16)].
  cbn [fill]. change (sizeof SentinelEntry) with 24. cbn [repeat Z.to_nat Z.sub Z.add Z.opp app].
  rewrite !length_app, !length_le_bytes. cbn. by rewrite !app_nil_r.
Qed.

Lemma header_bytes_image h :
  length (magic h) = 4%nat -> bytes_ok (magic h) -> header_bytes h = header_image h.
Proof.
  intros Hl Hb. unfold header_bytes, struct_image, header_image.
  change (layout SentinelHeader) with [(array "Magic" 1 4, 0); (scalar "Version" 1, 4); (scalar "Count" 4, 5)].
  cbn [fill]. change (sizeof SentinelHeader) with 9. cbn [repeat Z.to_nat Z.sub Z.add Z.opp app].
  change (Z.to_nat (member_size (array "Magic" 1 4))) with 4%nat. rewrite <- Hl, le_bytes_le_Z by done.
  rewrite !length_app, !length_le_bytes, Hl. cbn. by rewrite !app_nil_r.
Qed.

Lemma table_image_eq link t :
  length (magic (pt_header t)) = 4%nat -> bytes_ok (magic (pt_header t)) ->
  table_image link t = header_image (pt_header t) ++ entries_image (linked_entry link <$> pt_entries t).
Proof.
  intros Hl Hb. unfold table_image. rewrite header_bytes_image by done. f_equal.
  induction (pt_entries t) as [|e es IH]; [done|]. cbn [fmap list_fmap].
  rewrite entries_image_cons, <- IH, <- entry_bytes_image. done.
Qed.

Lemma tu_bytes_image u : tu_ok u -> tu_bytes u = unit_image (tu_entries u).
Proof.
  intros (Hwf & Hp & _). unfold tu_bytes, tu_entries.
  pose proof (run_fold _ _ Hwf) as (_ & _ & _ & He & _). unfold run.
  rewrite He, Hp. unfold unit_image, unit_header.
  destruct (sites (m_functions (tu_module u))) as [|p ps]; cbn [imap m_policy rr_module app mbind list_bind];
    rewrite app_nil_r, table_image_eq by (done || (repeat constructor; cbn; lia));
    cbn [pt_header pt_entries]; by rewrite length_fmap.
Qed.

Lemma tu_entries_ok u : tu_ok u -> Forall entry_ok (tu_entries u) /\ tu_entries u <> [].
Proof.
  intros (_ & _ & Hl). unfold tu_entries. split.
  - apply Forall_fmap, Forall_forall. intros e He.
    assert (is_i64 (se_nr e)) as Hn.
    { destruct (sites _) as [|p ps].
      - apply list_elem_of_singleton in He as ->. done.
      - apply elem_of_lookup_imap in He as (k & q & -> & _). apply encode_nr_range. }
    assert (forall s, is_u64 (sym_addr (tu_link u) s)) as Ha
      by (intros []; [unfold is_u64; cbn; lia|apply Hl..]).
    split_and!; [apply Ha|apply Ha|done].
  - by destruct (sites _).
Qed.

(** The linked section is the image of the units' entries. *)
Lemma linked_section ts :
  ts <> [] -> Forall tu_ok ts ->
  exists us, ts ≫= tu_bytes = section_image us ++ [] /\ ts ≫= tu_entries = concat us /\ us <> [] /\
    Forall (Forall entry_ok) us /\ Forall (fun es => es <> []) us.
Proof.
  intros Hne Hok. exists (tu_entries <$> ts). rewrite app_nil_r, !Forall_fmap. split_and!.
  - unfold section_image. clear -Hok HL. induction Hok as [|u ts Hu _ IH]; [done|].
    cbn. rewrite IH. by rewrite tu_bytes_image.
  - clear. induction ts as [|u ts IH]; [done|]. cbn. by rewrite <- IH.
  - by destruct ts.
  - eapply Forall_impl; [exact Hok|]. intros u Hu. by apply tu_entries_ok.
  - eapply Forall_impl; [exact Hok|]. intros u Hu. by apply tu_entries_ok.
Qed.

End Linked.

(** ** Theorems *)

(** C11: The inspector shows what the pass recorded: for the concatenated
    sections of any number of translation units, the text output is the
    table head, one row per entry of every unit in order with consecutive
    indices, and the total, and the JSON output is the array of those
    entries with commas between them. *)
Theorem dump_shows_pass_entries {L : LlvmOps} {HL : LlvmLaws L} ts tv :
  ts <> [] -> Forall tu_ok ts -> Z.of_nat (length (ts ≫= tu_bytes)) < 2 ^ 32 ->
  let es := ts ≫= tu_entries in
  let data := Some {| d_buf := Some (ts ≫= tu_bytes); d_size := Z.of_nat (length (ts ≫= tu_bytes)) |} in
  dump_sentinel false data tv =
    Ok (cat [text_head; text_rows tv 0 es; text_total (Z.of_nat (length es))]) /\
  dump_sentinel true data tv = Ok (cat [json_head; json_items tv true es; "  ]"]).
Proof.
  intros Hne Hok Hsz es data. destruct (linked_section ts Hne Hok) as (us & E & Hes & Hn & H1 & H2).
  assert (data = Some (tailed us [])) as -> by (subst data; by rewrite E).
  rewrite E in Hsz. rewrite !dump_section_spec by (done || (cbn; lia)).
  by rewrite text_unit_rows, json_unit_rows, <- Hes by done.
Qed.

(** Both readers decode the numbers the pass encodes: the loader for
    every number the pass can record, the inspector for those below 2^31,
    with -1 for "any". *)
Theorem nr_encoding_roundtrip nr :
  nr < 2 ^ 63 - 1 ->
  decode_nr (encode_nr nr) = Z.max (-1) nr /\
  (nr < 2 ^ 31 -> dump_nr (encode_nr nr) = Z.max (-1) nr).
Proof.
  intros Hn. unfold encode_nr, decode_nr, dump_nr.
  destruct (Z.leb_spec 0 nr); [|rewrite Z.ltb_irrefl; lia].
  assert (i64 (nr + 1) = nr + 1) as ->
    by (rewrite <- (u64_id (nr + 1)) at 1; [apply i64_id|]; unfold is_i64, is_u64; lia).
  rewrite (proj2 (Z.ltb_lt _ _)) by lia. split; [lia|]. intros Hs.
  replace (nr + 1 - 1) with nr by lia. unfold i32, signed. rewrite Z.mod_small by lia.
  rewrite (proj2 (Z.ltb_lt _ _)) by lia. lia.
Qed.

(** Trailing bytes break the JSON output: when fewer than nine bytes
    follow the last unit, the last object is still followed by a comma. *)
Theorem json_trailing_comma us tail tv :
  us <> [] -> Forall (fun es => es <> []) us -> Forall (Forall entry_ok) us ->
  (0 < length tail < 9)%nat -> Z.of_nat (length (section_image us ++ tail)) < 2 ^ 32 ->
  dump_sentinel true (Some (tailed us tail)) tv =
  Ok (cat [ json_head; String.concat (cat [","; nl]) (json_object tv <$> concat us); ","; nl; "  ]" ]).
Proof.
  intros Hne Hn Hok Ht Hsz. rewrite dump_section_spec by (done || lia).
  rewrite json_unit_rows by done. destruct tail; [cbn in Ht; lia|].
  unfold json_items, cat. cbn [length Nat.eqb String.concat].
  by rewrite !append_nil_l, !append_assoc.
Qed.

(** C36: The loader does not read what the pass writes: a binary without a
    section named [.sentinel], such as one that has only the pass's
    [.llvm.syscall.bounds], yields no policy entries. *)
Theorem loader_ignores_bounds_section env path f max :
  elf_version_ok env = true -> elf_image env path = Opened f ->
  Forall (fun s => scn_name s <> Some ".sentinel") (scns f) ->
  exists lb, parse_sentinel_section env path max =
    Ok {| ps_ret := 0; ps_entries := []; ps_text_base := None; ps_load_base := lb |}.
Proof.
  intros Hv Hi Hs. unfold parse_sentinel_section. rewrite Hv, Hi. cbn [negb].
  destruct (shdrstrndx_ok f); cbn [negb]; [|by eexists].
  assert (forall t, exists t', foldl (fun '(d, t) s =>
    match scn_name s with
    | None => (d, t)
    | Some n =>
        (if String.eqb n ".sentinel" then scn_data s else d,
         if String.eqb n ".text" then sh_addr s else t)
    end) (None, t) (scns f) = (None, t')) as Hf.
  { induction Hs as [|s l Hn _ IH]; intros t; [by exists t|]. cbn [foldl].
    destruct (scn_name s) as [n|]; [|apply IH].
    destruct (String.eqb_spec n ".sentinel") as [->|]; [done|]. apply IH. }
  unfold find_policy_sections. destruct (Hf 0) as [t' ->]. by eexists.
Qed.

Lemma read_entry_total buf p :
  0 <= p -> p + 24 <= Z.of_nat (length buf) -> exists e, read_entry buf p = Ok e.
Proof.
  intros. unfold read_entry. dump_fields. rewrite !load_Ok by lia. by eexists.
Qed.

Lemma dump_rows_total json tv buf ends k p index out :
  0 <= p -> p + 24 * Z.of_nat k <= Z.of_nat (length buf) ->
  exists r, dump_rows json tv buf ends k p index out = Ok r.
Proof.
  revert p index out. induction k as [|k IH]; intros p index out Hp Hl; cbn [dump_rows]; [by eexists|].
  destruct (read_entry_total buf p) as [e ->]; [lia..|]. cbn [res_bind].
  apply IH; rewrite sizeof_entry_eq; lia.
Qed.

Lemma load4_range buf p c : bytes_ok buf -> load 4 buf p = Ok c -> 0 <= c < 2 ^ 32.
Proof.
  unfold load. intros Hb H. destruct (_ && _) eqn:E; [|done]. injection H as <-.
  apply andb_true_iff in E as [E1%Z.leb_le E2%Z.leb_le].
  set (l := take 4 _). assert (length l = 4%nat) as Hl.
  { subst l. rewrite length_take, length_drop. lia. }
  assert (bytes_ok l) as Hlb by (subst l; by apply Forall_take, Forall_drop).
  rewrite <- (le_bytes_le_Z l), Hl, le_Z_le_bytes by done. apply Z.mod_pos_bound. lia.
Qed.

Lemma dump_units_total fuel json tv buf size offset index out :
  bytes_ok buf -> size = Z.of_nat (length buf) -> size < 2 ^ 63 -> 0 <= offset <= size ->
  size - offset < 9 * (Z.of_nat fuel - 1) ->
  exists r, dump_units fuel json tv buf size offset index out = Ok r.
Proof.
  intros Hb Hs H63. revert offset index out.
  induction fuel as [|fuel IH]; intros offset index out Ho Hf; [lia|]. cbn [dump_units].
  rewrite sizeof_header_eq, sizeof_entry_eq, u64_id by (unfold is_u64; lia).
  destruct (Z.leb_spec (offset + 9) size) as [Hle|]; [|by eexists].
  dump_fields. rewrite load_Ok by lia. cbn [res_bind]. destruct (negb _); [by eexists|]. dump_fields.
  destruct (load 4 buf (offset + 5)) as [c|] eqn:Ec; [|by rewrite load_Ok in Ec by lia].
  cbn [res_bind]. pose proof (load4_range _ _ _ Hb Ec) as Hc.
  rewrite (u64_id (9 + c * 24)), u64_id by (unfold is_u64; lia).
  destruct (Z.ltb_spec size (offset + (9 + c * 24))); [by eexists|].
  edestruct (dump_rows_total json tv buf) as [r Hr]; [..|rewrite Hr]; [lia|lia|].
  cbn [res_bind]. apply IH; lia.
Qed.

(** C31: The inspector survives any section: whatever bytes it holds, the
    dump ends without reading outside them. *)
Theorem dump_total json d tv :
  data_ok d -> d_size d < 2 ^ 63 ->
  exists out, dump_sentinel json (Some d) tv = Ok out.
Proof.
  intros (buf & Hbuf & Hl & Hb) H63. unfold dump_sentinel. rewrite Hbuf.
  destruct (d_size d <? sizeof_header); [by eexists|].
  edestruct (dump_units_total (unit_fuel (d_size d)) json tv buf (d_size d) 0 0) as [r Hr];
    [..|rewrite Hr; by eexists]; [done|done|done|lia|].
  unfold unit_fuel. rewrite sizeof_header_eq. Z.div_mod_to_equations. lia.
Qed.

(** C39: The four declarations of the table agree.  An entry the pass lays
    out as its LLVM structure, at any place of a section, is read back field
    by field through the loader's, the inspector's and the shared header's
    structures; a header it lays out is read back by the inspector and the
    shared header, with the shared magic number; and the next structure of a
    section lies where each reader looks for it. *)
Theorem layouts_agree pre post e n :
  entry_ok e -> 0 <= n < 2 ^ 32 ->
  let p := Z.of_nat (length pre) in
  let h := {| magic := magic_bytes; version := SENTINEL_POLICY_VERSION; count := n |} in
  Forall (fun s => load_field s (pre ++ entry_bytes e ++ post) p "site_addr" = Ok (site_addr e) /\
                   load_field s (pre ++ entry_bytes e ++ post) p "func_addr" = Ok (func_addr e) /\
                   load_field s (pre ++ entry_bytes e ++ post) p "syscall_nr" = Ok (u64 (syscall_nr e)) /\
                   p + sizeof s = Z.of_nat (length (pre ++ entry_bytes e)))
    [sentinel_policy_entry; dump_entry; policy_entry_members] /\
  Forall (fun s => load_field s (pre ++ header_bytes h ++ post) p "magic" = Ok SENTINEL_POLICY_MAGIC /\
                   load_field s (pre ++ header_bytes h ++ post) p "version" = Ok SENTINEL_POLICY_VERSION /\
                   load_field s (pre ++ header_bytes h ++ post) p "count" = Ok n /\
                   p + sizeof s = Z.of_nat (length (pre ++ header_bytes h)))
    [dump_header; sentinel_header_members] /\
  static_asserts = true.
Proof.
  intros He Hn p h. split_and!; [| |done].
  - rewrite entry_bytes_image, length_app, length_entry_image. destruct (load_entry pre e post He) as (H1 & H2 & H3).
    assert (forall s, three_words s "site_addr" "func_addr" "syscall_nr" ->
      load_field s (pre ++ entry_image e ++ post) p "site_addr" = Ok (site_addr e) /\
      load_field s (pre ++ entry_image e ++ post) p "func_addr" = Ok (func_addr e) /\
      load_field s (pre ++ entry_image e ++ post) p "syscall_nr" = Ok (u64 (syscall_nr e)) /\
      p + sizeof s = Z.of_nat (length pre + 24)) as Hw.
    { intros s [-> Hs]. destruct (Hs (pre ++ entry_image e ++ post) p) as (-> & -> & ->). split_and!; done || lia. }
    constructor; [apply Hw, loader_entry_words|constructor; [apply Hw, dump_entry_words|]].
    constructor; [apply Hw, policy_entry_words|constructor].
  - rewrite header_bytes_image by (done || (repeat constructor; cbn; lia)).
    assert (h = unit_header n) as -> by (unfold unit_header, u32; by rewrite Z.mod_small by lia).
    pose proof (load_magic pre n post) as H1. pose proof (load_version pre n post) as H2.
    pose proof (load_count pre n post Hn) as H3.
    assert (p + 9 = Z.of_nat (length (pre ++ header_image (unit_header n)))) as H4
      by (unfold p, header_image; rewrite !length_app, !length_le_bytes; cbn; lia).
    rewrite <- (Z.add_0_r (Z.of_nat (length pre))) in H1.
    constructor; [by split_and!|constructor; [by split_and!|constructor]].
Qed.

(** ** Witnesses *)
Module DemoDump.

Definition link (s : symbol) : Z :=
  match s with SBlock l => 0x401000 + 16 * Z.of_nat (l mod 256) | SFunc _ => 0x401000 | SNull => 0 end.

Definition u1 : trans_unit := {| tu_module := DemoPass.M; tu_next := 7; tu_link := link |}.

(** A unit without syscalls. *)
Definition u2 : trans_unit := {|
  tu_module := {| m_functions := [DemoPass.write_decl]; m_used := None; m_policy := [] |};
  tu_next := 0; tu_link := link |}.

Lemma link_ok s : is_u64 (link s).
Proof.
  unfold is_u64. destruct s as [|l|n]; cbn [link]; [lia| |lia].
  pose proof (Nat.mod_upper_bound l 256). lia.
Qed.

Lemma units_ok : Forall tu_ok [u1; u2].
Proof.
  constructor; [|constructor; [|constructor]].
  - split_and!; [apply DemoPass.wf|done|apply link_ok].
  - split_and!; [split_and!; repeat constructor|done|apply link_ok].
Qed.

Definition entry : policy_entry := {| site_addr := 0x401136; func_addr := 0x401000; syscall_nr := 2 |}.

Definition env : elf_env := {|
  elf_version_ok := true;
  elf_image := fun _ => Opened {| phdrs := []; shdrstrndx_ok := true; scns := [
    {| scn_name := Some ".llvm.syscall.bounds"; sh_type := SHT_PROGBITS; sh_flags := 2; sh_addr := 0x2000;
       sh_size := 33; sh_entsize := 0; scn_data := Some (tailed [[entry]] []); scn_syms := [] |} ] |} |}.

End DemoDump.

Lemma dump_shows_pass_entries_witness :
  exists out, dump_sentinel false
    (Some {| d_buf := Some ([DemoDump.u1; DemoDump.u2] ≫= tu_bytes (L := DemoPass.llvm)); d_size := 114 |}) 0x401000
    = Ok out /\ strstr out "write (1)" = true /\ strstr out "Total: 4 syscall site(s)" = true.
Proof.
  destruct (dump_shows_pass_entries (HL := DemoPass.llvm_laws) [DemoDump.u1; DemoDump.u2] 0x401000) as [H _].
  - discriminate.
  - apply DemoDump.units_ok.
  - vm_compute. reflexivity.
  - eexists. split; [exact H|]. split; vm_compute; reflexivity.
Defined.

Lemma nr_encoding_roundtrip_witness : decode_nr (encode_nr 257) = 257 /\ dump_nr (encode_nr 257) = 257.
Proof.
  destruct (nr_encoding_roundtrip 257) as [H1 H2]; [lia|]. split; [exact H1|]. apply H2. lia.
Defined.

Lemma json_trailing_comma_witness :
  dump_sentinel true (Some (tailed [[DemoDump.entry]] [0])) 0x401000 =
  Ok (cat [json_head; json_object 0x401000 DemoDump.entry; ","; nl; "  ]"]).
Proof.
  apply (json_trailing_comma [[DemoDump.entry]] [0] 0x401000).
  - discriminate.
  - repeat constructor. discriminate.
  - repeat constructor; vm_compute; congruence.
  - cbn. lia.
  - vm_compute. reflexivity.
Defined.

Lemma loader_ignores_bounds_section_witness :
  exists lb, parse_sentinel_section DemoDump.env "victim" 4096 =
    Ok {| ps_ret := 0; ps_entries := []; ps_text_base := None; ps_load_base := lb |}.
Proof.
  eapply (loader_ignores_bounds_section DemoDump.env "victim"); [reflexivity|reflexivity|].
  repeat constructor. discriminate.
Defined.

Lemma dump_total_witness :
  exists out, dump_sentinel true (Some {| d_buf := Some (repeat 255 40); d_size := 40 |}) 0 = Ok out.
Proof.
  apply dump_total; [|vm_compute; reflexivity].
  exists (repeat 255 40). split; [reflexivity|]. split; [reflexivity|].
  repeat constructor; vm_compute; congruence.
Defined.

Lemma layouts_agree_witness :
  load_field sentinel_policy_entry (header_bytes (unit_header 1) ++ entry_bytes DemoDump.entry ++ [0]) 9
    "syscall_nr" = Ok 2.
Proof.
  destruct (layouts_agree (header_bytes (unit_header 1)) [0] DemoDump.entry 1) as [H _];
    [split_and!; vm_compute; (split; congruence)|lia|].
  apply Forall_cons in H as [(_ & _ & H & _) _]. exact H.
Defined.
