(* ===== verification/Json.v ===== *)
(** * JSON texts (RFC 8259)

    A reader for JSON, against which the inspector's output is judged.
    Strings and numbers keep their text as it is written; strings may hold
    any character but control characters, an unescaped quote or an
    ill-formed escape. *)
From S2P Require Import Prelude CLib.
From Stdlib Require Import Ascii.

Unset Elimination Schemes.
Inductive json :=
| JNull
| JBool (b : bool)
| JNum (t : string)
| JStr (t : string)
| JArr (l : list json)
| JObj (l : list (string * json)).
Set Elimination Schemes.

(** ** Characters *)

Definition dquote : ascii := "034"%char.
Definition backslash : ascii := "092"%char.

Definition is_ws (c : ascii) : bool :=
  Ascii.eqb c " " || Ascii.eqb c "009" || Ascii.eqb c "010" || Ascii.eqb c "013".
Definition is_digit (c : ascii) : bool :=
  let n := nat_of_ascii c in (48 <=? n)%nat && (n <=? 57)%nat.
Definition is_hex (c : ascii) : bool :=
  let n := nat_of_ascii c in
  is_digit c || ((65 <=? n)%nat && (n <=? 70)%nat) || ((97 <=? n)%nat && (n <=? 102)%nat).
Definition is_escape (c : ascii) : bool :=
  existsb (Ascii.eqb c) [dquote; backslash; "/"; "b"; "f"; "n"; "r"; "t"]%char.
Definition is_control (c : ascii) : bool := (nat_of_ascii c <? 32)%nat.

Fixpoint skip_ws (s : string) : string :=
  match s with
  | String c s' => if is_ws c then skip_ws s' else s
  | EmptyString => EmptyString
  end.

Fixpoint span (p : ascii -> bool) (s : string) : string * string :=
  match s with
  | String c s' => if p c then let '(a, b) := span p s' in (String c a, b) else (EmptyString, s)
  | EmptyString => (EmptyString, EmptyString)
  end.

(** ** Strings and numbers *)

Definition push (t : string) (o : option (string * string)) : option (string * string) :=
  (fun x => (String.append t x.1, x.2)) <$> o.

(** The rest of a string after the opening quote, and what follows it. *)
Fixpoint str_body (s : string) : option (string * string) :=
  match s with
  | EmptyString => None
  | String c s =>
      if Ascii.eqb c dquote then Some (EmptyString, s)
      else if Ascii.eqb c backslash then
        match s with
        | EmptyString => None
        | String e s =>
            if Ascii.eqb e "u"%char then
              match s with
              | String h1 (String h2 (String h3 (String h4 s))) =>
                  if is_hex h1 && is_hex h2 && is_hex h3 && is_hex h4
                  then push (String c (String e (String h1 (String h2 (String h3 (String h4 EmptyString))))))
                         (str_body s)
                  else None
              | _ => None
              end
            else if is_escape e then push (String c (String e EmptyString)) (str_body s)
            else None
        end
      else if is_control c then None
      else push (String c EmptyString) (str_body s)
  end.

Definition int_part (s : string) : option (string * string) :=
  match s with
  | EmptyString => None
  | String c s' =>
      if Ascii.eqb c "0"%char then Some (String c EmptyString, s')
      else if is_digit c then Some (span is_digit s)
      else None
  end.

Definition digits1 (s : string) : option (string * string) :=
  match span is_digit s with
  | (EmptyString, _) => None
  | r => Some r
  end.

Definition frac_part (s : string) : option (string * string) :=
  match s with
  | String c s' => if Ascii.eqb c "."%char then push (String c EmptyString) (digits1 s') else Some (EmptyString, s)
  | EmptyString => Some (EmptyString, s)
  end.

Definition exp_part (s : string) : option (string * string) :=
  match s with
  | String c s' =>
      if Ascii.eqb c "e"%char || Ascii.eqb c "E"%char then
        push (String c EmptyString)
          (match s' with
           | String d s'' =>
               if Ascii.eqb d "+"%char || Ascii.eqb d "-"%char then push (String d EmptyString) (digits1 s'')
               else digits1 s'
           | EmptyString => None
           end)
      else Some (EmptyString, s)
  | EmptyString => Some (EmptyString, s)
  end.

Definition magnitude (s : string) : option (string * string) :=
  int_part s ≫= fun x => frac_part x.2 ≫= fun y => exp_part y.2 ≫= fun z =>
  Some (String.append x.1 (String.append y.1 z.1), z.2).

Definition number (s : string) : option (string * string) :=
  match s with
  | String c s' => if Ascii.eqb c "-"%char then push (String c EmptyString) (magnitude s') else magnitude s
  | EmptyString => None
  end.

Fixpoint strip (lit s : string) : option string :=
  match lit, s with
  | EmptyString, _ => Some s
  | String a lit, String b s => if Ascii.eqb a b then strip lit s else None
  | _, _ => None
  end.

Definition scalar (s : string) : option (json * string) :=
  match strip "true" s, strip "false" s, strip "null" s with
  | Some r, _, _ => Some (JBool true, r)
  | _, Some r, _ => Some (JBool false, r)
  | _, _, Some r => Some (JNull, r)
  | _, _, _ => (fun x => (JNum x.1, x.2)) <$> number s
  end.

(** ** Values *)

(** The character [c], after white space, and what follows it. *)
Definition eat (c : ascii) (s : string) : option string :=
  match skip_ws s with
  | String d r => if Ascii.eqb d c then Some r else None
  | EmptyString => None
  end.

(** [fuel] bounds the nesting and the number of members and items; every
    step consumes a character. *)
Fixpoint parse_value (fuel : nat) (s : string) : option (json * string) :=
  match fuel with
  | O => None
  | S fuel =>
      match eat "{" s with
      | Some r =>
          match eat "}" r with
          | Some r' => Some (JObj [], r')
          | None => parse_members fuel r []
          end
      | None =>
      match eat "[" s with
      | Some r =>
          match eat "]" r with
          | Some r' => Some (JArr [], r')
          | None => parse_items fuel r []
          end
      | None =>
      match eat dquote s with
      | Some r => (fun x => (JStr x.1, x.2)) <$> str_body r
      | None => scalar (skip_ws s)
      end end end
  end
with parse_members (fuel : nat) (s : string) (acc : list (string * json)) : option (json * string) :=
  match fuel with
  | O => None
  | S fuel =>
      eat dquote s ≫= fun s => str_body s ≫= fun k => eat ":" k.2 ≫= fun s =>
      parse_value fuel s ≫= fun v =>
      let acc := acc ++ [(k.1, v.1)] in
      match eat "," v.2 with
      | Some r => parse_members fuel r acc
      | None => (fun r => (JObj acc, r)) <$> eat "}" v.2
      end
  end
with parse_items (fuel : nat) (s : string) (acc : list json) : option (json * string) :=
  match fuel with
  | O => None
  | S fuel =>
      parse_value fuel s ≫= fun v =>
      let acc := acc ++ [v.1] in
      match eat "," v.2 with
      | Some r => parse_items fuel r acc
      | None => (fun r => (JArr acc, r)) <$> eat "]" v.2
      end
  end.

(** A whole text. *)
Definition json_parse (fuel : nat) (s : string) : option json :=
  match parse_value fuel s with
  | Some (v, r) => match skip_ws r with EmptyString => Some v | _ => None end
  | None => None
  end.

(** [s] is a JSON text for [v]. *)
Definition json_text (s : string) (v : json) : Prop := exists fuel, json_parse fuel s = Some v.

(** ** More fuel does not change the result *)

Lemma parse_mono fuel :
  (forall s r, parse_value fuel s = Some r -> parse_value (S fuel) s = Some r) /\
  (forall s acc r, parse_members fuel s acc = Some r -> parse_members (S fuel) s acc = Some r) /\
  (forall s acc r, parse_items fuel s acc = Some r -> parse_items (S fuel) s acc = Some r).
Proof.
  induction fuel as [|fuel (IHv & IHm & IHi)]; [done|]. split_and!.
  - intros s r H. cbn [parse_value] in H. remember (S fuel) as g eqn:Eg. cbn [parse_value].
    destruct (eat "{" s) as [s1|].
    { destruct (eat "}" s1); [done|]. subst g. by apply IHm. }
    destruct (eat "[" s) as [s1|]; [|done].
    destruct (eat "]" s1); [done|]. subst g. by apply IHi.
  - intros s acc r H. cbn [parse_members] in H. remember (S fuel) as g eqn:Eg. cbn [parse_members].
    destruct (eat dquote s) as [s1|]; [|done]. cbn [mbind option_bind] in *.
    destruct (str_body s1) as [k|]; [|done]. cbn [mbind option_bind] in *.
    destruct (eat ":" k.2) as [s2|]; [|done]. cbn [mbind option_bind] in *.
    destruct (parse_value fuel s2) as [v|] eqn:Ev; [|done]. subst g. rewrite (IHv _ _ Ev).
    cbn [mbind option_bind] in *. destruct (eat "," v.2); [|done]. by apply IHm.
  - intros s acc r H. cbn [parse_items] in H. remember (S fuel) as g eqn:Eg. cbn [parse_items].
    destruct (parse_value fuel s) as [v|] eqn:Ev; [|done]. subst g. rewrite (IHv _ _ Ev).
    cbn [mbind option_bind] in *. destruct (eat "," v.2); [|done]. by apply IHi.
Qed.

Lemma parse_value_le f g s r : (f <= g)%nat -> parse_value f s = Some r -> parse_value g s = Some r.
Proof. induction 1 as [|g _ IH]; [done|]. intros H. by apply parse_mono, IH. Qed.
Lemma parse_members_le f g s acc r :
  (f <= g)%nat -> parse_members f s acc = Some r -> parse_members g s acc = Some r.
Proof. induction 1 as [|g _ IH]; [done|]. intros H. by apply parse_mono, IH. Qed.
Lemma parse_items_le f g s acc r :
  (f <= g)%nat -> parse_items f s acc = Some r -> parse_items g s acc = Some r.
Proof. induction 1 as [|g _ IH]; [done|]. intros H. by apply parse_mono, IH. Qed.

(** A text has one value. *)
Lemma json_text_unique s v w : json_text s v -> json_text s w -> v = w.
Proof.
  intros [f Hf] [g Hg]. unfold json_parse in *.
  destruct (parse_value f s) as [[a r]|] eqn:Ef; [|done]. destruct (parse_value g s) as [[b q]|] eqn:Eg; [|done].
  apply (parse_value_le f (f + g)) in Ef; [|lia]. apply (parse_value_le g (f + g)) in Eg; [|lia].
  rewrite Ef in Eg. injection Eg as <- <-. congruence.
Qed.
