(* ===== verification/DumpJson.v ===== *)
(** * The inspector's JSON output is JSON

    The report the inspector prints with [--json], read back by the reader
    of Json: it is a JSON text for the recorded entries, except in the two
    cases where it is none. *)
From S2P Require Import Prelude Shared Elf CLib LoaderElf Pass PassProps Dump DumpProps Json.
From Stdlib Require Import Ascii.

(** ** Reading one value *)

(** The character that would go on with a number. *)
Definition follows (rest : string) : bool :=
  match rest with
  | EmptyString => true
  | String c _ => negb (is_digit c || Ascii.eqb c "." || Ascii.eqb c "e" || Ascii.eqb c "E")
  end.

(** Text [t] reads as [v], whatever comes after it. *)
Definition reads (f : nat) (v : json) (t : string) : Prop :=
  forall rest, follows rest = true -> parse_value f (String.append t rest) = Some (v, rest).

Lemma reads_le f g v t : (f <= g)%nat -> reads f v t -> reads g v t.
Proof. intros Hle H rest Hr. eapply parse_value_le; [exact Hle|by apply H]. Qed.

Lemma eat_ws c d s : is_ws d = true -> eat c (String d s) = eat c s.
Proof. intros H. unfold eat. cbn [skip_ws]. by rewrite H. Qed.

Lemma eat_this c s : is_ws c = false -> eat c (String c s) = Some s.
Proof. intros H. unfold eat. cbn [skip_ws]. by rewrite H, Ascii.eqb_refl. Qed.

Lemma eat_other c d s : is_ws d = false -> Ascii.eqb d c = false -> eat c (String d s) = None.
Proof. intros H1 H2. unfold eat. cbn [skip_ws]. by rewrite H1, H2. Qed.

Lemma parse_value_ws f c s : is_ws c = true -> parse_value f (String c s) = parse_value f s.
Proof.
  intros H. destruct f as [|f]; [done|]. cbn [parse_value]. rewrite !eat_ws by done. cbn [skip_ws]. by rewrite H.
Qed.
Lemma parse_members_ws f c s acc : is_ws c = true -> parse_members f (String c s) acc = parse_members f s acc.
Proof. intros H. destruct f as [|f]; [done|]. cbn [parse_members]. by rewrite eat_ws. Qed.
Lemma parse_items_ws f c s acc : is_ws c = true -> parse_items f (String c s) acc = parse_items f s acc.
Proof. intros H. destruct f as [|f]; [done|]. cbn [parse_items]. by rewrite parse_value_ws. Qed.

Lemma reads_ws f c v t : is_ws c = true -> reads f v t -> reads f v (String c t).
Proof. intros Hc H rest Hr. rewrite append_cons, parse_value_ws by done. by apply H. Qed.

(** ** Strings *)

Definition plain_char (c : ascii) : bool :=
  negb (Ascii.eqb c dquote) && negb (Ascii.eqb c backslash) && negb (is_control c).
Definition plain (t : string) : bool := all_chars plain_char t.

Lemma all_chars_append p a b : all_chars p (String.append a b) = all_chars p a && all_chars p b.
Proof. induction a as [|c a IH]; [done|]. rewrite append_cons. cbn. by rewrite IH, andb_assoc. Qed.

Lemma str_body_plain t rest : plain t = true -> str_body (String.append t (String dquote rest)) = Some (t, rest).
Proof.
  unfold plain. induction t as [|c t IH]; intros H; [done|]. cbn [all_chars] in H.
  apply andb_true_iff in H as [[[H1 H2]%andb_true_iff H3]%andb_true_iff H].
  apply negb_true_iff in H1, H2, H3. rewrite append_cons. cbn [str_body].
  rewrite H1, H2, H3, IH by done. done.
Qed.

Lemma quoted_app t rest :
  String.append (quoted t) rest = String dquote (String.append t (String dquote rest)).
Proof.
  unfold quoted, cat, quote. cbn [String.concat]. rewrite !append_nil_l, !append_assoc, !append_cons, !append_nil_l. done.
Qed.

Lemma reads_str t : plain t = true -> reads 1 (JStr t) (quoted t).
Proof.
  intros H rest _. rewrite quoted_app. cbn [parse_value].
  rewrite !(eat_other _ dquote) by done. rewrite eat_this by done. by rewrite str_body_plain.
Qed.

(** ** Numbers *)

Definition dec_digits (s : string) : bool := all_chars is_digit s.

Lemma span_digits s rest :
  dec_digits s = true -> follows rest = true -> span is_digit (String.append s rest) = (s, rest).
Proof.
  unfold dec_digits. intros Hs Hr. induction s as [|c s IH].
  - rewrite append_nil_l. destruct rest as [|c rest]; [done|]. cbn in *.
    destruct (is_digit c); [done|]. done.
  - cbn [all_chars] in Hs. apply andb_true_iff in Hs as [Hc Hs]. rewrite append_cons. cbn [span].
    by rewrite Hc, IH.
Qed.

Lemma digit_char_digit d : 0 <= d < 10 -> is_digit (digit_char d) = true.
Proof.
  intros H. assert (d ∈ seqZ 0 10) as Hd by (apply elem_of_seqZ; lia). clear H. cbn in Hd.
  repeat (apply elem_of_cons in Hd as [->|Hd]; [done|]). by apply elem_of_nil in Hd.
Qed.

Lemma digit_char_zero d : 0 <= d < 10 -> Ascii.eqb (digit_char d) "0" = (d =? 0).
Proof.
  intros H. assert (d ∈ seqZ 0 10) as Hd by (apply elem_of_seqZ; lia). clear H. cbn in Hd.
  repeat (apply elem_of_cons in Hd as [->|Hd]; [done|]). by apply elem_of_nil in Hd.
Qed.

(** The decimal digits of [z], in front of [acc]: only digits, and no
    leading zero. *)
Lemma digits_shape k z acc :
  0 < z < 10 ^ Z.of_nat k -> exists c s, digits k 10 z acc = String c (String.append s acc) /\
    is_digit c = true /\ Ascii.eqb c "0" = false /\ dec_digits s = true.
Proof.
  revert z acc. induction k as [|k IH]; intros z acc Hz; [cbn in Hz; lia|]. cbn [digits].
  pose proof (Z.mod_pos_bound z 10 ltac:(lia)) as Hm.
  destruct (Z.eqb_spec (z / 10) 0) as [E|E].
  - exists (digit_char (z mod 10)), EmptyString. split_and!; [done|by apply digit_char_digit| |done].
    rewrite digit_char_zero by done. apply Z.eqb_neq. pose proof (Z.div_mod z 10). lia.
  - destruct (IH (z / 10) (String (digit_char (z mod 10)) acc)) as (c & s & -> & Hc & Hz' & Hs).
    { rewrite Nat2Z.inj_succ, Z.pow_succ_r in Hz by lia. Z.div_mod_to_equations; lia. }
    exists c, (String.append s (String (digit_char (z mod 10)) EmptyString)). split_and!; [|done|done|].
    + by rewrite append_assoc, append_cons, append_nil_l.
    + unfold dec_digits in *. rewrite all_chars_append, Hs. cbn. by rewrite digit_char_digit.
Qed.

Lemma int_part_fmt n rest :
  0 <= n < 2 ^ 31 -> follows rest = true -> int_part (String.append (fmt_d n) rest) = Some (fmt_d n, rest).
Proof.
  intros Hn Hr. unfold fmt_d. rewrite (proj2 (Z.ltb_ge n 0)) by lia.
  destruct (Z.eq_dec n 0) as [->|]; [done|].
  destruct (digits_shape 10 n EmptyString) as (c & s & -> & Hc & Hz & Hs); [change (10 ^ Z.of_nat 10) with 10000000000; lia|].
  rewrite append_nil_r, append_cons. unfold int_part. rewrite Hz, Hc. f_equal.
  rewrite <- append_cons. apply span_digits; [|done]. unfold dec_digits in *. cbn. by rewrite Hc.
Qed.

Lemma magnitude_fmt n rest :
  0 <= n < 2 ^ 31 -> follows rest = true -> magnitude (String.append (fmt_d n) rest) = Some (fmt_d n, rest).
Proof.
  intros Hn Hr. unfold magnitude. rewrite int_part_fmt by done. cbn [mbind option_bind fst snd].
  destruct rest as [|c rest]; cbn [frac_part].
  { cbn [mbind option_bind fst snd exp_part]. by rewrite !append_nil_r. }
  cbn in Hr. apply negb_true_iff in Hr. rewrite !orb_false_iff in Hr. destruct Hr as [[[_ H1] H2] H3].
  rewrite H1. cbn [mbind option_bind fst snd exp_part]. rewrite H2, H3. cbn. by rewrite !append_nil_r.
Qed.

Lemma fmt_d_first n : 0 <= n < 2 ^ 31 -> exists c s, fmt_d n = String c s /\ is_digit c = true.
Proof.
  intros Hn. unfold fmt_d. rewrite (proj2 (Z.ltb_ge n 0)) by lia.
  destruct (Z.eq_dec n 0) as [->|]; [by eexists _, _|].
  destruct (digits_shape 10 n EmptyString) as (c & s & -> & Hc & _); [change (10 ^ Z.of_nat 10) with 10000000000; lia|].
  by eexists _, _.
Qed.

Lemma digit_not c d : is_digit c = true -> is_digit d = false -> Ascii.eqb c d = false.
Proof. intros H1 H2. destruct (Ascii.eqb_spec c d) as [->|]; congruence. Qed.

Lemma digit_no_ws c : is_digit c = true -> is_ws c = false.
Proof. intros H. unfold is_ws. by rewrite !(digit_not c) by done. Qed.

Lemma reads_num n : 0 <= n < 2 ^ 31 -> reads 1 (JNum (fmt_d n)) (fmt_d n).
Proof.
  intros Hn rest Hr. pose proof (magnitude_fmt n rest Hn Hr) as Hm.
  destruct (fmt_d_first n Hn) as (c & s & E & Hc). rewrite E in *. rewrite append_cons in *.
  pose proof (digit_no_ws c Hc) as Hw. cbn [parse_value].
  rewrite !(eat_other _ c) by (done || by apply digit_not). cbn [skip_ws]. rewrite Hw.
  unfold scalar, strip. rewrite !(Ascii.eqb_sym _ c), !(digit_not c) by done.
  unfold number. rewrite (digit_not c) by done. by rewrite Hm.
Qed.

(** ** Members and items *)

Definition is_sep (c : ascii) : bool := Ascii.eqb c "," || Ascii.eqb c "}" || Ascii.eqb c "]" || is_ws c.

Lemma follows_sep c s : is_sep c = true -> follows (String c s) = true.
Proof.
  unfold is_sep, is_ws. rewrite !orb_true_iff.
  intros [[[->%Ascii.eqb_eq| ->%Ascii.eqb_eq]| ->%Ascii.eqb_eq]|
    [[[->%Ascii.eqb_eq| ->%Ascii.eqb_eq]| ->%Ascii.eqb_eq]| ->%Ascii.eqb_eq]]; done.
Qed.

(** [member k t] is the text of a member with key [k] and value text [t]. *)
Definition member (k t : string) : string := String.append (quoted k) (String ":" t).

(** After the key of a member, the reader is at its value. *)
Lemma members_key f k t rest acc :
  plain k = true ->
  parse_members (S f) (String.append (member k t) rest) acc =
    parse_value f (String.append t rest) ≫= fun v =>
    let acc := acc ++ [(k, v.1)] in
    match eat "," v.2 with
    | Some r => parse_members f r acc
    | None => (fun r => (JObj acc, r)) <$> eat "}" v.2
    end.
Proof.
  intros Hk. unfold member. rewrite append_assoc, append_cons, quoted_app. cbn [parse_members].
  rewrite eat_this by done. cbn [mbind option_bind]. rewrite str_body_plain by done.
  cbn [mbind option_bind fst snd]. by rewrite eat_this.
Qed.

Lemma members_more f k v t rest acc :
  plain k = true -> reads f v t ->
  parse_members (S f) (String.append (member k t) (String "," rest)) acc = parse_members f rest (acc ++ [(k, v)]).
Proof.
  intros Hk Hv. rewrite members_key by done. rewrite Hv by done. cbn [mbind option_bind fst snd].
  by rewrite eat_this.
Qed.

Lemma members_last f k v t s rest acc :
  plain k = true -> reads f v t -> eat "," s = None -> eat "}" s = Some rest -> follows s = true ->
  parse_members (S f) (String.append (member k t) s) acc = Some (JObj (acc ++ [(k, v)]), rest).
Proof.
  intros Hk Hv H1 H2 Hf. rewrite members_key by done. rewrite Hv by done. cbn [mbind option_bind fst snd].
  by rewrite H1, H2.
Qed.

Lemma items_more f v t rest acc :
  reads f v t -> parse_items (S f) (String.append t (String "," rest)) acc = parse_items f rest (acc ++ [v]).
Proof.
  intros Hv. cbn [parse_items]. rewrite Hv by done. cbn [mbind option_bind fst snd]. by rewrite eat_this.
Qed.

Lemma items_last f v t s rest acc :
  reads f v t -> eat "," s = None -> eat "]" s = Some rest -> follows s = true ->
  parse_items (S f) (String.append t s) acc = Some (JArr (acc ++ [v]), rest).
Proof.
  intros Hv H1 H2 Hf. cbn [parse_items]. rewrite Hv by done. cbn [mbind option_bind fst snd]. by rewrite H1, H2.
Qed.

(** ** The object of an entry *)

Definition hex_text (z : Z) : string := cat ["0x"; fmt_lx z].

Definition entry_members (tv : Z) (e : policy_entry) : list (string * json) :=
  let nr := dump_nr (syscall_nr e) in
  [ ("site", JStr (hex_text (site_addr e))); ("func", JStr (hex_text (func_addr e)));
    ("offset", JStr (hex_text (u64 (site_addr e - tv)))) ] ++
  if 0 <=? nr then
    ("syscall_nr", JNum (fmt_d nr)) ::
    match syscall_name nr with Some n => [("syscall_name", JStr n)] | None => [] end
  else [("syscall_nr", JStr "any")].

Definition entry_json (tv : Z) (e : policy_entry) : json := JObj (entry_members tv e).

Lemma digit_char_plain d : 0 <= d < 16 -> plain_char (digit_char d) = true.
Proof.
  intros H. assert (d ∈ seqZ 0 16) as Hd by (apply elem_of_seqZ; lia). clear H. cbn in Hd.
  repeat (apply elem_of_cons in Hd as [->|Hd]; [done|]). by apply elem_of_nil in Hd.
Qed.

Lemma digits_plain k z acc : plain acc = true -> plain (digits k 16 z acc) = true.
Proof.
  revert z acc. induction k as [|k IH]; intros z acc Ha; [done|]. cbn [digits].
  assert (plain (String (digit_char (z mod 16)) acc) = true) as Hc.
  { unfold plain in *. cbn [all_chars]. rewrite Ha, digit_char_plain; [done|]. apply Z.mod_pos_bound. lia. }
  destruct (_ =? 0); [done|by apply IH].
Qed.

Lemma hex_text_plain z : plain (hex_text z) = true.
Proof.
  unfold hex_text, cat. cbn [String.concat]. rewrite append_nil_l. unfold plain.
  rewrite all_chars_append. apply andb_true_iff. split; [done|]. by apply digits_plain.
Qed.

Lemma reads_hex z : reads 1 (JStr (hex_text z)) (quoted (hex_text z)).
Proof. apply reads_str, hex_text_plain. Qed.

Lemma syscall_name_plain nr n : syscall_name nr = Some n -> plain n = true.
Proof. unfold syscall_name. repeat case_match; by intros [= <-]. Qed.

Lemma dump_nr_range z : dump_nr z < 2 ^ 31.
Proof.
  unfold dump_nr. destruct (0 <? z); [|lia]. unfold i32, signed.
  pose proof (Z.mod_pos_bound (z - 1) (2 ^ 32)). change (32 - 1) with 31. zcase; lia.
Qed.

(** The text of an object without its indentation. *)
Lemma json_object_members tv e rest :
  String.append (json_object tv e) rest =
  String.append "    {" (String.append (member "site" (quoted (hex_text (site_addr e))))
    (String "," (String.append (member "func" (quoted (hex_text (func_addr e))))
    (String "," (String.append (member "offset" (quoted (hex_text (u64 (site_addr e - tv)))))
    (String "," (
      let nr := dump_nr (syscall_nr e) in
      if 0 <=? nr then
        String.append (member "syscall_nr" (fmt_d nr))
          match syscall_name nr with
          | Some n => String "," (String.append (member "syscall_name" (quoted n)) (String "}" rest))
          | None => String "}" rest
          end
      else String.append (member "syscall_nr" (quoted "any")) (String "}" rest)))))))).
Proof.
  unfold json_object, member, name_of, hex_text. set (nr := dump_nr (syscall_nr e)). clearbody nr. cbn zeta.
  generalize (quoted "site"), (quoted "func"), (quoted "offset"), (quoted "syscall_nr"), (quoted "syscall_name"),
    (quoted "any"). intros q1 q2 q3 q4 q5 q6.
  destruct (0 <=? nr); [destruct (syscall_name nr)|];
    unfold cat; cbn [String.concat]; rewrite !append_nil_l;
    repeat rewrite append_assoc; reflexivity.
Qed.

Lemma value_object f s : eat "}" (String dquote s) = None ->
  parse_value (S f) (String.append "    {" (String dquote s)) = parse_members f (String dquote s) [].
Proof.
  intros H. rewrite !append_cons, append_nil_l, !parse_value_ws by done. cbn [parse_value].
  rewrite eat_this by done. by rewrite H.
Qed.

Lemma member_app k t rest : exists s, String.append (member k t) rest = String dquote s.
Proof. unfold member. rewrite append_assoc, quoted_app. by eexists. Qed.

Lemma reads_object tv e : reads 7 (entry_json tv e) (json_object tv e).
Proof.
  intros rest _. rewrite json_object_members.
  match goal with |- context [String.append (member "site" ?t) ?r] =>
    destruct (member_app "site" t r) as [s Es]; rewrite Es end.
  rewrite value_object, <- Es by done.
  rewrite (members_more 5 "site" _ _ _ _ eq_refl (reads_le 1 5 _ _ ltac:(lia) (reads_hex _))).
  rewrite (members_more 4 "func" _ _ _ _ eq_refl (reads_le 1 4 _ _ ltac:(lia) (reads_hex _))).
  rewrite (members_more 3 "offset" _ _ _ _ eq_refl (reads_le 1 3 _ _ ltac:(lia) (reads_hex _))).
  cbn zeta. unfold entry_json, entry_members. pose proof (dump_nr_range (syscall_nr e)).
  destruct (Z.leb_spec 0 (dump_nr (syscall_nr e))).
  - assert (reads 2 (JNum (fmt_d (dump_nr (syscall_nr e)))) (fmt_d (dump_nr (syscall_nr e)))) as Hn
      by (apply (reads_le 1); [lia|]; by apply reads_num).
    destruct (syscall_name _) as [n|] eqn:En.
    + rewrite (members_more 2 "syscall_nr" _ _ _ _ eq_refl Hn).
      by rewrite (members_last 1 "syscall_name" _ _ (String "}" rest) rest _ eq_refl (reads_str n (syscall_name_plain _ _ En)) eq_refl eq_refl).
    + by rewrite (members_last 2 "syscall_nr" _ _ (String "}" rest) rest _ eq_refl Hn eq_refl eq_refl).
  - by rewrite (members_last 2 "syscall_nr" _ _ (String "}" rest) rest _ eq_refl (reads_le 1 2 _ _ ltac:(lia) (reads_str "any" eq_refl)) eq_refl eq_refl).
Qed.

(** ** The array *)

(** The objects, separated as the inspector prints them, and what follows. *)
Definition objects (tv : Z) (es : list policy_entry) (rest : string) : string :=
  String.append (String.concat (cat [","; nl]) (json_object tv <$> es)) rest.

Lemma objects_cons tv e e' es rest :
  objects tv (e :: e' :: es) rest =
  String.append (json_object tv e) (String "," (String newline (objects tv (e' :: es) rest))).
Proof.
  unfold objects. cbn [fmap list_fmap String.concat]. rewrite !append_assoc. reflexivity.
Qed.

Lemma items_objects tv es s rest acc :
  es <> [] -> eat "," s = None -> eat "]" s = Some rest -> follows s = true ->
  parse_items (length es + 7) (objects tv es s) acc = Some (JArr (acc ++ (entry_json tv <$> es)), rest).
Proof.
  intros Hne H1 H2 H3. revert acc. induction es as [|e [|e' es] IH]; intros acc; [done| |].
  - unfold objects. cbn [fmap list_fmap String.concat]. by apply (items_last 7 _ _ _ _ _ (reads_object tv e)).
  - rewrite objects_cons. cbn [length Nat.add].
    rewrite (items_more _ (entry_json tv e)), parse_items_ws
      by first [done | apply (reads_le 7); [lia|apply reads_object]].
    specialize (IH ltac:(done) (acc ++ [entry_json tv e])). cbn [length Nat.add] in IH. rewrite IH.
    cbn [fmap list_fmap]. by rewrite <- app_assoc.
Qed.

(** A comma after the last object: no fuel makes the reader accept. *)
Lemma items_trailing tv es rest f acc :
  es <> [] -> parse_items f (objects tv es (String "," (String newline (String.append "  ]" rest)))) acc = None.
Proof.
  intros Hne. revert f acc. induction es as [|e [|e' es] IH]; intros f acc; [done|..].
  - unfold objects. cbn [fmap list_fmap String.concat]. destruct f as [|f]; [done|]. cbn [parse_items].
    set (tail := String "," _). destruct (parse_value f (String.append (json_object tv e) tail)) as [v|] eqn:Ev; [|done].
    apply (parse_value_le f (f + 7)) in Ev; [|lia].
    rewrite (reads_le 7 (f + 7) _ _ ltac:(lia) (reads_object tv e)) in Ev by done. injection Ev as <-.
    cbn [mbind option_bind fst snd]. subst tail. rewrite eat_this by done.
    rewrite !append_cons, append_nil_l, !parse_items_ws by done. destruct f as [|[|f]]; done.
  - rewrite objects_cons. destruct f as [|f]; [done|]. cbn [parse_items].
    set (tail := String "," _).
    destruct (parse_value f (String.append (json_object tv e) tail)) as [v|] eqn:Ev; [|done].
    apply (parse_value_le f (f + 7)) in Ev; [|lia].
    rewrite (reads_le 7 (f + 7) _ _ ltac:(lia) (reads_object tv e)) in Ev by done. injection Ev as <-.
    cbn [mbind option_bind fst snd]. subst tail. rewrite eat_this, parse_items_ws by done. by apply IH.
Qed.

(** ** The report *)

Definition report_json (path : string) (tv : Z) (es : list policy_entry) : json :=
  JObj [ ("binary", JStr path); ("text_vaddr", JStr (hex_text tv));
         ("llvm_syscall_bounds", JArr (entry_json tv <$> es)) ].

(** The report around the body of the section. *)
Definition report_text (path : string) (tv : Z) (body : string) : string :=
  cat [ "{"; nl; "  "; quoted "binary"; ": "; quoted path; ","; nl;
        "  "; quoted "text_vaddr"; ": "; quoted (cat ["0x"; fmt_lx tv]); ","; nl;
        body; nl; "}"; nl ].

Lemma report_text_members path tv body :
  report_text path tv body =
  String "{" (String newline (String " " (String " " (
    String.append (member "binary" (String " " (quoted path))) (String "," (String newline (String " " (String " " (
    String.append (member "text_vaddr" (String " " (quoted (hex_text tv)))) (String "," (String newline (
    String.append body (String newline (String "}" (String newline EmptyString))))))))))))))).
Proof.
  unfold report_text, member, hex_text. generalize (quoted "binary"), (quoted "text_vaddr"), (quoted path).
  intros q1 q2 q3. set (h := quoted _). clearbody h. unfold cat. cbn [String.concat]. rewrite !append_nil_l.
  repeat rewrite append_assoc. reflexivity.
Qed.

Lemma reads_binary f path : plain path = true -> (1 <= f)%nat -> reads f (JStr path) (String " " (quoted path)).
Proof. intros Hp Hf. apply (reads_le 1); [done|]. by apply reads_ws, reads_str. Qed.

Lemma reads_vaddr f tv : (1 <= f)%nat -> reads f (JStr (hex_text tv)) (String " " (quoted (hex_text tv))).
Proof. intros Hf. apply reads_binary; [apply hex_text_plain|done]. Qed.

(** The reader arrives at the body with the first two members. *)
Lemma report_read path tv body f :
  plain path = true -> (2 <= f)%nat ->
  parse_value (S (S (S f))) (report_text path tv body) =
  parse_members f (String.append body (String newline (String "}" (String newline EmptyString))))
    [("binary", JStr path); ("text_vaddr", JStr (hex_text tv))].
Proof.
  intros Hp Hf. rewrite report_text_members. cbn [parse_value]. rewrite eat_this by done.
  rewrite !eat_ws by done.
  match goal with |- context [String.append (member "binary" ?t) ?r] => destruct (member_app "binary" t r) as [s Es] end.
  rewrite Es, eat_other by done. rewrite !parse_members_ws, <- Es by done.
  rewrite (members_more _ "binary" _ _ _ _ eq_refl (reads_binary (S f) path Hp ltac:(lia))), !parse_members_ws by done.
  by rewrite (members_more _ "text_vaddr" _ _ _ _ eq_refl (reads_vaddr f tv ltac:(lia))), !parse_members_ws by done.
Qed.

Lemma body_array tv es rest :
  String.append (cat [json_head; json_items tv true es; "  ]"]) rest =
  String " " (String " " (String.append (member "llvm_syscall_bounds"
    (String " " (String "[" (String newline (objects tv es (String newline (String " " (String " " (String "]" EmptyString)))))))))
    rest)).
Proof.
  unfold json_head, json_items, member, objects. generalize (quoted "llvm_syscall_bounds").
  intros q. unfold cat. cbn [String.concat]. rewrite !append_nil_l. repeat rewrite append_assoc.
  generalize (String.concat (String.append "," nl) (json_object tv <$> es)). intros o.
  rewrite !append_cons. repeat rewrite append_assoc. reflexivity.
Qed.

(** ** What the reader makes of a body *)

Lemma objects_append tv es s rest : String.append (objects tv es s) rest = objects tv es (String.append s rest).
Proof. unfold objects. by rewrite append_assoc. Qed.

(** An object starts with four spaces and a brace. *)
Lemma objects_no_end tv es s : es <> [] -> eat "]" (objects tv es s) = None.
Proof.
  intros Hne. assert (exists r, objects tv es s = String.append "    {" r) as [r ->].
  { destruct es as [|e [|e' es]]; [done| |].
    - unfold objects. cbn [fmap list_fmap String.concat]. rewrite json_object_members. by eexists.
    - rewrite objects_cons, json_object_members. by eexists. }
  by rewrite !append_cons, append_nil_l, !eat_ws, eat_other by done.
Qed.

Lemma value_array tv es s f : es <> [] ->
  parse_value (S f) (String "[" (String newline (objects tv es s))) = parse_items f (objects tv es s) [].
Proof.
  intros Hne. cbn [parse_value]. rewrite eat_other, eat_this, eat_ws, objects_no_end by done.
  by rewrite parse_items_ws by done.
Qed.

Definition array_end : string := String newline (String " " (String " " (String "]" EmptyString))).

Lemma reads_array tv es : es <> [] ->
  reads (length es + 8) (JArr (entry_json tv <$> es))
    (String " " (String "[" (String newline (objects tv es array_end)))).
Proof.
  intros Hne rest _. rewrite !append_cons, objects_append, parse_value_ws, Nat.add_succ_r, value_array by done.
  by rewrite (items_objects tv es _ rest).
Qed.

Lemma report_array path tv es : plain path = true -> es <> [] ->
  json_text (report_text path tv (cat [json_head; json_items tv true es; "  ]"])) (report_json path tv es).
Proof.
  intros Hp Hne. exists (S (S (S (S (length es + 8))))). unfold json_parse.
  rewrite report_read, body_array by (done || lia). rewrite !parse_members_ws by done.
  by rewrite (members_last _ "llvm_syscall_bounds" _ _ _ (String newline EmptyString) _ eq_refl (reads_array tv es Hne)).
Qed.

(** No amount of fuel helps a body whose members cannot be read. *)
Lemma report_unreadable path tv body :
  plain path = true ->
  (forall f acc, parse_members f (String.append body (String newline (String "}" (String newline EmptyString)))) acc = None) ->
  forall v, ~ json_text (report_text path tv body) v.
Proof.
  intros Hp Hb v [f Hf]. unfold json_parse in Hf.
  destruct (parse_value f (report_text path tv body)) as [[v' r]|] eqn:Ev; [|done].
  apply (parse_value_le f (S (S (S (f + 2))))) in Ev; [|lia].
  by rewrite report_read, Hb in Ev by (done || lia).
Qed.

Lemma body_trailing tv es rest :
  String.append (cat [json_head; json_items tv false es; "  ]"]) rest =
  String " " (String " " (String.append (member "llvm_syscall_bounds"
    (String " " (String "[" (String newline (objects tv es (String "," (String newline (String.append "  ]" rest)))))))) EmptyString)).
Proof.
  unfold json_head, json_items, member, objects. generalize (quoted "llvm_syscall_bounds").
  intros q. unfold cat. cbn [String.concat]. rewrite !append_nil_l. repeat rewrite append_assoc.
  generalize (String.concat (String.append "," nl) (json_object tv <$> es)). intros o.
  rewrite !append_cons, append_nil_r. repeat rewrite append_assoc. reflexivity.
Qed.

Lemma report_trailing path tv es v : plain path = true -> es <> [] ->
  ~ json_text (report_text path tv (cat [json_head; json_items tv false es; "  ]"])) v.
Proof.
  intros Hp Hne. apply report_unreadable; [done|]. intros f acc. rewrite body_trailing, !parse_members_ws by done.
  destruct f as [|f]; [done|]. rewrite members_key, append_nil_r, parse_value_ws by done.
  destruct f as [|f]; [done|]. by rewrite value_array, items_trailing by done.
Qed.

Lemma report_missing path tv v : plain path = true ->
  ~ json_text (report_text path tv (cat ["  (empty or missing header)"; nl])) v.
Proof.
  intros Hp. apply report_unreadable; [done|]. intros f acc. unfold cat. cbn [String.concat].
  rewrite append_assoc. change "  (empty or missing header)" with
    (String " " (String " " (String "(" "empty or missing header)"))).
  rewrite !append_cons, !parse_members_ws by done. destruct f as [|f]; [done|].
  cbn [parse_members]. by rewrite eat_other by done.
Qed.

(** ** Theorems *)

(** C12: The JSON report can be read back: for a binary whose section holds
    what the pass recorded in any number of translation units, and a path
    without characters that need escapes, [--json] prints a JSON text with
    exactly one reading, the object with the path, the base and the array of
    all entries in order. *)
Theorem json_report_roundtrip {L : LlvmOps} {HL : LlvmLaws L} env errmsg prog path f ts tv :
  elf_version_ok env = true -> elf_image env path = Opened f -> shdrstrndx_ok f = true ->
  dump_args true [path] = DPath true path -> plain path = true ->
  ts <> [] -> Forall tu_ok ts -> Z.of_nat (length (ts ≫= tu_bytes)) < 2 ^ 32 ->
  find_bounds (scns f) =
    (tv, Some {| d_buf := Some (ts ≫= tu_bytes); d_size := Z.of_nat (length (ts ≫= tu_bytes)) |}, true) ->
  exists out,
    dump_main env errmsg prog ["--json"; path] =
      Ok {| do_stdout := out; do_stderr := EmptyString; do_exit := 0 |} /\
    forall v, json_text out v <-> v = report_json path tv (ts ≫= tu_entries).
Proof.
  intros Hv Hi Hs Ha Hp Hne Hok Hsz Hb.
  destruct (linked_section ts Hne Hok) as (us & E & Hes & Hn & H1 & H2).
  unfold dump_main. change (dump_args false ["--json"; path]) with (dump_args true [path]).
  rewrite Ha, Hv, Hi. cbn [negb]. rewrite Hs, Hb. cbn [negb]. unfold dump_report. rewrite E in *.
  change {| d_buf := Some (section_image us ++ []); d_size := _ |} with (tailed us []).
  rewrite dump_section_spec by (done || (cbn; lia)). cbn [res_bind].
  rewrite json_unit_rows, <- Hes by done.
  assert (json_text (report_text path tv (cat [json_head; json_items tv true (ts ≫= tu_entries); "  ]"]))
            (report_json path tv (ts ≫= tu_entries))) as Ht.
  { apply report_array; [done|]. rewrite Hes. by destruct H2 as [|[] ?]. }
  eexists. split; [reflexivity|]. intros v. split; [|by intros ->].
  intros Hj. exact (json_text_unique _ _ _ Hj Ht).
Qed.

(** C38: The JSON report is malformed in two cases: with one to eight bytes
    after the last unit the last object is followed by a comma, and without
    a full header the report holds a line of plain text; in both no value is
    a reading of the output. *)
Theorem json_report_malformed path tv data :
  plain path = true ->
  (exists us tail, data = Some (tailed us tail) /\ us <> [] /\ Forall (fun es => es <> []) us /\
     Forall (Forall entry_ok) us /\ (0 < length tail < 9)%nat /\
     Z.of_nat (length (section_image us ++ tail)) < 2 ^ 32) \/
  (data ≫= d_buf = None \/ exists d, data = Some d /\ d_size d < sizeof_header) ->
  exists out, dump_report true path tv data = Ok out /\ forall v, ~ json_text out v.
Proof.
  intros Hp [(us & tail & -> & Hne & H2 & H1 & Ht & Hsz)|Hm]; unfold dump_report.
  - rewrite dump_section_spec by (done || lia). cbn [res_bind]. rewrite json_unit_rows by done.
    eexists. split; [reflexivity|]. intros v. rewrite (proj2 (Nat.eqb_neq _ _)) by lia.
    apply report_trailing; [done|]. by destruct H2 as [|[] ?].
  - assert (dump_sentinel true data tv = Ok (cat ["  (empty or missing header)"; nl])) as ->.
    { unfold dump_sentinel. destruct data as [d|]; [|done]. destruct (d_buf d) as [b|] eqn:Eb; [|done].
      destruct Hm as [Hm|(d' & [= <-] & Hd)]; [cbn in Hm; congruence|]. by rewrite (proj2 (Z.ltb_lt _ _)). }
    eexists. split; [reflexivity|]. intros v. by apply report_missing.
Qed.

(** ** Witnesses *)

Module DemoReport.
Import DemoDump.

Definition bytes : list Z := [u1; u2] ≫= tu_bytes (L := DemoPass.llvm).

Definition env : elf_env := {|
  elf_version_ok := true;
  elf_image := fun _ => Opened {| phdrs := []; shdrstrndx_ok := true; scns := [
    {| scn_name := Some ".text"; sh_type := SHT_PROGBITS; sh_flags := 6; sh_addr := 0x401000;
       sh_size := 256; sh_entsize := 0; scn_data := None; scn_syms := [] |};
    {| scn_name := Some ".llvm.syscall.bounds"; sh_type := SHT_PROGBITS; sh_flags := 2; sh_addr := 0x2000;
       sh_size := 114; sh_entsize := 0;
       scn_data := Some {| d_buf := Some bytes; d_size := Z.of_nat (length bytes) |}; scn_syms := [] |} ] |} |}.

End DemoReport.

Lemma json_report_roundtrip_witness :
  exists out,
    dump_main DemoReport.env "error" "sentinel-dump" ["--json"; "a.out"] =
      Ok {| do_stdout := out; do_stderr := EmptyString; do_exit := 0 |} /\
    forall v, json_text out v <->
      v = report_json "a.out" 0x401000 ([DemoDump.u1; DemoDump.u2] ≫= tu_entries (L := DemoPass.llvm)).
Proof.
  eapply (json_report_roundtrip (HL := DemoPass.llvm_laws) DemoReport.env "error" "sentinel-dump" "a.out" _
            [DemoDump.u1; DemoDump.u2] 0x401000); try reflexivity.
  - discriminate.
  - apply DemoDump.units_ok.
Defined.

Lemma json_report_malformed_witness :
  exists out, dump_report true "a.out" 0x401000 (Some (tailed [[DemoDump.entry]] [0])) = Ok out /\
    strstr out (cat ["}"; ","; nl; "  ]"]) = true /\ forall v, ~ json_text out v.
Proof.
  destruct (json_report_malformed "a.out" 0x401000 (Some (tailed [[DemoDump.entry]] [0]))) as (out & E & Hv).
  - reflexivity.
  - left. exists [[DemoDump.entry]], [0]. split; [reflexivity|]. split; [discriminate|].
    split; [repeat constructor; discriminate|]. split; [repeat constructor; vm_compute; congruence|].
    split; [cbn; lia|vm_compute; reflexivity].
  - exists out. split; [exact E|]. split; [|exact Hv].
    revert E. vm_compute. intros [= <-]. reflexivity.
Defined.
